(** * sanitize-html: a shallow embedding of the rule-driven sanitizer

    The development follows the layout of the TypeScript sources:

    - [JsString]     the string and array primitives of the host language
                     that the sources call ([trim], [split], [join],
                     [slice], insertion-ordered sets);
    - [Comparators]  [src/types/comparators.ts] and [matchComparator];
    - [Helpers]      [parseRecord] and [parseSet] of [src/lib/helpers.ts];
    - the types of [src/types]: rules, error-handling modes, options,
                     walker state;
    - [Tree]         the parsed tree and the element under visit, with
                     the state and error monad the sanitizer runs in;
    - [Adapter]      the tree-adapter calls on the element under visit;
    - [Dom]          the tree-adapter primitives on a node store and
                     [unwrapInParent] of [src/lib/helpers.ts];
    - [Direct], [Indirect]
                     [src/lib/handlers/direct.ts] and [indirect.ts];
    - [Sanitizers]   [src/lib/sanitizers.ts];
    - [Walker]       [src/lib/walker.ts];
    - [Index]        [src/index.ts].

    Definitions come first: the model, the vocabulary of the statements
    and the sample policies.  The properties are proved afterwards. *)

From Stdlib Require Import String Ascii List Bool Arith Lia.
From Stdlib Require Import Numbers.DecimalString.
From stdpp Require Import base option list gmap strings.

Import ListNotations.
Local Open Scope string_scope.
Local Open Scope list_scope.

(* ================================================================== *)
(** ** Host-language primitives on strings and arrays                 *)
(* ================================================================== *)

Module JsString.

(** A string is a sequence of code units; only the code units below 256
    are represented.  [String.prototype.trim] removes white space and
    line terminators; the ones in the represented range are TAB, LF,
    VT, FF, CR, SPACE and NO-BREAK SPACE (code unit 160). *)
Definition isWhiteSpace (c : ascii) : bool :=
  match nat_of_ascii c with
  | 9 | 10 | 11 | 12 | 13 | 32 | 160 => true
  | _ => false
  end.

Fixpoint trimStart (s : string) : string :=
  match s with
  | EmptyString => EmptyString
  | String c s' => if isWhiteSpace c then trimStart s' else s
  end.

Fixpoint trimEnd (s : string) : string :=
  match s with
  | EmptyString => EmptyString
  | String c s' =>
      match trimEnd s' with
      | EmptyString => if isWhiteSpace c then EmptyString else String c EmptyString
      | t => String c t
      end
  end.

(** [s.trim()] *)
Definition trim (s : string) : string := trimEnd (trimStart s).

(** Truthiness of a string: [Boolean(s)], [!s] is its negation. *)
Definition truthy (s : string) : bool :=
  match s with EmptyString => false | String _ _ => true end.

(** [s.split("")]: one part per code unit. *)
Fixpoint chars (s : string) : list string :=
  match s with
  | EmptyString => []
  | String c s' => String c EmptyString :: chars s'
  end.

(** [s.split(sep)] for a non-empty [sep], scanning left to right.
    [skip] counts the code units of a separator just matched that are
    still to be stepped over, [acc] is the part read so far. *)
Fixpoint splitFrom (sep : string) (skip : nat) (acc : string) (s : string)
  : list string :=
  match s with
  | EmptyString => [acc]
  | String c s' =>
      match skip with
      | S k => splitFrom sep k acc s'
      | O =>
          if String.prefix sep s
          then acc :: splitFrom sep (String.length sep - 1) EmptyString s'
          else splitFrom sep 0 (acc ++ String c EmptyString) s'
      end
  end.

(** [s.split(sep)] with a string separator and no limit. *)
Definition split (s sep : string) : list string :=
  match sep with
  | EmptyString => chars s
  | String _ _ => splitFrom sep 0 EmptyString s
  end.

(** [parts.join(sep)] *)
Definition join (parts : list string) (sep : string) : string :=
  String.concat sep parts.

(** [s.slice(0, n)] for a non-negative integer [n]. *)
Definition slice0 (s : string) (n : nat) : string := String.substring 0 n s.

(** [Array.from(new Set(xs))]: a set keeps the first occurrence of each
    value, in insertion order. *)
Fixpoint fromSetAcc (seen : list string) (xs : list string) : list string :=
  match xs with
  | [] => []
  | x :: xs' =>
      if bool_decide (x ∈ seen) then fromSetAcc seen xs'
      else x :: fromSetAcc (x :: seen) xs'
  end.

Definition arrayFromSet (xs : list string) : list string := fromSetAcc [] xs.

(** Decimal rendering of a number inside a template literal. *)
Definition ofNat (n : nat) : string := NilEmpty.string_of_uint (Nat.to_uint n).

End JsString.

Module JsObject.

(** The policy is made of object literals, and a lookup by key on such
    an object, [obj[key]], follows the prototype chain: where the object
    has no own property [key], it finds the member of
    [Object.prototype] of that name, if there is one.  [Object.keys],
    [Object.entries] and [Set.has] see no inherited member, and the
    attribute object of an element has no prototype. *)
Definition inheritedKeys : list string :=
  ["constructor"; "__defineGetter__"; "__defineSetter__"; "hasOwnProperty";
   "__lookupGetter__"; "__lookupSetter__"; "isPrototypeOf";
   "propertyIsEnumerable"; "toString"; "valueOf"; "__proto__";
   "toLocaleString"].

(** [key] names a member of [Object.prototype]. *)
Definition inherited (key : string) : bool :=
  bool_decide (key ∈ inheritedKeys).

End JsObject.

(* ================================================================== *)
(** ** Comparators ([src/types/comparators.ts], [matchComparator])     *)
(* ================================================================== *)

Module Comparators.

(** [TagAttributeValueComparator]: the declared union, as a tagged sum.
    The literal ["*"] is a string like any other and is told apart by
    comparison.  A callback is represented by the function itself,
    taken to be pure.  [CmpRegExp] is a regular expression without the
    [g] and [y] flags, represented by its [test] function, which then
    depends on the value alone.  [CmpRegExpFrom] is a regular
    expression with the [g] or the [y] flag: its [test] starts at the
    [lastIndex] of the object and moves it, so that the answer depends
    on the calls made before; [test i] is the answer when [lastIndex]
    is [i], and the model does not follow [lastIndex] from one call to
    the next: the statements that rest on more than one call are made
    of [stateless] comparators.  [CmpOther] stands for any run-time
    value outside the declared union; all that is recorded of it is its
    truthiness. *)
Inductive TagAttributeValueComparator : Type :=
| CmpString (s : string)
| CmpFunction (f : string -> bool)
| CmpRegExp (test : string -> bool)
| CmpRegExpFrom (test : nat -> string -> bool) (lastIndex : nat)
| CmpArray (items : list string)
| CmpBoolean (b : bool)
| CmpOther (truthy : bool).

(** A comparator whose answer on a value does not depend on the calls
    made before: any but a regular expression with the [g] or the [y]
    flag. *)
Definition stateless (cmp : TagAttributeValueComparator) : bool :=
  match cmp with
  | CmpRegExpFrom _ _ => false
  | _ => true
  end.

(** [Boolean(cmp)], as used by [!pairRule]. *)
Definition truthy (cmp : TagAttributeValueComparator) : bool :=
  match cmp with
  | CmpString s => JsString.truthy s
  | CmpFunction _ | CmpRegExp _ | CmpRegExpFrom _ _ | CmpArray _ => true
  | CmpBoolean b => b
  | CmpOther t => t
  end.

(** [matchComparator(cmp, value)], the tests in the order of the
    source. *)
Definition matchComparator (cmp : TagAttributeValueComparator)
    (value : string) : bool :=
  match cmp with
  | CmpString s =>
      (* Any *)
      if String.eqb s "*" then true
      (* Exact string *)
      else String.eqb value s
  (* Callback *)
  | CmpFunction f => f value
  (* RegExp *)
  | CmpRegExp test => test value
  | CmpRegExpFrom test lastIndex => test lastIndex value
  (* One of *)
  | CmpArray items => bool_decide (value ∈ items)
  (* Boolean *)
  | CmpBoolean true => String.eqb value ""
  (* Not boolean *)
  | CmpBoolean false => negb (String.eqb value "")
  (* Fallback *)
  | CmpOther _ => false
  end.

(** What [values[key]] evaluates to on the [values] of a record rule: a
    comparator, or a method of [Object.prototype] that throws when
    [matchComparator] calls it, as it does, without a receiver. *)
Inductive PairRule : Type :=
| Compares (cmp : TagAttributeValueComparator)
| Raises (message : string).

(** The [TypeError] that a method of [Object.prototype] throws when it
    is called without a receiver; the wording of the message is the
    engine's, and this string stands for it. *)
Definition uncallable : string :=
  "TypeError: Cannot convert undefined or null to object".

(** The members of [Object.prototype] as [matchComparator] sees them.
    [constructor] is [Object], which returns its argument as an object,
    and [toString] returns a non-empty string: both answers are truthy.
    [isPrototypeOf] returns [false] on a string.  [__proto__] evaluates
    to [Object.prototype] itself, an object outside the declared union.
    The other methods start by converting their receiver, which is
    [undefined], to an object, and throw a [TypeError]. *)
Definition inheritedPairRule (key : string) : option PairRule :=
  if String.eqb key "constructor" then Some (Compares (CmpFunction (fun _ => true)))
  else if String.eqb key "toString" then Some (Compares (CmpFunction (fun _ => true)))
  else if String.eqb key "isPrototypeOf" then
    Some (Compares (CmpFunction (fun _ => false)))
  else if String.eqb key "__proto__" then Some (Compares (CmpOther true))
  else if JsObject.inherited key then Some (Raises uncallable)
  else None.

End Comparators.

(* ================================================================== *)
(** ** Value parsers ([src/lib/helpers.ts])                            *)
(* ================================================================== *)

Module TagAttributeValueEntry.
(** [{ key: string; val: string }] *)
Record t : Type := mk { key : string; val : string }.

#[global] Instance eq_dec : EqDecision t.
Proof. solve_decision. Defined.
End TagAttributeValueEntry.

Module Helpers.
Import JsString.

(** The [for (const e of entries)] loop of [parseRecord]; [out] is the
    array being filled. *)
Fixpoint parseRecordLoop (pairSep : string) (entries : list string)
    (out : list TagAttributeValueEntry.t) : list TagAttributeValueEntry.t :=
  match entries with
  | [] => out
  | e :: rest =>
      let entry := split e pairSep in
      match entry with
      | [e0; e1] =>
          let key := trim e0 in
          if negb (truthy key) then parseRecordLoop pairSep rest out
          else
            let val := trim e1 in
            if negb (truthy val) then parseRecordLoop pairSep rest out
            else parseRecordLoop pairSep rest
                   (out ++ [TagAttributeValueEntry.mk key val])
      | _ => parseRecordLoop pairSep rest out    (* entry.length !== 2 *)
      end
  end.

Definition parseRecord (input entrySep pairSep : string) : list TagAttributeValueEntry.t :=
  let trimmed := trim input in
  if negb (truthy trimmed) then []
  else
    let entries := List.filter truthy (List.map trim (split trimmed entrySep)) in
    parseRecordLoop pairSep entries [].

Definition parseSet (input delimiter : string) : list string :=
  let trimmed := trim input in
  if negb (truthy trimmed) then []
  else arrayFromSet (List.filter truthy (List.map trim (split trimmed delimiter))).

End Helpers.

(* ================================================================== *)
(** ** Rules, error-handling modes, options ([src/types])              *)
(* ================================================================== *)

(** Optional numeric fields are guarded in the sources by their
    truthiness ([rule.maxLength && ...]): an absent field and the number
    [0] both fail the guard.  Limits are non-negative integers. *)
Definition truthyNumber (n : option nat) : bool :=
  match n with
  | Some (S _) => true
  | Some O | None => false
  end.

(** The error-handling modes of [src/types/error-handling.ts].  Every
    slot of the configuration is typed by a union of some of these
    literals; the handlers switch on the literal and send whatever they
    do not know to the next handler, so one flat enumeration serves all
    slots. *)
Inductive ErrorHandlingMode : Type :=
| applyDefaultValue | discardAttribute | discardElement | discardFirsts
| discardLasts | dropDuplicates | dropExtra | dropPair | dropValue
| keepDuplicates | keepFirst | keepLast | throwError | trimExcess
| unwrapElement.

#[global] Instance ErrorHandlingMode_eq_dec : EqDecision ErrorHandlingMode.
Proof. solve_decision. Defined.

Module TagAttribute.
(** [TagAttribute = { key: string; value: string }] *)
Record t : Type := mk { key : string; value : string }.
End TagAttribute.

Module Rule.
Import Comparators.

(** The three comparator shapes of a rule, tagged by [mode]. *)
Inductive Shape : Type :=
| simple (value : TagAttributeValueComparator)
| set (delimiter : string) (maxEntries : option nat)
      (values : TagAttributeValueComparator)
| record (entrySeparator keyValueSeparator : string) (maxEntries : option nat)
         (values : gmap string TagAttributeValueComparator).

(** [TagAttributeValueRule]: a comparator shape with the fields of
    [TagAttributeValueRuleBase]. *)
Record TagAttributeValueRule : Type := mk {
  defaultValue : option string;
  maxLength : option nat;
  mode : Shape;
  required : option bool;
}.

(** [rule.maxEntries] of a collection rule. *)
Definition maxEntries (rule : TagAttributeValueRule) : option nat :=
  match mode rule with
  | simple _ => None
  | set _ n _ => n
  | record _ _ n _ => n
  end.

End Rule.

Module TagLimits.
Record t : Type := mk { children : option nat; nesting : option nat }.
End TagLimits.

Module TagRule.
(** [attributes] is a JavaScript object read both by key and through
    [Object.entries]; it is kept as the list of its entries in
    enumeration order. *)
Record t : Type := mk {
  attributes : option (list (string * Rule.TagAttributeValueRule));
  limits : option TagLimits.t;
}.
End TagRule.

Module ErrorHandling.
Record t : Type := mk {
  attribute : option ErrorHandlingMode;
  attributeCollectionValueTooMany : option ErrorHandlingMode;
  attributeRecordValue : option ErrorHandlingMode;
  attributeRecordValueDuplicate : option ErrorHandlingMode;
  attributeSetValue : option ErrorHandlingMode;
  attributeValue : option ErrorHandlingMode;
  attributeValueTooLong : option ErrorHandlingMode;
  tag : option ErrorHandlingMode;
  tagChildren : option ErrorHandlingMode;
  tagNesting : option ErrorHandlingMode;
}.

(** No slot set. *)
Definition empty : t := mk None None None None None None None None None None.
End ErrorHandling.

Module SanitizerOptions.
Record t : Type := mk {
  errorHandling : option ErrorHandling.t;
  preserveComments : option bool;
  tags : option (gmap string TagRule.t);
  topLevelLimits : option TagLimits.t;
}.
End SanitizerOptions.

Module TagNestingFrame.
(** An entry of [SanitizerState.tagNesting]. *)
Record t : Type := mk { key : string; value : nat }.
End TagNestingFrame.

Module SanitizerState.
Record t : Type := mk {
  rootNesting : nat;
  tagNesting : list TagNestingFrame.t;
}.
End SanitizerState.

(** Optional chaining: [errorHandling?.slot]. *)
Definition slot (errorHandling : option ErrorHandling.t)
    (f : ErrorHandling.t -> option ErrorHandlingMode) : option ErrorHandlingMode :=
  match errorHandling with
  | Some eh => f eh
  | None => None
  end.

(** [options.tags?.[tagName]]: the entry of [tags] under that name, or
    else, for a name of [Object.prototype], the inherited member, which
    is truthy and has neither [attributes] nor [limits]. *)
Definition tagRuleOf (options : SanitizerOptions.t) (tagName : string)
    : option TagRule.t :=
  match SanitizerOptions.tags options with
  | Some tags =>
      match tags !! tagName with
      | Some tagRule => Some tagRule
      | None =>
          if JsObject.inherited tagName then Some (TagRule.mk None None)
          else None
      end
  | None => None
  end.

(** [limits?.children] and [limits?.nesting] *)
Definition limitOf (limits : option TagLimits.t)
    (f : TagLimits.t -> option nat) : option nat :=
  match limits with
  | Some l => f l
  | None => None
  end.

(* ================================================================== *)
(** ** The parsed tree, as the sanitizer sees one element at a time     *)
(* ================================================================== *)

Module Tree.

(** Nodes of the parsed fragment: element, comment or text, and the
    node of type [root] that holds the content of a [template] element
    and is the one child of that element.  [attribs] is the attribute
    object of the element, kept as its entries in enumeration order. *)
#[warnings="-register-all"]
Inductive Node : Type :=
| Element (tagName : string) (attribs : list (string * string))
          (children : list Node)
| Comment (data : string)
| Text (data : string)
| Root (children : list Node).

(** [attribs[key]] *)
Fixpoint attrGet (key : string) (attribs : list (string * string))
    : option string :=
  match attribs with
  | [] => None
  | (k, v) :: rest => if String.eqb k key then Some v else attrGet key rest
  end.

(** [key in attribs] *)
Definition attrHas (key : string) (attribs : list (string * string)) : bool :=
  match attrGet key attribs with Some _ => true | None => false end.

(** [attribs[key] = value]: an existing entry keeps its place, a new one
    goes last. *)
Fixpoint attrSet (key value : string) (attribs : list (string * string))
    : list (string * string) :=
  match attribs with
  | [] => [(key, value)]
  | (k, v) :: rest =>
      if String.eqb k key then (k, value) :: rest
      else (k, v) :: attrSet key value rest
  end.

(** [delete attribs[key]] *)
Definition attrDelete (key : string) (attribs : list (string * string))
    : list (string * string) :=
  List.filter (fun kv => negb (String.eqb (fst kv) key)) attribs.

(** [Object.keys(attribs)] *)
Definition attrKeys (attribs : list (string * string)) : list string :=
  List.map fst attribs.

(** Where the node under visit stands with respect to its parent:
    [InParent] it is a child of its parent; [NoParent] it has none (the
    fragment root); [Removed] it was detached; [Spliced] it was detached
    after its children were put at its place in the parent's child
    list. *)
Inductive Link : Type := NoParent | InParent | Removed | Spliced.

(** The node a handler or sanitizer works on: an element, or the
    fragment root, which has no [tagName].  Handlers count and detach
    children but never look into them, so the record is parametric in
    what a child is: the walker pairs every child node with the walk
    over it (see [Walker]). *)
Record Target (C : Type) : Type := mkTarget {
  tagName : option string;
  attribs : list (string * string);
  children : list C;
  link : Link;
}.
Arguments mkTarget {C} tagName attribs children link.
Arguments tagName {C} _.
Arguments attribs {C} _.
Arguments children {C} _.
Arguments link {C} _.

Definition withAttribs {C} (el : Target C) (a : list (string * string)) : Target C :=
  mkTarget (tagName el) a (children el) (link el).
Definition withChildren {C} (el : Target C) (c : list C) : Target C :=
  mkTarget (tagName el) (attribs el) c (link el).
Definition withLink {C} (el : Target C) (l : Link) : Target C :=
  mkTarget (tagName el) (attribs el) (children el) l.

(** [${element.tagName}] *)
Definition tagNameOf {C} (el : Target C) : string :=
  match tagName el with Some t => t | None => "undefined" end.

End Tree.

(* ================================================================== *)
(** ** Computations on the element under visit                          *)
(* ================================================================== *)

(** A call either returns or throws [new Error(message)]. *)
Inductive Outcome (A : Type) : Type :=
| Returned (a : A)
| Thrown (message : string).
Arguments Returned {A} a.
Arguments Thrown {A} message.

(** Handlers and sanitizers work in place on one element: a computation
    reads and updates that element and returns or throws. *)
Definition M (C A : Type) : Type := Tree.Target C -> Outcome (A * Tree.Target C).

Definition ret {C A} (a : A) : M C A := fun el => Returned (a, el).
Definition bind {C A B} (m : M C A) (k : A -> M C B) : M C B :=
  fun el =>
    match m el with
    | Returned (a, el') => k a el'
    | Thrown msg => Thrown msg
    end.
Definition throw {C A} (message : string) : M C A := fun _ => Thrown message.
Definition get {C} : M C (Tree.Target C) := fun el => Returned (el, el).
Definition modify {C} (f : Tree.Target C -> Tree.Target C) : M C unit :=
  fun el => Returned (tt, f el).

#[global] Instance M_ret {C} : MRet (M C) := @ret C.
#[global] Instance M_bind {C} : MBind (M C) := fun A B k m => bind m k.

(** [errorMessage ?? fallback] *)
Definition orElse (errorMessage : option string) (fallback : string) : string :=
  match errorMessage with Some m => m | None => fallback end.

Module Adapter.
Import Tree.

(** [adapter.detachNode(element)]: nothing happens to a node without a
    parent. *)
Definition detachNode {C} : M C unit :=
  modify (fun el =>
    match link el with
    | InParent => withLink el Removed
    | _ => el
    end).

(** [element.attribs[key] = value] *)
Definition setAttrib {C} (key value : string) : M C unit :=
  modify (fun el => withAttribs el (attrSet key value (attribs el))).

(** [delete element.attribs[key]] *)
Definition deleteAttrib {C} (key : string) : M C unit :=
  modify (fun el => withAttribs el (attrDelete key (attribs el))).

(** [adapter.detachNode(element.children[0])] when there is one *)
Definition detachFirstChild {C} : M C unit :=
  modify (fun el => withChildren el (tail (children el))).

(** [adapter.detachNode(element.children[element.children.length - 1])]
    when there is one *)
Definition detachLastChild {C} : M C unit :=
  modify (fun el => withChildren el (removelast (children el))).

End Adapter.

(** [unwrapInParent(element)] of [src/lib/helpers.ts], seen from the
    element under visit: with no child or no parent the element is just
    detached; otherwise its children take its place in the parent and it
    is detached.  The same function on the node store, pointer by
    pointer, is [Dom.unwrapInParent]. *)
Definition unwrapInParent {C} : M C unit :=
  el ← get;
  match Tree.children el with
  | [] => Adapter.detachNode
  | _ :: _ =>
      match Tree.link el with
      | Tree.InParent => modify (fun el => Tree.withLink el Tree.Spliced)
      | _ => Adapter.detachNode
      end
  end.

(** [for (let i = 0; i < n; i++) body] *)
Fixpoint repeatM {C} (n : nat) (body : M C unit) : M C unit :=
  match n with
  | O => mret tt
  | S n' => body ;; repeatM n' body
  end.

(* ================================================================== *)
(** ** The node store and [unwrapInParent] ([src/lib/helpers.ts])       *)
(* ================================================================== *)

Module Dom.

(** The objects of the parsed tree, as [unwrapInParent] uses them: every
    node has a parent, a previous and a next sibling (each possibly
    [null]), and a parent node has the array of its children.  Objects
    are named by numbers and live in a store. *)
Record NodeRec : Type := mkNode {
  parentNode : option nat;
  prev : option nat;
  nextSibling : option nat;
  children : list nat;
}.

Definition parentOf (st : gmap nat NodeRec) (i : nat) : option nat :=
  st !! i ≫= parentNode.
Definition prevOf (st : gmap nat NodeRec) (i : nat) : option nat :=
  st !! i ≫= prev.
Definition nextOf (st : gmap nat NodeRec) (i : nat) : option nat :=
  st !! i ≫= nextSibling.
Definition childrenOf (st : gmap nat NodeRec) (i : nat) : list nat :=
  default [] (children <$> st !! i).

Definition setParent (i : nat) (v : option nat) (st : gmap nat NodeRec)
    : gmap nat NodeRec :=
  alter (fun n => mkNode v (prev n) (nextSibling n) (children n)) i st.
Definition setPrev (i : nat) (v : option nat) (st : gmap nat NodeRec)
    : gmap nat NodeRec :=
  alter (fun n => mkNode (parentNode n) v (nextSibling n) (children n)) i st.
Definition setNext (i : nat) (v : option nat) (st : gmap nat NodeRec)
    : gmap nat NodeRec :=
  alter (fun n => mkNode (parentNode n) (prev n) v (children n)) i st.
Definition setChildren (i : nat) (v : list nat) (st : gmap nat NodeRec)
    : gmap nat NodeRec :=
  alter (fun n => mkNode (parentNode n) (prev n) (nextSibling n) v) i st.

(** [xs.indexOf(x)], [None] for [-1]. *)
Fixpoint indexOf (x : nat) (xs : list nat) : option nat :=
  match xs with
  | [] => None
  | y :: ys => if Nat.eqb y x then Some 0 else S <$> indexOf x ys
  end.

(** The start index of [xs.splice(idx, ...)]: [-1] counts from the end. *)
Definition spliceStart (idx : option nat) (xs : list nat) : nat :=
  match idx with
  | Some i => i
  | None => List.length xs - 1
  end.

(** [xs.splice(idx, 0, x)] *)
Definition spliceInsert (idx : option nat) (x : nat) (xs : list nat) : list nat :=
  take (spliceStart idx xs) xs ++ x :: drop (spliceStart idx xs) xs.

(** [xs.splice(idx, 1)] *)
Definition spliceRemove (idx : option nat) (xs : list nat) : list nat :=
  take (spliceStart idx xs) xs ++ drop (S (spliceStart idx xs)) xs.

(** Modelled from the spec: the tree-adapter primitive
    [appendChild(parent, node)] of section 6; the adapter
    (parse5-htmlparser2-tree-adapter) is not part of the sources.  The
    node goes last in the parent's children, with the sibling links of
    the former last child and the parent link set; it is not taken out
    of the children of a former parent. *)
Definition appendChild (parent newNode : nat) (st : gmap nat NodeRec)
    : gmap nat NodeRec :=
  let st :=
    match last (childrenOf st parent) with
    | Some pv => setPrev newNode (Some pv) (setNext pv (Some newNode) st)
    | None => st
    end in
  let st := setChildren parent (childrenOf st parent ++ [newNode]) st in
  setParent newNode (Some parent) st.

(** Modelled from the spec: the tree-adapter primitive
    [insertBefore(parent, node, ref)] of section 6.  The node goes right
    before [ref] in the parent's children, with the sibling and parent
    links set; it is not taken out of the children of a former parent. *)
Definition insertBefore (parent newNode referenceNode : nat)
    (st : gmap nat NodeRec) : gmap nat NodeRec :=
  let insertionIdx := indexOf referenceNode (childrenOf st parent) in
  let st :=
    match prevOf st referenceNode with
    | Some pv => setPrev newNode (Some pv) (setNext pv (Some newNode) st)
    | None => st
    end in
  let st := setPrev referenceNode (Some newNode) st in
  let st := setNext newNode (Some referenceNode) st in
  let st := setChildren parent
              (spliceInsert insertionIdx newNode (childrenOf st parent)) st in
  setParent newNode (Some parent) st.

(** Modelled from the spec: the tree-adapter primitive [detach(node)] of
    section 6.  A node with a parent leaves the children of that parent,
    its neighbours are linked to each other and its own links are
    cleared; a node without a parent is left alone. *)
Definition detachNode (node : nat) (st : gmap nat NodeRec) : gmap nat NodeRec :=
  match parentOf st node with
  | Some parent =>
      let idx := indexOf node (childrenOf st parent) in
      let pv := prevOf st node in
      let nx := nextOf st node in
      let st := setPrev node None st in
      let st := setNext node None st in
      let st := match pv with Some a => setNext a nx st | None => st end in
      let st := match nx with Some b => setPrev b pv st | None => st end in
      let st := setChildren parent (spliceRemove idx (childrenOf st parent)) st in
      setParent node None st
  | None => st
  end.

(** [unwrapInParent(element)].  The loop runs over [element.children],
    which its body leaves alone unless the element is its own parent. *)
Definition unwrapInParent (element : nat) (st : gmap nat NodeRec)
    : gmap nat NodeRec :=
  match childrenOf st element with
  | [] => detachNode element st
  | _ :: _ =>
      match parentOf st element with
      | None => detachNode element st
      | Some parent =>
          let next := nextOf st element in
          let st :=
            foldl (fun st child =>
                     match next with
                     | Some next => insertBefore parent child next st
                     | None => appendChild parent child st
                     end)
              st (childrenOf st element) in
          detachNode element st
      end
  end.

End Dom.

(* ================================================================== *)
(** ** Error handlers ([src/lib/handlers/direct.ts], [indirect.ts])    *)
(* ================================================================== *)

Module Direct.
Import Tree Adapter.

Definition handleTagError {C} (errorHandlingMode : option ErrorHandlingMode)
    (errorMessage : option string) : M C bool :=
  match errorHandlingMode with
  | Some discardElement =>
      detachNode ;; mret false
  | Some unwrapElement =>
      unwrapInParent ;; mret false
  | _ =>
      el ← get;
      throw (orElse errorMessage ("Tag " ++ tagNameOf el ++ " is not allowed"))
  end.

Definition handleTagAttributeError {C} (attribute : TagAttribute.t)
    (errorHandlingMode : option ErrorHandlingMode)
    (errorMessage : option string) : M C bool :=
  match errorHandlingMode with
  | Some discardAttribute =>
      deleteAttrib (TagAttribute.key attribute) ;; mret true
  | _ =>
      handleTagError errorHandlingMode
        (Some (orElse errorMessage
           ("Attribute " ++ TagAttribute.key attribute ++ " is not allowed")))
  end.

Definition handleTagAttributeValueError {C} (attribute : TagAttribute.t)
    (rule : Rule.TagAttributeValueRule)
    (errorHandlingMode : option ErrorHandlingMode)
    (errorMessage : option string) : M C bool :=
  match errorHandlingMode with
  | Some applyDefaultValue =>
      match Rule.defaultValue rule with
      | Some d =>
          if JsString.truthy d
          then setAttrib (TagAttribute.key attribute) d
          else deleteAttrib (TagAttribute.key attribute)
      | None => deleteAttrib (TagAttribute.key attribute)
      end ;;
      mret true
  | _ =>
      handleTagAttributeError attribute errorHandlingMode
        (Some (orElse errorMessage
           ("Value " ++ TagAttribute.value attribute ++ " for attribute "
              ++ TagAttribute.key attribute ++ " is not allowed")))
  end.

Definition handleTagAttributeRecordValueError {C} (attribute : TagAttribute.t)
    (record : list TagAttributeValueEntry.t) (index : nat)
    (rule : Rule.TagAttributeValueRule)
    (errorHandlingMode : option ErrorHandlingMode)
    (errorMessage : option string) : M C bool :=
  match errorHandlingMode with
  | Some dropPair => mret true
  | _ =>
      match record !! index with
      | Some e =>
          handleTagAttributeValueError attribute rule errorHandlingMode
            (Some (orElse errorMessage
               ("Pair " ++ TagAttributeValueEntry.key e ++ "="
                  ++ TagAttributeValueEntry.val e ++ " for attribute "
                  ++ TagAttribute.key attribute ++ " is not allowed")))
      | None =>
          (* [record[index].key] on a missing entry *)
          throw "TypeError: Cannot read properties of undefined"
      end
  end.

Definition handleTagAttributeSetValueError {C} (attribute : TagAttribute.t)
    (index : nat) (set : list string)
    (rule : Rule.TagAttributeValueRule)
    (errorHandlingMode : option ErrorHandlingMode)
    (errorMessage : option string) : M C bool :=
  match errorHandlingMode with
  | Some dropValue => mret true
  | _ =>
      handleTagAttributeValueError attribute rule errorHandlingMode
        (Some (orElse errorMessage
           ("Value " ++ default "undefined" (set !! index) ++ " for attribute "
              ++ TagAttribute.key attribute ++ " is not allowed")))
  end.

Definition handleTagAttributeValueTooLongError {C} (attribute : TagAttribute.t)
    (rule : Rule.TagAttributeValueRule)
    (errorHandlingMode : option ErrorHandlingMode)
    (errorMessage : option string) : M C bool :=
  match errorHandlingMode with
  | Some trimExcess =>
      setAttrib (TagAttribute.key attribute)
        (match Rule.maxLength rule with
         | Some n => JsString.slice0 (TagAttribute.value attribute) n
         | None => TagAttribute.value attribute     (* [slice(0, undefined)] *)
         end) ;;
      mret true
  | _ =>
      handleTagAttributeValueError attribute rule errorHandlingMode
        (Some (orElse errorMessage
           ("Value " ++ TagAttribute.value attribute ++ " for attribute "
              ++ TagAttribute.key attribute ++ " is too long")))
  end.

Definition handleTagChildrenError {C} (maxChildren : nat)
    (errorHandlingMode : option ErrorHandlingMode) : M C bool :=
  el ← get;
  let len := List.length (children el) in
  let excess := len - maxChildren in          (* [Math.max(0, len - maxChildren)] *)
  match errorHandlingMode with
  | Some discardElement =>
      detachNode ;; mret false
  | Some discardFirsts =>
      repeatM excess detachFirstChild ;; mret true
  | Some discardLasts =>
      repeatM excess detachLastChild ;; mret true
  | _ =>
      match tagName el with
      | Some t =>
          throw ("Tag " ++ t
                   ++ " has exceeded the maximum allowed number of children of "
                   ++ JsString.ofNat maxChildren)
      | None =>
          throw ("Root has exceeded the maximum allowed number of children of "
                   ++ JsString.ofNat maxChildren)
      end
  end.

Definition handleTagNestingError {C} (maxNesting : nat)
    (errorHandlingMode : option ErrorHandlingMode) : M C bool :=
  match errorHandlingMode with
  | Some discardElement =>
      detachNode ;; mret false
  | _ =>
      el ← get;
      match tagName el with
      | Some t =>
          throw ("Tag " ++ t ++ " has exceeded the maximum nesting level of "
                   ++ JsString.ofNat maxNesting)
      | None =>
          throw ("Root has exceeded the maximum nesting level of "
                   ++ JsString.ofNat maxNesting)
      end
  end.

End Direct.

Module CollectionResult.
(** [{ output: T; proceed: boolean }] *)
Record t (T : Type) : Type := mk { output : T; proceed : bool }.
Arguments mk {T} output proceed.
Arguments output {T} _.
Arguments proceed {T} _.
End CollectionResult.

Module DuplicateResult.
(** [{ globalProceed: boolean; localProceed: boolean; output }] *)
Record t : Type := mk {
  globalProceed : bool;
  localProceed : bool;
  output : list TagAttributeValueEntry.t;
}.
End DuplicateResult.

Module Indirect.
Import Tree Adapter Direct.

(** [collection.slice(0, rule.maxEntries)] *)
Definition sliceEntries {A} (collection : list A) (maxEntries : option nat)
    : list A :=
  match maxEntries with
  | Some n => take n collection
  | None => collection
  end.

Definition handleTagAttributeCollectionValueTooManyError {C A}
    (attribute : TagAttribute.t) (collection : list A)
    (rule : Rule.TagAttributeValueRule)
    (errorHandlingMode : option ErrorHandlingMode)
    (errorMessage : option string) : M C (CollectionResult.t (list A)) :=
  match errorHandlingMode with
  | Some dropExtra =>
      let collection := sliceEntries collection (Rule.maxEntries rule) in
      mret (CollectionResult.mk collection true)
  | _ =>
      proceed ← handleTagAttributeValueError attribute rule errorHandlingMode
        (Some (orElse errorMessage
           ("Value " ++ TagAttribute.value attribute ++ " for attribute "
              ++ TagAttribute.key attribute ++ " has too many tokens")));
      mret (CollectionResult.mk collection proceed)
  end.

(** [record.filter((entry) => entry.key !== key)] *)
Definition withoutKey (key : string) (record : list TagAttributeValueEntry.t)
    : list TagAttributeValueEntry.t :=
  List.filter (fun entry => negb (String.eqb (TagAttributeValueEntry.key entry) key))
    record.

Definition handleTagAttributeRecordValueDuplicateError {C}
    (attribute : TagAttribute.t) (key : string)
    (record : list TagAttributeValueEntry.t)
    (rule : Rule.TagAttributeValueRule)
    (errorHandlingMode : option ErrorHandlingMode)
    (errorMessage : option string) : M C DuplicateResult.t :=
  match errorHandlingMode with
  | Some dropDuplicates =>
      let record := withoutKey key record in
      mret (DuplicateResult.mk true false record)
  | Some keepDuplicates =>
      mret (DuplicateResult.mk true true record)
  | Some keepFirst =>
      mret (DuplicateResult.mk true false record)
  | Some keepLast =>
      let record := withoutKey key record in
      mret (DuplicateResult.mk true true record)
  | _ =>
      result ← handleTagAttributeValueError attribute rule errorHandlingMode
        (Some (orElse errorMessage
           ("Value " ++ TagAttribute.value attribute ++ " for attribute "
              ++ TagAttribute.key attribute ++ " has duplicate " ++ key
              ++ " keys")));
      mret (DuplicateResult.mk result result record)
  end.

End Indirect.

(* ================================================================== *)
(** ** Sanitizers ([src/lib/sanitizers.ts])                            *)
(* ================================================================== *)

Module ProceedFlags.
(** [{ globalProceed: boolean; localProceed: boolean }] *)
Record t : Type := mk { globalProceed : bool; localProceed : bool }.
End ProceedFlags.

Module Sanitizers.
Import Tree Adapter Direct Indirect Comparators Helpers.

(** [rules[name]] on the entries of the rule object. *)
Fixpoint ruleGet (name : string)
    (rules : list (string * Rule.TagAttributeValueRule))
    : option Rule.TagAttributeValueRule :=
  match rules with
  | [] => None
  | (k, r) :: rest => if String.eqb k name then Some r else ruleGet name rest
  end.

(** What a lookup in the rule object evaluates to when it is not
    [undefined]: a rule of the policy, or a member of
    [Object.prototype], which is truthy and has no [mode], no
    [maxLength] and no [defaultValue]. *)
Inductive RuleValue : Type :=
| Declared (rule : Rule.TagAttributeValueRule)
| Member.

(** [rules?.[name] ?? rules?.["*"]] *)
Definition ruleFor (name : string)
    (rules : option (list (string * Rule.TagAttributeValueRule)))
    : option RuleValue :=
  match rules with
  | None => None
  | Some rs =>
      match ruleGet name rs with
      | Some r => Some (Declared r)
      | None =>
          if JsObject.inherited name then Some Member
          else Declared <$> ruleGet "*" rs
      end
  end.

(** Truthiness of [rule.required]. *)
Definition isRequired (rule : Rule.TagAttributeValueRule) : bool :=
  match Rule.required rule with Some b => b | None => false end.

(** The loop of [enforceRequiredAttributes] over [Object.entries(rules)]. *)
Fixpoint enforceRequiredLoop {C}
    (entries : list (string * Rule.TagAttributeValueRule))
    (errorHandling : option ErrorHandling.t) : M C bool :=
  match entries with
  | [] => mret true
  | (attrName, rule) :: rest =>
      if String.eqb attrName "*" then enforceRequiredLoop rest errorHandling
      else
        el ← get;
        if isRequired rule && negb (attrHas attrName (attribs el)) then
          ok ← handleTagAttributeValueError (TagAttribute.mk attrName "") rule
                 (slot errorHandling ErrorHandling.attributeValue) None;
          if negb ok then mret false
          else enforceRequiredLoop rest errorHandling
        else enforceRequiredLoop rest errorHandling
  end.

Definition enforceRequiredAttributes {C}
    (rules : option (list (string * Rule.TagAttributeValueRule)))
    (errorHandling : option ErrorHandling.t) : M C bool :=
  match rules with
  | None => mret true
  | Some entries => enforceRequiredLoop entries errorHandling
  end.

Definition sanitizeTag {C} (rule : option TagRule.t)
    (errorHandling : option ErrorHandlingMode) : M C bool :=
  match rule with
  | Some _ => mret true
  | None => handleTagError errorHandling None
  end.

Definition sanitizeTagAttribute {C} (attribute : TagAttribute.t)
    (rule : option RuleValue)
    (errorHandling : option ErrorHandlingMode) : M C ProceedFlags.t :=
  match rule with
  | Some _ => mret (ProceedFlags.mk true true)
  | None =>
      g ← handleTagAttributeError attribute errorHandling None;
      mret (ProceedFlags.mk g false)
  end.

(** [rule.values[key]]: the comparator under that key, or else the
    member of [Object.prototype] of that name. *)
Definition pairRuleOf (values : gmap string TagAttributeValueComparator)
    (key : string) : option PairRule :=
  match values !! key with
  | Some cmp => Some (Compares cmp)
  | None => inheritedPairRule key
  end.

(** The loop of [sanitizeTagAttributeRecordValue] over [input.entries()];
    [None] stands for [return false]. *)
Fixpoint recordLoop {C} (attribute : TagAttribute.t)
    (rule : Rule.TagAttributeValueRule)
    (values : gmap string TagAttributeValueComparator)
    (errorHandling : option ErrorHandling.t)
    (input : list TagAttributeValueEntry.t) (index : nat)
    (rest : list TagAttributeValueEntry.t)
    (seen : gset string) (output : list TagAttributeValueEntry.t)
    : M C (option (list TagAttributeValueEntry.t)) :=
  match rest with
  | [] => mret (Some output)
  | TagAttributeValueEntry.mk key val :: rest' =>
      let pairRule := pairRuleOf values key in
      let check (output : list TagAttributeValueEntry.t) :=
        match pairRule with
        | Some (Raises message) =>
            (* [matchComparator(pairRule, val)] calls the method *)
            throw message
        | Some (Compares cmp) =>
            if negb (truthy cmp) || negb (matchComparator cmp val) then
              ok ← handleTagAttributeRecordValueError attribute input index rule
                     (slot errorHandling ErrorHandling.attributeRecordValue) None;
              if negb ok then mret None
              else recordLoop attribute rule values errorHandling input
                     (S index) rest' seen output
            else
              recordLoop attribute rule values errorHandling input
                (S index) rest' ({[key]} ∪ seen)
                (output ++ [TagAttributeValueEntry.mk key val])
        | None =>
            ok ← handleTagAttributeRecordValueError attribute input index rule
                   (slot errorHandling ErrorHandling.attributeRecordValue) None;
            if negb ok then mret None
            else recordLoop attribute rule values errorHandling input
                   (S index) rest' seen output
        end in
      if bool_decide (key ∈ seen) then
        result ← handleTagAttributeRecordValueDuplicateError attribute key
                   output rule
                   (slot errorHandling ErrorHandling.attributeRecordValueDuplicate)
                   None;
        if negb (DuplicateResult.globalProceed result) then mret None
        else
          let output := DuplicateResult.output result in
          if negb (DuplicateResult.localProceed result) then
            recordLoop attribute rule values errorHandling input
              (S index) rest' seen output
          else check output
      else check output
  end.

(** [`${key}${rule.keyValueSeparator}${val}`] *)
Definition renderEntry (keyValueSeparator : string)
    (e : TagAttributeValueEntry.t) : string :=
  TagAttributeValueEntry.key e ++ keyValueSeparator ++ TagAttributeValueEntry.val e.

Definition sanitizeTagAttributeRecordValue {C} (attribute : TagAttribute.t)
    (rule : Rule.TagAttributeValueRule)
    (entrySeparator keyValueSeparator : string)
    (values : gmap string TagAttributeValueComparator)
    (errorHandling : option ErrorHandling.t) : M C bool :=
  let input := parseRecord (TagAttribute.value attribute) entrySeparator
                 keyValueSeparator in
  let continue (input : list TagAttributeValueEntry.t) : M C bool :=
    r ← recordLoop attribute rule values errorHandling input 0 input ∅ [];
    match r with
    | None => mret false
    | Some output =>
        setAttrib (TagAttribute.key attribute)
          (JsString.join (List.map (renderEntry keyValueSeparator) output)
             entrySeparator) ;;
        mret true
    end in
  if truthyNumber (Rule.maxEntries rule)
     && (default 0 (Rule.maxEntries rule) <? List.length input)%nat then
    result ← handleTagAttributeCollectionValueTooManyError attribute input
               rule
               (slot errorHandling ErrorHandling.attributeCollectionValueTooMany)
               None;
    if negb (CollectionResult.proceed result) then mret false
    else continue (CollectionResult.output result)
  else continue input.

(** The loop of [sanitizeTagAttributeSetValue] over [input.entries()];
    [None] stands for [return false]. *)
Fixpoint setLoop {C} (attribute : TagAttribute.t)
    (rule : Rule.TagAttributeValueRule)
    (values : TagAttributeValueComparator)
    (errorHandling : option ErrorHandling.t)
    (input : list string) (index : nat) (rest : list string)
    (output : list string) : M C (option (list string)) :=
  match rest with
  | [] => mret (Some output)
  | val :: rest' =>
      if negb (matchComparator values val) then
        ok ← handleTagAttributeSetValueError attribute index input rule
               (slot errorHandling ErrorHandling.attributeSetValue) None;
        if negb ok then mret None
        else setLoop attribute rule values errorHandling input (S index) rest'
               output
      else
        setLoop attribute rule values errorHandling input (S index) rest'
          (output ++ [val])
  end.

Definition sanitizeTagAttributeSetValue {C} (attribute : TagAttribute.t)
    (rule : Rule.TagAttributeValueRule) (delimiter : string)
    (values : TagAttributeValueComparator)
    (errorHandling : option ErrorHandling.t) : M C bool :=
  let input := parseSet (TagAttribute.value attribute) delimiter in
  let continue (input : list string) : M C bool :=
    r ← setLoop attribute rule values errorHandling input 0 input [];
    match r with
    | None => mret false
    | Some output =>
        setAttrib (TagAttribute.key attribute) (JsString.join output delimiter) ;;
        mret true
    end in
  if truthyNumber (Rule.maxEntries rule)
     && (default 0 (Rule.maxEntries rule) <? List.length input)%nat then
    result ← handleTagAttributeCollectionValueTooManyError attribute input
               rule
               (slot errorHandling ErrorHandling.attributeCollectionValueTooMany)
               None;
    if negb (CollectionResult.proceed result) then mret false
    else continue (CollectionResult.output result)
  else continue input.

Definition sanitizeTagAttributeSimpleValue {C} (attribute : TagAttribute.t)
    (rule : Rule.TagAttributeValueRule) (value : TagAttributeValueComparator)
    (errorHandling : option ErrorHandlingMode) : M C bool :=
  if negb (matchComparator value (TagAttribute.value attribute)) then
    handleTagAttributeValueError attribute rule errorHandling None
  else mret true.

(** The [switch (rule.mode)] of [sanitizeTagAttributeValue]. *)
Definition sanitizeByMode {C} (attribute : TagAttribute.t)
    (rule : Rule.TagAttributeValueRule)
    (errorHandling : option ErrorHandling.t) : M C bool :=
  match Rule.mode rule with
  | Rule.record entrySeparator keyValueSeparator _ values =>
      sanitizeTagAttributeRecordValue attribute rule entrySeparator
        keyValueSeparator values errorHandling
  | Rule.set delimiter _ values =>
      sanitizeTagAttributeSetValue attribute rule delimiter values errorHandling
  | Rule.simple value =>
      sanitizeTagAttributeSimpleValue attribute rule value
        (slot errorHandling ErrorHandling.attributeValue)
  end.

Definition sanitizeTagAttributeValue {C} (attribute : TagAttribute.t)
    (rule : Rule.TagAttributeValueRule)
    (errorHandling : option ErrorHandling.t) : M C bool :=
  if truthyNumber (Rule.maxLength rule)
     && (default 0 (Rule.maxLength rule)
           <? String.length (TagAttribute.value attribute))%nat then
    ok ← handleTagAttributeValueTooLongError attribute rule
           (slot errorHandling ErrorHandling.attributeValueTooLong) None;
    if negb ok then mret false
    else
      el ← get;
      (* [attribute.value = element.attribs[attribute.key]] *)
      match attrGet (TagAttribute.key attribute) (attribs el) with
      | None => mret true
      | Some value =>
          if negb (JsString.truthy value) then mret true
          else sanitizeByMode (TagAttribute.mk (TagAttribute.key attribute) value)
                 rule errorHandling
      end
  else sanitizeByMode attribute rule errorHandling.

(** The [for (const name of keys)] loop of [sanitizeAttributes]; the
    result is [false] when the loop leaves the function with
    [return false]. *)
Fixpoint attributesLoop {C} (keys : list string)
    (rules : option (list (string * Rule.TagAttributeValueRule)))
    (errorHandling : option ErrorHandling.t) : M C bool :=
  match keys with
  | [] => mret true
  | name :: keys' =>
      el ← get;
      match attrGet name (attribs el) with
      | None =>
          (* a key of the snapshot always has a value: handlers only
             touch the attribute they were called for *)
          throw "TypeError: attribute value is undefined"
      | Some value =>
          let rule := ruleFor name rules in
          flags ← sanitizeTagAttribute (TagAttribute.mk name value) rule
                    (slot errorHandling ErrorHandling.attribute);
          if negb (ProceedFlags.globalProceed flags) then mret false
          else if negb (ProceedFlags.localProceed flags) then
            attributesLoop keys' rules errorHandling
          else
            match rule with
            | None => throw "TypeError: rule is undefined"    (* [rule!] *)
            | Some Member =>
                (* [sanitizeTagAttributeValue] on a member of
                   [Object.prototype]: [rule.maxLength] is undefined,
                   no case of the [switch (rule.mode)] is taken and the
                   call returns [undefined] *)
                mret false
            | Some (Declared rule) =>
                ok ← sanitizeTagAttributeValue (TagAttribute.mk name value)
                       rule errorHandling;
                if negb ok then mret false
                else attributesLoop keys' rules errorHandling
            end
      end
  end.

Definition sanitizeAttributes {C}
    (rules : option (list (string * Rule.TagAttributeValueRule)))
    (errorHandling : option ErrorHandling.t) : M C bool :=
  el ← get;
  let keys := attrKeys (attribs el) in
  match keys with
  | [] =>
      (* Fast path *)
      enforceRequiredAttributes rules errorHandling
  | _ :: _ =>
      completed ← attributesLoop keys rules errorHandling;
      if negb completed then mret false
      else enforceRequiredAttributes rules errorHandling
  end.

End Sanitizers.

(* ================================================================== *)
(** ** The walker ([src/lib/walker.ts])                                *)
(* ================================================================== *)

Module Walker.
Import Tree Adapter Direct Sanitizers.

(** The walker works in place.  A visit of a node is described by what
    stands in the parent's child list at the place of that node when the
    visit returns: the node itself (with its subtree rewritten), nothing
    when the node was detached, or the node's children when it was
    unwrapped.  The loops over children read [child.nextSibling] before
    they visit [child] and go on from there, so they visit exactly the
    children present when the loop starts, in order, and never the nodes
    that a visit puts in place of a child. *)
Definition Walk : Type := SanitizerState.t -> Outcome (list Node).

(** A child of the element under visit together with the visit of it
    ([walkNode(child, options, _)]). *)
Definition Child : Type := (Node * Walk)%type.

(** What stands at the place of the element under visit when
    [walkNode] returns, [kids] being the children the element has by
    then. *)
Definition settle (element : Target Child) (kids : list Node) : list Node :=
  match link element with
  | Removed => []
  | Spliced => kids
  | InParent | NoParent => [Element (tagNameOf element) (attribs element) kids]
  end.

(** The same when the children were not walked. *)
Definition leave (element : Target Child) : list Node :=
  settle element (List.map fst (children element)).

(** The tag nesting loop of [walkElement],
    [for (let i = tagDepth.length - 1; i >= 0; i--)], over the frames
    from the innermost outwards.  The result is [None] when the handler
    was called (the function returns), and otherwise the incremented
    frames, innermost first. *)
Fixpoint nestingLoop {C} (options : SanitizerOptions.t)
    (innermostFirst : list TagNestingFrame.t)
    : M C (option (list TagNestingFrame.t)) :=
  match innermostFirst with
  | [] => mret (Some [])
  | frame :: outer =>
      let tagName := TagNestingFrame.key frame in
      let frame := TagNestingFrame.mk tagName (S (TagNestingFrame.value frame)) in
      let tagRule := tagRuleOf options tagName in
      let nesting :=
        limitOf (match tagRule with Some r => TagRule.limits r | None => None end)
          TagLimits.nesting in
      if negb (truthyNumber nesting) then
        r ← nestingLoop options outer;
        mret (match r with Some fs => Some (frame :: fs) | None => None end)
      else if (default 0 nesting <? TagNestingFrame.value frame)%nat then
        handleTagNestingError (default 0 nesting)
          (slot (SanitizerOptions.errorHandling options) ErrorHandling.tagNesting) ;;
        mret None
      else
        r ← nestingLoop options outer;
        mret (match r with Some fs => Some (frame :: fs) | None => None end)
  end.

(** The loop [while (child) { next = child.nextSibling; walkNode(child,
    options, newState); child = next }]. *)
Fixpoint walkChildren (children : list Child) (newState : SanitizerState.t)
    : Outcome (list Node) :=
  match children with
  | [] => Returned []
  | child :: next =>
      match snd child newState with
      | Thrown msg => Thrown msg
      | Returned here =>
          match walkChildren next newState with
          | Thrown msg => Thrown msg
          | Returned after => Returned (here ++ after)
          end
      end
  end.

Definition walkElement (element : Target Child) (options : SanitizerOptions.t)
    (state : SanitizerState.t) : Outcome (list Node) :=
  let tagName := tagNameOf element in
  let tagRule := tagRuleOf options tagName in
  let errorHandling := SanitizerOptions.errorHandling options in
  let body : M Child (option (list Node)) :=
    (* Tag sanitization *)
    ok ← sanitizeTag tagRule (slot errorHandling ErrorHandling.tag);
    if negb ok then mret None else
    match tagRule with
    | None => throw "TypeError: tagRule is undefined"
    | Some tagRule =>
    (* Attributes sanitization *)
    ok ← sanitizeAttributes (TagRule.attributes tagRule) errorHandling;
    if negb ok then mret None else
    (* Children enforcement *)
    el ← get;
    let limit := limitOf (TagRule.limits tagRule) TagLimits.children in
    ok ← (if truthyNumber limit
             && (default 0 limit <? List.length (children el))%nat
          then handleTagChildrenError (default 0 limit)
                 (slot errorHandling ErrorHandling.tagChildren)
          else mret true);
    if negb ok then mret None else
    (* Tag nesting enforcement *)
    tagDepth ← nestingLoop options (rev (SanitizerState.tagNesting state));
    match tagDepth with
    | None => mret None
    | Some innermostFirst =>
        let newState :=
          SanitizerState.mk (SanitizerState.rootNesting state)
            (rev innermostFirst ++ [TagNestingFrame.mk tagName 0]) in
        (* Children sanitization *)
        el ← get;
        match walkChildren (children el) newState with
        | Thrown msg => throw msg
        | Returned kids => mret (Some kids)
        end
    end
    end in
  match body element with
  | Thrown msg => Thrown msg
  | Returned (None, element) => Returned (leave element)
  | Returned (Some kids, element) => Returned (settle element kids)
  end.

Fixpoint walkNode (options : SanitizerOptions.t) (node : Node)
    (state : SanitizerState.t) {struct node} : Outcome (list Node) :=
  match node with
  | Element tagName attribs children =>
      let element :=
        mkTarget (Some tagName) attribs
          (List.map (fun child => (child, walkNode options child)) children)
          InParent in
      let nesting := limitOf (SanitizerOptions.topLevelLimits options)
                       TagLimits.nesting in
      if truthyNumber nesting
         && (default 0 nesting <? SanitizerState.rootNesting state)%nat then
        match handleTagNestingError (default 0 nesting)
                (slot (SanitizerOptions.errorHandling options)
                   ErrorHandling.tagNesting) element with
        | Thrown msg => Thrown msg
        | Returned (_, element) => Returned (leave element)
        end
      else
        walkElement element options
          (SanitizerState.mk (S (SanitizerState.rootNesting state))
             (SanitizerState.tagNesting state))
  | Comment _ =>
      if negb (default false (SanitizerOptions.preserveComments options))
      then Returned []
      else Returned [node]
  (* other node types *)
  | Text _ | Root _ => Returned [node]
  end.

(** The children of a parsed node, each with the visit of it. *)
Definition withWalks (options : SanitizerOptions.t) (children : list Node)
    : list Child :=
  List.map (fun child => (child, walkNode options child)) children.

End Walker.

(* ================================================================== *)
(** ** The entry point ([src/index.ts])                                *)
(* ================================================================== *)

Module Index.
Import Tree Adapter Direct Walker.

(** [sanitizeHtml] between [parseFragment] and [serialize]: the result
    is [None] when the function returns [""] without serializing, and
    otherwise the children of the fragment when the walk is over. *)
Definition sanitizeFragment (roots : list Node) (options : SanitizerOptions.t)
    : Outcome (option (list Node)) :=
  let frag := mkTarget None [] (withWalks options roots) NoParent in
  let children := limitOf (SanitizerOptions.topLevelLimits options)
                    TagLimits.children in
  let walk (frag : Target Child) :=
    match walkChildren (Tree.children frag)
            (SanitizerState.mk 0 []) with
    | Thrown msg => Thrown msg
    | Returned kids => Returned (Some kids)
    end in
  if truthyNumber children
     && (default 0 children <? List.length (Tree.children frag))%nat then
    match handleTagChildrenError (default 0 children)
            (slot (SanitizerOptions.errorHandling options)
               ErrorHandling.tagChildren) frag with
    | Thrown msg => Thrown msg
    | Returned (false, _) => Returned None
    | Returned (true, frag) => walk frag
    end
  else walk frag.

Section Html.
(** The parser and the serializer are parse5's. *)
Variable parseFragment : string -> list Node.
Variable serialize : list Node -> string.

Definition sanitizeHtml (html : string) (options : SanitizerOptions.t)
    : Outcome string :=
  if String.eqb html "" then Returned ""
  else
    match sanitizeFragment (parseFragment html) options with
    | Thrown msg => Thrown msg
    | Returned None => Returned ""
    | Returned (Some kids) => Returned (serialize kids)
    end.
End Html.

(** The tree that [sanitizeHtml] serializes, the empty fragment standing
    for the empty string. *)
Definition sanitizeTree (roots : list Node) (options : SanitizerOptions.t)
    : Outcome (list Node) :=
  match sanitizeFragment roots options with
  | Thrown msg => Thrown msg
  | Returned None => Returned []
  | Returned (Some kids) => Returned kids
  end.

End Index.

(* ================================================================== *)
(** * Vocabulary of the statements                                     *)
(* ================================================================== *)

Section RecordVocabulary.
Import Tree Adapter Direct Indirect Sanitizers Comparators Helpers.

(** The keys of the surviving output have all been seen: the loop adds a
    key to [seen] whenever it appends a pair, and the handler only ever
    removes pairs. *)
Definition outputSeen (seen : gset string)
    (output : list TagAttributeValueEntry.t) : Prop :=
  Forall (fun e => TagAttributeValueEntry.key e ∈ seen) output.

(** The pair [key, val] passes the per-key rule of the record. *)
Definition accepted (values : gmap string TagAttributeValueComparator)
    (key val : string) : Prop :=
  exists cmp, pairRuleOf values key = Some (Compares cmp)
              /\ truthy cmp = true /\ matchComparator cmp val = true.

(** A pair of the parsed record that its rule accepts. *)
Definition keptFrom (values : gmap string TagAttributeValueComparator)
    (pairs : list TagAttributeValueEntry.t) (e : TagAttributeValueEntry.t) : Prop :=
  e ∈ pairs
  /\ accepted values (TagAttributeValueEntry.key e) (TagAttributeValueEntry.val e).

(** An entry count within [maxEntries] (no limit, or the limit [0]
    included). *)
Definition withinEntries (rule : Rule.TagAttributeValueRule) (n : nat) : Prop :=
  truthyNumber (Rule.maxEntries rule)
  && (default 0 (Rule.maxEntries rule) <? n)%nat = false.

(** No comparator of the record is a regular expression with the [g]
    or the [y] flag. *)
Definition statelessValues (values : gmap string TagAttributeValueComparator)
    : Prop :=
  map_Forall (fun _ cmp => stateless cmp = true) values.

(** The keys of the pairs, in order. *)
Definition keysOf (pairs : list TagAttributeValueEntry.t) : list string :=
  List.map TagAttributeValueEntry.key pairs.

(** The keys of the pairs, as the set [seen] of the record loop. *)
Definition keySet (pairs : list TagAttributeValueEntry.t) : gset string :=
  list_to_set (keysOf pairs).

(** The pairs whose key is not [key], in order. *)
Definition othersThan (key : string) (pairs : list TagAttributeValueEntry.t)
    : list TagAttributeValueEntry.t :=
  List.filter (fun e => bool_decide (TagAttributeValueEntry.key e <> key)) pairs.

(** The pairs whose key no other pair has. *)
Definition singles (pairs : list TagAttributeValueEntry.t)
    : list TagAttributeValueEntry.t :=
  List.filter
    (fun e =>
       Nat.eqb (List.length
                  (List.filter
                     (fun e' => bool_decide (TagAttributeValueEntry.key e'
                                             = TagAttributeValueEntry.key e))
                     pairs)) 1)
    pairs.

(** The pairs whose key no earlier pair has; [before] are the keys met
    so far. *)
Fixpoint firstsFrom (before : list string)
    (pairs : list TagAttributeValueEntry.t) : list TagAttributeValueEntry.t :=
  match pairs with
  | [] => []
  | e :: rest =>
      if bool_decide (TagAttributeValueEntry.key e ∈ before)
      then firstsFrom before rest
      else e :: firstsFrom (TagAttributeValueEntry.key e :: before) rest
  end.

Definition firsts (pairs : list TagAttributeValueEntry.t)
    : list TagAttributeValueEntry.t := firstsFrom [] pairs.

(** The pairs whose key no later pair has. *)
Fixpoint lasts (pairs : list TagAttributeValueEntry.t)
    : list TagAttributeValueEntry.t :=
  match pairs with
  | [] => []
  | e :: rest =>
      if bool_decide (TagAttributeValueEntry.key e ∈ keysOf rest)
      then lasts rest
      else e :: lasts rest
  end.

End RecordVocabulary.

Section ParseVocabulary.
Import JsString Helpers.

(** The pair an entry stands for, if any: the entry must split on the
    pair separator into exactly two parts, both non-empty once
    trimmed. *)
Definition pairOf (pairSep entry : string) : option TagAttributeValueEntry.t :=
  match split entry pairSep with
  | [k; v] =>
      if truthy (trim k) && truthy (trim v)
      then Some (TagAttributeValueEntry.mk (trim k) (trim v))
      else None
  | _ => None
  end.

(** Modelled from the spec: [parseRecord] as the specification words
    it.  Trim the input; a blank input has no pairs; otherwise split on
    the entry separator and, for each token as the split leaves it,
    split on the pair separator and accept the token when that gives
    exactly two parts, non-empty after trimming. *)
Definition parseRecord_as_worded (input entrySep pairSep : string)
    : list TagAttributeValueEntry.t :=
  if decide (trim input = "") then []
  else omap (pairOf pairSep) (split (trim input) entrySep).

(** Modelled from the spec, with one amendment: every token is trimmed
    before it is split on the pair separator.  Trim the input; a blank
    input has no pairs; otherwise split on the entry separator and keep,
    in order, the pairs of the trimmed tokens that stand for one. *)
Definition parseRecord_spec (input entrySep pairSep : string)
    : list TagAttributeValueEntry.t :=
  if decide (trim input = "") then []
  else omap (pairOf pairSep) (List.map trim (split (trim input) entrySep)).

End ParseVocabulary.

Section DomVocabulary.
Import Dom.

(** What a primitive leaves alone: the nodes that exist, the children of
    every node but [p], the parent of every node but [c]. *)
Definition frames (p c : nat) (st st' : gmap nat NodeRec) : Prop :=
  (forall i, is_Some (st' !! i) <-> is_Some (st !! i))
  /\ (forall i, i <> p -> childrenOf st' i = childrenOf st i)
  /\ (forall i, i <> c -> parentOf st' i = parentOf st i).

(** One turn of the loop of [unwrapInParent]. *)
Definition unwrapStep (parent : nat) (next : option nat)
    (st : gmap nat NodeRec) (child : nat) : gmap nat NodeRec :=
  match next with
  | Some next => insertBefore parent child next st
  | None => appendChild parent child st
  end.

End DomVocabulary.

Section HandlerVocabulary.
Import Tree Adapter Direct Indirect Sanitizers.
Context {C : Type}.

(** [el'] is [el] with possibly other attributes, still in its parent if
    [ok] and detached otherwise. *)
Definition survives (el el' : Target C) (ok : bool) : Prop :=
  tagName el' = tagName el
  /\ children el' = children el
  /\ link el' = (if ok then InParent else Removed).

(** A computation that only touches the attributes of an element in its
    parent and, when its result does not say [ok], has detached the
    element. *)
Definition tame {A} (okOf : A -> bool) (m : M C A) : Prop :=
  forall el a el',
    link el = InParent -> m el = Returned (a, el') -> survives el el' (okOf a).

(** No slot that can reach [handleTagError] selects [unwrapElement]. *)
Definition noUnwrap (errorHandling : option ErrorHandling.t) : Prop :=
  slot errorHandling ErrorHandling.tag <> Some unwrapElement
  /\ slot errorHandling ErrorHandling.attribute <> Some unwrapElement
  /\ slot errorHandling ErrorHandling.attributeValue <> Some unwrapElement
  /\ slot errorHandling ErrorHandling.attributeValueTooLong <> Some unwrapElement
  /\ slot errorHandling ErrorHandling.attributeCollectionValueTooMany
     <> Some unwrapElement
  /\ slot errorHandling ErrorHandling.attributeRecordValue <> Some unwrapElement
  /\ slot errorHandling ErrorHandling.attributeRecordValueDuplicate
     <> Some unwrapElement
  /\ slot errorHandling ErrorHandling.attributeSetValue <> Some unwrapElement.

(** It is a decidable property of the policy. *)
#[global] Instance noUnwrap_dec eh : Decision (noUnwrap eh).
Proof. unfold noUnwrap. apply _. Defined.

(** [o !== undefined] *)
Definition isSome {A} (o : option A) : bool :=
  match o with Some _ => true | None => false end.

End HandlerVocabulary.

Section WalkVocabulary.
Import Tree Adapter Direct Sanitizers Walker Index.

(** [limits.nesting] of the rule of a tag. *)
Definition nestingLimit (options : SanitizerOptions.t) (tagName : string)
    : option nat :=
  limitOf (match tagRuleOf options tagName with
           | Some r => TagRule.limits r
           | None => None
           end) TagLimits.nesting.

(** [limits.children] of the rule of a tag. *)
Definition childrenLimit (options : SanitizerOptions.t) (tagName : string)
    : option nat :=
  limitOf (match tagRuleOf options tagName with
           | Some r => TagRule.limits r
           | None => None
           end) TagLimits.children.

(** The frame of an ancestor, one level further down. *)
Definition deeper (frame : TagNestingFrame.t) : TagNestingFrame.t :=
  TagNestingFrame.mk (TagNestingFrame.key frame) (S (TagNestingFrame.value frame)).

(** The counter of a frame, once incremented, is within the nesting limit
    of the tag of the frame. *)
Definition frameOk (options : SanitizerOptions.t) (frame : TagNestingFrame.t)
    : bool :=
  negb (truthyNumber (nestingLimit options (TagNestingFrame.key frame)))
  || negb (default 0 (nestingLimit options (TagNestingFrame.key frame))
             <? S (TagNestingFrame.value frame))%nat.

(** The state handed to the children of an element of tag [tagName]
    visited in [state]. *)
Definition newStateOf (state : SanitizerState.t) (tagName : string)
    : SanitizerState.t :=
  SanitizerState.mk (SanitizerState.rootNesting state)
    (List.map deeper (SanitizerState.tagNesting state)
       ++ [TagNestingFrame.mk tagName 0]).

(** The children left by the children check: all of them when the limit
    is absent, [0] or not exceeded, and otherwise the last or the first
    ones, as many as the limit. *)
Definition childrenKept (limit : option nat) (kids kids1 : list Node) : Prop :=
  if truthyNumber limit && (default 0 limit <? List.length kids)%nat
  then kids1 = drop (List.length kids - default 0 limit) kids
       \/ kids1 = take (List.length kids - (List.length kids - default 0 limit)) kids
  else kids1 = kids.

(** Nodes that a visit in [state] leaves as they are. *)
Definition fixedIn (options : SanitizerOptions.t)
    (state : SanitizerState.t) (nodes : list Node) : Prop :=
  Forall (fun k => walkNode options k state = Returned [k]) nodes.

(** The state in which [walkNode] hands an element to [walkElement]. *)
Definition entered (state : SanitizerState.t) : SanitizerState.t :=
  SanitizerState.mk (S (SanitizerState.rootNesting state))
    (SanitizerState.tagNesting state).

(** The top-level nesting check of [walkNode] fires. *)
Definition tooDeep (options : SanitizerOptions.t)
    (state : SanitizerState.t) : bool :=
  truthyNumber (limitOf (SanitizerOptions.topLevelLimits options) TagLimits.nesting)
  && (default 0 (limitOf (SanitizerOptions.topLevelLimits options)
                   TagLimits.nesting)
        <? SanitizerState.rootNesting state)%nat.

(** No attribute of the list is named like a member of
    [Object.prototype]. *)
Definition plainNames (a : list (string * string)) : bool :=
  forallb (fun kv => negb (JsObject.inherited (fst kv))) a.

(** The subtree holds no template content, and no attribute named like a
    member of [Object.prototype]. *)
Fixpoint plain (n : Node) : bool :=
  match n with
  | Element _ a kids => plainNames a && forallb plain kids
  | Comment _ | Text _ => true
  | Root _ => false
  end.

(** Sanitizing again the attributes that a successful attribute pass has
    left on an element gives them back unchanged. *)
Definition attributesStable (options : SanitizerOptions.t) : Prop :=
  forall (t : string) (rule : TagRule.t) (a a' : list (string * string))
         (kidsW kidsW' : list Child),
    tagRuleOf options t = Some rule ->
    sanitizeAttributes (TagRule.attributes rule)
      (SanitizerOptions.errorHandling options)
      (mkTarget (Some t) a kidsW InParent)
    = Returned (true, mkTarget (Some t) a' kidsW InParent) ->
    sanitizeAttributes (TagRule.attributes rule)
      (SanitizerOptions.errorHandling options)
      (mkTarget (Some t) a' kidsW' InParent)
    = Returned (true, mkTarget (Some t) a' kidsW' InParent).

(** Every element of the subtree has a tag that is a key of [tags]. *)
Fixpoint allowedTags (options : SanitizerOptions.t) (n : Node) : bool :=
  match n with
  | Element t _ kids =>
      isSome (tagRuleOf options t) && forallb (allowedTags options) kids
  | Comment _ | Text _ => true
  | Root kids => forallb (allowedTags options) kids
  end.

(** Number of element levels of a subtree: [0] for a text or a comment,
    one more than the deepest child for an element, the deepest child
    for the content of a template. *)
Fixpoint levels (n : Node) : nat :=
  match n with
  | Element _ _ kids => S (list_max (List.map levels kids))
  | Comment _ | Text _ => 0
  | Root kids => list_max (List.map levels kids)
  end.

(** [n] does not exceed a declared limit. *)
Definition within (limit : option nat) (n : nat) : bool :=
  match limit with
  | Some l => (n <=? l)%nat
  | None => true
  end.

(** The test that the walker makes, [limit && n > limit], does not
    fire. *)
Definition enforced (limit : option nat) (n : nat) : bool :=
  negb (truthyNumber limit && (default 0 limit <? n)%nat).

(** Every element of the subtree passes [check] on its number of children
    against [limits.children] of its tag, and on the number of element
    levels below it against [limits.nesting] of its tag. *)
Fixpoint respects (check : option nat -> nat -> bool)
    (options : SanitizerOptions.t) (n : Node) : bool :=
  match n with
  | Element t _ kids =>
      check (childrenLimit options t) (List.length kids)
      && check (nestingLimit options t) (list_max (List.map levels kids))
      && forallb (respects check options) kids
  | Comment _ | Text _ => true
  | Root kids => forallb (respects check options) kids
  end.

(** The limits declared by the policy hold in the subtree. *)
Definition limitsRespected : SanitizerOptions.t -> Node -> bool :=
  respects within.

(** The subtree [n], standing where the walk is in [state], keeps every
    tracked ancestor within the nesting test. *)
Definition shallow (options : SanitizerOptions.t) (state : SanitizerState.t)
    (n : Node) : Prop :=
  Forall (fun f => levels n <> 0 ->
                   enforced (nestingLimit options (TagNestingFrame.key f))
                     (TagNestingFrame.value f + levels n) = true)
    (SanitizerState.tagNesting state).

(** The length check of [sanitizeTagAttributeValue] fires on [value]. *)
Definition tooLong (rule : Rule.TagAttributeValueRule) (value : string) : bool :=
  truthyNumber (Rule.maxLength rule)
  && (default 0 (Rule.maxLength rule) <? String.length value)%nat.

(** A simple-mode rule whose default, if it has one, passes its own
    length check. *)
Definition simpleRule (rule : Rule.TagAttributeValueRule) : Prop :=
  (exists cmp, Rule.mode rule = Rule.simple cmp)
  /\ (forall d, Rule.defaultValue rule = Some d -> tooLong rule d = false).

(** Rules of one tag that are all simple, under distinct attribute names
    (the keys of a JavaScript object). *)
Definition simpleRules
    (rules : option (list (string * Rule.TagAttributeValueRule))) : Prop :=
  match rules with
  | None => True
  | Some entries =>
      NoDup (List.map fst entries)
      /\ Forall (fun entry => simpleRule (snd entry)) entries
  end.

(** The value [value] of the attribute [key] goes through
    [sanitizeTagAttributeValue] under [rule] without any change to the
    element. *)
Definition settled (errorHandling : option ErrorHandling.t) (key : string)
    (rule : Rule.TagAttributeValueRule) (value : string) : Prop :=
  forall (el : Target Child),
    attrGet key (attribs el) = Some value ->
    sanitizeTagAttributeValue (TagAttribute.mk key value) rule errorHandling el
    = Returned (true, el).

(** The three ways a successful pass over one attribute leaves it. *)
Definition leftAs (errorHandling : option ErrorHandling.t) (key : string)
    (rule : Rule.TagAttributeValueRule) (value : string)
    (a a1 : list (string * string)) : Prop :=
  (a1 = a /\ settled errorHandling key rule value)
  \/ a1 = attrDelete key a
  \/ exists v, a1 = attrSet key v a /\ settled errorHandling key rule v.

(** Every attribute has a rule under which its value is settled. *)
Definition allSettled (errorHandling : option ErrorHandling.t)
    (rules : option (list (string * Rule.TagAttributeValueRule)))
    (a : list (string * string)) : Prop :=
  forall k v, attrGet k a = Some v ->
    exists r, ruleFor k rules = Some (Declared r) /\ settled errorHandling k r v.

(** On an element without the attribute [name], the handler called for
    the missing required attribute returns [true] and changes nothing. *)
Definition noDefault (errorHandling : option ErrorHandling.t) (name : string)
    (rule : Rule.TagAttributeValueRule) : Prop :=
  forall el : Target Child,
    attrGet name (attribs el) = None ->
    handleTagAttributeValueError (TagAttribute.mk name "") rule
      (slot errorHandling ErrorHandling.attributeValue) None el
    = Returned (true, el).

(** Every required attribute that is missing from [a] is one for which
    the handler does nothing. *)
Definition requiredMet (errorHandling : option ErrorHandling.t)
    (entries : list (string * Rule.TagAttributeValueRule))
    (a : list (string * string)) : Prop :=
  forall name rule,
    (name, rule) ∈ entries -> name <> "*" -> isRequired rule = true ->
    attrGet name a = None -> noDefault errorHandling name rule.

End WalkVocabulary.

Section FurtherVocabulary.
Import Tree Adapter Direct Indirect Sanitizers Walker Index.

(** No comment node anywhere in the subtree. *)
Fixpoint noComments (n : Node) : bool :=
  match n with
  | Element _ _ kids => forallb noComments kids
  | Comment _ => false
  | Text _ => true
  | Root kids => forallb noComments kids
  end.

(** Every run of [m] that returns relates the element before the run
    and the element after it by [R]. *)
Definition keeps {C A} (R : Target C -> Target C -> Prop) (m : M C A) : Prop :=
  forall el a el', m el = Returned (a, el') -> R el el'.

(** The element after has the tag and the children of the element
    before. *)
Definition sameShape {C} (el el' : Target C) : Prop :=
  tagName el' = tagName el /\ children el' = children el.

(** The element after has the attributes of the element before, but
    perhaps for [key]. *)
Definition sameBut {C} (key : string) (el el' : Target C) : Prop :=
  forall k, k <> key -> attrGet k (attribs el') = attrGet k (attribs el).

(** The rule object [rules] has a rule for the attribute [name], under
    that name or under ["*"]. *)
Definition hasRule (name : string)
    (rules : option (list (string * Rule.TagAttributeValueRule))) : bool :=
  match ruleFor name rules with
  | Some (Declared _) => true
  | _ => false
  end.

(** Every attribute of every element of the subtree has a rule, its own
    or the ["*"] one, in the rule of the tag of the element. *)
Fixpoint attributesAllowed (options : SanitizerOptions.t) (n : Node) : bool :=
  match n with
  | Element t a kids =>
      match tagRuleOf options t with
      | Some rule =>
          forallb (fun kv => hasRule (fst kv) (TagRule.attributes rule)) a
      | None => false
      end
      && forallb (attributesAllowed options) kids
  | Comment _ | Text _ => true
  | Root kids => forallb (attributesAllowed options) kids
  end.

(** The handler called for a missing required attribute either puts the
    attribute or gives the element up: the [attributeValue] strategy is
    not [discardAttribute], and under [applyDefaultValue] the rule has a
    non-empty default. *)
Definition defaultBacked (errorHandling : option ErrorHandling.t)
    (rule : Rule.TagAttributeValueRule) : bool :=
  match slot errorHandling ErrorHandling.attributeValue with
  | Some discardAttribute => false
  | Some applyDefaultValue =>
      match Rule.defaultValue rule with
      | Some d => JsString.truthy d
      | None => false
      end
  | _ => true
  end.

(** The attributes [a] hold every required attribute of [entries] whose
    rule is backed. *)
Definition requiredHeld (errorHandling : option ErrorHandling.t)
    (entries : list (string * Rule.TagAttributeValueRule))
    (a : list (string * string)) : bool :=
  forallb (fun entry =>
             String.eqb (fst entry) "*"
             || negb (isRequired (snd entry))
             || negb (defaultBacked errorHandling (snd entry))
             || attrHas (fst entry) a)
    entries.

(** Every element of the subtree holds the required attributes of the
    rule of its tag, those with a backed rule. *)
Fixpoint requiredPresent (options : SanitizerOptions.t) (n : Node) : bool :=
  match n with
  | Element t a kids =>
      match tagRuleOf options t with
      | Some rule =>
          match TagRule.attributes rule with
          | Some entries =>
              requiredHeld (SanitizerOptions.errorHandling options) entries a
          | None => true
          end
      | None => false
      end
      && forallb (requiredPresent options) kids
  | Comment _ | Text _ => true
  | Root kids => forallb (requiredPresent options) kids
  end.

(** A slot that makes its handler throw: not set, or [throwError]. *)
Definition throwing (mode : option ErrorHandlingMode) : Prop :=
  mode = None \/ mode = Some throwError.

(** Every slot of the policy makes its handler throw. *)
Definition strict (errorHandling : option ErrorHandling.t) : Prop :=
  throwing (slot errorHandling ErrorHandling.attribute)
  /\ throwing (slot errorHandling ErrorHandling.attributeCollectionValueTooMany)
  /\ throwing (slot errorHandling ErrorHandling.attributeRecordValue)
  /\ throwing (slot errorHandling ErrorHandling.attributeRecordValueDuplicate)
  /\ throwing (slot errorHandling ErrorHandling.attributeSetValue)
  /\ throwing (slot errorHandling ErrorHandling.attributeValue)
  /\ throwing (slot errorHandling ErrorHandling.attributeValueTooLong)
  /\ throwing (slot errorHandling ErrorHandling.tag)
  /\ throwing (slot errorHandling ErrorHandling.tagChildren)
  /\ throwing (slot errorHandling ErrorHandling.tagNesting).

(** It is a decidable property of the policy. *)
#[global] Instance strict_dec eh : Decision (strict eh).
Proof. unfold strict, throwing. apply _. Defined.

(** Every attribute rule of the entries is in simple mode. *)
Definition simpleModes
    (rules : option (list (string * Rule.TagAttributeValueRule))) : Prop :=
  match rules with
  | None => True
  | Some entries =>
      Forall (fun entry => exists cmp, Rule.mode (snd entry) = Rule.simple cmp)
        entries
  end.

(** The node without its comments, at any depth, unless they are
    kept. *)
Fixpoint stripComments (keep : bool) (n : Node) : list Node :=
  match n with
  | Element t a kids =>
      [Element t a (concat (List.map (stripComments keep) kids))]
  | Comment _ => if keep then [n] else []
  | Text _ => [n]
  | Root kids => [Root (concat (List.map (stripComments keep) kids))]
  end.

(** A duplicate strategy after which the pair at hand is never added on
    top of an earlier one with its key: every strategy but
    [keepDuplicates], and but [applyDefaultValue] and
    [discardAttribute], which the duplicate handler passes on to the
    value handler and which make it go on with the pair. *)
Definition dedupes (mode : option ErrorHandlingMode) : Prop :=
  mode <> Some keepDuplicates /\ mode <> Some applyDefaultValue
  /\ mode <> Some discardAttribute.
(** The code unit [c] does not occur in [s]. *)
Fixpoint freeOf (c : ascii) (s : string) : bool :=
  match s with
  | EmptyString => true
  | String x s' => negb (Ascii.eqb x c) && freeOf c s'
  end.

(** The first code unit of [s] is not white space. *)
Definition startsClean (s : string) : bool :=
  match s with
  | EmptyString => false
  | String x _ => negb (JsString.isWhiteSpace x)
  end.

(** The last code unit of [s] is not white space. *)
Fixpoint endsClean (s : string) : bool :=
  match s with
  | EmptyString => false
  | String x EmptyString => negb (JsString.isWhiteSpace x)
  | String _ s' => endsClean s'
  end.

(** A token of a set whose delimiter is the code unit [c]: trimmed, not
    empty, without [c]. *)
Definition token (c : ascii) (t : string) : Prop :=
  JsString.trim t = t /\ t <> "" /\ freeOf c t = true.

(** What a tree shows of its nodes, the attributes apart: where an
    element opens and closes, with its tag, and the data of a text and
    of a comment. *)
Inductive Mark : Type :=
| Opens (tag : string)
| Closes (tag : string)
| Says (data : string)
| Notes (data : string).

(** The marks of a subtree, in document order. *)
Fixpoint marks (n : Node) : list Mark :=
  match n with
  | Element t _ kids => Opens t :: concat (List.map marks kids) ++ [Closes t]
  | Comment d => [Notes d]
  | Text d => [Says d]
  | Root kids => concat (List.map marks kids)
  end.

(** The marks of the trees of a list, one after the other. *)
Definition marksOf (nodes : list Node) : list Mark :=
  concat (List.map marks nodes).

(** The length of the parts with one separator after each. *)
Definition span (sep : string) (parts : list string) : nat :=
  list_sum (List.map (fun p => String.length p + String.length sep) parts).

(** The rules of one tag stand under distinct names (they are the
    entries of an object), and the default of each, if it has one,
    passes the length check of the rule. *)
Definition defaultsFit
    (rules : option (list (string * Rule.TagAttributeValueRule))) : Prop :=
  match rules with
  | None => True
  | Some entries =>
      NoDup (List.map fst entries)
      /\ Forall (fun entry =>
                   forall d, Rule.defaultValue (snd entry) = Some d ->
                             tooLong (snd entry) d = false)
           entries
  end.

(** The value of the attribute [k] in [a], if there is one and if
    [rules] has a rule for [k], passes the length check of the rule. *)
Definition fitsAt (rules : option (list (string * Rule.TagAttributeValueRule)))
    (a : list (string * string)) (k : string) : bool :=
  match attrGet k a, ruleFor k rules with
  | Some v, Some (Declared r) => negb (tooLong r v)
  | _, _ => true
  end.

(** Every attribute value of every element of the subtree passes the
    length check of its rule. *)
Fixpoint lengthsKept (options : SanitizerOptions.t) (n : Node) : bool :=
  match n with
  | Element t a kids =>
      match tagRuleOf options t with
      | Some rule => forallb (fitsAt (TagRule.attributes rule) a) (attrKeys a)
      | None => true
      end
      && forallb (lengthsKept options) kids
  | Comment _ | Text _ => true
  | Root kids => forallb (lengthsKept options) kids
  end.

(** Every run of [m] returns. *)
Definition returns {C A} (m : M C A) : Prop :=
  forall el, exists r, m el = Returned r.

(** A call that returns, or else throws the [TypeError] of a method of
    [Object.prototype] that [matchComparator] has called. *)
Definition fine {A} (o : Outcome A) : Prop :=
  (exists a, o = Returned a) \/ o = Thrown Comparators.uncallable.

(** Every run of [m] is fine. *)
Definition calm {C A} (m : M C A) : Prop := forall el, fine (m el).

(** The strategies of [TagErrorHandlingMode], [throwError] apart. *)
Definition tagQuiet (mode : option ErrorHandlingMode) : bool :=
  match mode with
  | Some discardElement | Some unwrapElement => true
  | _ => false
  end.

(** The strategies of [TagAttributeErrorHandlingMode], [throwError]
    apart. *)
Definition attributeQuiet (mode : option ErrorHandlingMode) : bool :=
  match mode with
  | Some discardAttribute => true
  | _ => tagQuiet mode
  end.

(** The strategies of [TagAttributeValueErrorHandlingMode], [throwError]
    apart. *)
Definition valueQuiet (mode : option ErrorHandlingMode) : bool :=
  match mode with
  | Some applyDefaultValue => true
  | _ => attributeQuiet mode
  end.

(** The strategies of the types of the other slots, [throwError]
    apart. *)
Definition tooManyQuiet (mode : option ErrorHandlingMode) : bool :=
  match mode with Some dropExtra => true | _ => valueQuiet mode end.

Definition recordValueQuiet (mode : option ErrorHandlingMode) : bool :=
  match mode with Some dropPair => true | _ => valueQuiet mode end.

Definition duplicateQuiet (mode : option ErrorHandlingMode) : bool :=
  match mode with
  | Some dropDuplicates | Some keepDuplicates | Some keepFirst
  | Some keepLast => true
  | _ => valueQuiet mode
  end.

Definition setValueQuiet (mode : option ErrorHandlingMode) : bool :=
  match mode with Some dropValue => true | _ => valueQuiet mode end.

Definition tooLongQuiet (mode : option ErrorHandlingMode) : bool :=
  match mode with Some trimExcess => true | _ => valueQuiet mode end.

Definition childrenQuiet (mode : option ErrorHandlingMode) : bool :=
  match mode with
  | Some discardElement | Some discardFirsts | Some discardLasts => true
  | _ => false
  end.

Definition nestingQuiet (mode : option ErrorHandlingMode) : bool :=
  match mode with Some discardElement => true | _ => false end.

(** Every slot of the policy is set, to a strategy that the type of the
    slot allows and that is not [throwError]. *)
Definition lenient (errorHandling : option ErrorHandling.t) : bool :=
  attributeQuiet (slot errorHandling ErrorHandling.attribute)
  && tooManyQuiet
       (slot errorHandling ErrorHandling.attributeCollectionValueTooMany)
  && recordValueQuiet (slot errorHandling ErrorHandling.attributeRecordValue)
  && duplicateQuiet
       (slot errorHandling ErrorHandling.attributeRecordValueDuplicate)
  && setValueQuiet (slot errorHandling ErrorHandling.attributeSetValue)
  && valueQuiet (slot errorHandling ErrorHandling.attributeValue)
  && tooLongQuiet (slot errorHandling ErrorHandling.attributeValueTooLong)
  && tagQuiet (slot errorHandling ErrorHandling.tag)
  && childrenQuiet (slot errorHandling ErrorHandling.tagChildren)
  && nestingQuiet (slot errorHandling ErrorHandling.tagNesting).

(** The attributes of every element of the subtree stand under distinct
    names: they are the keys of an object. *)
Fixpoint keyed (n : Node) : bool :=
  match n with
  | Element _ a kids =>
      bool_decide (NoDup (attrKeys a)) && forallb keyed kids
  | Comment _ | Text _ => true
  | Root kids => forallb keyed kids
  end.

(** A pair of a record whose entries are separated by the code unit
    [c1] and whose keys and values are separated by the code unit [c2]:
    the key and the value are tokens for both. *)
Definition cleanPair (c1 c2 : ascii) (e : TagAttributeValueEntry.t) : Prop :=
  (token c1 (TagAttributeValueEntry.key e)
   /\ token c2 (TagAttributeValueEntry.key e))
  /\ token c1 (TagAttributeValueEntry.val e)
  /\ token c2 (TagAttributeValueEntry.val e).

End FurtherVocabulary.

(* ================================================================== *)
(** * Sample policies and trees                                        *)
(* ================================================================== *)

Module Samples.
Import Tree.

(** No slot set: every handler throws. *)
Definition eh0 : ErrorHandling.t := ErrorHandling.empty.

(** Options with an [errorHandling] and a [tags] field. *)
Definition opts (eh : ErrorHandling.t) (tags : gmap string TagRule.t)
    (top : option TagLimits.t) (pc : option bool) : SanitizerOptions.t :=
  SanitizerOptions.mk (Some eh) pc (Some tags) top.

(** The [tags] object with the given entries. *)
Definition tagsOf (l : list (string * TagRule.t)) : gmap string TagRule.t :=
  list_to_map l.

(** The tag rule [{}]. *)
Definition plain : TagRule.t := TagRule.mk None None.

(** A store: [0] is the root with children [1], [2], [3]; [2] has
    children [4], [5]; [4] has the child [6]. *)
Definition st0 : gmap nat Dom.NodeRec := list_to_map
  [(0, Dom.mkNode None None None [1;2;3]);
   (1, Dom.mkNode (Some 0) None (Some 2) []);
   (2, Dom.mkNode (Some 0) (Some 1) (Some 3) [4;5]);
   (3, Dom.mkNode (Some 0) (Some 2) None []);
   (4, Dom.mkNode (Some 2) None (Some 5) [6]);
   (5, Dom.mkNode (Some 2) (Some 4) None []);
   (6, Dom.mkNode (Some 4) None None [])].

(** A policy with no [throwError] terminal: every slot is set to a
    strategy of its own level. *)
Definition quiet : ErrorHandling.t :=
  ErrorHandling.mk (Some discardAttribute) (Some dropExtra) (Some dropPair)
    (Some keepFirst) (Some dropValue) (Some applyDefaultValue)
    (Some trimExcess) (Some discardElement) (Some discardLasts)
    (Some discardElement).

(** [div] with a [class] of any value, ten characters at most, and [b]
    without attributes. *)
Definition classPolicy : SanitizerOptions.t :=
  SanitizerOptions.mk (Some quiet) None
    (Some {[ "div" :=
               TagRule.mk
                 (Some [("class", Rule.mk None (Some 10)
                                    (Rule.simple (Comparators.CmpString "*"))
                                    None)])
                 None;
             "b" := TagRule.mk None None ]})
    None.

(** The quotation mark. *)
Definition quote : string := String (Ascii.ascii_of_nat 34) EmptyString.

(** [<div class="a-very-long-class" onclick="x">hi<script>y</script><b></b></div>] *)
Definition dirtyHtml : string :=
  "<div class=" ++ quote ++ "a-very-long-class" ++ quote ++ " onclick="
    ++ quote ++ "x" ++ quote ++ ">hi<script>y</script><b></b></div>".

Definition dirty : list Node :=
  [Element "div" [("class", "a-very-long-class"); ("onclick", "x")]
     [Text "hi"; Element "script" [] [Text "y"]; Element "b" [] []]].

(** [<div class="a-very-lon">hi<b></b></div>] *)
Definition cleanHtml : string :=
  "<div class=" ++ quote ++ "a-very-lon" ++ quote ++ ">hi<b></b></div>".

Definition clean : list Node :=
  [Element "div" [("class", "a-very-lon")] [Text "hi"; Element "b" [] []]].

(** A parser and a serializer that agree with parse5 on the two strings
    and the two trees involved. *)
Definition parseTwo (html : string) : list Node :=
  if String.eqb html cleanHtml then clean else dirty.

Definition serializeTwo (kids : list Node) : string :=
  match kids with
  | [Element _ [_] _] => cleanHtml
  | _ => dirtyHtml
  end.

(** [id] is required, its default is longer than its [maxLength]. *)
Definition longDefault : SanitizerOptions.t :=
  SanitizerOptions.mk (Some quiet) None
    (Some {[ "div" :=
               TagRule.mk
                 (Some [("id", Rule.mk (Some "default-id") (Some 5)
                                 (Rule.simple (Comparators.CmpString "*"))
                                 (Some true))])
                 None ]})
    None.

(** Unknown tags are unwrapped. *)
Definition unwrapping : SanitizerOptions.t :=
  SanitizerOptions.mk
    (Some (ErrorHandling.mk (Some discardAttribute) (Some dropExtra)
             (Some dropPair) (Some keepFirst) (Some dropValue)
             (Some applyDefaultValue) (Some trimExcess) (Some unwrapElement)
             (Some discardLasts) (Some discardElement)))
    None (Some {[ "div" := TagRule.mk None None ]}) None.

(** [div] takes at most one child and one level of elements below it;
    unknown tags are unwrapped. *)
Definition limited : SanitizerOptions.t :=
  SanitizerOptions.mk
    (SanitizerOptions.errorHandling unwrapping) None
    (Some {[ "div" := TagRule.mk None (Some (TagLimits.mk (Some 1) (Some 1)));
             "b" := TagRule.mk None None ]})
    None.

(** [div] takes no child; no slot selects [unwrapElement]. *)
Definition childless : SanitizerOptions.t :=
  SanitizerOptions.mk (Some quiet) None
    (Some {[ "div" := TagRule.mk None (Some (TagLimits.mk (Some 0) None));
             "b" := TagRule.mk None None ]})
    None.

(** [<div><!--a--><b><!--b-->x</b></div><!--c-->] *)
Definition commented : list Node :=
  [Element "div" [] [Comment "a"; Element "b" [] [Comment "b"; Text "x"]];
   Comment "c"].

(** At most two top-level nodes and two levels of elements; no slot
    selects [unwrapElement]. *)
Definition shallowPolicy : SanitizerOptions.t :=
  SanitizerOptions.mk (Some quiet) None
    (Some {[ "div" := TagRule.mk None None; "b" := TagRule.mk None None ]})
    (Some (TagLimits.mk (Some 2) (Some 1))).

(** [<div><b><b></b></b></div><b></b><div></div>] *)
Definition deep : list Node :=
  [Element "div" [] [Element "b" [] [Element "b" [] []]];
   Element "b" [] []; Element "div" [] []].

(** No slot set, comments kept: [div] with any [class], and [b]. *)
Definition strictPolicy : SanitizerOptions.t :=
  SanitizerOptions.mk None (Some true)
    (Some {[ "div" :=
               TagRule.mk
                 (Some [("class", Rule.mk None None
                                    (Rule.simple (Comparators.CmpString "*"))
                                    None)])
                 None;
             "b" := TagRule.mk None None ]})
    None.

(** [<div class="c"><!--a--><b>x</b></div>] *)
Definition tidy : list Node :=
  [Element "div" [("class", "c")] [Comment "a"; Element "b" [] [Text "x"]]].

End Samples.

(* ================================================================== *)
(** * Properties                                                       *)
(* ================================================================== *)

(* ------------------------------------------------------------------ *)
(** *** The model on the examples of the repository                    *)
(* ------------------------------------------------------------------ *)

Example split_ex1 : JsString.split "a,b,,c" "," = ["a"; "b"; ""; "c"].
Proof. reflexivity. Qed.
Example split_ex2 : JsString.split "" "," = [""].
Proof. reflexivity. Qed.
Example split_ex3 : JsString.split "a::b::" "::" = ["a"; "b"; ""].
Proof. reflexivity. Qed.
Example split_ex4 : JsString.split "aaa" "aa" = [""; "a"].
Proof. reflexivity. Qed.
Example split_ex5 : JsString.split "abc" "" = ["a"; "b"; "c"].
Proof. reflexivity. Qed.
Example trim_ex : JsString.trim "  a b  " = "a b".
Proof. reflexivity. Qed.
Example set_ex : JsString.arrayFromSet ["a"; "b"; "a"; "c"; "b"] = ["a"; "b"; "c"].
Proof. reflexivity. Qed.
Example join_ex : JsString.join ["a"; "b"] ", " = "a, b".
Proof. reflexivity. Qed.
Example ofNat_ex : JsString.ofNat 12 = "12" /\ JsString.ofNat 0 = "0".
Proof. split; reflexivity. Qed.

Example parseRecord_ex :
  Helpers.parseRecord " id : 1 ; name:test;bad;a:b:c; :x;id:2 " ";" ":" =
  [TagAttributeValueEntry.mk "id" "1"; TagAttributeValueEntry.mk "name" "test";
   TagAttributeValueEntry.mk "id" "2"].
Proof. reflexivity. Qed.
Example parseSet_ex : Helpers.parseSet "  btn  btn-primary btn " " " = ["btn"; "btn-primary"].
Proof. reflexivity. Qed.

(** The scenarios of [tests/index.test.ts] and [tests/walker.test.ts], on
    the parsed trees. *)
Module Scenarios.
Import Tree Samples.

Example sc1 :
  Index.sanitizeTree
    [Element "div" [] [Text "Hello "; Element "strong" [] [Text "World"]]]
    (opts eh0 (tagsOf [("div", plain); ("strong", plain)]) None None)
  = Returned
      [Element "div" [] [Text "Hello "; Element "strong" [] [Text "World"]]].
Proof. vm_compute. reflexivity. Qed.

Example sc2 :
  Index.sanitizeTree
    [Element "div" []
       [Text "Hello "; Element "script" [] [Text "x"]; Text " World"]]
    (opts (ErrorHandling.mk None None None None None None None
             (Some discardElement) None None)
       (tagsOf [("div", plain)]) None None)
  = Returned [Element "div" [] [Text "Hello "; Text " World"]].
Proof. vm_compute. reflexivity. Qed.

Example sc3 :
  Index.sanitizeTree
    [Element "div" [("class", "test"); ("onclick", "x")] [Text "hi"]]
    (opts (ErrorHandling.mk (Some discardAttribute) None None None None None
             None None None None)
       (tagsOf [("div",
                 TagRule.mk
                   (Some [("class",
                           Rule.mk None None
                             (Rule.simple (Comparators.CmpString "*")) None)])
                   None)])
       None None)
  = Returned [Element "div" [("class", "test")] [Text "hi"]].
Proof. vm_compute. reflexivity. Qed.

Example sc4 :
  Index.sanitizeTree
    [Element "div" [] [Text "1"]; Element "div" [] [Text "2"];
     Element "div" [] [Text "3"]]
    (opts (ErrorHandling.mk None None None None None None None None
             (Some discardLasts) None)
       (tagsOf [("div", plain)]) (Some (TagLimits.mk (Some 2) None)) None)
  = Returned [Element "div" [] [Text "1"]; Element "div" [] [Text "2"]].
Proof. vm_compute. reflexivity. Qed.

Example sc5 :
  Index.sanitizeTree
    [Element "div" [] [Comment "c"; Text "Hi"]]
    (opts eh0 (tagsOf [("div", plain)]) None (Some false))
  = Returned [Element "div" [] [Text "Hi"]].
Proof. vm_compute. reflexivity. Qed.

Example sc6 :
  Index.sanitizeTree
    [Element "div" [] [Text "Content"]]
    (opts (ErrorHandling.mk None None None None None (Some applyDefaultValue)
             None None None None)
       (tagsOf [("div",
                 TagRule.mk
                   (Some [("id",
                           Rule.mk (Some "default-id") None
                             (Rule.simple (Comparators.CmpString "*"))
                             (Some true))])
                   None)])
       None None)
  = Returned [Element "div" [("id", "default-id")] [Text "Content"]].
Proof. vm_compute. reflexivity. Qed.

Example sc7 :
  Index.sanitizeTree
    [Element "foo" [] [Element "bar" [] []]]
    (opts (ErrorHandling.mk None None None None None None None
             (Some unwrapElement) None None)
       (tagsOf []) None None)
  = Returned [Element "bar" [] []].
Proof. vm_compute. reflexivity. Qed.

Example sc8 :
  Index.sanitizeTree
    [Element "div" [] [Element "span" [] []]]
    (opts eh0 (tagsOf [("div", plain)]) None None)
  = Thrown "Tag span is not allowed".
Proof. vm_compute. reflexivity. Qed.
End Scenarios.

(** [unwrapInParent] on the sample store: the children of the root, and
    the sibling pointers, after unwrapping node [2]; a childless node is
    just detached. *)
Module DomScenarios.
Import Dom Samples.

Example ex1 : childrenOf (unwrapInParent 2 st0) 0 = [1; 4; 5; 3].
Proof. vm_compute. reflexivity. Qed.

Example ex2 :
  map (fun i => (prevOf (unwrapInParent 2 st0) i,
                 nextOf (unwrapInParent 2 st0) i)) [1; 4; 5; 3; 2]
  = [(None, Some 4); (Some 1, Some 5); (Some 4, Some 3); (Some 5, None);
     (None, None)].
Proof. vm_compute. reflexivity. Qed.

Example ex3 : childrenOf (unwrapInParent 3 st0) 0 = [1; 2].
Proof. vm_compute. reflexivity. Qed.

End DomScenarios.

Section ComparatorProperties.
Import Comparators.

(** C7.  [matchComparator] is a total function of the comparator and the
    value.  The wildcard test comes first: the string ["*"] accepts every
    value, and is never compared with the value as an exact string.  A
    callback decides by its result, a regular expression by its [test],
    any other string by equality, a list by membership, [true] accepts
    exactly the empty string, [false] exactly the non-empty strings, and
    whatever lies outside the declared comparators is answered [false].
    A regular expression with the [g] or the [y] flag decides by its
    [test] from where its [lastIndex] stands. *)
Theorem matchComparator_total_and_ordered :
  (forall value, matchComparator (CmpString "*") value = true)
  /\ (forall f value, matchComparator (CmpFunction f) value = f value)
  /\ (forall test value, matchComparator (CmpRegExp test) value = test value)
  /\ (forall s value,
        matchComparator (CmpString s) value = String.eqb s "*" || String.eqb value s)
  /\ (forall items value,
        matchComparator (CmpArray items) value = true <-> value ∈ items)
  /\ (forall value, matchComparator (CmpBoolean true) value = true <-> value = "")
  /\ (forall value, matchComparator (CmpBoolean false) value = true <-> value <> "")
  /\ (forall t value, matchComparator (CmpOther t) value = false)
  /\ (exists value, value <> "*" /\ matchComparator (CmpString "*") value = true)
  /\ (forall test lastIndex value,
        matchComparator (CmpRegExpFrom test lastIndex) value
        = test lastIndex value).
Proof.
  split; [reflexivity |]. split; [reflexivity |]. split; [reflexivity |].
  split. { intros s value. simpl. destruct (String.eqb s "*"); reflexivity. }
  split. { intros items value. simpl. apply bool_decide_eq_true. }
  split. { intros value. simpl. apply String.eqb_eq. }
  split. { intros value. simpl. rewrite negb_true_iff. apply String.eqb_neq. }
  split. { reflexivity. }
  split; [| reflexivity].
  exists "a". split; [discriminate | reflexivity].
Qed.

End ComparatorProperties.

(** Unfolding of the monad of computations on the element under visit. *)
Ltac munfold :=
  unfold mbind, mret, M_bind, M_ret, bind, ret, throw, get, modify in *.

Section HandlerProperties.
Import Tree Adapter Direct Indirect.
Context {C : Type}.

(** What [applyDefaultValue] does: the guard [if (rule.defaultValue)]
    lets a non-empty default through and sends an empty or absent one to
    [delete]. *)
Lemma handleTagAttributeValueError_applyDefaultValue
    (attribute : TagAttribute.t) (rule : Rule.TagAttributeValueRule)
    (msg : option string) (el : Target C) :
  handleTagAttributeValueError attribute rule (Some applyDefaultValue) msg el =
  Returned (true,
    match Rule.defaultValue rule with
    | Some (String c d) =>
        withAttribs el
          (attrSet (TagAttribute.key attribute) (String c d) (attribs el))
    | Some EmptyString | None =>
        withAttribs el (attrDelete (TagAttribute.key attribute) (attribs el))
    end).
Proof.
  unfold handleTagAttributeValueError, setAttrib, deleteAttrib. munfold.
  destruct (Rule.defaultValue rule) as [[|c d]|]; reflexivity.
Qed.

(** C5.  With [applyDefaultValue], a rule whose [defaultValue] is the
    empty string does not get that default applied: the attribute is
    deleted, as if the rule had no default.  So on an element
    [<input checked="no">] the handler leaves [<input>], not
    [<input checked="">]. *)
Theorem applyDefaultValue_empty_default_is_deleted :
  (forall (attribute : TagAttribute.t) maxLength mode required msg (el : Target C),
     handleTagAttributeValueError attribute
       (Rule.mk (Some "") maxLength mode required) (Some applyDefaultValue) msg el
     = Returned (true,
         withAttribs el (attrDelete (TagAttribute.key attribute) (attribs el))))
  /\ (forall kids : list C,
        handleTagAttributeValueError (TagAttribute.mk "checked" "no")
          (Rule.mk (Some "") None (Rule.simple (Comparators.CmpBoolean true)) None)
          (Some applyDefaultValue) None
          (mkTarget (Some "input") [("checked", "no")] kids InParent)
        = Returned (true, mkTarget (Some "input") [] kids InParent)).
Proof.
  split; intros; rewrite handleTagAttributeValueError_applyDefaultValue;
    reflexivity.
Qed.

End HandlerProperties.

Section LimitGuards.
Import Tree Sanitizers Walker Index.

(** C6.  A limit of [0] is not enforced.  With [maxLength: 0] the length
    check of [sanitizeTagAttributeValue] is skipped whatever the value:
    the call is the dispatch on the mode alone, and a three-letter value
    under [trimExcess] stays as it is.  With [topLevelLimits.children: 0]
    the children check of [sanitizeHtml] is skipped: the fragment is
    walked whatever its number of children, and under [discardElement] a
    fragment of one allowed element is returned whole instead of the
    empty string. *)
Theorem zero_limit_is_not_enforced :
  (forall C attribute defaultValue mode required errorHandling (el : Target C),
     sanitizeTagAttributeValue attribute
       (Rule.mk defaultValue (Some 0) mode required) errorHandling el
     = sanitizeByMode attribute
         (Rule.mk defaultValue (Some 0) mode required) errorHandling el)
  /\ sanitizeTagAttributeValue (TagAttribute.mk "title" "abc")
       (Rule.mk None (Some 0) (Rule.simple (Comparators.CmpString "*")) None)
       (Some (ErrorHandling.mk None None None None None None (Some trimExcess)
                None None None))
       (mkTarget (C := Child) (Some "p") [("title", "abc")] [] InParent)
     = Returned (true, mkTarget (Some "p") [("title", "abc")] [] InParent)
  /\ (forall roots errorHandling preserveComments tags nesting,
        let options :=
          SanitizerOptions.mk errorHandling preserveComments tags
            (Some (TagLimits.mk (Some 0) nesting)) in
        sanitizeFragment roots options
        = match walkChildren (withWalks options roots) (SanitizerState.mk 0 []) with
          | Thrown msg => Thrown msg
          | Returned kids => Returned (Some kids)
          end)
  /\ sanitizeFragment [Element "div" [] []]
       (SanitizerOptions.mk
          (Some (ErrorHandling.mk None None None None None None None None
                   (Some discardElement) None))
          None (Some {[ "div" := TagRule.mk None None ]})
          (Some (TagLimits.mk (Some 0) None)))
     = Returned (Some [Element "div" [] []]).
Proof.
  split; [reflexivity |]. split; [reflexivity |]. split; [reflexivity |].
  vm_compute. reflexivity.
Qed.

(** For comparison, a positive [maxLength] is enforced: a longer value
    reaches the [valueTooLong] handler. *)
Lemma positive_maxLength_is_enforced
    C attribute defaultValue n mode required errorHandling (el : Target C) :
  (S n < String.length (TagAttribute.value attribute))%nat ->
  sanitizeTagAttributeValue attribute
    (Rule.mk defaultValue (Some (S n)) mode required) errorHandling el
  = (ok ← Direct.handleTagAttributeValueTooLongError attribute
            (Rule.mk defaultValue (Some (S n)) mode required)
            (slot errorHandling ErrorHandling.attributeValueTooLong) None;
     if negb ok then mret false
     else
       el ← get;
       match attrGet (TagAttribute.key attribute) (attribs el) with
       | None => mret true
       | Some value =>
           if negb (JsString.truthy value) then mret true
           else sanitizeByMode (TagAttribute.mk (TagAttribute.key attribute) value)
                  (Rule.mk defaultValue (Some (S n)) mode required) errorHandling
       end) el.
Proof.
  intros H. apply Nat.ltb_lt in H.
  unfold sanitizeTagAttributeValue. cbn [Rule.maxLength truthyNumber andb].
  change (default 0 (Some (S n))) with (S n). rewrite H. reflexivity.
Qed.

End LimitGuards.

Section RecordDuplicateFacts.
Import Tree Adapter Direct Indirect Sanitizers Comparators.
Context {C : Type}.

(** The four strategies of the duplicate handler, on any record. *)
Lemma handleDuplicate_native (attribute : TagAttribute.t) (key : string)
    (record : list TagAttributeValueEntry.t) (rule : Rule.TagAttributeValueRule)
    (msg : option string) (el : Target C) :
  handleTagAttributeRecordValueDuplicateError attribute key record rule
    (Some dropDuplicates) msg el
  = Returned (DuplicateResult.mk true false (withoutKey key record), el)
  /\ handleTagAttributeRecordValueDuplicateError attribute key record rule
       (Some keepDuplicates) msg el
     = Returned (DuplicateResult.mk true true record, el)
  /\ handleTagAttributeRecordValueDuplicateError attribute key record rule
       (Some keepFirst) msg el
     = Returned (DuplicateResult.mk true false record, el)
  /\ handleTagAttributeRecordValueDuplicateError attribute key record rule
       (Some keepLast) msg el
     = Returned (DuplicateResult.mk true true (withoutKey key record), el).
Proof. repeat split. Qed.

(** No entry of [withoutKey key record] has the key [key]. *)
Lemma withoutKey_absent (key : string) (record : list TagAttributeValueEntry.t) :
  key ∉ List.map TagAttributeValueEntry.key (withoutKey key record).
Proof.
  unfold withoutKey. induction record as [|e record IH]; simpl.
  - apply not_elem_of_nil.
  - destruct (String.eqb (TagAttributeValueEntry.key e) key) eqn:E; simpl.
    + exact IH.
    + apply not_elem_of_cons. split; [| exact IH].
      intros ->. by rewrite String.eqb_refl in E.
Qed.

(** Entries with another key are kept by [withoutKey], in order. *)
Lemma withoutKey_others (key : string) (record : list TagAttributeValueEntry.t) :
  withoutKey key record
  = List.filter (fun e => bool_decide (TagAttributeValueEntry.key e <> key)) record.
Proof.
  unfold withoutKey. induction record as [|e record IH]; simpl; [reflexivity |].
  rewrite IH.
  destruct (String.eqb_spec (TagAttributeValueEntry.key e) key) as [E|E]; simpl.
  - rewrite bool_decide_eq_false_2; [reflexivity | tauto].
  - rewrite bool_decide_eq_true_2; [reflexivity | exact E].
Qed.

Lemma outputSeen_withoutKey seen key output :
  outputSeen seen output -> outputSeen seen (withoutKey key output).
Proof.
  unfold outputSeen, withoutKey. intros H.
  induction H as [|e output He H IH]; simpl; [constructor |].
  destruct (negb _); [constructor |]; assumption.
Qed.

Lemma outputSeen_push seen key val output :
  outputSeen seen output ->
  outputSeen ({[key]} ∪ seen) (output ++ [TagAttributeValueEntry.mk key val]).
Proof.
  unfold outputSeen. intros H. apply Forall_app. split.
  - eapply Forall_impl; [exact H |]. intros e He. set_solver.
  - constructor; [simpl; set_solver | constructor].
Qed.

End RecordDuplicateFacts.

Section DuplicateOutputs.
Import Tree Adapter Direct Indirect Sanitizers Comparators Helpers.

Lemma othersThan_app key l1 l2 :
  othersThan key (l1 ++ l2) = othersThan key l1 ++ othersThan key l2.
Proof. unfold othersThan. apply List.filter_app. Qed.

Lemma othersThan_absent key l :
  key ∉ keysOf l -> othersThan key l = l.
Proof.
  unfold othersThan, keysOf. induction l as [|x l IH]; simpl; [done |].
  intros H. apply not_elem_of_cons in H as [Hne H].
  rewrite bool_decide_eq_true_2 by congruence. by rewrite IH.
Qed.

Lemma keysOf_app l1 l2 : keysOf (l1 ++ l2) = keysOf l1 ++ keysOf l2.
Proof. unfold keysOf. apply List.map_app. Qed.

Lemma lasts_snoc (l : list TagAttributeValueEntry.t) (e : TagAttributeValueEntry.t) :
  lasts (l ++ [e]) = othersThan (TagAttributeValueEntry.key e) (lasts l) ++ [e].
Proof.
  induction l as [|x l IH]; [reflexivity |].
  cbn [app lasts]. rewrite keysOf_app. cbn [keysOf List.map].
  destruct (decide (TagAttributeValueEntry.key x = TagAttributeValueEntry.key e))
    as [Heq | Hne].
  - rewrite (bool_decide_eq_true_2 (_ ∈ _ ++ _)).
    2:{ apply elem_of_app. right. rewrite Heq. apply list_elem_of_here. }
    rewrite IH. f_equal.
    destruct (bool_decide _); [reflexivity |].
    unfold othersThan. cbn [List.filter].
    by rewrite bool_decide_eq_false_2 by (intros H; by apply H).
  - destruct (decide (TagAttributeValueEntry.key x ∈ keysOf l)) as [Hin | Hnin].
    + rewrite (bool_decide_eq_true_2 (_ ∈ _ ++ _)) by (apply elem_of_app; by left).
      rewrite (bool_decide_eq_true_2 (_ ∈ keysOf l)) by done.
      exact IH.
    + rewrite (bool_decide_eq_false_2 (_ ∈ _ ++ _)).
      2:{ intros [H | H]%elem_of_app; [done |].
          apply list_elem_of_singleton in H. done. }
      rewrite (bool_decide_eq_false_2 (_ ∈ keysOf l)) by done.
      rewrite IH. unfold othersThan at 2. cbn [List.filter].
      by rewrite bool_decide_eq_true_2 by done.
Qed.

Lemma lasts_keys (l : list TagAttributeValueEntry.t) (k : string) :
  k ∈ keysOf (lasts l) -> k ∈ keysOf l.
Proof.
  induction l as [|x l IH]; [done |]. cbn [lasts keysOf List.map].
  fold (keysOf l). destruct (bool_decide _).
  - intros H. apply list_elem_of_further. by apply IH.
  - cbn [List.map]. fold (keysOf (lasts l)).
    intros [-> | H]%elem_of_cons; [apply list_elem_of_here |].
    apply list_elem_of_further. by apply IH.
Qed.

Lemma firstsFrom_snoc (l : list TagAttributeValueEntry.t)
    (e : TagAttributeValueEntry.t) :
  forall before,
    firstsFrom before (l ++ [e])
    = firstsFrom before l
      ++ (if bool_decide (TagAttributeValueEntry.key e ∈ before ++ keysOf l)
          then [] else [e]).
Proof.
  induction l as [|x l IH]; intros before; cbn [app firstsFrom keysOf List.map].
  - rewrite app_nil_r. by destruct (bool_decide _).
  - destruct (decide (TagAttributeValueEntry.key x ∈ before)) as [Hin | Hnin].
    + rewrite (bool_decide_eq_true_2 _ Hin). rewrite IH. f_equal.
      apply (f_equal (fun b : bool => if b then [] else [e])).
      apply bool_decide_ext. fold (keysOf l).
      repeat (rewrite elem_of_app || rewrite elem_of_cons).
      intuition congruence.
    + rewrite (bool_decide_eq_false_2 _ Hnin). rewrite IH.
      cbn [app]. f_equal. f_equal.
      apply (f_equal (fun b : bool => if b then [] else [e])).
      apply bool_decide_ext. fold (keysOf l).
      repeat (rewrite elem_of_app || rewrite elem_of_cons).
      intuition congruence.
Qed.

Lemma firsts_snoc (l : list TagAttributeValueEntry.t)
    (e : TagAttributeValueEntry.t) :
  firsts (l ++ [e])
  = if bool_decide (TagAttributeValueEntry.key e ∈ keysOf l)
    then firsts l else firsts l ++ [e].
Proof.
  unfold firsts. rewrite firstsFrom_snoc. cbn [app].
  destruct (bool_decide _); [by rewrite app_nil_r | reflexivity].
Qed.

Lemma singles_snoc (l : list TagAttributeValueEntry.t)
    (e : TagAttributeValueEntry.t) :
  singles (l ++ [e])
  = if bool_decide (TagAttributeValueEntry.key e ∈ keysOf l)
    then othersThan (TagAttributeValueEntry.key e) (singles l)
    else singles l ++ [e].
Proof.
  set (count := fun (k : string) (p : list TagAttributeValueEntry.t) =>
         List.length
           (List.filter
              (fun e' => bool_decide (TagAttributeValueEntry.key e' = k)) p)).
  assert (Hcount_app : forall k p q, count k (p ++ q) = count k p + count k q).
  { intros k p q. unfold count. by rewrite List.filter_app, length_app. }
  assert (Hcount_in : forall k p, k ∈ keysOf p <-> count k p <> 0).
  { intros k p. unfold count, keysOf. induction p as [|x p IH]; simpl.
    - split; [by intros H%elem_of_nil | done].
    - rewrite elem_of_cons.
      destruct (decide (TagAttributeValueEntry.key x = k)) as [Heq | Hne].
      + rewrite bool_decide_eq_true_2 by done. simpl. split; [lia | by left].
      + rewrite bool_decide_eq_false_2 by done. rewrite <- IH.
        split; [intros [? | ?]; [congruence | done] | by right]. }
  change (singles (l ++ [e]))
    with (List.filter
            (fun x => Nat.eqb (count (TagAttributeValueEntry.key x) (l ++ [e])) 1)
            (l ++ [e])).
  change (singles l)
    with (List.filter
            (fun x => Nat.eqb (count (TagAttributeValueEntry.key x) l) 1) l).
  rewrite List.filter_app. cbn [List.filter].
  rewrite Hcount_app.
  assert (Hself : count (TagAttributeValueEntry.key e) [e] = 1).
  { unfold count. simpl. by rewrite bool_decide_eq_true_2. }
  rewrite Hself.
  destruct (decide (TagAttributeValueEntry.key e ∈ keysOf l)) as [Hin | Hnin].
  - rewrite (bool_decide_eq_true_2 _ Hin).
    apply Hcount_in in Hin.
    replace (count (TagAttributeValueEntry.key e) l + 1 =? 1)%nat with false
      by (symmetry; apply Nat.eqb_neq; lia).
    rewrite app_nil_r. unfold othersThan.
    assert (Hflt : forall {A} (f g : A -> bool) (p : list A),
              List.filter g (List.filter f p)
              = List.filter (fun x => f x && g x) p).
    { intros A f g p. induction p as [|x p IH]; simpl; [done |].
      destruct (f x); simpl; [destruct (g x); by rewrite IH | exact IH]. }
    rewrite Hflt. apply List.filter_ext_in. intros x Hx.
    rewrite Hcount_app.
    destruct (decide (TagAttributeValueEntry.key x = TagAttributeValueEntry.key e))
      as [Heq | Hne].
    + rewrite (bool_decide_eq_false_2 (_ <> _)) by (intros H; by apply H).
      rewrite andb_false_r. rewrite Heq, Hself.
      apply Nat.eqb_neq. lia.
    + rewrite (bool_decide_eq_true_2 (_ <> _)) by done. rewrite andb_true_r.
      replace (count (TagAttributeValueEntry.key x) [e]) with 0; [by rewrite Nat.add_0_r |].
      unfold count. simpl. by rewrite bool_decide_eq_false_2 by congruence.
  - rewrite (bool_decide_eq_false_2 _ Hnin).
    assert (count (TagAttributeValueEntry.key e) l = 0) as ->.
    { destruct (Nat.eq_dec (count (TagAttributeValueEntry.key e) l) 0); [done |].
      exfalso. by apply Hnin, Hcount_in. }
    cbn [Nat.add Nat.eqb]. f_equal.
    apply List.filter_ext_in. intros x Hx. rewrite Hcount_app.
    replace (count (TagAttributeValueEntry.key x) [e]) with 0; [by rewrite Nat.add_0_r |].
    unfold count. simpl. rewrite bool_decide_eq_false_2; [done |].
    intros Heq. apply Hnin. rewrite Heq. unfold keysOf.
    apply list_elem_of_In in Hx. by apply (list_elem_of_fmap_2 TagAttributeValueEntry.key).
Qed.

End DuplicateOutputs.

Section DuplicateLoop.
Import Tree Adapter Direct Indirect Sanitizers Comparators Helpers.
Context {C : Type}.


Lemma keySet_snoc (l : list TagAttributeValueEntry.t)
    (e : TagAttributeValueEntry.t) :
  keySet (l ++ [e]) = {[TagAttributeValueEntry.key e]} ∪ keySet l.
Proof.
  unfold keySet. rewrite keysOf_app, list_to_set_app_L.
  cbn [keysOf List.map list_to_set].
  rewrite union_empty_r_L. apply (comm_L (∪)).
Qed.

Lemma keySet_again (l : list TagAttributeValueEntry.t)
    (e : TagAttributeValueEntry.t) :
  TagAttributeValueEntry.key e ∈ keysOf l -> keySet (l ++ [e]) = keySet l.
Proof.
  intros Hin. rewrite keySet_snoc. apply subseteq_union_1_L.
  apply singleton_subseteq_l. unfold keySet. by apply elem_of_list_to_set.
Qed.

Variables (attribute : TagAttribute.t) (rule : Rule.TagAttributeValueRule)
          (values : gmap string TagAttributeValueComparator)
          (errorHandling : option ErrorHandling.t)
          (input : list TagAttributeValueEntry.t).

(** A turn of the loop on a pair that is accepted and whose key has not
    been seen appends the pair. *)
Lemma recordLoop_fresh (index : nat) (key val : string)
    (rest : list TagAttributeValueEntry.t) (seen : gset string)
    (output : list TagAttributeValueEntry.t) (el : Target C) :
  key ∉ seen -> accepted values key val ->
  recordLoop attribute rule values errorHandling input index
    (TagAttributeValueEntry.mk key val :: rest) seen output el
  = recordLoop attribute rule values errorHandling input (S index) rest
      ({[key]} ∪ seen) (output ++ [TagAttributeValueEntry.mk key val]) el.
Proof.
  intros Hseen (cmp & Hcmp & Ht & Hm). cbn [recordLoop].
  rewrite (bool_decide_eq_false_2 _ Hseen), Hcmp, Ht, Hm. reflexivity.
Qed.

(** A turn of the loop on a pair whose key has been seen, under each of
    the four strategies of the duplicate handler. *)
Lemma recordLoop_seen (index : nat) (key val : string)
    (rest : list TagAttributeValueEntry.t) (seen : gset string)
    (output : list TagAttributeValueEntry.t) (el : Target C) :
  key ∈ seen -> accepted values key val ->
  let mode := slot errorHandling ErrorHandling.attributeRecordValueDuplicate in
  let turn :=
    recordLoop attribute rule values errorHandling input index
      (TagAttributeValueEntry.mk key val :: rest) seen output el in
  let skipWith out :=
    recordLoop attribute rule values errorHandling input (S index) rest seen
      out el in
  let appendTo out :=
    recordLoop attribute rule values errorHandling input (S index) rest
      ({[key]} ∪ seen) (out ++ [TagAttributeValueEntry.mk key val]) el in
  (mode = Some dropDuplicates -> turn = skipWith (othersThan key output))
  /\ (mode = Some keepDuplicates -> turn = appendTo output)
  /\ (mode = Some keepFirst -> turn = skipWith output)
  /\ (mode = Some keepLast -> turn = appendTo (othersThan key output)).
Proof.
  intros Hseen (cmp & Hcmp & Ht & Hm) mode turn skipWith appendTo.
  subst turn skipWith appendTo. unfold othersThan. rewrite <- withoutKey_others.
  split; [| split; [| split]]; intros Hmode; unfold mode in Hmode;
    cbn [recordLoop]; rewrite (bool_decide_eq_true_2 _ Hseen), Hmode;
    munfold; simpl; rewrite ?Hcmp, ?Ht, ?Hm; reflexivity.
Qed.

(** The loop over pairs that are all accepted, when [f] gives the
    output after the pairs read so far. *)
Lemma recordLoop_accepted (f : list TagAttributeValueEntry.t ->
                               list TagAttributeValueEntry.t) (el : Target C) :
  (forall l e, TagAttributeValueEntry.key e ∉ keysOf l ->
               f (l ++ [e]) = f l ++ [e]) ->
  (forall index rest l e,
     TagAttributeValueEntry.key e ∈ keysOf l ->
     accepted values (TagAttributeValueEntry.key e) (TagAttributeValueEntry.val e) ->
     recordLoop attribute rule values errorHandling input index (e :: rest)
       (keySet l) (f l) el
     = recordLoop attribute rule values errorHandling input (S index) rest
         (keySet (l ++ [e])) (f (l ++ [e])) el) ->
  forall rest l index,
    Forall (fun e => accepted values (TagAttributeValueEntry.key e)
                       (TagAttributeValueEntry.val e)) rest ->
    recordLoop attribute rule values errorHandling input index rest
      (keySet l) (f l) el
    = Returned (Some (f (l ++ rest)), el).
Proof.
  intros Hfresh Hdup. induction rest as [|e rest IH]; intros l index Hacc.
  - by rewrite app_nil_r.
  - apply Forall_cons in Hacc as [He Hacc].
    replace (l ++ e :: rest) with ((l ++ [e]) ++ rest)
      by (by rewrite <- app_assoc).
    destruct (decide (TagAttributeValueEntry.key e ∈ keysOf l)) as [Hin | Hnin].
    + rewrite Hdup by done. by apply IH.
    + destruct e as [key val]. cbn [TagAttributeValueEntry.key
                                     TagAttributeValueEntry.val] in *.
      rewrite recordLoop_fresh; [| | exact He].
      2:{ intros Hk. apply Hnin. unfold keySet in Hk.
          by apply elem_of_list_to_set in Hk. }
      pose proof (keySet_snoc l (TagAttributeValueEntry.mk key val)) as Hset.
      cbn [TagAttributeValueEntry.key] in Hset. rewrite <- Hset.
      rewrite <- Hfresh by done. by apply IH.
Qed.

End DuplicateLoop.

Section RecordDuplicates.
Import Tree Adapter Direct Indirect Sanitizers Comparators.
Context {C : Type}.


End RecordDuplicates.


Section StringFacts.
Import JsString.

Lemma trimStart_head (s : string) :
  match trimStart s with
  | EmptyString => True
  | String c _ => isWhiteSpace c = false
  end.
Proof.
  induction s as [|c s IH]; simpl; [exact I |].
  destruct (isWhiteSpace c) eqn:E; [exact IH | exact E].
Qed.

Lemma trimStart_fixed (c : ascii) (s : string) :
  isWhiteSpace c = false -> trimStart (String c s) = String c s.
Proof. intros E. simpl. by rewrite E. Qed.

Lemma trimEnd_head (c : ascii) (s : string) :
  isWhiteSpace c = false ->
  exists t, trimEnd (String c s) = String c t.
Proof.
  intros E. simpl. destruct (trimEnd s); [rewrite E |]; eauto.
Qed.

Lemma trimEnd_idemp (s : string) : trimEnd (trimEnd s) = trimEnd s.
Proof.
  induction s as [|c s IH]; simpl; [reflexivity |].
  destruct (trimEnd s) as [|d t] eqn:E.
  - destruct (isWhiteSpace c) eqn:W; simpl; [reflexivity | by rewrite W].
  - simpl in *. rewrite IH. reflexivity.
Qed.

Lemma trim_idemp (s : string) : trim (trim s) = trim s.
Proof.
  unfold trim. pose proof (trimStart_head s) as H.
  destruct (trimStart s) as [|c t]; [reflexivity |].
  destruct (trimEnd_head c t H) as [u Hu]. rewrite Hu.
  rewrite trimStart_fixed by exact H. rewrite <- Hu. apply trimEnd_idemp.
Qed.

Lemma truthy_true (s : string) : truthy s = true <-> s <> "".
Proof. destruct s; simpl; split; congruence. Qed.

Lemma truthy_false (s : string) : truthy s = false <-> s = "".
Proof. destruct s; simpl; split; congruence. Qed.

End StringFacts.

Section SplitFacts.
Import JsString.

Lemma append_assoc (a b c : string) : ((a ++ b) ++ c = a ++ (b ++ c))%string.
Proof.
  induction a as [|x a IH]; [reflexivity |].
  change (String x ((a ++ b) ++ c) = String x (a ++ (b ++ c)))%string.
  f_equal. exact IH.
Qed.

Lemma length_append (a b : string) :
  String.length (a ++ b) = (String.length a + String.length b)%nat.
Proof.
  induction a as [|x a IH]; [reflexivity |].
  change (S (String.length (a ++ b)) = S (String.length a + String.length b)).
  f_equal. exact IH.
Qed.

Lemma prefix_append (sep v : string) : String.prefix sep (sep ++ v) = true.
Proof.
  induction sep as [|x sep IH]; simpl; [by destruct v |].
  destruct (ascii_dec x x); [exact IH | congruence].
Qed.

Lemma splitFrom_length (sep : string) (k : nat) (acc s : string) :
  (1 <= List.length (splitFrom sep k acc s))%nat.
Proof.
  revert k acc. induction s as [|c s IH]; intros k acc; cbn [splitFrom];
    [simpl; lia |].
  destruct k; [| apply IH].
  destruct (String.prefix sep (String c s)); [simpl; lia | apply IH].
Qed.

(** One occurrence of the separator past the code units still to be
    skipped gives at least two parts. *)
Lemma splitFrom_one (sep u v : string) (k : nat) (acc : string) :
  sep <> "" -> (k <= String.length u)%nat ->
  (2 <= List.length (splitFrom sep k acc (u ++ sep ++ v)))%nat.
Proof.
  intros Hsep. revert k acc. induction u as [|c u IH]; intros k acc Hk.
  - simpl in Hk. assert (k = 0)%nat as -> by lia.
    destruct sep as [|x sep]; [congruence |].
    change ("" ++ String x sep ++ v)%string with (String x (sep ++ v)).
    cbn [splitFrom].
    change (String x (sep ++ v)) with (String x sep ++ v)%string.
    rewrite prefix_append. simpl.
    pose proof (splitFrom_length (String x sep) (String.length sep - 0) "" (sep ++ v)).
    lia.
  - change (String c u ++ sep ++ v)%string with (String c (u ++ sep ++ v)).
    cbn [splitFrom]. destruct k as [|k].
    + destruct (String.prefix sep (String c (u ++ sep ++ v))).
      * simpl.
        pose proof (splitFrom_length sep (String.length sep - 1) "" (u ++ sep ++ v)).
        lia.
      * apply IH. lia.
    + apply IH. simpl in Hk. lia.
Qed.

(** Two occurrences of the separator, one after the other, give at least
    three parts. *)
Lemma split_two_separators (sep a b c : string) :
  sep <> "" ->
  (3 <= List.length (split (a ++ sep ++ b ++ sep ++ c) sep))%nat.
Proof.
  intros Hsep.
  assert (Hpos : (1 <= String.length sep)%nat).
  { destruct sep; [congruence | simpl; lia]. }
  assert (Hgo : forall acc,
            (3 <= List.length (splitFrom sep 0 acc (a ++ sep ++ b ++ sep ++ c)))%nat).
  { induction a as [|d a IH]; intros acc.
    - destruct sep as [|x sep'] eqn:E; [congruence |].
      change ("" ++ String x sep' ++ b ++ String x sep' ++ c)%string
        with (String x (sep' ++ b ++ String x sep' ++ c)).
      cbn [splitFrom].
      change (String x (sep' ++ b ++ String x sep' ++ c))
        with (String x sep' ++ (b ++ String x sep' ++ c))%string.
      rewrite prefix_append. cbn [List.length].
      rewrite <- append_assoc.
      pose proof (splitFrom_one (String x sep') (sep' ++ b) c
                    (String.length (String x sep') - 1) "") as H.
      rewrite length_append in H. simpl in H.
      specialize (H ltac:(congruence) ltac:(lia)). simpl. lia.
    - change (String d a ++ sep ++ b ++ sep ++ c)%string
        with (String d (a ++ sep ++ b ++ sep ++ c)).
      cbn [splitFrom].
      destruct (String.prefix sep (String d (a ++ sep ++ b ++ sep ++ c))).
      + cbn [List.length].
        pose proof (splitFrom_one sep (a ++ sep ++ b) c (String.length sep - 1) ""
                      Hsep) as H.
        rewrite !length_append in H. rewrite !append_assoc in H.
        specialize (H ltac:(lia)). lia.
      + apply IH. }
  unfold split. destruct sep; [congruence | apply Hgo].
Qed.

End SplitFacts.

Section ParseRecord.
Import JsString Helpers.

Lemma pairOf_empty (pairSep : string) : pairOf pairSep "" = None.
Proof. unfold pairOf, split. destruct pairSep; reflexivity. Qed.

Lemma parseRecordLoop_omap (pairSep : string) (entries : list string)
    (out : list TagAttributeValueEntry.t) :
  parseRecordLoop pairSep entries out = out ++ omap (pairOf pairSep) entries.
Proof.
  revert out. induction entries as [|e entries IH]; intros out.
  - simpl. by rewrite app_nil_r.
  - cbn [parseRecordLoop omap list_omap]. unfold pairOf at 1.
    destruct (split e pairSep) as [|k [|v [|w parts]]]; try apply IH.
    destruct (truthy (trim k)); simpl; [| apply IH].
    destruct (truthy (trim v)); simpl; [| apply IH].
    rewrite IH, <- app_assoc. reflexivity.
Qed.

Lemma omap_filter_truthy (pairSep : string) (entries : list string) :
  omap (pairOf pairSep) (List.filter truthy entries)
  = omap (pairOf pairSep) entries.
Proof.
  induction entries as [|e entries IH]; [reflexivity |].
  cbn [List.filter]. destruct e as [|c e]; cbn [truthy].
  - cbn [omap list_omap]. rewrite pairOf_empty. exact IH.
  - cbn [omap list_omap]. rewrite IH. reflexivity.
Qed.

Lemma pairOf_trimmed (pairSep entry : string) (p : TagAttributeValueEntry.t) :
  pairOf pairSep entry = Some p ->
  trim (TagAttributeValueEntry.key p) = TagAttributeValueEntry.key p
  /\ TagAttributeValueEntry.key p <> ""
  /\ trim (TagAttributeValueEntry.val p) = TagAttributeValueEntry.val p
  /\ TagAttributeValueEntry.val p <> "".
Proof.
  unfold pairOf. destruct (split entry pairSep) as [|k [|v [|w parts]]]; try discriminate.
  destruct (truthy (trim k)) eqn:Hk; [| discriminate].
  destruct (truthy (trim v)) eqn:Hv; [| discriminate].
  intros [= <-]. simpl. rewrite !trim_idemp.
  apply truthy_true in Hk, Hv. tauto.
Qed.

(** The reading of C8 that splits every token as the entry separator
    leaves it is not what [parseRecord] computes when the pair separator
    is white space.  In ["a 1 ; b 2"] the tokens are ["a 1 "] and
    [" b 2"]; each holds the pair separator [" "] twice and splits into
    three parts, so that reading keeps neither, while [parseRecord]
    trims each token first and returns both pairs.  In ["a 1 ;b 2"] only
    the first token holds the separator twice, and it is kept all the
    same. *)
Lemma parseRecord_as_worded_counterexample :
  split (trim "a 1 ; b 2") ";" = ["a 1 "; " b 2"]
  /\ split "a 1 " " " = ["a"; "1"; ""]
  /\ split " b 2" " " = [""; "b"; "2"]
  /\ parseRecord_as_worded "a 1 ; b 2" ";" " " = []
  /\ parseRecord "a 1 ; b 2" ";" " "
     = [TagAttributeValueEntry.mk "a" "1"; TagAttributeValueEntry.mk "b" "2"]
  /\ parseRecord_as_worded "a 1 ;b 2" ";" " " = [TagAttributeValueEntry.mk "b" "2"]
  /\ parseRecord "a 1 ;b 2" ";" " "
     = [TagAttributeValueEntry.mk "a" "1"; TagAttributeValueEntry.mk "b" "2"]
  /\ ~ (forall input entrySep pairSep,
          parseRecord input entrySep pairSep
          = parseRecord_as_worded input entrySep pairSep).
Proof.
  repeat (split; [vm_compute; reflexivity |]).
  intros H. specialize (H "a 1 ; b 2" ";" " "). vm_compute in H. discriminate H.
Qed.


End ParseRecord.


Section ParseSet.
Import JsString Helpers.

Lemma fromSetAcc_elem (seen xs : list string) (x : string) :
  x ∈ fromSetAcc seen xs <-> x ∈ xs /\ x ∉ seen.
Proof.
  revert seen. induction xs as [|y xs IH]; intros seen; simpl.
  - split; [intros H; by apply elem_of_nil in H | intros [H _]; by apply elem_of_nil in H].
  - case_bool_decide as Hy.
    + rewrite IH, elem_of_cons. split; [tauto |].
      intros [[-> | H] Hn]; [contradiction | tauto].
    + rewrite !elem_of_cons, IH, elem_of_cons. split.
      * intros [-> | [H Hn]]; [tauto |]. split; [tauto |].
        intros Hs. apply Hn. by right.
      * intros [[-> | H] Hn]; [tauto |].
        destruct (decide (x = y)) as [-> | Hne]; [tauto |].
        right. split; [exact H |]. intros [? | ?]; [congruence | contradiction].
Qed.

Lemma fromSetAcc_NoDup (seen xs : list string) : NoDup (fromSetAcc seen xs).
Proof.
  revert seen. induction xs as [|y xs IH]; intros seen; simpl; [constructor |].
  case_bool_decide as Hy; [apply IH |].
  constructor; [| apply IH].
  rewrite fromSetAcc_elem. intros [_ Hn]. apply Hn. by left.
Qed.

Lemma fromSetAcc_seen_equiv (seen seen' xs : list string) :
  (forall z, z ∈ seen <-> z ∈ seen') -> fromSetAcc seen xs = fromSetAcc seen' xs.
Proof.
  revert seen seen'. induction xs as [|y xs IH]; intros seen seen' H; simpl;
    [reflexivity |].
  rewrite (bool_decide_ext (y ∈ seen) (y ∈ seen') (H y)).
  case_bool_decide.
  - by apply IH.
  - f_equal. apply IH. intros z. rewrite !elem_of_cons, H. reflexivity.
Qed.

(** A set keeps the first occurrence of a value and drops the later
    ones. *)
Lemma arrayFromSet_cons (x : string) (xs : list string) :
  arrayFromSet (x :: xs)
  = x :: arrayFromSet (List.filter (fun y => negb (String.eqb y x)) xs).
Proof.
  unfold arrayFromSet. simpl. f_equal.
  generalize (@nil string) as seen.
  induction xs as [|y xs IH]; intros seen; simpl; [reflexivity |].
  destruct (String.eqb_spec y x) as [-> | Hne]; simpl.
  - rewrite bool_decide_eq_true_2 by (by left). apply IH.
  - rewrite (bool_decide_ext (y ∈ x :: seen) (y ∈ seen)).
    2:{ rewrite elem_of_cons. split; [intros [?|?]; [congruence | done] | tauto]. }
    case_bool_decide; [apply IH |]. f_equal.
    rewrite <- IH. apply fromSetAcc_seen_equiv.
    intros z. rewrite !elem_of_cons. tauto.
Qed.

Lemma filter_truthy_map_trim (parts : list string) :
  Forall (fun t => trim t = t /\ t <> "")
    (List.filter truthy (List.map trim parts)).
Proof.
  induction parts as [|p parts IH]; simpl; [constructor |].
  destruct (truthy (trim p)) eqn:E; [| exact IH].
  constructor; [| exact IH]. split; [apply trim_idemp | by apply truthy_true].
Qed.

(** The tokens of [parseSet] are trimmed, non-empty and pairwise
    distinct. *)
Lemma parseSet_normal (input delimiter : string) :
  Forall (fun t => trim t = t /\ t <> "") (parseSet input delimiter)
  /\ NoDup (parseSet input delimiter).
Proof.
  unfold parseSet. destruct (negb (truthy (trim input))).
  - split; constructor.
  - split; [| apply fromSetAcc_NoDup].
    apply Forall_forall. intros t Ht.
    apply fromSetAcc_elem in Ht as [Ht _].
    pose proof (filter_truthy_map_trim (split (trim input) delimiter)) as H.
    rewrite Forall_forall in H. by apply H.
Qed.

End ParseSet.

Section AttributeMap.
Import Tree.

Lemma attrGet_attrSet_eq (key value : string) (attribs : list (string * string)) :
  attrGet key (attrSet key value attribs) = Some value.
Proof.
  induction attribs as [|[k v] attribs IH]; simpl.
  - by rewrite String.eqb_refl.
  - destruct (String.eqb k key) eqn:E; simpl; rewrite E; [reflexivity | exact IH].
Qed.

Lemma attrGet_attrSet_ne (key key' value : string)
    (attribs : list (string * string)) :
  key <> key' ->
  attrGet key' (attrSet key value attribs) = attrGet key' attribs.
Proof.
  intros Hne. induction attribs as [|[k v] attribs IH]; simpl.
  - apply String.eqb_neq in Hne. by rewrite Hne.
  - destruct (String.eqb_spec k key) as [-> | E]; simpl.
    + apply String.eqb_neq in Hne. by rewrite Hne.
    + destruct (String.eqb k key'); [reflexivity | exact IH].
Qed.

Lemma attrGet_attrDelete_eq (key : string) (attribs : list (string * string)) :
  attrGet key (attrDelete key attribs) = None.
Proof.
  unfold attrDelete. induction attribs as [|[k v] attribs IH]; simpl; [reflexivity |].
  destruct (String.eqb k key) eqn:E; simpl; [exact IH | by rewrite E].
Qed.

Lemma attrGet_attrDelete_ne (key key' : string)
    (attribs : list (string * string)) :
  key <> key' ->
  attrGet key' (attrDelete key attribs) = attrGet key' attribs.
Proof.
  intros Hne. unfold attrDelete.
  induction attribs as [|[k v] attribs IH]; simpl; [reflexivity |].
  destruct (String.eqb_spec k key) as [-> | E]; simpl.
  - apply String.eqb_neq in Hne. by rewrite Hne.
  - destruct (String.eqb k key'); [reflexivity | exact IH].
Qed.

End AttributeMap.

Section CollectionRewrite.
Import Tree Adapter Direct Indirect Sanitizers Comparators Helpers.
Context {C : Type}.

(** The set loop keeps the tokens that match, in order. *)
Lemma setLoop_output (attribute : TagAttribute.t)
    (rule : Rule.TagAttributeValueRule) (values : TagAttributeValueComparator)
    (errorHandling : option ErrorHandling.t) (input : list string)
    (rest : list string) :
  forall (index : nat) (output : list string) (el el' : Target C)
         (out' : list string),
    setLoop attribute rule values errorHandling input index rest output el
    = Returned (Some out', el') ->
    out' = output ++ List.filter (matchComparator values) rest.
Proof.
  induction rest as [|val rest IH]; intros index output el el' out' H.
  - simpl in H. munfold. injection H as <- _. by rewrite app_nil_r.
  - cbn [setLoop List.filter] in H |- *.
    destruct (matchComparator values val); cbn [negb] in H.
    + apply IH in H. by rewrite <- app_assoc in H.
    + munfold.
      destruct (handleTagAttributeSetValueError attribute index input rule _ None el)
        as [[ok el1]|msg]; [| discriminate].
      destruct ok; cbn [negb] in H; [| discriminate].
      by apply IH in H.
Qed.

(** When every token matches, no handler is called. *)
Lemma setLoop_all_match (attribute : TagAttribute.t)
    (rule : Rule.TagAttributeValueRule) (values : TagAttributeValueComparator)
    (errorHandling : option ErrorHandling.t) (input : list string)
    (rest : list string) :
  Forall (fun t => matchComparator values t = true) rest ->
  forall (index : nat) (output : list string) (el : Target C),
    setLoop attribute rule values errorHandling input index rest output el
    = Returned (Some (output ++ rest), el).
Proof.
  induction 1 as [|val rest Hval Hrest IH]; intros index output el.
  - simpl. munfold. by rewrite app_nil_r.
  - cbn [setLoop]. rewrite Hval. cbn [negb]. rewrite IH, <- app_assoc.
    reflexivity.
Qed.

End CollectionRewrite.

Section RecordRewrite.
Import Tree Adapter Direct Indirect Sanitizers Comparators Helpers.
Context {C : Type}.

(** The duplicate handler returns the record it was given, or that
    record without the entries of the duplicate key. *)
Lemma handleDuplicate_output (attribute : TagAttribute.t) (key : string)
    (record : list TagAttributeValueEntry.t) (rule : Rule.TagAttributeValueRule)
    (mode : option ErrorHandlingMode) (msg : option string)
    (el el' : Target C) (result : DuplicateResult.t) :
  handleTagAttributeRecordValueDuplicateError attribute key record rule mode msg el
  = Returned (result, el') ->
  DuplicateResult.output result = record
  \/ DuplicateResult.output result = withoutKey key record.
Proof.
  unfold handleTagAttributeRecordValueDuplicateError. munfold.
  destruct mode as [[]|];
    try (intros [= <- _]; simpl; tauto);
    (destruct (handleTagAttributeValueError _ _ _ _ el) as [[ok el1]|m];
     [intros [= <- _]; simpl; tauto | discriminate]).
Qed.

Lemma keptFrom_withoutKey values pairs key output :
  Forall (keptFrom values pairs) output ->
  Forall (keptFrom values pairs) (withoutKey key output).
Proof.
  unfold withoutKey. induction 1 as [|e output He H IH]; simpl; [constructor |].
  destruct (negb _); [constructor |]; assumption.
Qed.

(** The record loop only ever outputs pairs of its input that their rule
    accepts. *)
Lemma recordLoop_output (attribute : TagAttribute.t)
    (rule : Rule.TagAttributeValueRule)
    (values : gmap string TagAttributeValueComparator)
    (errorHandling : option ErrorHandling.t)
    (input pairs rest : list TagAttributeValueEntry.t) :
  forall (index : nat) (seen : gset string)
         (output : list TagAttributeValueEntry.t) (el el' : Target C)
         (out' : list TagAttributeValueEntry.t),
    (forall e, e ∈ rest -> e ∈ pairs) ->
    Forall (keptFrom values pairs) output ->
    recordLoop attribute rule values errorHandling input index rest seen output el
    = Returned (Some out', el') ->
    Forall (keptFrom values pairs) out'.
Proof.
  induction rest as [|[key val] rest IH];
    intros index seen output el el' out' Hrest Hout H.
  - simpl in H. munfold. by injection H as <- _.
  - assert (Hrest' : forall e, e ∈ rest -> e ∈ pairs).
    { intros e He. apply Hrest. by right. }
    assert (Hcheck : forall output1 el1,
              Forall (keptFrom values pairs) output1 ->
              match pairRuleOf values key with
              | Some (Raises message) => throw message
              | Some (Compares cmp) =>
                  if negb (truthy cmp) || negb (matchComparator cmp val) then
                    ok ← handleTagAttributeRecordValueError attribute input index rule
                           (slot errorHandling ErrorHandling.attributeRecordValue) None;
                    if negb ok then mret None
                    else recordLoop attribute rule values errorHandling input
                           (S index) rest seen output1
                  else
                    recordLoop attribute rule values errorHandling input
                      (S index) rest ({[key]} ∪ seen)
                      (output1 ++ [TagAttributeValueEntry.mk key val])
              | None =>
                  ok ← handleTagAttributeRecordValueError attribute input index rule
                         (slot errorHandling ErrorHandling.attributeRecordValue) None;
                  if negb ok then mret None
                  else recordLoop attribute rule values errorHandling input
                         (S index) rest seen output1
              end el1 = Returned (Some out', el') ->
              Forall (keptFrom values pairs) out').
    { intros output1 el1 Hout1 H1.
      destruct (pairRuleOf values key) as [[cmp|message]|] eqn:Hcmp;
        [| by munfold |].
      - destruct (truthy cmp) eqn:Ht; cbn [negb orb] in H1.
        + destruct (matchComparator cmp val) eqn:Hm; cbn [negb] in H1.
          * eapply IH in H1; [exact H1 | exact Hrest' |].
            apply Forall_app. split; [exact Hout1 |].
            constructor; [| constructor]. split.
            -- apply Hrest. by left.
            -- exists cmp. simpl. tauto.
          * munfold.
            destruct (handleTagAttributeRecordValueError _ _ _ _ _ _ el1)
              as [[ok el2]|m]; [| discriminate].
            destruct ok; cbn [negb] in H1; [| discriminate].
            eapply IH in H1; eauto.
        + munfold.
          destruct (handleTagAttributeRecordValueError _ _ _ _ _ _ el1)
            as [[ok el2]|m]; [| discriminate].
          destruct ok; cbn [negb] in H1; [| discriminate].
          eapply IH in H1; eauto.
      - munfold.
        destruct (handleTagAttributeRecordValueError _ _ _ _ _ _ el1)
          as [[ok el2]|m]; [| discriminate].
        destruct ok; cbn [negb] in H1; [| discriminate].
        eapply IH in H1; eauto. }
    cbn [recordLoop] in H.
    destruct (bool_decide (key ∈ seen)).
    + munfold.
      destruct (handleTagAttributeRecordValueDuplicateError _ _ _ _ _ _ el)
        as [[result el1]|m] eqn:Hdup; [| discriminate].
      assert (Hout1 : Forall (keptFrom values pairs) (DuplicateResult.output result)).
      { apply handleDuplicate_output in Hdup as [-> | ->];
          [exact Hout | by apply keptFrom_withoutKey]. }
      destruct (DuplicateResult.globalProceed result); cbn [negb] in H;
        [| discriminate].
      destruct (DuplicateResult.localProceed result); cbn [negb] in H.
      * eapply Hcheck; eauto.
      * eapply IH in H; eauto.
    + eapply Hcheck; eauto.
Qed.

(** With pairwise distinct keys, all accepted, no handler is called and
    every pair is output. *)
Lemma recordLoop_no_violation (attribute : TagAttribute.t)
    (rule : Rule.TagAttributeValueRule)
    (values : gmap string TagAttributeValueComparator)
    (errorHandling : option ErrorHandling.t)
    (input rest : list TagAttributeValueEntry.t) :
  NoDup (List.map TagAttributeValueEntry.key rest) ->
  Forall (fun e => accepted values (TagAttributeValueEntry.key e)
                     (TagAttributeValueEntry.val e)) rest ->
  forall (index : nat) (seen : gset string)
         (output : list TagAttributeValueEntry.t) (el : Target C),
    (forall k, k ∈ List.map TagAttributeValueEntry.key rest -> k ∉ seen) ->
    recordLoop attribute rule values errorHandling input index rest seen output el
    = Returned (Some (output ++ rest), el).
Proof.
  induction rest as [|[key val] rest IH]; intros Hnd Hacc index seen output el Hseen.
  - simpl. munfold. by rewrite app_nil_r.
  - cbn [recordLoop]. simpl in Hnd. apply NoDup_cons in Hnd as [Hkey Hnd].
    apply Forall_cons in Hacc as [(cmp & Hcmp & Ht & Hm) Hacc]. simpl in Hcmp, Ht, Hm.
    rewrite bool_decide_eq_false_2 by (apply Hseen; by left).
    rewrite Hcmp, Ht, Hm. cbn [negb orb].
    rewrite IH; [by rewrite <- app_assoc | exact Hnd | exact Hacc |].
    intros k Hk. simpl in Hseen.
    apply not_elem_of_union. split.
    + intros ->%elem_of_singleton. contradiction.
    + apply Hseen. by right.
Qed.

End RecordRewrite.

Section CollectionTheorem.
Import Tree Adapter Direct Indirect Sanitizers Comparators Helpers.

Lemma handleTooMany_output {C A} (attribute : TagAttribute.t)
    (collection : list A) (rule : Rule.TagAttributeValueRule)
    (mode : option ErrorHandlingMode) (msg : option string)
    (el el' : Target C) (result : CollectionResult.t (list A)) :
  handleTagAttributeCollectionValueTooManyError attribute collection rule mode msg el
  = Returned (result, el') ->
  CollectionResult.output result = collection
  \/ CollectionResult.output result = sliceEntries collection (Rule.maxEntries rule).
Proof.
  unfold handleTagAttributeCollectionValueTooManyError. munfold.
  destruct mode as [[]|];
    try (intros [= <- _]; simpl; tauto);
    (destruct (handleTagAttributeValueError _ _ _ _ el) as [[ok el1]|m];
     [intros [= <- _]; simpl; tauto | discriminate]).
Qed.

Lemma sanitizeSet_rewrites {C} (attribute : TagAttribute.t)
    (rule : Rule.TagAttributeValueRule) (delimiter : string)
    (values : TagAttributeValueComparator)
    (errorHandling : option ErrorHandling.t) (el el' : Target C) :
  sanitizeTagAttributeSetValue attribute rule delimiter values errorHandling el
  = Returned (true, el') ->
  exists input,
    (input = parseSet (TagAttribute.value attribute) delimiter
     \/ input = sliceEntries (parseSet (TagAttribute.value attribute) delimiter)
                  (Rule.maxEntries rule))
    /\ attrGet (TagAttribute.key attribute) (attribs el')
       = Some (JsString.join (List.filter (matchComparator values) input) delimiter).
Proof.
  unfold sanitizeTagAttributeSetValue.
  set (tokens := parseSet (TagAttribute.value attribute) delimiter).
  assert (Hcont : forall input el1,
            (r ← setLoop attribute rule values errorHandling input 0 input [];
             match r with
             | None => mret false
             | Some output =>
                 setAttrib (TagAttribute.key attribute)
                   (JsString.join output delimiter) ;; mret true
             end) el1 = Returned (true, el') ->
            attrGet (TagAttribute.key attribute) (attribs el')
            = Some (JsString.join (List.filter (matchComparator values) input)
                      delimiter)).
  { intros input el1 H. munfold.
    destruct (setLoop attribute rule values errorHandling input 0 input [] el1)
      as [[[out|] el2]|m] eqn:Hloop; try discriminate.
    apply setLoop_output in Hloop. simpl in Hloop. subst out.
    unfold setAttrib in H. munfold. injection H as <-. simpl.
    apply attrGet_attrSet_eq. }
  destruct (truthyNumber (Rule.maxEntries rule)
            && (default 0 (Rule.maxEntries rule) <? List.length tokens)%nat).
  - munfold.
    destruct (handleTagAttributeCollectionValueTooManyError attribute tokens rule
                _ None el) as [[result el1]|m] eqn:Hmany; [| discriminate].
    destruct (CollectionResult.proceed result); cbn [negb]; [| discriminate].
    intros H. exists (CollectionResult.output result). split.
    + apply handleTooMany_output in Hmany. tauto.
    + eapply Hcont. exact H.
  - intros H. exists tokens. split; [by left | eapply Hcont; exact H].
Qed.

Lemma sanitizeRecord_rewrites {C} (attribute : TagAttribute.t)
    (rule : Rule.TagAttributeValueRule) (entrySeparator keyValueSeparator : string)
    (values : gmap string TagAttributeValueComparator)
    (errorHandling : option ErrorHandling.t) (el el' : Target C) :
  sanitizeTagAttributeRecordValue attribute rule entrySeparator keyValueSeparator
    values errorHandling el = Returned (true, el') ->
  exists output,
    Forall (keptFrom values
              (parseRecord (TagAttribute.value attribute) entrySeparator
                 keyValueSeparator)) output
    /\ attrGet (TagAttribute.key attribute) (attribs el')
       = Some (JsString.join (List.map (renderEntry keyValueSeparator) output)
                 entrySeparator).
Proof.
  unfold sanitizeTagAttributeRecordValue.
  set (pairs := parseRecord (TagAttribute.value attribute) entrySeparator
                  keyValueSeparator).
  assert (Hcont : forall input el1,
            (forall e, e ∈ input -> e ∈ pairs) ->
            (r ← recordLoop attribute rule values errorHandling input 0 input ∅ [];
             match r with
             | None => mret false
             | Some output =>
                 setAttrib (TagAttribute.key attribute)
                   (JsString.join (List.map (renderEntry keyValueSeparator) output)
                      entrySeparator) ;; mret true
             end) el1 = Returned (true, el') ->
            exists output,
              Forall (keptFrom values pairs) output
              /\ attrGet (TagAttribute.key attribute) (attribs el')
                 = Some (JsString.join
                           (List.map (renderEntry keyValueSeparator) output)
                           entrySeparator)).
  { intros input el1 Hsub H. munfold.
    destruct (recordLoop attribute rule values errorHandling input 0 input ∅ [] el1)
      as [[[out|] el2]|m] eqn:Hloop; try discriminate.
    exists out. split.
    - eapply recordLoop_output; [exact Hsub | constructor | exact Hloop].
    - unfold setAttrib in H. munfold. injection H as <-. simpl.
      apply attrGet_attrSet_eq. }
  destruct (truthyNumber (Rule.maxEntries rule)
            && (default 0 (Rule.maxEntries rule) <? List.length pairs)%nat).
  - munfold.
    destruct (handleTagAttributeCollectionValueTooManyError attribute pairs rule
                _ None el) as [[result el1]|m] eqn:Hmany; [| discriminate].
    destruct (CollectionResult.proceed result); cbn [negb]; [| discriminate].
    intros H. eapply Hcont; [| exact H].
    apply handleTooMany_output in Hmany as [-> | ->]; [tauto |].
    unfold sliceEntries. destruct (Rule.maxEntries rule) as [n|]; [| tauto].
    intros e He. by apply (subseteq_take n pairs).
  - intros H. eapply Hcont; [| exact H]. tauto.
Qed.

End CollectionTheorem.

Section CollectionNoViolation.
Import Tree Adapter Direct Indirect Sanitizers Comparators Helpers.

Lemma sanitizeSet_no_violation {C} (attribute : TagAttribute.t)
    (rule : Rule.TagAttributeValueRule) (delimiter : string)
    (values : TagAttributeValueComparator)
    (errorHandling : option ErrorHandling.t) (el : Target C) :
  let tokens := parseSet (TagAttribute.value attribute) delimiter in
  Forall (fun t => matchComparator values t = true) tokens ->
  withinEntries rule (List.length tokens) ->
  sanitizeTagAttributeSetValue attribute rule delimiter values errorHandling el
  = Returned (true,
      withAttribs el
        (attrSet (TagAttribute.key attribute) (JsString.join tokens delimiter)
           (attribs el))).
Proof.
  intros tokens Hall Hwithin. unfold sanitizeTagAttributeSetValue.
  fold tokens. unfold withinEntries in Hwithin. rewrite Hwithin.
  munfold. rewrite setLoop_all_match by exact Hall. reflexivity.
Qed.

Lemma sanitizeRecord_no_violation {C} (attribute : TagAttribute.t)
    (rule : Rule.TagAttributeValueRule) (entrySeparator keyValueSeparator : string)
    (values : gmap string TagAttributeValueComparator)
    (errorHandling : option ErrorHandling.t) (el : Target C) :
  let pairs := parseRecord (TagAttribute.value attribute) entrySeparator
                 keyValueSeparator in
  NoDup (List.map TagAttributeValueEntry.key pairs) ->
  Forall (fun e => accepted values (TagAttributeValueEntry.key e)
                     (TagAttributeValueEntry.val e)) pairs ->
  withinEntries rule (List.length pairs) ->
  sanitizeTagAttributeRecordValue attribute rule entrySeparator keyValueSeparator
    values errorHandling el
  = Returned (true,
      withAttribs el
        (attrSet (TagAttribute.key attribute)
           (JsString.join (List.map (renderEntry keyValueSeparator) pairs)
              entrySeparator)
           (attribs el))).
Proof.
  intros pairs Hnd Hall Hwithin. unfold sanitizeTagAttributeRecordValue.
  fold pairs. unfold withinEntries in Hwithin. rewrite Hwithin.
  munfold. rewrite recordLoop_no_violation; [reflexivity | exact Hnd | exact Hall |].
  intros k _. apply not_elem_of_empty.
Qed.


End CollectionNoViolation.


Section DomFacts.
Import Dom.

Ltac field_tac :=
  intros;
  unfold childrenOf, parentOf, prevOf, nextOf,
         setParent, setPrev, setNext, setChildren;
  rewrite lookup_alter; case_decide; subst;
  try match goal with |- context [?st !! ?j] => destruct (st !! j) end;
  try reflexivity; try congruence.

Lemma childrenOf_setParent i v st j :
  childrenOf (setParent i v st) j = childrenOf st j.
Proof. field_tac. Qed.
Lemma childrenOf_setPrev i v st j :
  childrenOf (setPrev i v st) j = childrenOf st j.
Proof. field_tac. Qed.
Lemma childrenOf_setNext i v st j :
  childrenOf (setNext i v st) j = childrenOf st j.
Proof. field_tac. Qed.
Lemma childrenOf_setChildren_ne i v st j :
  i <> j -> childrenOf (setChildren i v st) j = childrenOf st j.
Proof. field_tac. Qed.
Lemma childrenOf_setChildren_eq i v st :
  is_Some (st !! i) -> childrenOf (setChildren i v st) i = v.
Proof.
  intros [n Hn]. unfold childrenOf, setChildren.
  rewrite lookup_alter_eq, Hn. reflexivity.
Qed.

Lemma parentOf_setParent_eq i v st :
  is_Some (st !! i) -> parentOf (setParent i v st) i = v.
Proof.
  intros [n Hn]. unfold parentOf, setParent.
  rewrite lookup_alter_eq, Hn. reflexivity.
Qed.
Lemma parentOf_setParent_ne i v st j :
  i <> j -> parentOf (setParent i v st) j = parentOf st j.
Proof. field_tac. Qed.
Lemma parentOf_setPrev i v st j :
  parentOf (setPrev i v st) j = parentOf st j.
Proof. field_tac. Qed.
Lemma parentOf_setNext i v st j :
  parentOf (setNext i v st) j = parentOf st j.
Proof. field_tac. Qed.
Lemma parentOf_setChildren i v st j :
  parentOf (setChildren i v st) j = parentOf st j.
Proof. field_tac. Qed.

Lemma is_Some_alter (f : NodeRec -> NodeRec) i (st : gmap nat NodeRec) j :
  is_Some (alter f i st !! j) <-> is_Some (st !! j).
Proof.
  rewrite lookup_alter. case_decide; subst; [| reflexivity].
  rewrite fmap_is_Some. reflexivity.
Qed.

Lemma indexOf_app (x : nat) (pre post : list nat) :
  x ∉ pre -> indexOf x (pre ++ x :: post) = Some (List.length pre).
Proof.
  induction pre as [|y pre IH]; intros Hx; simpl.
  - by rewrite Nat.eqb_refl.
  - apply not_elem_of_cons in Hx as [Hne Hx].
    destruct (Nat.eqb_spec y x) as [-> | _]; [congruence |].
    rewrite IH by exact Hx. reflexivity.
Qed.

Lemma spliceInsert_app (x : nat) (pre post : list nat) :
  spliceInsert (Some (List.length pre)) x (pre ++ post) = pre ++ x :: post.
Proof.
  unfold spliceInsert, spliceStart.
  rewrite take_app_length, drop_app_length. reflexivity.
Qed.

Lemma spliceRemove_app (x : nat) (pre post : list nat) :
  spliceRemove (Some (List.length pre)) (pre ++ x :: post) = pre ++ post.
Proof.
  unfold spliceRemove, spliceStart.
  rewrite take_app_length.
  rewrite <- Nat.add_1_r, <- drop_drop, drop_app_length. reflexivity.
Qed.

End DomFacts.

Section DomPrimitives.
Import Dom.

Lemma is_Some_setParent i v st j :
  is_Some (setParent i v st !! j) <-> is_Some (st !! j).
Proof. apply is_Some_alter. Qed.
Lemma is_Some_setPrev i v st j :
  is_Some (setPrev i v st !! j) <-> is_Some (st !! j).
Proof. apply is_Some_alter. Qed.
Lemma is_Some_setNext i v st j :
  is_Some (setNext i v st !! j) <-> is_Some (st !! j).
Proof. apply is_Some_alter. Qed.
Lemma is_Some_setChildren i v st j :
  is_Some (setChildren i v st !! j) <-> is_Some (st !! j).
Proof. apply is_Some_alter. Qed.

Ltac dom_simpl :=
  repeat first
    [ rewrite childrenOf_setParent | rewrite childrenOf_setPrev
    | rewrite childrenOf_setNext | rewrite parentOf_setPrev
    | rewrite parentOf_setNext | rewrite parentOf_setChildren
    | rewrite is_Some_setParent | rewrite is_Some_setPrev
    | rewrite is_Some_setNext | rewrite is_Some_setChildren ].

Lemma insertBefore_spec (st : gmap nat NodeRec) (p c n : nat) (l1 l2 : list nat) :
  childrenOf st p = l1 ++ n :: l2 -> n ∉ l1 -> is_Some (st !! c) ->
  childrenOf (insertBefore p c n st) p = l1 ++ c :: n :: l2
  /\ parentOf (insertBefore p c n st) c = Some p
  /\ frames p c st (insertBefore p c n st).
Proof.
  intros Hp Hn Hc.
  assert (Hsp : is_Some (st !! p)).
  { unfold childrenOf in Hp. destruct (st !! p); [eauto |].
    simpl in Hp. by destruct l1. }
  unfold insertBefore. rewrite Hp, indexOf_app by exact Hn.
  set (st1 := match prevOf st n with
              | Some pv => setPrev c (Some pv) (setNext pv (Some c) st)
              | None => st
              end).
  assert (H1 : (forall i, childrenOf st1 i = childrenOf st i)
               /\ (forall i, parentOf st1 i = parentOf st i)
               /\ (forall i, is_Some (st1 !! i) <-> is_Some (st !! i))).
  { subst st1. destruct (prevOf st n); [| tauto].
    split; [| split]; intros; dom_simpl; reflexivity. }
  destruct H1 as (Hk1 & Hp1 & Hs1).
  split; [| split; [| repeat split]].
  - dom_simpl. rewrite childrenOf_setChildren_eq by (dom_simpl; by apply Hs1).
    dom_simpl. rewrite Hk1, Hp. apply spliceInsert_app.
  - rewrite parentOf_setParent_eq; [reflexivity |]. dom_simpl. by apply Hs1.
  - intros H. revert H. dom_simpl. apply Hs1.
  - intros H. dom_simpl. by apply Hs1.
  - intros i Hi. dom_simpl. rewrite childrenOf_setChildren_ne by congruence.
    dom_simpl. apply Hk1.
  - intros i Hi. rewrite parentOf_setParent_ne by congruence. dom_simpl. apply Hp1.
Qed.

Lemma appendChild_spec (st : gmap nat NodeRec) (p c : nat) (l : list nat) :
  is_Some (st !! p) -> childrenOf st p = l -> is_Some (st !! c) ->
  childrenOf (appendChild p c st) p = l ++ [c]
  /\ parentOf (appendChild p c st) c = Some p
  /\ frames p c st (appendChild p c st).
Proof.
  intros Hsp Hp Hc. unfold appendChild.
  set (st1 := match last (childrenOf st p) with
              | Some pv => setPrev c (Some pv) (setNext pv (Some c) st)
              | None => st
              end).
  assert (H1 : (forall i, childrenOf st1 i = childrenOf st i)
               /\ (forall i, parentOf st1 i = parentOf st i)
               /\ (forall i, is_Some (st1 !! i) <-> is_Some (st !! i))).
  { subst st1. destruct (last (childrenOf st p)); [| tauto].
    split; [| split]; intros; dom_simpl; reflexivity. }
  destruct H1 as (Hk1 & Hp1 & Hs1).
  split; [| split; [| repeat split]].
  - dom_simpl. rewrite childrenOf_setChildren_eq by (by apply Hs1).
    rewrite Hk1, Hp. reflexivity.
  - rewrite parentOf_setParent_eq; [reflexivity |]. dom_simpl. by apply Hs1.
  - intros H. revert H. dom_simpl. apply Hs1.
  - intros H. dom_simpl. by apply Hs1.
  - intros i Hi. dom_simpl. rewrite childrenOf_setChildren_ne by congruence.
    apply Hk1.
  - intros i Hi. rewrite parentOf_setParent_ne by congruence. dom_simpl. apply Hp1.
Qed.

Lemma detachNode_spec (st : gmap nat NodeRec) (e p : nat) (pre post : list nat) :
  parentOf st e = Some p -> childrenOf st p = pre ++ e :: post -> e ∉ pre ->
  childrenOf (detachNode e st) p = pre ++ post
  /\ parentOf (detachNode e st) e = None
  /\ frames p e st (detachNode e st).
Proof.
  intros Hpar Hp He.
  assert (Hsp : is_Some (st !! p)).
  { unfold childrenOf in Hp. destruct (st !! p); [eauto |].
    simpl in Hp. by destruct pre. }
  assert (Hse : is_Some (st !! e)).
  { unfold parentOf in Hpar. destruct (st !! e); [eauto | discriminate]. }
  unfold detachNode. rewrite Hpar, Hp, indexOf_app by exact He.
  set (st1 := setNext e None (setPrev e None st)).
  set (st2 := match prevOf st e with Some a => setNext a (nextOf st e) st1 | None => st1 end).
  set (st3 := match nextOf st e with Some b => setPrev b (prevOf st e) st2 | None => st2 end).
  assert (H3 : (forall i, childrenOf st3 i = childrenOf st i)
               /\ (forall i, parentOf st3 i = parentOf st i)
               /\ (forall i, is_Some (st3 !! i) <-> is_Some (st !! i))).
  { subst st3 st2 st1.
    destruct (prevOf st e), (nextOf st e);
      (split; [| split]); intros; dom_simpl; reflexivity. }
  destruct H3 as (Hk3 & Hp3 & Hs3).
  split; [| split; [| repeat split]].
  - dom_simpl. rewrite childrenOf_setChildren_eq by (by apply Hs3).
    rewrite Hk3, Hp. apply spliceRemove_app.
  - rewrite parentOf_setParent_eq; [reflexivity |]. dom_simpl. by apply Hs3.
  - intros H. revert H. dom_simpl. apply Hs3.
  - intros H. dom_simpl. by apply Hs3.
  - intros i Hi. dom_simpl. rewrite childrenOf_setChildren_ne by congruence.
    apply Hk3.
  - intros i Hi. rewrite parentOf_setParent_ne by congruence. dom_simpl. apply Hp3.
Qed.

End DomPrimitives.

Section Unwrap.
Import Dom.

Lemma unwrapStep_spec (st : gmap nat NodeRec) (p c : nat) (l1 post : list nat) :
  childrenOf st p = l1 ++ post ->
  is_Some (st !! p) -> is_Some (st !! c) ->
  (forall n, head post = Some n -> n ∉ l1) ->
  childrenOf (unwrapStep p (head post) st c) p = (l1 ++ [c]) ++ post
  /\ parentOf (unwrapStep p (head post) st c) c = Some p
  /\ frames p c st (unwrapStep p (head post) st c).
Proof.
  intros Hp Hsp Hsc Hn. destruct post as [|n post]; simpl.
  - rewrite app_nil_r in *. by apply appendChild_spec.
  - rewrite <- app_assoc. simpl. apply insertBefore_spec; [exact Hp | | exact Hsc].
    by apply Hn.
Qed.

Lemma unwrapLoop_spec (p e : nat) (pre post : list nat) (cs2 : list nat) :
  forall (cs1 : list nat) (st1 : gmap nat NodeRec),
    childrenOf st1 p = pre ++ e :: cs1 ++ post ->
    (forall c, c ∈ cs2 -> is_Some (st1 !! c)) ->
    (forall n, head post = Some n -> n ∉ pre ++ e :: cs1 ++ cs2) ->
    let st2 := foldl (unwrapStep p (head post)) st1 cs2 in
    childrenOf st2 p = pre ++ e :: (cs1 ++ cs2) ++ post
    /\ (forall c, c ∈ cs2 -> parentOf st2 c = Some p)
    /\ (forall i, is_Some (st2 !! i) <-> is_Some (st1 !! i))
    /\ (forall i, i <> p -> childrenOf st2 i = childrenOf st1 i)
    /\ (forall i, i ∉ cs2 -> parentOf st2 i = parentOf st1 i).
Proof.
  induction cs2 as [|c cs2 IH]; intros cs1 st1 Hp Hex Hn; simpl.
  - rewrite app_nil_r. split; [exact Hp |].
    split; [intros c Hc; by apply elem_of_nil in Hc | tauto].
  - assert (Hsp : is_Some (st1 !! p)).
    { unfold childrenOf in Hp. destruct (st1 !! p); [eauto |].
      simpl in Hp. by destruct pre. }
    destruct (unwrapStep_spec st1 p c (pre ++ e :: cs1) post) as (Hk & Hpc & Hs & Hko & Hpo).
    { rewrite Hp, <- app_assoc. reflexivity. }
    { exact Hsp. }
    { apply Hex. by left. }
    { intros n Hhd Hin. apply (Hn n Hhd).
      rewrite elem_of_app, elem_of_cons in Hin.
      rewrite elem_of_app, elem_of_cons, elem_of_app. tauto. }
    set (st1' := unwrapStep p (head post) st1 c) in *.
    destruct (IH (cs1 ++ [c]) st1') as (Hk2 & Hc2 & Hs2 & Hko2 & Hpo2).
    { rewrite Hk, <- !app_assoc. reflexivity. }
    { intros c' Hc'. apply Hs. apply Hex. by right. }
    { intros n Hhd. rewrite <- app_assoc. simpl. by apply Hn. }
    split; [rewrite Hk2, <- !app_assoc; reflexivity |].
    split; [| split; [| split]].
    + intros c' Hc'. destruct (decide (c' ∈ cs2)) as [Hin | Hnin].
      * by apply Hc2.
      * apply elem_of_cons in Hc' as [-> | ?]; [| contradiction].
        rewrite Hpo2 by exact Hnin. exact Hpc.
    + intros i. rewrite Hs2. apply Hs.
    + intros i Hi. rewrite Hko2 by exact Hi. by apply Hko.
    + intros i Hi. apply not_elem_of_cons in Hi as [Hne Hi].
      rewrite Hpo2 by exact Hi. by apply Hpo.
Qed.

End Unwrap.

Section UnwrapTheorem.
Import Dom.

(** C9.  [unwrapInParent] on an element [e] without children or without
    parent is [detachNode].  On an element with parent [p] and children
    [cs], in a tree where [e] stands between [pre] and [post] among the
    (pairwise distinct) children of [p], the children of [e] are not
    children of [p], and the next sibling of [e] is the first node of
    [post] if there is one: every child is inserted before that next
    sibling, or appended when there is none, and [e] is detached; the
    children of [p] are then [pre], the children of [e] in their order,
    [post]; every moved child has [p] as its parent; [e] has no parent;
    and the children of every node but [p] are what they were, so the
    moved children keep their descendants. *)
Theorem unwrapInParent_correct (st : gmap nat NodeRec) (e : nat) :
  (childrenOf st e = [] \/ parentOf st e = None ->
   unwrapInParent e st = detachNode e st)
  /\ (forall p cs pre post,
        parentOf st e = Some p ->
        childrenOf st e = cs -> cs <> [] ->
        childrenOf st p = pre ++ e :: post ->
        NoDup (pre ++ e :: post) ->
        (forall c, c ∈ cs -> c ∉ pre ++ e :: post) ->
        (forall c, c ∈ cs -> is_Some (st !! c)) ->
        nextOf st e = head post ->
        let st' := unwrapInParent e st in
        st' = detachNode e (foldl (unwrapStep p (nextOf st e)) st cs)
        /\ childrenOf st' p = pre ++ cs ++ post
        /\ (forall c, c ∈ cs -> parentOf st' c = Some p)
        /\ parentOf st' e = None
        /\ (forall i, i <> p -> childrenOf st' i = childrenOf st i)
        /\ (forall i, is_Some (st' !! i) <-> is_Some (st !! i))).
Proof.
  split.
  - unfold unwrapInParent. intros [H | H].
    + by rewrite H.
    + rewrite H. by destruct (childrenOf st e).
  - intros p cs pre post Hpar Hcs Hne Hp Hnd Hdisj Hex Hnext st'.
    assert (Hdef : st' = detachNode e (foldl (unwrapStep p (nextOf st e)) st cs)).
    { subst st'. unfold unwrapInParent. rewrite Hcs, Hpar.
      destruct cs; [congruence | reflexivity]. }
    split; [exact Hdef |]. rewrite Hdef, Hnext. clear Hdef st'.
    apply NoDup_app in Hnd as (Hnd1 & Hnd2 & Hnd3).
    apply NoDup_cons in Hnd3 as [He_post Hnd3].
    assert (He_pre : e ∉ pre).
    { intros H. apply (Hnd2 e H). by left. }
    assert (He_cs : e ∉ cs).
    { intros H. apply (Hdisj e H). rewrite elem_of_app, elem_of_cons. tauto. }
    assert (Hpe : p <> e).
    { intros ->. apply He_cs. rewrite <- Hcs, Hp.
      rewrite elem_of_app, elem_of_cons. tauto. }
    destruct (unwrapLoop_spec p e pre post cs [] st)
      as (Hk & Hc & Hs & Hko & Hpo).
    { exact Hp. }
    { exact Hex. }
    { intros n Hn Hin. simpl in Hin.
      assert (Hn_post : n ∈ post).
      { destruct post; [discriminate |]. injection Hn as ->. by left. }
      rewrite elem_of_app, elem_of_cons in Hin.
      destruct Hin as [Hin | [-> | Hin]].
      - apply (Hnd2 n Hin). by right.
      - contradiction.
      - apply (Hdisj n Hin). rewrite elem_of_app, elem_of_cons. tauto. }
    simpl in Hk.
    set (st2 := foldl (unwrapStep p (head post)) st cs) in *.
    destruct (detachNode_spec st2 e p pre (cs ++ post))
      as (Hk3 & Hp3 & Hs3 & Hko3 & Hpo3).
    { rewrite Hpo by exact He_cs. exact Hpar. }
    { exact Hk. }
    { exact He_pre. }
    split; [exact Hk3 |]. split; [| split; [exact Hp3 | split]].
    + intros c Hc'. rewrite Hpo3; [by apply Hc |]. intros ->. contradiction.
    + intros i Hi. rewrite Hko3 by exact Hi. by apply Hko.
    + intros i. rewrite Hs3. apply Hs.
Qed.

End UnwrapTheorem.

(** Unwrapping node [2] of the sample store. *)
Lemma unwrapInParent_correct_witness :
  let st := Samples.st0 in
  Dom.parentOf st 2 = Some 0
  /\ Dom.childrenOf st 2 = [4; 5]
  /\ Dom.childrenOf st 0 = [1] ++ 2 :: [3]
  /\ Dom.nextOf st 2 = head [3]
  /\ Dom.childrenOf (Dom.unwrapInParent 2 st) 0 = [1] ++ [4; 5] ++ [3].
Proof.
  intros st.
  assert (H1 : Dom.parentOf st 2 = Some 0) by reflexivity.
  assert (H2 : Dom.childrenOf st 2 = [4; 5]) by reflexivity.
  assert (H3 : Dom.childrenOf st 0 = [1] ++ 2 :: [3]) by reflexivity.
  assert (H4 : Dom.nextOf st 2 = head [3]) by reflexivity.
  split; [exact H1 |]. split; [exact H2 |]. split; [exact H3 |].
  split; [exact H4 |].
  destruct (unwrapInParent_correct st 2) as [_ H].
  destruct (H 0 [4; 5] [1] [3] H1 H2) as (_ & Hk & _).
  - discriminate.
  - exact H3.
  - refine (bool_decide_unpack (NoDup ([1] ++ 2 :: [3])) _). vm_compute. exact I.
  - intros c Hc.
    apply elem_of_cons in Hc as [-> | Hc];
      [refine (bool_decide_unpack (4 ∉ [1] ++ 2 :: [3]) _); vm_compute; exact I |].
    apply elem_of_cons in Hc as [-> | Hc];
      [refine (bool_decide_unpack (5 ∉ [1] ++ 2 :: [3]) _); vm_compute; exact I |].
    by apply elem_of_nil in Hc.
  - intros c Hc.
    apply elem_of_cons in Hc as [-> | Hc]; [vm_compute; eauto |].
    apply elem_of_cons in Hc as [-> | Hc]; [vm_compute; eauto |].
    by apply elem_of_nil in Hc.
  - exact H4.
  - exact Hk.
Defined.

(* ------------------------------------------------------------------ *)
(** ** What handlers and sanitizers do to the element under visit       *)
(* ------------------------------------------------------------------ *)

Section Tame.
Import Tree Adapter Direct Indirect Sanitizers.
Context {C : Type}.

Lemma tame_ret {A} (okOf : A -> bool) (a : A) :
  okOf a = true -> tame (C := C) okOf (mret a).
Proof.
  intros Hok el a' el' Hl H. munfold. injection H as <- <-.
  rewrite Hok. by repeat split.
Qed.

Lemma tame_throw {A} (okOf : A -> bool) (msg : string) :
  tame (C := C) okOf (throw msg).
Proof. intros el a el' _ H. discriminate. Qed.

Lemma tame_bind {A B} (okA : A -> bool) (okB : B -> bool)
    (m : M C A) (k : A -> M C B) :
  tame okA m ->
  (forall a, okA a = true -> tame okB (k a)) ->
  (forall a, okA a = false -> exists b, k a = mret b /\ okB b = false) ->
  tame okB (m ≫= k).
Proof.
  intros Hm Hk Hstop el b el' Hl H. munfold.
  destruct (m el) as [[a el1]|msg] eqn:E; [| discriminate].
  destruct (Hm el a el1 Hl E) as (Ht & Hc & Hlk).
  destruct (okA a) eqn:Ha.
  - destruct (Hk a Ha el1 b el' Hlk H) as (Ht' & Hc' & Hlk').
    repeat split; congruence.
  - destruct (Hstop a Ha) as (b' & Hkb & Hb'). rewrite Hkb in H.
    munfold. injection H as <- <-. rewrite Hb'. by repeat split.
Qed.

Lemma tame_get {A} (okA : A -> bool) (k : Target C -> M C A) :
  (forall x, tame okA (k x)) -> tame okA (get ≫= k).
Proof. intros Hk el a el' Hl H. munfold. by eapply Hk. Qed.

Lemma tame_setAttrib (key value : string) :
  tame (fun _ => true) (setAttrib (C := C) key value).
Proof. intros el a el' Hl H. unfold setAttrib in H. munfold.
  injection H as _ <-. by repeat split. Qed.

Lemma tame_deleteAttrib (key : string) :
  tame (fun _ => true) (deleteAttrib (C := C) key).
Proof. intros el a el' Hl H. unfold deleteAttrib in H. munfold.
  injection H as _ <-. by repeat split. Qed.

Lemma tame_detachNode : tame (fun _ => false) (detachNode (C := C)).
Proof.
  intros el a el' Hl H. unfold detachNode in H. munfold.
  injection H as _ <-. rewrite Hl. by repeat split.
Qed.

(** A computation that always succeeds, followed by [mret true]. *)
Lemma tame_then_true (m : M C unit) :
  tame (fun _ => true) m -> tame id (m ;; mret true).
Proof.
  intros Hm. eapply tame_bind; [exact Hm | | discriminate].
  intros _ _. by apply tame_ret.
Qed.

Lemma tame_then_false (m : M C unit) :
  tame (fun _ => false) m -> tame id (m ;; mret false).
Proof.
  intros Hm el b el' Hl H. munfold.
  destruct (m el) as [[[] el1]|msg] eqn:E; [| discriminate].
  injection H as <- <-. by apply (Hm el tt el1).
Qed.

Lemma tame_handleTagError (mode : option ErrorHandlingMode) (msg : option string) :
  mode <> Some unwrapElement -> tame id (handleTagError (C := C) mode msg).
Proof.
  intros Hm. unfold handleTagError.
  destruct mode as [[]|]; try congruence;
    first [ apply tame_then_false, tame_detachNode
          | apply tame_get; intros x; apply tame_throw ].
Qed.

Lemma tame_handleTagAttributeError attribute (mode : option ErrorHandlingMode)
    (msg : option string) :
  mode <> Some unwrapElement ->
  tame id (handleTagAttributeError (C := C) attribute mode msg).
Proof.
  intros Hm. unfold handleTagAttributeError.
  destruct mode as [[]|]; try congruence;
    first [ apply tame_then_true, tame_deleteAttrib
          | by apply tame_handleTagError ].
Qed.

Lemma tame_handleTagAttributeValueError attribute rule
    (mode : option ErrorHandlingMode) (msg : option string) :
  mode <> Some unwrapElement ->
  tame id (handleTagAttributeValueError (C := C) attribute rule mode msg).
Proof.
  intros Hm. unfold handleTagAttributeValueError.
  destruct mode as [[]|]; try congruence;
    try (by apply tame_handleTagAttributeError).
  apply tame_then_true.
  destruct (Rule.defaultValue rule) as [d|];
    [destruct (JsString.truthy d) |];
    first [apply tame_setAttrib | apply tame_deleteAttrib].
Qed.

Lemma tame_handleTagAttributeRecordValueError attribute record index rule
    (mode : option ErrorHandlingMode) (msg : option string) :
  mode <> Some unwrapElement ->
  tame id (handleTagAttributeRecordValueError (C := C) attribute record index
             rule mode msg).
Proof.
  intros Hm. unfold handleTagAttributeRecordValueError.
  destruct mode as [[]|]; try congruence; try (by apply tame_ret);
    (destruct (record !! index);
     [by apply tame_handleTagAttributeValueError | apply tame_throw]).
Qed.

Lemma tame_handleTagAttributeSetValueError attribute index set rule
    (mode : option ErrorHandlingMode) (msg : option string) :
  mode <> Some unwrapElement ->
  tame id (handleTagAttributeSetValueError (C := C) attribute index set rule
             mode msg).
Proof.
  intros Hm. unfold handleTagAttributeSetValueError.
  destruct mode as [[]|]; try congruence; try (by apply tame_ret);
    by apply tame_handleTagAttributeValueError.
Qed.

Lemma tame_handleTagAttributeValueTooLongError attribute rule
    (mode : option ErrorHandlingMode) (msg : option string) :
  mode <> Some unwrapElement ->
  tame id (handleTagAttributeValueTooLongError (C := C) attribute rule mode msg).
Proof.
  intros Hm. unfold handleTagAttributeValueTooLongError.
  destruct mode as [[]|]; try congruence;
    try (by apply tame_handleTagAttributeValueError).
  apply tame_then_true, tame_setAttrib.
Qed.

Lemma tame_handleTooMany {A} attribute (collection : list A) rule
    (mode : option ErrorHandlingMode) (msg : option string) :
  mode <> Some unwrapElement ->
  tame CollectionResult.proceed
    (handleTagAttributeCollectionValueTooManyError (C := C) attribute collection
       rule mode msg).
Proof.
  intros Hm. unfold handleTagAttributeCollectionValueTooManyError.
  destruct mode as [[]|]; try congruence; try (by apply tame_ret);
    (intros el r el' Hl H; munfold;
     destruct (handleTagAttributeValueError attribute rule _ _ el)
       as [[ok el1]|m] eqn:E; [| discriminate];
     injection H as <- <-; simpl;
     eapply (tame_handleTagAttributeValueError attribute rule _ _ Hm); eauto).
Qed.

Lemma tame_handleDuplicate attribute key record rule
    (mode : option ErrorHandlingMode) (msg : option string) :
  mode <> Some unwrapElement ->
  tame DuplicateResult.globalProceed
    (handleTagAttributeRecordValueDuplicateError (C := C) attribute key record
       rule mode msg).
Proof.
  intros Hm. unfold handleTagAttributeRecordValueDuplicateError.
  destruct mode as [[]|]; try congruence; try (by apply tame_ret);
    (intros el r el' Hl H; munfold;
     destruct (handleTagAttributeValueError attribute rule _ _ el)
       as [[ok el1]|m] eqn:E; [| discriminate];
     injection H as <- <-; simpl;
     eapply (tame_handleTagAttributeValueError attribute rule _ _ Hm); eauto).
Qed.

End Tame.

Section TameSanitizers.
Import Tree Adapter Direct Indirect Sanitizers.
Context {C : Type}.

(** [ok ← m; if (!ok) return fail; k] *)
Lemma tame_guard {B} (okB : B -> bool) (m : M C bool) (fail : B) (k : M C B) :
  tame id m -> tame okB k -> okB fail = false ->
  tame okB (ok ← m; if negb ok then mret fail else k).
Proof.
  intros Hm Hk Hf. eapply tame_bind; [exact Hm | |].
  - intros [] Ha; [exact Hk | discriminate].
  - intros [] Ha; [discriminate |]. eauto.
Qed.

Variable errorHandling : option ErrorHandling.t.
Hypothesis NU : noUnwrap errorHandling.

Lemma tame_sanitizeTag (rule : option TagRule.t) :
  tame id (sanitizeTag (C := C) rule (slot errorHandling ErrorHandling.tag)).
Proof.
  unfold sanitizeTag. destruct rule; [by apply tame_ret |].
  apply tame_handleTagError. apply NU.
Qed.

Lemma tame_sanitizeTagAttribute attribute (rule : option RuleValue) :
  tame ProceedFlags.globalProceed
    (sanitizeTagAttribute (C := C) attribute rule
       (slot errorHandling ErrorHandling.attribute)).
Proof.
  unfold sanitizeTagAttribute. destruct rule; [by apply tame_ret |].
  intros el r el' Hl H. munfold.
  destruct (handleTagAttributeError attribute _ None el) as [[g el1]|m] eqn:E;
    [| discriminate].
  injection H as <- <-. simpl.
  eapply (tame_handleTagAttributeError attribute
            (slot errorHandling ErrorHandling.attribute) None);
    [apply NU | exact Hl | exact E].
Qed.

Lemma tame_sanitizeSimple attribute rule value :
  tame id
    (sanitizeTagAttributeSimpleValue (C := C) attribute rule value
       (slot errorHandling ErrorHandling.attributeValue)).
Proof.
  unfold sanitizeTagAttributeSimpleValue.
  destruct (negb _); [| by apply tame_ret].
  apply tame_handleTagAttributeValueError. apply NU.
Qed.

Lemma tame_setLoop attribute rule values input rest :
  forall index output,
    tame isSome
      (setLoop (C := C) attribute rule values errorHandling input index rest output).
Proof.
  induction rest as [|val rest IH]; intros index output; cbn [setLoop].
  - by apply tame_ret.
  - destruct (negb _); [| apply IH].
    apply tame_guard; [| apply IH | reflexivity].
    apply tame_handleTagAttributeSetValueError. apply NU.
Qed.

Lemma tame_sanitizeSet attribute rule delimiter values :
  tame id
    (sanitizeTagAttributeSetValue (C := C) attribute rule delimiter values
       errorHandling).
Proof.
  unfold sanitizeTagAttributeSetValue.
  assert (Hcont : forall input,
            tame id
              (r ← setLoop (C := C) attribute rule values errorHandling input 0
                     input [];
               match r with
               | None => mret false
               | Some output =>
                   setAttrib (TagAttribute.key attribute)
                     (JsString.join output delimiter) ;; mret true
               end)).
  { intros input. eapply tame_bind; [apply tame_setLoop | |].
    - intros [output|] Ho; [| discriminate].
      apply tame_then_true, tame_setAttrib.
    - intros [output|] Ho; [discriminate |]. eauto. }
  destruct (_ && _); [| apply Hcont].
  eapply tame_bind; [apply tame_handleTooMany; apply NU | |].
  - intros r Hr. rewrite Hr. apply Hcont.
  - intros r Hr. rewrite Hr. eauto.
Qed.

Lemma tame_recordLoop attribute rule values input rest :
  forall index seen output,
    tame isSome
      (recordLoop (C := C) attribute rule values errorHandling input index rest
         seen output).
Proof.
  induction rest as [|[key val] rest IH]; intros index seen output;
    cbn [recordLoop].
  - by apply tame_ret.
  - assert (Hhandler : forall out,
              tame isSome
                (ok ← handleTagAttributeRecordValueError (C := C) attribute input
                        index rule
                        (slot errorHandling ErrorHandling.attributeRecordValue) None;
                 if negb ok then mret None
                 else recordLoop attribute rule values errorHandling input
                        (S index) rest seen out)).
    { intros out. apply tame_guard; [| apply IH | reflexivity].
      apply tame_handleTagAttributeRecordValueError. apply NU. }
    assert (Hcheck : forall out,
              tame isSome
                (match pairRuleOf values key with
                 | Some (Comparators.Raises message) => throw message
                 | Some (Comparators.Compares cmp) =>
                     if negb (Comparators.truthy cmp)
                        || negb (Comparators.matchComparator cmp val)
                     then
                       ok ← handleTagAttributeRecordValueError (C := C) attribute
                              input index rule
                              (slot errorHandling ErrorHandling.attributeRecordValue)
                              None;
                       if negb ok then mret None
                       else recordLoop attribute rule values errorHandling input
                              (S index) rest seen out
                     else
                       recordLoop attribute rule values errorHandling input
                         (S index) rest ({[key]} ∪ seen)
                         (out ++ [TagAttributeValueEntry.mk key val])
                 | None =>
                     ok ← handleTagAttributeRecordValueError (C := C) attribute
                            input index rule
                            (slot errorHandling ErrorHandling.attributeRecordValue)
                            None;
                     if negb ok then mret None
                     else recordLoop attribute rule values errorHandling input
                            (S index) rest seen out
                 end)).
    { intros out.
      destruct (pairRuleOf values key) as [[cmp|message]|];
        [| apply tame_throw | apply Hhandler].
      destruct (_ || _); [apply Hhandler | apply IH]. }
    destruct (bool_decide (key ∈ seen)); [| apply Hcheck].
    eapply tame_bind; [apply tame_handleDuplicate; apply NU | |].
    + intros r Hr. rewrite Hr. cbn [negb].
      destruct (negb (DuplicateResult.localProceed r)); [apply IH | apply Hcheck].
    + intros r Hr. rewrite Hr. eauto.
Qed.

Lemma tame_sanitizeRecord attribute rule entrySeparator keyValueSeparator values :
  tame id
    (sanitizeTagAttributeRecordValue (C := C) attribute rule entrySeparator
       keyValueSeparator values errorHandling).
Proof.
  unfold sanitizeTagAttributeRecordValue.
  assert (Hcont : forall input,
            tame id
              (r ← recordLoop (C := C) attribute rule values errorHandling input 0
                     input ∅ [];
               match r with
               | None => mret false
               | Some output =>
                   setAttrib (TagAttribute.key attribute)
                     (JsString.join
                        (List.map (renderEntry keyValueSeparator) output)
                        entrySeparator) ;; mret true
               end)).
  { intros input. eapply tame_bind; [apply tame_recordLoop | |].
    - intros [output|] Ho; [| discriminate].
      apply tame_then_true, tame_setAttrib.
    - intros [output|] Ho; [discriminate |]. eauto. }
  destruct (_ && _); [| apply Hcont].
  eapply tame_bind; [apply tame_handleTooMany; apply NU | |].
  - intros r Hr. rewrite Hr. apply Hcont.
  - intros r Hr. rewrite Hr. eauto.
Qed.

Lemma tame_sanitizeByMode attribute rule :
  tame id (sanitizeByMode (C := C) attribute rule errorHandling).
Proof.
  unfold sanitizeByMode. destruct (Rule.mode rule).
  - apply tame_sanitizeSimple.
  - apply tame_sanitizeSet.
  - apply tame_sanitizeRecord.
Qed.

Lemma tame_sanitizeTagAttributeValue attribute rule :
  tame id (sanitizeTagAttributeValue (C := C) attribute rule errorHandling).
Proof.
  unfold sanitizeTagAttributeValue.
  destruct (_ && _); [| apply tame_sanitizeByMode].
  apply tame_guard; [apply tame_handleTagAttributeValueTooLongError, NU | |
                     reflexivity].
  apply tame_get. intros x.
  destruct (attrGet _ _) as [value|]; [| by apply tame_ret].
  destruct (negb _); [by apply tame_ret | apply tame_sanitizeByMode].
Qed.

(** A name that no member of [Object.prototype] has is looked up among
    the rules of the policy alone. *)
Lemma ruleFor_plain (name : string)
    (rules : option (list (string * Rule.TagAttributeValueRule))) :
  JsObject.inherited name = false -> ruleFor name rules <> Some Member.
Proof.
  intros Hname. unfold ruleFor. destruct rules as [rs|]; [| discriminate].
  destruct (ruleGet name rs); [discriminate |]. rewrite Hname.
  by destruct (ruleGet "*" rs).
Qed.

Lemma tame_attributesLoop keys rules :
  Forall (fun name => JsObject.inherited name = false) keys ->
  tame id (attributesLoop (C := C) keys rules errorHandling).
Proof.
  induction 1 as [|name keys Hname Hkeys IH]; cbn [attributesLoop].
  - by apply tame_ret.
  - apply tame_get. intros x.
    destruct (attrGet name (attribs x)) as [value|]; [| apply tame_throw].
    eapply tame_bind; [apply tame_sanitizeTagAttribute | |].
    + intros flags Hg. rewrite Hg. cbn [negb].
      destruct (negb (ProceedFlags.localProceed flags)); [exact IH |].
      pose proof (ruleFor_plain name rules Hname) as Hplain.
      destruct (ruleFor name rules) as [[r|]|]; [| done | apply tame_throw].
      apply tame_guard; [apply tame_sanitizeTagAttributeValue | exact IH |
                         reflexivity].
    + intros flags Hg. rewrite Hg. eauto.
Qed.

Lemma plainNames_keys (a : list (string * string)) :
  plainNames a = true ->
  Forall (fun name => JsObject.inherited name = false) (attrKeys a).
Proof.
  unfold plainNames, attrKeys. rewrite forallb_forall, Forall_forall.
  intros H name Hin. apply list_elem_of_fmap in Hin as (kv & -> & Hkv).
  apply negb_true_iff, H. by apply list_elem_of_In.
Qed.

Lemma tame_enforceRequiredLoop entries :
  tame id (enforceRequiredLoop (C := C) entries errorHandling).
Proof.
  induction entries as [|[attrName rule] entries IH]; cbn [enforceRequiredLoop].
  - by apply tame_ret.
  - destruct (String.eqb attrName "*"); [exact IH |].
    apply tame_get. intros x.
    destruct (_ && _); [| exact IH].
    apply tame_guard; [| exact IH | reflexivity].
    apply tame_handleTagAttributeValueError. apply NU.
Qed.

Lemma tame_enforceRequiredAttributes rules :
  tame id (enforceRequiredAttributes (C := C) rules errorHandling).
Proof.
  unfold enforceRequiredAttributes.
  destruct rules; [apply tame_enforceRequiredLoop | by apply tame_ret].
Qed.

(** On an element without an attribute named like a member of
    [Object.prototype], [sanitizeAttributes] only touches the
    attributes and detaches the element when it returns [false]. *)
Lemma tame_sanitizeAttributes rules (el el' : Target C) (ok : bool) :
  plainNames (attribs el) = true ->
  link el = InParent ->
  sanitizeAttributes rules errorHandling el = Returned (ok, el') ->
  survives el el' ok.
Proof.
  intros Hplain%plainNames_keys Hl H.
  assert (Htame : tame id
            (match attrKeys (attribs el) return M C bool with
             | [] => enforceRequiredAttributes rules errorHandling
             | _ :: _ =>
                 completed ← attributesLoop (attrKeys (attribs el)) rules
                               errorHandling;
                 if negb completed then mret false
                 else enforceRequiredAttributes rules errorHandling
             end)).
  { destruct (attrKeys (attribs el)) eqn:Hkeys;
      [apply tame_enforceRequiredAttributes |].
    apply tame_guard; [by apply tame_attributesLoop |
                       apply tame_enforceRequiredAttributes | reflexivity]. }
  exact (Htame el ok el' Hl H).
Qed.

End TameSanitizers.

Section ChildrenAndNesting.
Import Tree Adapter Direct Sanitizers Walker.
Context {C : Type}.

Lemma repeatM_detachFirst (n : nat) (el : Target C) :
  repeatM n detachFirstChild el
  = Returned (tt, withChildren el (drop n (children el))).
Proof.
  revert el. induction n as [|n IH]; intros el.
  - simpl. munfold. by destruct el.
  - cbn [repeatM]. munfold.
    change (detachFirstChild el)
      with (Returned (tt, withChildren el (tail (children el)))).
    cbv iota beta. rewrite IH. destruct el as [t a [|c cs] l]; simpl; [| reflexivity].
    by rewrite drop_nil.
Qed.

Lemma removelast_take {A} (l : list A) :
  removelast l = take (List.length l - 1) l.
Proof.
  induction l as [|x [|y l] IH]; [reflexivity | reflexivity |].
  change (removelast (x :: y :: l)) with (x :: removelast (y :: l)).
  rewrite IH. simpl. by rewrite Nat.sub_0_r.
Qed.

Lemma repeatM_detachLast (n : nat) (el : Target C) :
  repeatM n detachLastChild el
  = Returned (tt, withChildren el (take (List.length (children el) - n) (children el))).
Proof.
  revert el. induction n as [|n IH]; intros el.
  - simpl. munfold. rewrite Nat.sub_0_r, firstn_all. by destruct el.
  - cbn [repeatM]. munfold.
    change (detachLastChild el)
      with (Returned (tt, withChildren el (removelast (children el)))).
    cbv iota beta. rewrite IH. destruct el as [t a cs l]; simpl. do 2 f_equal.
    unfold withChildren; simpl. f_equal.
    rewrite removelast_take, take_take, length_take. f_equal. lia.
Qed.

(** The children left by [handleTagChildrenError] when it returns [true]:
    the last ones under [discardFirsts], the first ones under
    [discardLasts]. *)
Lemma handleTagChildrenError_spec (maxChildren : nat)
    (mode : option ErrorHandlingMode) (el el' : Target C) (ok : bool) :
  link el = InParent ->
  handleTagChildrenError maxChildren mode el = Returned (ok, el') ->
  tagName el' = tagName el /\ attribs el' = attribs el
  /\ if ok
     then link el' = InParent
          /\ (children el'
              = drop (List.length (children el) - maxChildren) (children el)
              \/ children el'
                 = take (List.length (children el)
                         - (List.length (children el) - maxChildren))
                     (children el))
     else link el' = Removed /\ children el' = children el.
Proof.
  intros Hl. unfold handleTagChildrenError. munfold.
  destruct mode as [[]|]; try (destruct (tagName el); discriminate).
  - unfold detachNode. munfold. rewrite Hl. intros [= <- <-]. by repeat split.
  - rewrite repeatM_detachFirst. intros [= <- <-]. simpl. tauto.
  - rewrite repeatM_detachLast. intros [= <- <-]. simpl. tauto.
Qed.

Lemma tame_handleTagNestingError (maxNesting : nat)
    (mode : option ErrorHandlingMode) :
  tame (fun _ => false) (handleTagNestingError (C := C) maxNesting mode).
Proof.
  unfold handleTagNestingError. intros el b el' Hl.
  destruct mode as [[]|]; munfold; try (destruct (tagName el); discriminate).
  unfold detachNode. munfold. rewrite Hl. intros [= _ <-]. by repeat split.
Qed.

Lemma handleTagNestingError_removed (maxNesting : nat)
    (mode : option ErrorHandlingMode) (el el' : Target C) (b : bool) :
  link el = InParent ->
  handleTagNestingError maxNesting mode el = Returned (b, el') ->
  link el' = Removed.
Proof.
  intros Hl E. by destruct (tame_handleTagNestingError _ _ el b el' Hl E) as (_ & _ & H).
Qed.

Lemma handleTagNestingError_attribs (maxNesting : nat)
    (mode : option ErrorHandlingMode) (el el' : Target C) (b : bool) :
  handleTagNestingError maxNesting mode el = Returned (b, el') ->
  attribs el' = attribs el.
Proof.
  unfold handleTagNestingError.
  destruct mode as [[]|]; munfold; try (destruct (tagName el); discriminate).
  unfold detachNode. munfold. intros [= _ <-]. by destruct (link el).
Qed.

Lemma nestingLoop_ok (options : SanitizerOptions.t)
    (frames : list TagNestingFrame.t) (el : Target C) :
  forallb (frameOk options) frames = true ->
  nestingLoop options frames el = Returned (Some (List.map deeper frames), el).
Proof.
  induction frames as [|f frames IH]; intros H; [reflexivity |].
  cbn [forallb] in H. apply andb_true_iff in H as [Hf H].
  cbn [nestingLoop]. fold (nestingLimit options (TagNestingFrame.key f)).
  unfold frameOk in Hf. cbn [TagNestingFrame.value].
  destruct (truthyNumber (nestingLimit options (TagNestingFrame.key f)));
    cbn [negb orb] in Hf |- *.
  - apply negb_true_iff in Hf. rewrite Hf. munfold. rewrite (IH H). reflexivity.
  - munfold. rewrite (IH H). reflexivity.
Qed.

Lemma nestingLoop_inv (options : SanitizerOptions.t)
    (frames : list TagNestingFrame.t) (el el' : Target C)
    (r : option (list TagNestingFrame.t)) :
  link el = InParent ->
  nestingLoop options frames el = Returned (r, el') ->
  match r with
  | Some _ => forallb (frameOk options) frames = true
  | None => survives el el' false /\ attribs el' = attribs el
  end.
Proof.
  intros Hl. revert r el'. induction frames as [|f frames IH]; intros r el' H.
  - simpl in H. munfold. by injection H as <- _.
  - cbn [nestingLoop] in H. fold (nestingLimit options (TagNestingFrame.key f)) in H.
    cbn [TagNestingFrame.value] in H. cbn [forallb]. unfold frameOk at 1.
    assert (Hrec : (r0 ← nestingLoop options frames;
                    mret (match r0 with
                          | Some fs => Some (deeper f :: fs)
                          | None => None
                          end)) el = Returned (r, el') ->
                   match r with
                   | Some _ => forallb (frameOk options) frames = true
                   | None => survives el el' false /\ attribs el' = attribs el
                   end).
    { munfold. destruct (nestingLoop options frames el) as [[r0 el0]|m] eqn:E;
        [| discriminate].
      intros [= <- <-]. specialize (IH _ _ eq_refl). by destruct r0. }
    destruct (truthyNumber (nestingLimit options (TagNestingFrame.key f)));
      cbn [negb orb] in *.
    + destruct (_ <? _)%nat eqn:Hlt; cbn [negb andb].
      * munfold.
        destruct (handleTagNestingError _ _ el) as [[b el1]|m] eqn:E; [| discriminate].
        injection H as <- <-. split.
        -- eapply (tame_handleTagNestingError _ _ el); eauto.
        -- eapply handleTagNestingError_attribs; eauto.
      * specialize (Hrec H). by destruct r.
    + specialize (Hrec H). by destruct r.
Qed.

End ChildrenAndNesting.

Section WalkElement.
Import Tree Adapter Direct Sanitizers Walker.

Lemma rev_map_deeper (frames : list TagNestingFrame.t) :
  rev (List.map deeper (rev frames)) = List.map deeper frames.
Proof. by rewrite <- map_rev, rev_involutive. Qed.

Lemma target_eta {C} (el : Target C) t a c l :
  tagName el = t -> attribs el = a -> children el = c -> link el = l ->
  el = mkTarget t a c l.
Proof. destruct el. simpl. by intros -> -> -> ->. Qed.

Lemma withWalks_drop options n kids :
  drop n (withWalks options kids) = withWalks options (drop n kids).
Proof. unfold withWalks. by rewrite <- fmap_drop. Qed.

Lemma withWalks_take options n kids :
  take n (withWalks options kids) = withWalks options (take n kids).
Proof. unfold withWalks. by rewrite <- fmap_take. Qed.

Lemma withWalks_length options kids :
  List.length (withWalks options kids) = List.length kids.
Proof. unfold withWalks. apply length_map. Qed.

Lemma withWalks_fst options kids :
  List.map fst (withWalks options kids) = kids.
Proof.
  unfold withWalks. rewrite map_map. simpl. apply map_id.
Qed.

Variable options : SanitizerOptions.t.
Hypothesis NU : noUnwrap (SanitizerOptions.errorHandling options).

(** What a visit of an element that returns has done, when no slot
    selects [unwrapElement] and no attribute of the element is named
    like a member of [Object.prototype]: either the element is gone, or
    its tag has a
    rule, its attributes went through [sanitizeAttributes], the children
    check left [kids1], the nesting check passed, and the walk over
    [kids1] gave the children of the element. *)
Lemma walkElement_inv (t : string) (attrs : list (string * string))
    (kids : list Node) (state : SanitizerState.t) (out : list Node) :
  plainNames attrs = true ->
  walkElement (mkTarget (Some t) attrs (withWalks options kids) InParent)
    options state = Returned out ->
  out = []
  \/ exists rule attrs' kids1 kidsOut,
       tagRuleOf options t = Some rule
       /\ sanitizeAttributes (TagRule.attributes rule)
            (SanitizerOptions.errorHandling options)
            (mkTarget (Some t) attrs (withWalks options kids) InParent)
          = Returned (true, mkTarget (Some t) attrs' (withWalks options kids) InParent)
       /\ childrenKept (limitOf (TagRule.limits rule) TagLimits.children) kids kids1
       /\ forallb (frameOk options) (rev (SanitizerState.tagNesting state)) = true
       /\ walkChildren (withWalks options kids1) (newStateOf state t)
          = Returned kidsOut
       /\ out = [Element t attrs' kidsOut].
Proof.
  intros Hplain. unfold walkElement. cbn [tagNameOf tagName].
  set (el0 := mkTarget (Some t) attrs (withWalks options kids) InParent).
  set (eh := SanitizerOptions.errorHandling options).
  munfold.
  (* Tag sanitization *)
  destruct (sanitizeTag (tagRuleOf options t) (slot eh ErrorHandling.tag) el0)
    as [[ok1 el1]|m] eqn:E1; [| discriminate].
  destruct (tame_sanitizeTag eh NU _ el0 ok1 el1 eq_refl E1) as (Ht1 & Hc1 & Hl1).
  destruct ok1; cbn [negb id] in *.
  2:{ intros [= <-]. left. unfold leave, settle. by rewrite Hl1. }
  destruct (tagRuleOf options t) as [rule|] eqn:Hrule; [| discriminate].
  assert (el1 = el0) as ->.
  { unfold sanitizeTag in E1. munfold. by injection E1 as <-. }
  (* Attributes sanitization *)
  destruct (sanitizeAttributes (TagRule.attributes rule) eh el0)
    as [[ok2 el2]|m] eqn:E2; [| discriminate].
  destruct (tame_sanitizeAttributes eh NU _ el0 el2 ok2 Hplain eq_refl E2)
    as (Ht2 & Hc2 & Hl2).
  destruct ok2; cbn [negb id] in *.
  2:{ intros [= <-]. left. unfold leave, settle. by rewrite Hl2. }
  unfold el0 in Ht2, Hc2. cbn [tagName children] in Ht2, Hc2.
  assert (Hel2 : el2 = mkTarget (Some t) (attribs el2) (withWalks options kids)
                         InParent).
  { by apply target_eta. }
  (* Children enforcement *)
  set (limit := limitOf (TagRule.limits rule) TagLimits.children).
  destruct ((if truthyNumber limit
                && (default 0 limit <? List.length (children el2))%nat
             then handleTagChildrenError (default 0 limit)
                    (slot eh ErrorHandling.tagChildren)
             else fun el => Returned (true, el)) el2)
    as [[ok3 el3]|m] eqn:E3; [| discriminate].
  assert (H3 : exists kids1,
            (ok3 = true -> childrenKept limit kids kids1
                           /\ el3 = mkTarget (Some t) (attribs el2)
                                      (withWalks options kids1) InParent)
            /\ (ok3 = false -> link el3 = Removed)).
  { rewrite Hc2 in E3. unfold childrenKept. rewrite withWalks_length in E3.
    destruct (truthyNumber limit && (default 0 limit <? List.length kids)%nat).
    - apply handleTagChildrenError_spec in E3 as (Ht3 & Ha3 & H3); [| exact Hl2].
      destruct ok3.
      + destruct H3 as [Hl3 Hk3]. rewrite Hc2, withWalks_length in Hk3.
        rewrite withWalks_drop, withWalks_take in Hk3.
        destruct Hk3 as [Hk3 | Hk3].
        * eexists. split; [intros _ | discriminate].
          split; [left; reflexivity |]. apply target_eta; congruence.
        * eexists. split; [intros _ | discriminate].
          split; [right; reflexivity |]. apply target_eta; congruence.
      + exists kids. split; [discriminate | tauto].
    - injection E3 as <- <-. exists kids. split; [| discriminate].
      intros _. split; [reflexivity | exact Hel2]. }
  destruct H3 as (kids1 & Hkeep & Hgone).
  destruct ok3; cbn [negb] in *.
  2:{ intros [= <-]. left. unfold leave, settle. by rewrite Hgone. }
  destruct (Hkeep eq_refl) as [Hkept ->]. clear Hkeep Hgone E3.
  (* Tag nesting enforcement *)
  set (el3 := mkTarget (Some t) (attribs el2) (withWalks options kids1) InParent).
  destruct (nestingLoop options (rev (SanitizerState.tagNesting state)) el3)
    as [[depth el4]|m] eqn:E4; [| discriminate].
  pose proof (nestingLoop_inv options _ el3 el4 depth eq_refl E4) as H4.
  destruct depth as [innermostFirst|].
  2:{ intros [= <-]. left. destruct H4 as [(_ & _ & Hl4) _].
      unfold leave, settle. by rewrite Hl4. }
  rewrite (nestingLoop_ok options _ el3 H4) in E4. injection E4 as <- <-.
  rewrite rev_map_deeper. fold (newStateOf state t).
  (* Children sanitization *)
  cbn [children el3].
  destruct (walkChildren (withWalks options kids1) (newStateOf state t))
    as [kidsOut|m] eqn:E5; [| discriminate].
  intros [= <-]. right. exists rule, (attribs el2), kids1, kidsOut.
  split; [reflexivity |]. split; [by rewrite <- Hel2 |].
  split; [exact Hkept |]. split; [exact H4 |]. split; [exact E5 |].
  unfold settle. cbn [link tagNameOf tagName attribs]. reflexivity.
Qed.

End WalkElement.

Section WalkNode.
Import Tree Adapter Direct Sanitizers Walker.

(** Induction on a node with the property assumed of all its
    children. *)
Lemma Node_induction (P : Node -> Prop) :
  (forall t a kids, Forall P kids -> P (Element t a kids)) ->
  (forall d, P (Comment d)) ->
  (forall d, P (Text d)) ->
  (forall kids, Forall P kids -> P (Root kids)) ->
  forall n, P n.
Proof.
  intros HE HC HT HR. fix IH 1. intros [t a kids | d | d | kids];
    [apply HE | apply HC | apply HT | apply HR];
    induction kids as [|k kids IHk]; constructor; (apply IH || exact IHk).
Qed.

Lemma walkChildren_app (l1 l2 : list Child) (state : SanitizerState.t) :
  walkChildren (l1 ++ l2) state
  = match walkChildren l1 state with
    | Thrown msg => Thrown msg
    | Returned here =>
        match walkChildren l2 state with
        | Thrown msg => Thrown msg
        | Returned after => Returned (here ++ after)
        end
    end.
Proof.
  induction l1 as [|c l1 IH]; simpl.
  - by destruct (walkChildren l2 state).
  - destruct (snd c state) as [here|m]; [| reflexivity].
    rewrite IH. destruct (walkChildren l1 state) as [mid|m]; [| reflexivity].
    destruct (walkChildren l2 state) as [after|m]; [| reflexivity].
    by rewrite app_assoc.
Qed.

Variable options : SanitizerOptions.t.

Lemma walkChildren_fixed (state : SanitizerState.t) (nodes : list Node) :
  fixedIn options state nodes ->
  walkChildren (withWalks options nodes) state = Returned nodes.
Proof.
  induction 1 as [|k nodes Hk Hnodes IH]; [reflexivity |].
  unfold withWalks in *. simpl. rewrite Hk, IH. reflexivity.
Qed.

(** The walk over the children concatenates the visits. *)
Lemma walkChildren_inv (state : SanitizerState.t) (kids out : list Node) :
  walkChildren (withWalks options kids) state = Returned out ->
  exists outs,
    Forall2 (fun k o => walkNode options k state = Returned o) kids outs
    /\ out = concat outs.
Proof.
  revert out. induction kids as [|k kids IH]; intros out; unfold withWalks; simpl.
  - intros [= <-]. exists []. split; [constructor | reflexivity].
  - destruct (walkNode options k state) as [here|m] eqn:E; [| discriminate].
    fold (withWalks options kids).
    destruct (walkChildren (withWalks options kids) state) as [after|m] eqn:E2;
      [| discriminate].
    intros [= <-]. destruct (IH after eq_refl) as (outs & Hall & ->).
    exists (here :: outs). split; [by constructor | reflexivity].
Qed.

Lemma childrenKept_sub (limit : option nat) (kids kids1 : list Node) :
  childrenKept limit kids kids1 -> kids1 ⊆ kids.
Proof.
  unfold childrenKept.
  destruct (_ && _); [intros [-> | ->] | intros ->];
    [apply subseteq_drop | apply subseteq_take | reflexivity].
Qed.

Lemma childrenKept_length (limit : option nat) (kids kids1 : list Node) :
  childrenKept limit kids kids1 ->
  truthyNumber limit && (default 0 limit <? List.length kids1)%nat = false.
Proof.
  unfold childrenKept.
  destruct (truthyNumber limit); cbn [andb]; [| reflexivity].
  destruct (default 0 limit <? List.length kids)%nat eqn:E.
  - apply Nat.ltb_lt in E. intros [-> | ->]; apply Nat.ltb_ge.
    + rewrite length_drop. lia.
    + rewrite length_take. lia.
  - by intros ->.
Qed.

End WalkNode.

Section Idempotence.
Import Tree Adapter Direct Sanitizers Walker Index.

Variable options : SanitizerOptions.t.

Lemma walkNode_element (t : string) (a : list (string * string))
    (kids : list Node) (state : SanitizerState.t) :
  walkNode options (Element t a kids) state
  = if tooDeep options state then
      match handleTagNestingError
              (default 0 (limitOf (SanitizerOptions.topLevelLimits options)
                            TagLimits.nesting))
              (slot (SanitizerOptions.errorHandling options)
                 ErrorHandling.tagNesting)
              (mkTarget (Some t) a (withWalks options kids) InParent) with
      | Thrown msg => Thrown msg
      | Returned (_, element) => Returned (leave element)
      end
    else walkElement (mkTarget (Some t) a (withWalks options kids) InParent)
           options (entered state).
Proof. reflexivity. Qed.

Lemma walkElement_intro (t : string) (a a' : list (string * string))
    (kidsW : list Child) (rule : TagRule.t) (state : SanitizerState.t)
    (kidsOut : list Node) :
  tagRuleOf options t = Some rule ->
  sanitizeAttributes (TagRule.attributes rule)
    (SanitizerOptions.errorHandling options)
    (mkTarget (Some t) a kidsW InParent)
  = Returned (true, mkTarget (Some t) a' kidsW InParent) ->
  truthyNumber (limitOf (TagRule.limits rule) TagLimits.children)
  && (default 0 (limitOf (TagRule.limits rule) TagLimits.children)
        <? List.length kidsW)%nat = false ->
  forallb (frameOk options) (rev (SanitizerState.tagNesting state)) = true ->
  walkChildren kidsW (newStateOf state t) = Returned kidsOut ->
  walkElement (mkTarget (Some t) a kidsW InParent) options state
  = Returned [Element t a' kidsOut].
Proof.
  intros Hrule Hattrs Hlimit Hnest Hkids.
  unfold walkElement. cbn [tagNameOf tagName]. rewrite Hrule.
  munfold. cbn [sanitizeTag]. munfold. cbn [negb].
  rewrite Hattrs. cbn [negb children].
  rewrite Hlimit. cbn [negb].
  rewrite (nestingLoop_ok options _ _ Hnest).
  rewrite rev_map_deeper. fold (newStateOf state t). cbn [children].
  rewrite Hkids. reflexivity.
Qed.

Hypothesis NU : noUnwrap (SanitizerOptions.errorHandling options).

(** The children of a plain element are plain. *)
Lemma plain_children (t : string) (a : list (string * string))
    (kids : list Node) :
  plain (Element t a kids) = true ->
  plainNames a = true /\ Forall (fun k => plain k = true) kids.
Proof.
  cbn [plain]. intros [Ha Hk]%andb_true_iff. split; [exact Ha |].
  apply Forall_forall. intros k Hin. rewrite forallb_forall in Hk.
  apply Hk. by apply list_elem_of_In.
Qed.

(** Without [unwrapElement] a visit leaves at most one node. *)
Lemma walkNode_length (n : Node) (state : SanitizerState.t) (out : list Node) :
  plain n = true ->
  walkNode options n state = Returned out -> (List.length out <= 1)%nat.
Proof.
  destruct n as [t a kids | d | d | kids]; intros Hplain.
  - apply plain_children in Hplain as [Ha _].
    rewrite walkNode_element. destruct (tooDeep options state).
    + destruct (handleTagNestingError _ _ _) as [[b el']|m] eqn:E; [| discriminate].
      intros [= <-].
      apply handleTagNestingError_removed in E as Hl; [| reflexivity].
      unfold leave, settle. rewrite Hl. simpl. lia.
    + intros H. apply (walkElement_inv options NU _ _ _ _ _ Ha) in H
        as [-> | (rule & a' & kids1 & kidsOut & _ & _ & _ & _ & _ & ->)];
        simpl; lia.
  - simpl. destruct (negb _); intros [= <-]; simpl; lia.
  - simpl. intros [= <-]. simpl. lia.
  - discriminate.
Qed.

Lemma walkChildren_length (kids out : list Node) (state : SanitizerState.t) :
  Forall (fun k => plain k = true) kids ->
  walkChildren (withWalks options kids) state = Returned out ->
  (List.length out <= List.length kids)%nat.
Proof.
  intros Hplain H. apply walkChildren_inv in H as (outs & Hall & ->).
  induction Hall as [|k o kids outs Hk Hall IH]; simpl; [lia |].
  apply Forall_cons in Hplain as [Hp Hplain].
  rewrite length_app. apply walkNode_length in Hk; [| exact Hp].
  specialize (IH Hplain). lia.
Qed.

Hypothesis Stable : attributesStable options.

(** Every node that a visit leaves is left as it is by a second visit in
    the same state. *)
Lemma walkNode_fixed (n : Node) :
  plain n = true ->
  forall (state : SanitizerState.t) (out : list Node),
    walkNode options n state = Returned out -> fixedIn options state out.
Proof.
  induction n as [t a kids IH | d | d | kids IH] using Node_induction;
    intros Hplain state out; [| | | discriminate].
  - apply plain_children in Hplain as [Ha Hpk].
    rewrite walkNode_element. destruct (tooDeep options state) eqn:Hdeep.
    + destruct (handleTagNestingError _ _ _) as [[b el']|m] eqn:E; [| discriminate].
      intros [= <-].
      apply handleTagNestingError_removed in E as Hl; [| reflexivity].
      unfold leave, settle. rewrite Hl. constructor.
    + intros H. apply (walkElement_inv options NU _ _ _ _ _ Ha) in H
        as [-> | (rule & a' & kids1 & kidsOut & Hrule & Hattrs & Hkept & Hnest
                  & Hkids & ->)]; [constructor |].
      assert (Hpk1 : Forall (fun k => plain k = true) kids1).
      { apply Forall_forall. intros k Hk. rewrite Forall_forall in Hpk.
        apply Hpk. eapply childrenKept_sub; eauto. }
      constructor; [| constructor].
      rewrite walkNode_element, Hdeep.
      apply walkElement_intro with (rule := rule).
      * exact Hrule.
      * eapply Stable; [exact Hrule | exact Hattrs].
      * rewrite withWalks_length.
        pose proof (childrenKept_length _ _ _ Hkept) as Hlen.
        pose proof (walkChildren_length _ _ _ Hpk1 Hkids) as Hle.
        destruct (truthyNumber _); [| reflexivity]. cbn [andb] in *.
        apply Nat.ltb_ge. apply Nat.ltb_ge in Hlen. lia.
      * exact Hnest.
      * apply walkChildren_fixed.
        apply walkChildren_inv in Hkids as (outs & Hall & ->).
        assert (IH1 : Forall (fun k => forall state out,
                                walkNode options k state = Returned out ->
                                fixedIn options state out) kids1).
        { apply Forall_forall. intros k Hk. rewrite Forall_forall in IH, Hpk1.
          apply IH; [eapply childrenKept_sub; eauto | by apply Hpk1]. }
        clear -Hall IH1. unfold fixedIn.
        induction Hall as [|k o kids outs Hk Hall IHall]; [constructor |].
        apply Forall_cons in IH1 as [IHk IH1]. simpl.
        apply Forall_app. split; [by eapply IHk | by apply IHall].
  - simpl. destruct (negb _) eqn:E; intros [= <-]; [constructor |].
    constructor; [| constructor]. simpl. by rewrite E.
  - simpl. intros [= <-]. constructor; [reflexivity | constructor].
Qed.

End Idempotence.

Section IdempotenceTop.
Import Tree Adapter Direct Sanitizers Walker Index.

Lemma handleTagChildrenError_true {C} (maxChildren : nat)
    (mode : option ErrorHandlingMode) (el el' : Target C) :
  handleTagChildrenError maxChildren mode el = Returned (true, el') ->
  tagName el' = tagName el /\ attribs el' = attribs el /\ link el' = link el
  /\ (children el'
      = drop (List.length (children el) - maxChildren) (children el)
      \/ children el'
         = take (List.length (children el)
                 - (List.length (children el) - maxChildren))
             (children el)).
Proof.
  unfold handleTagChildrenError. munfold.
  destruct mode as [[]|]; try (destruct (tagName el); discriminate).
  - rewrite repeatM_detachFirst. intros [= <-]. simpl. tauto.
  - rewrite repeatM_detachLast. intros [= <-]. simpl. tauto.
Qed.

Variable options : SanitizerOptions.t.
Hypothesis NU : noUnwrap (SanitizerOptions.errorHandling options).
Hypothesis Stable : attributesStable options.

Lemma walkChildren_fixedIn (kids out : list Node) (state : SanitizerState.t) :
  Forall (fun k => plain k = true) kids ->
  walkChildren (withWalks options kids) state = Returned out ->
  fixedIn options state out.
Proof.
  intros Hplain H. apply walkChildren_inv in H as (outs & Hall & ->).
  unfold fixedIn.
  induction Hall as [|k o kids outs Hk Hall IH]; [constructor |].
  apply Forall_cons in Hplain as [Hp Hplain].
  simpl. apply Forall_app. split; [| by apply IH].
  by eapply (walkNode_fixed options NU Stable).
Qed.

(** The fragment that a run leaves is left as it is by a second run. *)
Lemma sanitizeFragment_fixed (roots out : list Node) :
  Forall (fun k => plain k = true) roots ->
  sanitizeTree roots options = Returned out ->
  sanitizeFragment out options = Returned (Some out).
Proof.
  intros Hplain. unfold sanitizeTree, sanitizeFragment. cbn [children].
  set (limit := limitOf (SanitizerOptions.topLevelLimits options)
                  TagLimits.children).
  rewrite !withWalks_length.
  assert (Hsecond : forall kids1,
            Forall (fun k => plain k = true) kids1 ->
            truthyNumber limit && (default 0 limit <? List.length kids1)%nat = false ->
            walkChildren (withWalks options kids1) (SanitizerState.mk 0 [])
            = Returned out ->
            (if truthyNumber limit && (default 0 limit <? List.length out)%nat
             then
               match handleTagChildrenError (default 0 limit)
                       (slot (SanitizerOptions.errorHandling options)
                          ErrorHandling.tagChildren)
                       (mkTarget None [] (withWalks options out) NoParent) with
               | Thrown msg => Thrown msg
               | Returned (false, _) => Returned None
               | Returned (true, frag) =>
                   match walkChildren (children frag) (SanitizerState.mk 0 []) with
                   | Thrown msg => Thrown msg
                   | Returned kids => Returned (Some kids)
                   end
               end
             else
               match walkChildren (withWalks options out) (SanitizerState.mk 0 []) with
               | Thrown msg => Thrown msg
               | Returned kids => Returned (Some kids)
               end) = Returned (Some out)).
  { intros kids1 Hplain1 Hlen Hwalk.
    pose proof (walkChildren_length options NU _ _ _ Hplain1 Hwalk) as Hle.
    assert (truthyNumber limit && (default 0 limit <? List.length out)%nat = false)
      as ->.
    { destruct (truthyNumber limit); [| reflexivity]. cbn [andb] in *.
      apply Nat.ltb_ge. apply Nat.ltb_ge in Hlen. lia. }
    rewrite (walkChildren_fixed options _ _
               (walkChildren_fixedIn _ _ _ Hplain1 Hwalk)).
    reflexivity. }
  destruct (truthyNumber limit && (default 0 limit <? List.length roots)%nat) eqn:Hc.
  - destruct (handleTagChildrenError (default 0 limit)
                (slot (SanitizerOptions.errorHandling options)
                   ErrorHandling.tagChildren)
                (mkTarget None [] (withWalks options roots) NoParent))
      as [[[] frag]|m] eqn:E; [| | discriminate].
    + apply handleTagChildrenError_true in E as (_ & _ & _ & Hk).
      cbn [children] in Hk. rewrite withWalks_length in Hk.
      rewrite withWalks_drop, withWalks_take in Hk.
      apply andb_true_iff in Hc as [Ht Hlt]. apply Nat.ltb_lt in Hlt.
      destruct (walkChildren (children frag) _) as [kids|m] eqn:Hw; [| discriminate].
      intros [= <-]. destruct Hk as [Hk | Hk]; rewrite Hk in Hw;
        (eapply Hsecond; [| | exact Hw]);
        [by apply Forall_drop | | by apply Forall_take |];
        rewrite Ht; cbn [andb];
        apply Nat.ltb_ge; [rewrite length_drop | rewrite length_take]; lia.
    + intros [= <-]. simpl. rewrite andb_false_r. reflexivity.
  - destruct (walkChildren (withWalks options roots) _) as [kids|m] eqn:Hw;
      [| discriminate].
    intros [= <-]. by eapply Hsecond.
Qed.

End IdempotenceTop.

Section TagRules.

(** The rule that [tags[tagName]] finds is an entry of [tags], or the
    member of [Object.prototype] of that name, which has neither
    attribute rules nor limits. *)
Lemma tagRuleOf_cases (options : SanitizerOptions.t) (tagName : string)
    (rule : TagRule.t) :
  tagRuleOf options tagName = Some rule ->
  (exists tags, SanitizerOptions.tags options = Some tags
                /\ tags !! tagName = Some rule)
  \/ (JsObject.inherited tagName = true /\ rule = TagRule.mk None None).
Proof.
  unfold tagRuleOf.
  destruct (SanitizerOptions.tags options) as [tags|]; [| discriminate].
  destruct (tags !! tagName) as [r|] eqn:E.
  - intros [= <-]. left. eauto.
  - destruct (JsObject.inherited tagName); [| discriminate].
    intros [= <-]. by right.
Qed.

End TagRules.

Section StableWithoutRules.
Import Tree Adapter Direct Sanitizers Walker.

(** With no attribute rules, the attribute loop returns [true] only by
    deleting every attribute it meets. *)
Lemma attributesLoop_no_rules {C} (errorHandling : option ErrorHandling.t)
    (keys : list string) :
  forall (el el' : Target C),
    attributesLoop keys None errorHandling el = Returned (true, el') ->
    tagName el' = tagName el /\ children el' = children el /\ link el' = link el
    /\ (forall k, k ∈ keys -> attrGet k (attribs el') = None)
    /\ (forall k, attrGet k (attribs el) = None -> attrGet k (attribs el') = None).
Proof.
  induction keys as [|name keys IH]; intros el el'; cbn [attributesLoop].
  - munfold. intros [= <-]. repeat split; [| tauto].
    intros k Hk. by apply elem_of_nil in Hk.
  - munfold. destruct (attrGet name (attribs el)) as [value|]; [| discriminate].
    cbn [ruleFor sanitizeTagAttribute]. munfold.
    unfold handleTagAttributeError.
    destruct (slot errorHandling ErrorHandling.attribute) as [[]|];
      munfold; unfold handleTagError; munfold;
      try discriminate;
      try (unfold detachNode; munfold; discriminate);
      try (unfold unwrapInParent; munfold;
           destruct (children el); [| destruct (link el)];
           unfold detachNode; munfold; discriminate).
    unfold deleteAttrib. munfold. cbn [negb ProceedFlags.globalProceed
                                         ProceedFlags.localProceed].
    intros H. apply IH in H as (Ht & Hc & Hl & Hkeys & Hnone).
    cbn [tagName children link attribs withAttribs] in *.
    repeat split; try assumption.
    + intros k Hk. apply elem_of_cons in Hk as [-> | Hk]; [| by apply Hkeys].
      apply Hnone. apply attrGet_attrDelete_eq.
    + intros k Hk. apply Hnone.
      destruct (decide (name = k)) as [-> | Hne];
        [apply attrGet_attrDelete_eq | by rewrite attrGet_attrDelete_ne].
Qed.

Lemma attrGet_none_nil (attribs : list (string * string)) :
  (forall k, attrGet k attribs = None) -> attribs = [].
Proof.
  destruct attribs as [|[k v] rest]; [reflexivity |].
  intros H. specialize (H k). simpl in H. by rewrite String.eqb_refl in H.
Qed.

Lemma attrGet_not_key (k : string) (attribs : list (string * string)) :
  k ∉ attrKeys attribs -> attrGet k attribs = None.
Proof.
  induction attribs as [|[k' v] rest IH]; [reflexivity |].
  simpl. intros H. apply not_elem_of_cons in H as [Hne H].
  destruct (String.eqb_spec k' k) as [-> | _]; [congruence | by apply IH].
Qed.

(** A policy whose tag rules carry no attribute rules has a stable
    attribute pass: a successful pass leaves no attribute. *)
Lemma attributesStable_no_rules (options : SanitizerOptions.t) :
  (forall tags, SanitizerOptions.tags options = Some tags ->
                map_Forall (fun _ r => TagRule.attributes r = None) tags) ->
  attributesStable options.
Proof.
  intros Hnone t rule a a' kidsW kidsW' Hrule H.
  assert (Hattrs : TagRule.attributes rule = None).
  { apply tagRuleOf_cases in Hrule as [(tags & E & Hrule) | [_ ->]];
      [| reflexivity].
    by apply (Hnone tags E t rule). }
  rewrite Hattrs in *. clear Hattrs Hrule Hnone.
  assert (a' = []) as ->.
  { unfold sanitizeAttributes in H. munfold. cbn [attribs] in H.
    destruct (attrKeys a) as [|k ks] eqn:Hkeys.
    - simpl in H. munfold. injection H as <-.
      by destruct a.
    - destruct (attributesLoop (k :: ks) None _ _) as [[[] el1]|m] eqn:E;
        try discriminate.
      cbn [negb enforceRequiredAttributes] in H. munfold. injection H as ->.
      apply attributesLoop_no_rules in E as (_ & _ & _ & Hk & Hn).
      cbn [attribs] in *. apply attrGet_none_nil. intros k'.
      destruct (decide (k' ∈ k :: ks)) as [Hin | Hnin]; [by apply Hk |].
      apply Hn. apply attrGet_not_key. by rewrite Hkeys. }
  reflexivity.
Qed.

End StableWithoutRules.

(* ------------------------------------------------------------------ *)
(** *** Stability of the attribute pass under simple rules             *)
(* ------------------------------------------------------------------ *)

Section AttributeMapMore.
Import Tree.

Lemma attrSet_same (key value : string) (attribs : list (string * string)) :
  attrGet key attribs = Some value -> attrSet key value attribs = attribs.
Proof.
  induction attribs as [|[k v] attribs IH]; simpl; [discriminate |].
  destruct (String.eqb k key) eqn:E.
  - by intros [= ->].
  - intros H. by rewrite IH.
Qed.

Lemma attrSet_attrSet (key v1 v2 : string) (attribs : list (string * string)) :
  attrSet key v2 (attrSet key v1 attribs) = attrSet key v2 attribs.
Proof.
  induction attribs as [|[k v] attribs IH]; simpl.
  - by rewrite String.eqb_refl.
  - destruct (String.eqb k key) eqn:E; simpl; rewrite E; [reflexivity |].
    by rewrite IH.
Qed.

Lemma attrDelete_attrSet (key value : string) (attribs : list (string * string)) :
  attrDelete key (attrSet key value attribs) = attrDelete key attribs.
Proof.
  unfold attrDelete. induction attribs as [|[k v] attribs IH]; simpl.
  - by rewrite String.eqb_refl.
  - destruct (String.eqb k key) eqn:E; simpl; rewrite E; simpl; [reflexivity |].
    by rewrite IH.
Qed.

Lemma attrDelete_absent (key : string) (attribs : list (string * string)) :
  attrGet key attribs = None -> attrDelete key attribs = attribs.
Proof.
  unfold attrDelete. induction attribs as [|[k v] attribs IH]; simpl; [reflexivity |].
  destruct (String.eqb k key) eqn:E; [discriminate |]. simpl.
  intros H. by rewrite IH.
Qed.

Lemma attrGet_key (key value : string) (attribs : list (string * string)) :
  attrGet key attribs = Some value -> key ∈ attrKeys attribs.
Proof.
  induction attribs as [|[k v] attribs IH]; simpl; [discriminate |].
  destruct (String.eqb_spec k key) as [-> | E].
  - intros _. apply list_elem_of_here.
  - intros H. apply list_elem_of_further. by apply IH.
Qed.

Lemma attrKeys_get (key : string) (attribs : list (string * string)) :
  key ∈ attrKeys attribs -> exists value, attrGet key attribs = Some value.
Proof.
  induction attribs as [|[k v] attribs IH]; simpl.
  - intros H. by apply elem_of_nil in H.
  - destruct (String.eqb_spec k key) as [-> | E]; [eauto |].
    intros H. apply elem_of_cons in H as [-> | H]; [congruence | by apply IH].
Qed.

Lemma length_slice0 (s : string) (n : nat) :
  String.length (JsString.slice0 s n) = Nat.min n (String.length s).
Proof.
  unfold JsString.slice0. revert s. induction n as [|n IH]; intros s.
  - by destruct s.
  - destruct s as [|c s]; [reflexivity |]. simpl. by rewrite IH.
Qed.

End AttributeMapMore.

Section StableSimple.
Import Tree Adapter Direct Sanitizers Walker.

Variable errorHandling : option ErrorHandling.t.

Lemma withAttribs_same {C} (el : Target C) : withAttribs el (attribs el) = el.
Proof. by destruct el. Qed.

Lemma withAttribs_twice {C} (el : Target C) (a b : list (string * string)) :
  withAttribs (withAttribs el a) b = withAttribs el b.
Proof. reflexivity. Qed.

Lemma truthy_length (s : string) :
  String.length s <> 0 -> JsString.truthy s = true.
Proof. destruct s; simpl; [lia | reflexivity]. Qed.

(** A value that is not too long and that the comparator accepts, or
    that is the default that [applyDefaultValue] puts back, is
    settled. *)
Lemma settled_intro (key : string) (rule : Rule.TagAttributeValueRule)
    (cmp : Comparators.TagAttributeValueComparator) (value : string) :
  Rule.mode rule = Rule.simple cmp ->
  tooLong rule value = false ->
  Comparators.matchComparator cmp value = true
  \/ (slot errorHandling ErrorHandling.attributeValue = Some applyDefaultValue
      /\ Rule.defaultValue rule = Some value /\ JsString.truthy value = true) ->
  settled errorHandling key rule value.
Proof.
  intros Hmode Hlen H el Hget. unfold sanitizeTagAttributeValue.
  cbn [TagAttribute.value]. unfold tooLong in Hlen. rewrite Hlen.
  unfold sanitizeByMode. rewrite Hmode. unfold sanitizeTagAttributeSimpleValue.
  cbn [TagAttribute.value].
  destruct (Comparators.matchComparator cmp value) eqn:Hm; cbn [negb];
    [reflexivity |].
  destruct H as [H | (Hslot & Hd & Ht)]; [discriminate |].
  rewrite Hslot. unfold handleTagAttributeValueError. rewrite Hd, Ht.
  unfold setAttrib. munfold. cbn [TagAttribute.key].
  rewrite (attrSet_same _ _ _ Hget). by rewrite withAttribs_same.
Qed.

(** What the value handler has done when it returns [true]: it has set
    the attribute to the default, under [applyDefaultValue] with a
    non-empty default, or it has deleted the attribute. *)
Lemma handleTagAttributeValueError_true {C} (attribute : TagAttribute.t)
    (rule : Rule.TagAttributeValueRule) (mode : option ErrorHandlingMode)
    (msg : option string) (el el' : Target C) :
  handleTagAttributeValueError attribute rule mode msg el = Returned (true, el') ->
  (mode = Some applyDefaultValue
   /\ exists d, Rule.defaultValue rule = Some d /\ JsString.truthy d = true
                /\ el' = withAttribs el
                           (attrSet (TagAttribute.key attribute) d (attribs el)))
  \/ el' = withAttribs el (attrDelete (TagAttribute.key attribute) (attribs el)).
Proof.
  unfold handleTagAttributeValueError, handleTagAttributeError, handleTagError.
  destruct mode as [[]|]; munfold;
    try discriminate;
    try (unfold detachNode; munfold; discriminate);
    try (unfold unwrapInParent; munfold;
         destruct (children el); [| destruct (link el)];
         unfold detachNode; munfold; discriminate).
  - destruct (Rule.defaultValue rule) as [d|] eqn:Hd.
    + destruct (JsString.truthy d) eqn:Ht.
      * unfold setAttrib. munfold. intros [= <-]. left. eauto.
      * unfold deleteAttrib. munfold. intros [= <-]. by right.
    + unfold deleteAttrib. munfold. intros [= <-]. by right.
  - unfold deleteAttrib. munfold. intros [= <-]. by right.
Qed.

Lemma sanitizeByMode_simple (key value : string)
    (rule : Rule.TagAttributeValueRule) (el el' : Target Child) :
  simpleRule rule ->
  tooLong rule value = false ->
  sanitizeByMode (TagAttribute.mk key value) rule errorHandling el
  = Returned (true, el') ->
  exists a1, el' = withAttribs el a1 /\ leftAs errorHandling key rule value (attribs el) a1.
Proof.
  intros [[cmp Hmode] Hfits] Hlen. unfold sanitizeByMode. rewrite Hmode.
  unfold sanitizeTagAttributeSimpleValue. cbn [TagAttribute.value].
  destruct (Comparators.matchComparator cmp value) eqn:Hm; cbn [negb].
  - munfold. intros [= <-]. exists (attribs el).
    split; [by rewrite withAttribs_same |]. left. split; [reflexivity |].
    eapply settled_intro; eauto.
  - intros H. apply handleTagAttributeValueError_true in H
      as [(Hslot & d & Hd & Ht & ->) | ->]; cbn [TagAttribute.key].
    + eexists. split; [reflexivity |]. right. right. exists d.
      split; [reflexivity |]. eapply settled_intro; eauto.
    + eexists. split; [reflexivity |]. right. by left.
Qed.

Lemma leftAs_after_set (key : string) (rule : Rule.TagAttributeValueRule)
    (value v : string) (a a1 : list (string * string)) :
  leftAs errorHandling key rule v (attrSet key v a) a1 -> leftAs errorHandling key rule value a a1.
Proof.
  intros [[-> Hs] | [-> | (v' & -> & Hs)]].
  - right. right. eauto.
  - right. left. apply attrDelete_attrSet.
  - right. right. exists v'. split; [apply attrSet_attrSet | exact Hs].
Qed.

(** A successful pass of [sanitizeTagAttributeValue] under a simple rule
    leaves the attribute as it was, and settled; or deletes it; or sets
    it to a settled value. *)
Lemma sanitizeTagAttributeValue_simple (key value : string)
    (rule : Rule.TagAttributeValueRule) (el el' : Target Child) :
  simpleRule rule ->
  sanitizeTagAttributeValue (TagAttribute.mk key value) rule errorHandling el
  = Returned (true, el') ->
  exists a1, el' = withAttribs el a1 /\ leftAs errorHandling key rule value (attribs el) a1.
Proof.
  intros Hsimple. pose proof Hsimple as [[cmp Hmode] Hfits].
  unfold sanitizeTagAttributeValue. cbn [TagAttribute.value TagAttribute.key].
  fold (tooLong rule value). destruct (tooLong rule value) eqn:Hlen.
  2:{ by apply sanitizeByMode_simple. }
  munfold.
  destruct (handleTagAttributeValueTooLongError _ _ _ _ el) as [[ok el1]|m] eqn:E;
    [| discriminate].
  destruct ok; cbn [negb]; [| discriminate].
  assert (Hnext : forall v,
            el1 = withAttribs el (attrSet key v (attribs el)) ->
            JsString.truthy v = true -> tooLong rule v = false ->
            match attrGet key (attribs el1) with
            | Some value0 =>
                if negb (JsString.truthy value0)
                then fun el => Returned (true, el)
                else sanitizeByMode (TagAttribute.mk key value0) rule
                       errorHandling
            | None => fun el => Returned (true, el)
            end el1 = Returned (true, el') ->
            exists a1, el' = withAttribs el a1
                       /\ leftAs errorHandling key rule value (attribs el) a1).
  { intros v -> Ht Hv. cbn [attribs withAttribs]. rewrite attrGet_attrSet_eq, Ht.
    cbn [negb]. intros H. apply sanitizeByMode_simple in H as (a1 & -> & Hleft);
      [| assumption | assumption].
    exists a1. split; [reflexivity |]. cbn [attribs withAttribs] in Hleft.
    by eapply leftAs_after_set. }
  unfold handleTagAttributeValueTooLongError in E.
  destruct (decide (slot errorHandling ErrorHandling.attributeValueTooLong
                    = Some trimExcess)) as [Hslot | Hslot].
  - rewrite Hslot in E. unfold setAttrib in E. munfold.
    cbn [TagAttribute.key TagAttribute.value] in E. injection E as <-.
    unfold tooLong in Hlen. apply andb_true_iff in Hlen as [Htr Hlt].
    destruct (Rule.maxLength rule) as [[|n]|] eqn:Hmax; try discriminate.
    change (default 0 (Some (S n))) with (S n) in Hlt. apply Nat.ltb_lt in Hlt.
    apply (Hnext (JsString.slice0 value (S n))); [reflexivity | |].
    + apply truthy_length. rewrite length_slice0. lia.
    + unfold tooLong. rewrite Hmax. cbn [truthyNumber andb].
      change (default 0 (Some (S n))) with (S n).
      apply Nat.ltb_ge. rewrite length_slice0. lia.
  - assert (E' : handleTagAttributeValueError (TagAttribute.mk key value) rule
                   (slot errorHandling ErrorHandling.attributeValueTooLong)
                   (Some (orElse None
                            ("Value " ++ value ++ " for attribute " ++ key
                               ++ " is too long")))
                   el = Returned (true, el1)).
    { destruct (slot errorHandling ErrorHandling.attributeValueTooLong)
        as [[]|]; try exact E. congruence. }
    clear E. apply handleTagAttributeValueError_true in E'
      as [(_ & d & Hd & Ht & E1) | ->]; cbn [TagAttribute.key] in *.
    + apply (Hnext d E1 Ht). by apply Hfits.
    + cbn [attribs withAttribs]. rewrite attrGet_attrDelete_eq.
      intros [= <-]. eexists. split; [reflexivity |]. right. by left.
Qed.

End StableSimple.

Section StableLoops.
Import Tree Adapter Direct Sanitizers Walker.

Variable errorHandling : option ErrorHandling.t.

(** When the value handler returns [true], what it does depends on the
    mode and the rule alone: it sets the attribute to the non-empty
    default, or deletes it. *)
Lemma handleTagAttributeValueError_uniform {C} (attribute : TagAttribute.t)
    (rule : Rule.TagAttributeValueRule) (mode : option ErrorHandlingMode)
    (msg : option string) (el el' : Target C) :
  handleTagAttributeValueError attribute rule mode msg el = Returned (true, el') ->
  (mode = Some applyDefaultValue
   /\ exists d, Rule.defaultValue rule = Some d /\ JsString.truthy d = true
                /\ el' = withAttribs el
                           (attrSet (TagAttribute.key attribute) d (attribs el)))
  \/ (el' = withAttribs el (attrDelete (TagAttribute.key attribute) (attribs el))
      /\ forall (el2 : Target C),
           handleTagAttributeValueError attribute rule mode msg el2
           = Returned (true,
               withAttribs el2
                 (attrDelete (TagAttribute.key attribute) (attribs el2)))).
Proof.
  unfold handleTagAttributeValueError, handleTagAttributeError, handleTagError.
  destruct mode as [[]|]; munfold;
    try discriminate;
    try (unfold detachNode; munfold; discriminate);
    try (unfold unwrapInParent; munfold;
         destruct (children el); [| destruct (link el)];
         unfold detachNode; munfold; discriminate).
  - destruct (Rule.defaultValue rule) as [d|] eqn:Hd.
    + destruct (JsString.truthy d) eqn:Ht.
      * unfold setAttrib. munfold. intros [= <-]. left. eauto.
      * unfold deleteAttrib. munfold. intros [= <-]. by right.
    + unfold deleteAttrib. munfold. intros [= <-]. by right.
  - unfold deleteAttrib. munfold. intros [= <-]. by right.
Qed.

Lemma ruleGet_elem (name : string)
    (entries : list (string * Rule.TagAttributeValueRule))
    (rule : Rule.TagAttributeValueRule) :
  ruleGet name entries = Some rule -> (name, rule) ∈ entries.
Proof.
  induction entries as [|[k r] entries IH]; simpl; [discriminate |].
  destruct (String.eqb_spec k name) as [-> | E].
  - intros [= ->]. apply list_elem_of_here.
  - intros H. apply list_elem_of_further. by apply IH.
Qed.

Lemma ruleGet_NoDup (name : string)
    (entries : list (string * Rule.TagAttributeValueRule))
    (rule : Rule.TagAttributeValueRule) :
  NoDup (List.map fst entries) -> (name, rule) ∈ entries ->
  ruleGet name entries = Some rule.
Proof.
  induction entries as [|[k r] entries IH]; simpl; intros Hnd Hin.
  - by apply elem_of_nil in Hin.
  - apply NoDup_cons in Hnd as [Hk Hnd].
    apply elem_of_cons in Hin as [[= -> ->] | Hin].
    + by rewrite String.eqb_refl.
    + destruct (String.eqb_spec k name) as [-> | E]; [| by apply IH].
      exfalso. apply Hk. apply (list_elem_of_fmap_2 fst) in Hin. exact Hin.
Qed.

(** A rule that the lookup finds is an entry of the rule object, under
    the name looked up or under ["*"]. *)
Lemma ruleFor_elem (name : string)
    (rules : option (list (string * Rule.TagAttributeValueRule)))
    (rule : Rule.TagAttributeValueRule) :
  ruleFor name rules = Some (Declared rule) ->
  exists entries,
    rules = Some entries
    /\ ((name, rule) ∈ entries
        \/ (ruleGet name entries = None /\ ("*", rule) ∈ entries)).
Proof.
  destruct rules as [entries|]; [| discriminate]. unfold ruleFor.
  intros H. exists entries. split; [reflexivity |].
  destruct (ruleGet name entries) as [r|] eqn:E.
  - injection H as ->. left. by apply ruleGet_elem.
  - destruct (JsObject.inherited name); [discriminate |].
    destruct (ruleGet "*" entries) as [r|] eqn:E2; [| discriminate].
    injection H as ->. right. split; [reflexivity | by apply ruleGet_elem].
Qed.

Lemma ruleFor_simple (name : string)
    (rules : option (list (string * Rule.TagAttributeValueRule)))
    (rule : Rule.TagAttributeValueRule) :
  simpleRules rules -> ruleFor name rules = Some (Declared rule) -> simpleRule rule.
Proof.
  intros Hsimple (entries & -> & Hin)%ruleFor_elem. destruct Hsimple as [_ Hall].
  rewrite Forall_forall in Hall.
  destruct Hin as [Hin | [_ Hin]]; exact (Hall _ Hin).
Qed.

End StableLoops.

Section StableAttributes.
Import Tree Adapter Direct Sanitizers Walker.

Variable errorHandling : option ErrorHandling.t.
Variable rules : option (list (string * Rule.TagAttributeValueRule)).
Hypothesis Simple : simpleRules rules.

(** What a turn of the attribute loop that goes on has done to the
    attribute [name], of value [value]. *)
Lemma attributeTurn (name value : string) (el el1 : Target Child)
    (k : M Child bool) (el' : Target Child) :
  (flags ← sanitizeTagAttribute (TagAttribute.mk name value)
             (ruleFor name rules) (slot errorHandling ErrorHandling.attribute);
   if negb (ProceedFlags.globalProceed flags) then mret false
   else if negb (ProceedFlags.localProceed flags) then k
   else
     match ruleFor name rules with
     | None => throw "TypeError: rule is undefined"
     | Some Member => mret false
     | Some (Declared rule) =>
         ok ← sanitizeTagAttributeValue (TagAttribute.mk name value) rule
                errorHandling;
         if negb ok then mret false else k
     end) el = Returned (true, el') ->
  exists a1,
    k (withAttribs el a1) = Returned (true, el')
    /\ (a1 = attrDelete name (attribs el)
        \/ exists r, ruleFor name rules = Some (Declared r)
                     /\ leftAs errorHandling name r value (attribs el) a1).
Proof.
  destruct (ruleFor name rules) as [[r|]|] eqn:Hrule; cbn [sanitizeTagAttribute].
  - munfold. cbn [negb ProceedFlags.globalProceed ProceedFlags.localProceed].
    destruct (sanitizeTagAttributeValue _ r errorHandling el)
      as [[[] el1']|m] eqn:E; cbn [negb]; try discriminate.
    apply sanitizeTagAttributeValue_simple in E as (a1 & -> & Hleft);
      [| by eapply ruleFor_simple].
    intros H. exists a1. split; [exact H |]. right. eauto.
  - munfold. discriminate.
  - munfold. unfold handleTagAttributeError, handleTagError.
    destruct (slot errorHandling ErrorHandling.attribute) as [[]|]; munfold;
      try discriminate;
      try (unfold detachNode; munfold; discriminate);
      try (unfold unwrapInParent; munfold;
           destruct (children el); [| destruct (link el)];
           unfold detachNode; munfold; discriminate).
    unfold deleteAttrib. munfold.
    cbn [negb ProceedFlags.globalProceed ProceedFlags.localProceed TagAttribute.key].
    intros H. eexists. split; [exact H |]. by left.
Qed.

(** The attribute loop, when it returns [true], leaves every attribute
    it has visited with a rule and a settled value, and adds none. *)
Lemma attributesLoop_first (keys : list string) :
  forall (visited : list string) (el el' : Target Child),
    (forall k v, k ∈ visited -> attrGet k (attribs el) = Some v ->
       exists r, ruleFor k rules = Some (Declared r) /\ settled errorHandling k r v) ->
    attributesLoop keys rules errorHandling el = Returned (true, el') ->
    exists a',
      el' = withAttribs el a'
      /\ (forall k v, k ∈ visited \/ k ∈ keys -> attrGet k a' = Some v ->
            exists r, ruleFor k rules = Some (Declared r) /\ settled errorHandling k r v)
      /\ (forall k, attrGet k (attribs el) = None -> attrGet k a' = None).
Proof.
  induction keys as [|name keys IH]; intros visited el el' Hvis;
    cbn [attributesLoop].
  - munfold. intros [= <-]. exists (attribs el).
    split; [by rewrite withAttribs_same |]. split; [| tauto].
    intros k v [Hk | Hk]; [by apply Hvis | by apply elem_of_nil in Hk].
  - munfold. destruct (attrGet name (attribs el)) as [value|] eqn:Hget;
      [| discriminate].
    intros H.
    apply (attributeTurn name value el el
             (attributesLoop keys rules errorHandling)) in H
      as (a1 & H & Hturn).
    apply (IH (name :: visited)) in H as (a' & -> & Hset & Hnone).
    + exists a'. split; [reflexivity |]. split.
      * intros k v Hk. apply Hset. rewrite elem_of_cons in Hk |- *. tauto.
      * intros k Hk. apply Hnone. cbn [attribs withAttribs].
        destruct Hturn as [-> | (r & Hr & [[-> _] | [-> | (v' & -> & _)]])];
          try assumption.
        -- destruct (decide (name = k)) as [-> | Hne];
             [apply attrGet_attrDelete_eq | by rewrite attrGet_attrDelete_ne].
        -- destruct (decide (name = k)) as [-> | Hne];
             [apply attrGet_attrDelete_eq | by rewrite attrGet_attrDelete_ne].
        -- destruct (decide (name = k)) as [-> | Hne]; [congruence |].
           by rewrite attrGet_attrSet_ne.
    + cbn [attribs withAttribs]. intros k v Hk Hv.
      destruct (decide (name = k)) as [<- | Hne].
      * destruct Hturn as [-> | (r & Hr & [[-> Hs] | [-> | (v' & -> & Hs)]])].
        -- by rewrite attrGet_attrDelete_eq in Hv.
        -- exists r. split; [exact Hr |]. rewrite Hget in Hv.
           by injection Hv as <-.
        -- by rewrite attrGet_attrDelete_eq in Hv.
        -- rewrite attrGet_attrSet_eq in Hv. injection Hv as <-. eauto.
      * apply elem_of_cons in Hk as [-> | Hk]; [congruence |].
        apply Hvis; [exact Hk |].
        destruct Hturn as [-> | (r & Hr & [[-> Hs] | [-> | (v' & -> & Hs)]])].
        -- by rewrite attrGet_attrDelete_ne in Hv.
        -- exact Hv.
        -- by rewrite attrGet_attrDelete_ne in Hv.
        -- by rewrite attrGet_attrSet_ne in Hv.
Qed.

(** On an element whose attributes are all settled, the attribute loop
    over keys of the element changes nothing. *)
Lemma attributesLoop_settled (keys : list string) (el : Target Child) :
  allSettled errorHandling rules (attribs el) ->
  (forall k, k ∈ keys -> exists v, attrGet k (attribs el) = Some v) ->
  attributesLoop keys rules errorHandling el = Returned (true, el).
Proof.
  intros Hall. induction keys as [|name keys IH]; intros Hkeys;
    cbn [attributesLoop]; [reflexivity |].
  destruct (Hkeys name) as [v Hv]; [apply list_elem_of_here |].
  destruct (Hall name v Hv) as (r & Hr & Hs).
  munfold. rewrite Hv, Hr. cbn [sanitizeTagAttribute]. munfold.
  cbn [negb ProceedFlags.globalProceed ProceedFlags.localProceed].
  rewrite (Hs el Hv). cbn [negb]. apply IH.
  intros k Hk. apply Hkeys. by apply list_elem_of_further.
Qed.

End StableAttributes.

Section StableRequired.
Import Tree Adapter Direct Sanitizers Walker.

Variable errorHandling : option ErrorHandling.t.
Variable entries0 : list (string * Rule.TagAttributeValueRule).
Hypothesis Simple : simpleRules (Some entries0).

Lemma ruleFor_entry (name : string) (rule : Rule.TagAttributeValueRule) :
  (name, rule) ∈ entries0 -> ruleFor name (Some entries0) = Some (Declared rule).
Proof.
  intros Hin. destruct Simple as [Hnd _]. unfold ruleFor.
  by rewrite (ruleGet_NoDup name entries0 rule Hnd Hin).
Qed.

(** The loop over the required attributes, when it returns [true], only
    adds attributes, each with a settled value, and leaves no required
    attribute missing unless the handler does nothing for it. *)
Lemma enforceRequiredLoop_first
    (entries : list (string * Rule.TagAttributeValueRule)) :
  forall (el el' : Target Child),
    entries ⊆ entries0 ->
    enforceRequiredLoop entries errorHandling el = Returned (true, el') ->
    exists a',
      el' = withAttribs el a'
      /\ (forall k v, attrGet k (attribs el) = Some v -> attrGet k a' = Some v)
      /\ (forall k v, attrGet k a' = Some v ->
            attrGet k (attribs el) = Some v
            \/ exists r, ruleFor k (Some entries0) = Some (Declared r)
                         /\ settled errorHandling k r v)
      /\ requiredMet errorHandling entries a'.
Proof.
  induction entries as [|[name r] entries IH]; intros el el' Hsub;
    cbn [enforceRequiredLoop].
  - munfold. intros [= <-]. exists (attribs el).
    split; [by rewrite withAttribs_same |]. split; [tauto |]. split; [tauto |].
    intros n' r' Hin. by apply elem_of_nil in Hin.
  - assert (Hrest : entries ⊆ entries0).
    { intros e He. apply Hsub. by apply list_elem_of_further. }
    assert (Hhead : (name, r) ∈ entries0).
    { apply Hsub. apply list_elem_of_here. }
    destruct (String.eqb_spec name "*") as [-> | Hstar].
    { intros H. apply IH in H as (a' & -> & Hgrow & Hnew & Hmet); [| exact Hrest].
      exists a'. split; [reflexivity |]. split; [exact Hgrow |].
      split; [exact Hnew |].
      intros n' r' Hin Hn'. apply elem_of_cons in Hin as [[= -> ->] | Hin];
        [congruence | by apply Hmet]. }
    munfold.
    destruct (isRequired r && negb (attrHas name (attribs el))) eqn:Hc.
    + apply andb_true_iff in Hc as [Hreq Habs]. apply negb_true_iff in Habs.
      assert (Hnone : attrGet name (attribs el) = None).
      { unfold attrHas in Habs. by destruct (attrGet name (attribs el)). }
      destruct (handleTagAttributeValueError _ r _ None el) as [[[] el1]|m] eqn:E;
        cbn [negb]; try discriminate.
      apply handleTagAttributeValueError_uniform in E
        as [(Hslot & d & Hd & Ht & ->) | [-> Hsame]];
        cbn [TagAttribute.key] in *.
      * intros H. apply IH in H as (a' & -> & Hgrow & Hnew & Hmet);
          [| exact Hrest].
        cbn [attribs withAttribs] in *.
        exists a'. split; [reflexivity |]. split; [| split].
        -- intros k v Hk. apply Hgrow.
           rewrite attrGet_attrSet_ne; [exact Hk | congruence].
        -- intros k v Hk. destruct (Hnew k v Hk) as [Hold | Hsettled];
             [| by right].
           destruct (decide (name = k)) as [<- | Hne].
           ++ rewrite attrGet_attrSet_eq in Hold. injection Hold as <-.
              right. exists r. split; [by apply ruleFor_entry |].
              destruct Simple as [_ Hall]. rewrite Forall_forall in Hall.
              destruct (Hall _ Hhead) as [[cmp Hmode] Hfits].
              eapply settled_intro; [exact Hmode | by apply Hfits |].
              right. eauto.
           ++ left. by rewrite attrGet_attrSet_ne in Hold.
        -- intros n' r' Hin Hn' Hreq' Hmiss.
           apply elem_of_cons in Hin as [[= -> ->] | Hin]; [| by eapply Hmet].
           rewrite (Hgrow name d) in Hmiss; [discriminate |].
           apply attrGet_attrSet_eq.
      * rewrite (attrDelete_absent _ _ Hnone), withAttribs_same.
        intros H. apply IH in H as (a' & -> & Hgrow & Hnew & Hmet);
          [| exact Hrest].
        exists a'. split; [reflexivity |]. split; [exact Hgrow |].
        split; [exact Hnew |].
        intros n' r' Hin Hn' Hreq' Hmiss.
        apply elem_of_cons in Hin as [[= -> ->] | Hin]; [| by eapply Hmet].
        intros el2 Hel2. rewrite Hsame. cbn [TagAttribute.key].
        by rewrite (attrDelete_absent _ _ Hel2), withAttribs_same.
    + intros H. apply IH in H as (a' & -> & Hgrow & Hnew & Hmet); [| exact Hrest].
      exists a'. split; [reflexivity |]. split; [exact Hgrow |].
      split; [exact Hnew |].
      intros n' r' Hin Hn' Hreq' Hmiss.
      apply elem_of_cons in Hin as [[= -> ->] | Hin]; [| by eapply Hmet].
      rewrite Hreq' in Hc. cbn [andb] in Hc. apply negb_false_iff in Hc.
      unfold attrHas in Hc.
      destruct (attrGet name (attribs el)) as [v|] eqn:Hv; [| discriminate].
      by rewrite (Hgrow _ _ Hv) in Hmiss.
Qed.

(** On an element where every required attribute is present or left
    alone by the handler, the loop changes nothing. *)
Lemma enforceRequiredLoop_met
    (entries : list (string * Rule.TagAttributeValueRule)) (el : Target Child) :
  requiredMet errorHandling entries (attribs el) ->
  enforceRequiredLoop entries errorHandling el = Returned (true, el).
Proof.
  induction entries as [|[name r] entries IH]; intros Hmet;
    cbn [enforceRequiredLoop]; [reflexivity |].
  assert (Hrest : requiredMet errorHandling entries (attribs el)).
  { intros n' r' Hin. apply Hmet. by apply list_elem_of_further. }
  destruct (String.eqb_spec name "*") as [-> | Hstar]; [by apply IH |].
  munfold.
  destruct (isRequired r && negb (attrHas name (attribs el))) eqn:Hc;
    [| by apply IH].
  apply andb_true_iff in Hc as [Hreq Habs]. apply negb_true_iff in Habs.
  assert (Hnone : attrGet name (attribs el) = None).
  { unfold attrHas in Habs. by destruct (attrGet name (attribs el)). }
  rewrite (Hmet name r (list_elem_of_here _ _) Hstar Hreq Hnone el Hnone).
  cbn [negb]. by apply IH.
Qed.

End StableRequired.

Section StableSimpleRules.
Import Tree Adapter Direct Sanitizers Walker.

Variable errorHandling : option ErrorHandling.t.

(** On an element whose attributes are all settled and whose required
    attributes are met, the attribute pass changes nothing. *)
Lemma sanitizeAttributes_settled
    (rules : option (list (string * Rule.TagAttributeValueRule)))
    (el : Target Child) :
  allSettled errorHandling rules (attribs el) ->
  match rules with
  | Some entries => requiredMet errorHandling entries (attribs el)
  | None => True
  end ->
  sanitizeAttributes rules errorHandling el = Returned (true, el).
Proof.
  intros Hall Hmet.
  assert (Hreq : enforceRequiredAttributes rules errorHandling el
                 = Returned (true, el)).
  { destruct rules as [entries|]; [| reflexivity].
    by apply enforceRequiredLoop_met. }
  unfold sanitizeAttributes. munfold.
  destruct (attrKeys (attribs el)) as [|k ks] eqn:Hkeys; [exact Hreq |].
  rewrite attributesLoop_settled; [exact Hreq | exact Hall |].
  intros k' Hk'. apply attrKeys_get. by rewrite Hkeys.
Qed.

(** Under simple rules, a successful attribute pass leaves attributes
    that are all settled, with the required ones met. *)
Lemma sanitizeAttributes_simple
    (rules : option (list (string * Rule.TagAttributeValueRule)))
    (el el' : Target Child) :
  simpleRules rules ->
  sanitizeAttributes rules errorHandling el = Returned (true, el') ->
  exists a',
    el' = withAttribs el a'
    /\ allSettled errorHandling rules a'
    /\ match rules with
       | Some entries => requiredMet errorHandling entries a'
       | None => True
       end.
Proof.
  intros Hsimple.
  assert (Hreq : forall el1 : Target Child,
            allSettled errorHandling rules (attribs el1) ->
            enforceRequiredAttributes rules errorHandling el1
            = Returned (true, el') ->
            exists a',
              el' = withAttribs el1 a'
              /\ allSettled errorHandling rules a'
              /\ match rules with
                 | Some entries => requiredMet errorHandling entries a'
                 | None => True
                 end).
  { intros el1 Hall. destruct rules as [entries|];
      cbn [enforceRequiredAttributes].
    - intros H. apply (enforceRequiredLoop_first errorHandling entries Hsimple)
        in H as (a' & -> & Hgrow & Hnew & Hmet); [| reflexivity].
      exists a'. split; [reflexivity |]. split; [| exact Hmet].
      intros k v Hk. destruct (Hnew k v Hk) as [Hold | Hsettled];
        [by apply Hall | exact Hsettled].
    - munfold. intros [= <-]. exists (attribs el1).
      split; [by rewrite withAttribs_same |]. split; [exact Hall | exact I]. }
  unfold sanitizeAttributes. munfold.
  destruct (attrKeys (attribs el)) as [|k ks] eqn:Hkeys.
  - apply Hreq. intros k v Hk. apply attrGet_key in Hk.
    rewrite Hkeys in Hk. by apply elem_of_nil in Hk.
  - destruct (attributesLoop (k :: ks) rules errorHandling el)
      as [[[] el1]|m] eqn:E; cbn [negb]; try discriminate.
    apply (attributesLoop_first errorHandling rules Hsimple _ []) in E
      as (a1 & -> & Hset & Hnone).
    2:{ intros k' v' Hk'. by apply elem_of_nil in Hk'. }
    intros H. apply Hreq in H as (a' & -> & Hall & Hmet).
    + exists a'. by split.
    + cbn [attribs withAttribs]. intros k' v' Hk'.
      apply (Hset k' v'); [| exact Hk']. right. rewrite <- Hkeys.
      destruct (decide (k' ∈ attrKeys (attribs el))) as [Hin | Hnin];
        [exact Hin |].
      apply attrGet_not_key in Hnin. apply Hnone in Hnin. congruence.
Qed.

End StableSimpleRules.

Section StablePolicy.
Import Tree Adapter Direct Sanitizers Walker.

(** A policy whose attribute rules are all simple, with defaults that
    pass their own length check, has a stable attribute pass. *)
Lemma attributesStable_simple (options : SanitizerOptions.t) :
  (forall t rule, tagRuleOf options t = Some rule ->
                  simpleRules (TagRule.attributes rule)) ->
  attributesStable options.
Proof.
  intros Hsimple t rule a a' kidsW kidsW' Hrule H.
  apply sanitizeAttributes_simple in H as (a'' & E & Hall & Hmet);
    [| by eapply Hsimple].
  injection E as ->. by apply sanitizeAttributes_settled.
Qed.

End StablePolicy.

Section IdempotenceTheorem.
Import Tree Walker Index.
Variable parseFragment : string -> list Node.
Variable serialize : list Node -> string.


End IdempotenceTheorem.



(* ------------------------------------------------------------------ *)
(** *** Tags of the output                                             *)
(* ------------------------------------------------------------------ *)

Section WellFormed.
Import Tree Adapter Direct Sanitizers Walker Index.

Lemma forallb_Forall {A} (f : A -> bool) (l : list A) :
  forallb f l = true <-> Forall (fun x => f x = true) l.
Proof. rewrite forallb_forall, List.Forall_forall. reflexivity. Qed.

(** What a run that returns has done at the top level: either nothing is
    left, or the children check left [kids1] and the walk over [kids1]
    gave the result. *)
Lemma sanitizeTree_inv (options : SanitizerOptions.t) (roots out : list Node) :
  sanitizeTree roots options = Returned out ->
  out = []
  \/ exists kids1,
       childrenKept (limitOf (SanitizerOptions.topLevelLimits options)
                       TagLimits.children) roots kids1
       /\ walkChildren (withWalks options kids1) (SanitizerState.mk 0 [])
          = Returned out.
Proof.
  unfold sanitizeTree, sanitizeFragment, childrenKept. cbn [children].
  rewrite withWalks_length.
  destruct (truthyNumber _ && _).
  - destruct (handleTagChildrenError _ _ _) as [[[] frag]|m] eqn:E;
      [| intros [= <-]; by left | discriminate].
    apply handleTagChildrenError_true in E as (_ & _ & _ & Hk).
    cbn [children] in Hk. rewrite withWalks_length in Hk.
    rewrite withWalks_drop, withWalks_take in Hk.
    destruct (walkChildren (children frag) _) as [kids|m] eqn:Hw; [| discriminate].
    intros [= <-]. right.
    destruct Hk as [Hk | Hk]; rewrite Hk in Hw; eauto.
  - destruct (walkChildren _ _) as [kids|m] eqn:Hw; [| discriminate].
    intros [= <-]. right. eauto.
Qed.

Variable options : SanitizerOptions.t.
Hypothesis NU : noUnwrap (SanitizerOptions.errorHandling options).

(** A property of nodes, relative to the state of the visit, that every
    visit establishes is established by the walk over a list of
    children. *)
Lemma walkChildren_Forall (P : SanitizerState.t -> Node -> Prop)
    (kids : list Node) :
  Forall (fun k => plain k = true ->
                   forall state out,
                     walkNode options k state = Returned out ->
                     Forall (P state) out)
    kids ->
  Forall (fun k => plain k = true) kids ->
  forall state out,
    walkChildren (withWalks options kids) state = Returned out ->
    Forall (P state) out.
Proof.
  intros IH Hplain state out H. apply walkChildren_inv in H as (outs & Hall & ->).
  induction Hall as [|k o kids outs Hk Hall IHall]; [constructor |].
  apply Forall_cons in IH as [IHk IH].
  apply Forall_cons in Hplain as [Hp Hplain]. simpl.
  apply Forall_app. split; [by eapply IHk | by apply IHall].
Qed.

(** What holds of all the children holds of those that the children
    check leaves. *)
Lemma childrenKept_Forall (P : Node -> Prop) (limit : option nat)
    (kids kids1 : list Node) :
  childrenKept limit kids kids1 -> Forall P kids -> Forall P kids1.
Proof.
  intros Hkept%childrenKept_sub. rewrite !Forall_forall. auto.
Qed.

Lemma walkNode_allowed (n : Node) :
  plain n = true ->
  forall state out,
    walkNode options n state = Returned out ->
    Forall (fun k => allowedTags options k = true) out.
Proof.
  induction n as [t a kids IH | d | d | kids IH] using Node_induction;
    intros Hplain state out; [| | | discriminate].
  - apply plain_children in Hplain as [Ha Hpk].
    rewrite walkNode_element. destruct (tooDeep options state).
    + destruct (handleTagNestingError _ _ _) as [[b el']|m] eqn:E; [| discriminate].
      intros [= <-].
      apply handleTagNestingError_removed in E as Hl; [| reflexivity].
      unfold leave, settle. rewrite Hl. constructor.
    + intros H. apply (walkElement_inv options NU _ _ _ _ _ Ha) in H
        as [-> | (rule & a' & kids1 & kidsOut & Hrule & _ & Hkept & _ & Hkids & ->)];
        [constructor |].
      constructor; [| constructor].
      cbn [allowedTags]. rewrite Hrule. cbn [isSome andb].
      apply forallb_Forall.
      refine (walkChildren_Forall (fun _ k => allowedTags options k = true)
                kids1 _ _ _ _ Hkids);
        by eapply childrenKept_Forall.
  - simpl. destruct (negb _); intros [= <-]; repeat constructor.
  - simpl. intros [= <-]. repeat constructor.
Qed.

(** When no slot of the policy selects [unwrapElement], every element of
    the tree that a run leaves of a plain input has a tag for which
    [tags] has a rule. *)
Lemma tags_allowed_without_unwrap (roots out : list Node) :
  Forall (fun k => plain k = true) roots ->
  sanitizeTree roots options = Returned out ->
  forallb (allowedTags options) out = true.
Proof.
  intros Hplain H. apply forallb_Forall.
  apply sanitizeTree_inv in H as [-> | (kids1 & Hkept & Hw)]; [constructor |].
  refine (walkChildren_Forall (fun _ k => allowedTags options k = true)
            kids1 _ _ _ _ Hw); [| by eapply childrenKept_Forall].
  apply Forall_forall. intros k _. apply walkNode_allowed.
Qed.

End WellFormed.

(* ------------------------------------------------------------------ *)
(** *** Limits of the output                                           *)
(* ------------------------------------------------------------------ *)

Section LimitSoundness.
Import Tree Adapter Direct Sanitizers Walker Index.

Lemma enforced_spec (limit : option nat) (n : nat) :
  enforced limit n = true
  <-> (truthyNumber limit = true -> (n <= default 0 limit)%nat).
Proof.
  unfold enforced. destruct (truthyNumber limit); cbn [andb negb].
  - rewrite negb_true_iff, Nat.ltb_ge. tauto.
  - split; [discriminate | reflexivity].
Qed.

Lemma enforced_list_max (limit : option nat) (base : nat) (l : list nat) :
  enforced limit base = true ->
  Forall (fun k => enforced limit (base + k) = true) l ->
  enforced limit (base + list_max l) = true.
Proof.
  rewrite enforced_spec. intros Hb Hl. apply enforced_spec. intros Ht.
  specialize (Hb Ht).
  assert (H : (list_max l <= default 0 limit - base)%nat).
  { apply list_max_le. eapply Forall_impl; [exact Hl |].
    intros k Hk. cbv beta in Hk. rewrite enforced_spec in Hk. specialize (Hk Ht). lia. }
  lia.
Qed.

Lemma enforced_levels (limit : option nat) (base : nat) (kids : list Node) :
  enforced limit base = true ->
  Forall (fun k => levels k <> 0 -> enforced limit (base + levels k) = true)
    kids ->
  enforced limit (base + list_max (List.map levels kids)) = true.
Proof.
  intros Hb Hkids. apply enforced_list_max; [exact Hb |].
  apply Forall_fmap. eapply Forall_impl; [exact Hkids |].
  intros k Hk. unfold compose. cbv beta in Hk.
  destruct (Nat.eq_dec (levels k) 0) as [E | E].
  - by rewrite E, Nat.add_0_r.
  - by apply Hk.
Qed.

Lemma frameOk_enforced (options : SanitizerOptions.t) (f : TagNestingFrame.t) :
  frameOk options f
  = enforced (nestingLimit options (TagNestingFrame.key f))
      (S (TagNestingFrame.value f)).
Proof. unfold frameOk, enforced. by rewrite negb_andb. Qed.

Lemma within_enforced (limit : option nat) (n : nat) :
  limit <> Some 0 -> within limit n = enforced limit n.
Proof.
  unfold within, enforced. destruct limit as [[|l]|]; [done | | done]. intros _.
  cbn [truthyNumber andb]. change (default 0 (Some (S l))) with (S l).
  destruct (Nat.leb_spec n (S l)), (Nat.ltb_spec (S l) n); simpl; try reflexivity; lia.
Qed.

End LimitSoundness.

Section LimitSoundnessWalk.
Import Tree Adapter Direct Sanitizers Walker Index.

Variable options : SanitizerOptions.t.
Hypothesis NU : noUnwrap (SanitizerOptions.errorHandling options).

(** Every node that a visit leaves passes the tests of the walker on
    children and nesting, all through, and keeps the tracked ancestors
    within theirs. *)
Lemma walkNode_limits (n : Node) :
  plain n = true ->
  forall state out,
    walkNode options n state = Returned out ->
    Forall (fun k => respects enforced options k = true
                     /\ shallow options state k) out.
Proof.
  induction n as [t a kids IH | d | d | kids IH] using Node_induction;
    intros Hplain state out; [| | | discriminate].
  - apply plain_children in Hplain as [Ha Hpk].
    rewrite walkNode_element. destruct (tooDeep options state).
    + destruct (handleTagNestingError _ _ _) as [[b el']|m] eqn:E; [| discriminate].
      intros [= <-].
      apply handleTagNestingError_removed in E as Hl; [| reflexivity].
      unfold leave, settle. rewrite Hl. constructor.
    + intros H. apply (walkElement_inv options NU _ _ _ _ _ Ha) in H
        as [-> | (rule & a' & kids1 & kidsOut & Hrule & _ & Hkept & Hnest
                  & Hkids & ->)];
        [constructor |].
      pose proof (childrenKept_Forall _ _ _ _ Hkept Hpk) as Hpk1.
      pose proof (childrenKept_length _ _ _ Hkept) as Hlen.
      pose proof (walkChildren_length options NU _ _ _ Hpk1 Hkids) as Hle.
      assert (Hout : Forall (fun k =>
                         respects enforced options k = true
                         /\ shallow options (newStateOf (entered state) t) k)
                       kidsOut).
      { refine (walkChildren_Forall options
                  (fun state k => respects enforced options k = true
                                  /\ shallow options state k)
                  kids1 _ Hpk1 _ _ Hkids).
        by eapply childrenKept_Forall. }
      apply forallb_Forall in Hnest. apply Forall_rev in Hnest.
      rewrite rev_involutive in Hnest. cbn [entered SanitizerState.tagNesting] in Hnest.
      constructor; [| constructor]. split.
      * cbn [respects]. unfold childrenLimit. rewrite Hrule.
        apply andb_true_iff. split; [apply andb_true_iff; split |].
        -- apply enforced_spec. intros Ht. rewrite Ht in Hlen. cbn [andb] in Hlen.
           apply Nat.ltb_ge in Hlen. lia.
        -- apply (enforced_levels _ 0); [apply enforced_spec; lia |].
           eapply Forall_impl; [exact Hout |].
           intros k [_ Hk]. unfold shallow, newStateOf in Hk.
           cbn [SanitizerState.tagNesting] in Hk.
           apply Forall_app in Hk as [_ Hk]. rewrite Forall_singleton in Hk.
           exact Hk.
        -- apply forallb_Forall. eapply Forall_impl; [exact Hout |]. by intros k [Hk _].
      * unfold shallow. apply Forall_forall. intros f Hf _.
        rewrite Forall_forall in Hnest. specialize (Hnest f Hf).
        cbv beta in Hnest. rewrite frameOk_enforced in Hnest.
        cbn [levels]. rewrite Nat.add_succ_r, <- Nat.add_succ_l.
        apply enforced_levels; [exact Hnest |].
        eapply Forall_impl; [exact Hout |].
        intros k [_ Hk]. unfold shallow, newStateOf in Hk.
        cbn [SanitizerState.tagNesting entered] in Hk.
        apply Forall_app in Hk as [Hk _]. rewrite Forall_forall in Hk.
        apply (Hk (deeper f)). by apply (list_elem_of_fmap_2 deeper).
  - simpl. destruct (negb _); intros [= <-]; [constructor |].
    constructor; [| constructor]. split; [reflexivity |].
    unfold shallow. apply Forall_forall. by intros f _.
  - simpl. intros [= <-]. constructor; [| constructor]. split; [reflexivity |].
    unfold shallow. apply Forall_forall. by intros f _.
Qed.

(** When no slot of the policy selects [unwrapElement], the tests that
    the walker makes on children and nesting hold of every element of
    the tree that a run leaves. *)
Lemma limits_enforced_without_unwrap (roots out : list Node) :
  Forall (fun k => plain k = true) roots ->
  sanitizeTree roots options = Returned out ->
  forallb (respects enforced options) out = true.
Proof.
  intros Hplain H. apply forallb_Forall.
  apply sanitizeTree_inv in H as [-> | (kids1 & Hkept & Hw)]; [constructor |].
  eapply Forall_impl.
  - refine (walkChildren_Forall options
              (fun state k => respects enforced options k = true
                              /\ shallow options state k)
              kids1 _ _ _ _ Hw); [| by eapply childrenKept_Forall].
    apply Forall_forall. intros k _. apply walkNode_limits.
  - by intros k [Hk _].
Qed.

Lemma respects_within (n : Node) :
  (forall t, childrenLimit options t <> Some 0
             /\ nestingLimit options t <> Some 0) ->
  respects enforced options n = true ->
  respects within options n = true.
Proof.
  intros Hpos. induction n as [t a kids IH | d | d | kids IH] using Node_induction;
    [| reflexivity | reflexivity |].
  - cbn [respects]. destruct (Hpos t) as [Hc Hn].
    rewrite !(within_enforced _ _ Hc), !(within_enforced _ _ Hn).
    rewrite !andb_true_iff. intros [Hhere Hkids]. split; [exact Hhere |].
    apply forallb_Forall. apply forallb_Forall in Hkids.
    rewrite Forall_forall in IH, Hkids |- *. intros k Hk. auto.
  - cbn [respects]. intros Hkids.
    apply forallb_Forall. apply forallb_Forall in Hkids.
    rewrite Forall_forall in IH, Hkids |- *. intros k Hk. auto.
Qed.

(** When moreover no declared limit is [0], the limits declared by the
    policy hold of every element of the tree that a run leaves. *)
Lemma limits_sound_without_unwrap (roots out : list Node) :
  (forall t, childrenLimit options t <> Some 0
             /\ nestingLimit options t <> Some 0) ->
  Forall (fun k => plain k = true) roots ->
  sanitizeTree roots options = Returned out ->
  forallb (limitsRespected options) out = true.
Proof.
  intros Hpos Hplain H. apply limits_enforced_without_unwrap in H;
    [| exact Hplain].
  apply forallb_Forall. apply forallb_Forall in H.
  eapply Forall_impl; [exact H |]. intros k. by apply respects_within.
Qed.

End LimitSoundnessWalk.

(** C1.  Well-formedness of the output fails on the unwrap path: with the
    tag slot set to [unwrapElement], the children of an unwrapped element
    are moved into its parent and never visited.  Sanitizing
    [<x><script>alert(1)</script></x>] under a policy that allows only
    [div] returns [<script>alert(1)</script>]: an element whose tag is
    not a key of [tags] is in the output. *)
Theorem unwrapped_children_are_not_sanitized :
  Index.sanitizeTree
    [Tree.Element "x" [] [Tree.Element "script" [] [Tree.Text "alert(1)"]]]
    Samples.unwrapping
  = Returned [Tree.Element "script" [] [Tree.Text "alert(1)"]]
  /\ tagRuleOf Samples.unwrapping "script" = None
  /\ forallb (allowedTags Samples.unwrapping)
       [Tree.Element "script" [] [Tree.Text "alert(1)"]] = false.
Proof. split; [| split]; vm_compute; reflexivity. Qed.

(** C3.  Limit soundness fails on two paths.  Under a policy that gives
    [div] the limits [children: 1] and [nesting: 1] and unwraps unknown
    tags, [<div><x><b></b><b></b></x></div>] is returned as
    [<div><b></b><b></b></div>] (two children), and
    [<div><x><b><b></b></b></x></div>] as [<div><b><b></b></b></div>]
    (two levels): the children count is checked before [x] is unwrapped
    into [div], and what [x] held is never visited.  And without any
    [unwrapElement], a limit [children: 0] is not enforced:
    [<div><b></b></div>] is returned unchanged. *)
Theorem limits_are_exceeded :
  (Index.sanitizeTree
     [Tree.Element "div" []
        [Tree.Element "x" [] [Tree.Element "b" [] []; Tree.Element "b" [] []]]]
     Samples.limited
   = Returned [Tree.Element "div" []
                 [Tree.Element "b" [] []; Tree.Element "b" [] []]]
   /\ limitsRespected Samples.limited
        (Tree.Element "div" []
           [Tree.Element "b" [] []; Tree.Element "b" [] []]) = false)
  /\ (Index.sanitizeTree
        [Tree.Element "div" []
           [Tree.Element "x" [] [Tree.Element "b" [] [Tree.Element "b" [] []]]]]
        Samples.limited
      = Returned [Tree.Element "div" []
                    [Tree.Element "b" [] [Tree.Element "b" [] []]]]
      /\ limitsRespected Samples.limited
           (Tree.Element "div" []
              [Tree.Element "b" [] [Tree.Element "b" [] []]]) = false)
  /\ (Index.sanitizeTree [Tree.Element "div" [] [Tree.Element "b" [] []]]
        Samples.childless
      = Returned [Tree.Element "div" [] [Tree.Element "b" [] []]]
      /\ limitsRespected Samples.childless
           (Tree.Element "div" [] [Tree.Element "b" [] []]) = false).
Proof. repeat split; vm_compute; reflexivity. Qed.

(* ================================================================== *)
(** * Further properties of the walker, the sanitizers and the helpers  *)
(* ================================================================== *)

(* ------------------------------------------------------------------ *)
(** *** Invariants of the output of a run                              *)
(* ------------------------------------------------------------------ *)

Section WalkInvariant.
Import Tree Adapter Direct Sanitizers Walker Index.

Variable options : SanitizerOptions.t.
Hypothesis NU : noUnwrap (SanitizerOptions.errorHandling options).

(** A property of nodes, relative to the state of the visit, holds of
    every node that a visit of a plain node leaves, when texts have it,
    comments that
    are kept have it, and an element that went through all the checks
    of [walkElement] has it as soon as the children left under it
    have it. *)
Lemma walkNode_invariant (P : SanitizerState.t -> Node -> Prop) :
  (forall t attrs kids state rule attrs' kids1 kidsOut,
     tagRuleOf options t = Some rule ->
     sanitizeAttributes (TagRule.attributes rule)
       (SanitizerOptions.errorHandling options)
       (mkTarget (Some t) attrs (withWalks options kids) InParent)
     = Returned (true, mkTarget (Some t) attrs' (withWalks options kids) InParent) ->
     childrenKept (limitOf (TagRule.limits rule) TagLimits.children) kids kids1 ->
     tooDeep options state = false ->
     (List.length kidsOut <= List.length kids1)%nat ->
     Forall (P (newStateOf (entered state) t)) kidsOut ->
     P state (Element t attrs' kidsOut)) ->
  (forall state d, P state (Text d)) ->
  (forall state d,
     default false (SanitizerOptions.preserveComments options) = true ->
     P state (Comment d)) ->
  forall n,
    plain n = true ->
    forall state out,
      walkNode options n state = Returned out -> Forall (P state) out.
Proof.
  intros HE HT HC.
  induction n as [t a kids IH | d | d | kids IH] using Node_induction;
    intros Hplain state out; [| | | discriminate].
  - apply plain_children in Hplain as [Ha Hpk].
    rewrite walkNode_element. destruct (tooDeep options state) eqn:Hdeep.
    + destruct (handleTagNestingError _ _ _) as [[b el']|m] eqn:E; [| discriminate].
      intros [= <-].
      apply handleTagNestingError_removed in E as Hl; [| reflexivity].
      unfold leave, settle. rewrite Hl. constructor.
    + intros H. apply (walkElement_inv options NU _ _ _ _ _ Ha) in H
        as [-> | (rule & a' & kids1 & kidsOut & Hrule & Hattrs & Hkept & _
                  & Hkids & ->)];
        [constructor |].
      pose proof (childrenKept_Forall _ _ _ _ Hkept Hpk) as Hpk1.
      constructor; [| constructor].
      eapply HE; eauto.
      * by eapply walkChildren_length.
      * refine (walkChildren_Forall options P kids1 _ Hpk1 _ _ Hkids).
        by eapply childrenKept_Forall.
  - simpl. destruct (negb _) eqn:E; intros [= <-]; [constructor |].
    constructor; [| constructor]. apply HC. by apply negb_false_iff in E.
  - simpl. intros [= <-]. constructor; [apply HT | constructor].
Qed.

End WalkInvariant.

Section CommentsRemoved.
Import Tree Adapter Direct Sanitizers Walker Index.


End CommentsRemoved.


(* ------------------------------------------------------------------ *)
(** *** What handlers and sanitizers leave alone                       *)
(* ------------------------------------------------------------------ *)

Section Keeps.
Import Tree Adapter Direct Indirect Sanitizers.

Context {C : Type}.
Variable R : Target C -> Target C -> Prop.
Hypothesis Rrefl : forall el, R el el.
Hypothesis Rtrans : forall el1 el2 el3, R el1 el2 -> R el2 el3 -> R el1 el3.
Hypothesis Rlink : forall el l, R el (withLink el l).

Lemma keeps_ret {A} (a : A) : keeps R (mret a).
Proof. intros el a' el' H. munfold. injection H as _ <-. apply Rrefl. Qed.

Lemma keeps_throw {A} (msg : string) : keeps R (throw (A := A) msg).
Proof. intros el a el' H. discriminate. Qed.

Lemma keeps_bind {A B} (m : M C A) (k : A -> M C B) :
  keeps R m -> (forall a, keeps R (k a)) -> keeps R (m ≫= k).
Proof.
  intros Hm Hk el b el' H. munfold.
  destruct (m el) as [[a el1]|msg] eqn:E; [| discriminate].
  eapply Rtrans; [by eapply Hm | by eapply Hk].
Qed.

Lemma keeps_get : keeps R (get (C := C)).
Proof. intros el a el' H. munfold. injection H as _ <-. apply Rrefl. Qed.

Lemma keeps_modify (f : Target C -> Target C) :
  (forall el, R el (f el)) -> keeps R (modify f).
Proof. intros Hf el a el' H. munfold. injection H as _ <-. apply Hf. Qed.

Lemma keeps_detachNode : keeps R (detachNode (C := C)).
Proof.
  apply keeps_modify. intros el. destruct (link el); auto.
Qed.

Lemma keeps_unwrapInParent : keeps R (unwrapInParent (C := C)).
Proof.
  unfold unwrapInParent. apply keeps_bind; [apply keeps_get |]. intros el.
  destruct (children el); [apply keeps_detachNode |].
  destruct (link el); first [apply keeps_detachNode | by apply keeps_modify].
Qed.

Lemma keeps_handleTagError (mode : option ErrorHandlingMode)
    (msg : option string) :
  keeps R (handleTagError mode msg).
Proof.
  unfold handleTagError. destruct mode as [[]|];
    first [ apply keeps_bind;
            [first [apply keeps_detachNode | apply keeps_unwrapInParent
                   | apply keeps_get]
            | intros ?; first [apply keeps_ret | apply keeps_throw] ] ].
Qed.

Variable key : string.
Hypothesis Rset :
  forall el v, R el (withAttribs el (attrSet key v (attribs el))).
Hypothesis Rdelete :
  forall el, R el (withAttribs el (attrDelete key (attribs el))).

Lemma keeps_setAttrib (v : string) : keeps R (setAttrib key v).
Proof. apply keeps_modify. intros el. apply Rset. Qed.

Lemma keeps_deleteAttrib : keeps R (deleteAttrib key).
Proof. apply keeps_modify. intros el. apply Rdelete. Qed.

Ltac keeps_step :=
  first
    [ apply keeps_ret | apply keeps_throw | apply keeps_get
    | apply keeps_setAttrib | apply keeps_deleteAttrib
    | apply keeps_detachNode | apply keeps_handleTagError
    | apply keeps_bind; [| intros ?] ].

Lemma keeps_handleTagAttributeError (attribute : TagAttribute.t)
    (mode : option ErrorHandlingMode) (msg : option string) :
  TagAttribute.key attribute = key ->
  keeps R (handleTagAttributeError attribute mode msg).
Proof.
  intros Hk. unfold handleTagAttributeError.
  destruct mode as [[]|]; rewrite ?Hk; repeat keeps_step.
Qed.

Lemma keeps_handleTagAttributeValueError (attribute : TagAttribute.t)
    (rule : Rule.TagAttributeValueRule)
    (mode : option ErrorHandlingMode) (msg : option string) :
  TagAttribute.key attribute = key ->
  keeps R (handleTagAttributeValueError attribute rule mode msg).
Proof.
  intros Hk. unfold handleTagAttributeValueError.
  destruct mode as [[]|]; try (by apply keeps_handleTagAttributeError).
  rewrite Hk. apply keeps_bind; [| intros ?; apply keeps_ret].
  destruct (Rule.defaultValue rule) as [d|]; [destruct (JsString.truthy d) |];
    keeps_step.
Qed.

Lemma keeps_handleTagAttributeRecordValueError (attribute : TagAttribute.t)
    (record : list TagAttributeValueEntry.t) (index : nat)
    (rule : Rule.TagAttributeValueRule)
    (mode : option ErrorHandlingMode) (msg : option string) :
  TagAttribute.key attribute = key ->
  keeps R (handleTagAttributeRecordValueError attribute record index rule mode msg).
Proof.
  intros Hk. unfold handleTagAttributeRecordValueError.
  destruct mode as [[]|]; try apply keeps_ret;
    (destruct (record !! index);
     [by apply keeps_handleTagAttributeValueError | apply keeps_throw]).
Qed.

Lemma keeps_handleTagAttributeSetValueError (attribute : TagAttribute.t)
    (index : nat) (set : list string) (rule : Rule.TagAttributeValueRule)
    (mode : option ErrorHandlingMode) (msg : option string) :
  TagAttribute.key attribute = key ->
  keeps R (handleTagAttributeSetValueError attribute index set rule mode msg).
Proof.
  intros Hk. unfold handleTagAttributeSetValueError.
  destruct mode as [[]|]; try apply keeps_ret;
    by apply keeps_handleTagAttributeValueError.
Qed.

Lemma keeps_handleTagAttributeValueTooLongError (attribute : TagAttribute.t)
    (rule : Rule.TagAttributeValueRule)
    (mode : option ErrorHandlingMode) (msg : option string) :
  TagAttribute.key attribute = key ->
  keeps R (handleTagAttributeValueTooLongError attribute rule mode msg).
Proof.
  intros Hk. unfold handleTagAttributeValueTooLongError.
  destruct mode as [[]|]; try (by apply keeps_handleTagAttributeValueError).
  rewrite Hk. repeat keeps_step.
Qed.

Lemma keeps_handleTooMany {A} (attribute : TagAttribute.t)
    (collection : list A) (rule : Rule.TagAttributeValueRule)
    (mode : option ErrorHandlingMode) (msg : option string) :
  TagAttribute.key attribute = key ->
  keeps R (handleTagAttributeCollectionValueTooManyError attribute collection
             rule mode msg).
Proof.
  intros Hk. unfold handleTagAttributeCollectionValueTooManyError.
  destruct mode as [[]|]; try apply keeps_ret;
    (apply keeps_bind;
     [by apply keeps_handleTagAttributeValueError | intros ?; apply keeps_ret]).
Qed.

Lemma keeps_handleDuplicate (attribute : TagAttribute.t) (k : string)
    (record : list TagAttributeValueEntry.t) (rule : Rule.TagAttributeValueRule)
    (mode : option ErrorHandlingMode) (msg : option string) :
  TagAttribute.key attribute = key ->
  keeps R (handleTagAttributeRecordValueDuplicateError attribute k record rule
             mode msg).
Proof.
  intros Hk. unfold handleTagAttributeRecordValueDuplicateError.
  destruct mode as [[]|]; try apply keeps_ret;
    (apply keeps_bind;
     [by apply keeps_handleTagAttributeValueError | intros ?; apply keeps_ret]).
Qed.

Lemma keeps_sanitizeTag (rule : option TagRule.t)
    (mode : option ErrorHandlingMode) :
  keeps R (sanitizeTag rule mode).
Proof.
  unfold sanitizeTag. destruct rule; [apply keeps_ret | apply keeps_handleTagError].
Qed.

Lemma keeps_sanitizeTagAttribute (attribute : TagAttribute.t)
    (rule : option RuleValue)
    (mode : option ErrorHandlingMode) :
  TagAttribute.key attribute = key ->
  keeps R (sanitizeTagAttribute attribute rule mode).
Proof.
  intros Hk. unfold sanitizeTagAttribute. destruct rule; [apply keeps_ret |].
  apply keeps_bind; [by apply keeps_handleTagAttributeError |].
  intros ?. apply keeps_ret.
Qed.

Lemma keeps_sanitizeSimple (attribute : TagAttribute.t)
    (rule : Rule.TagAttributeValueRule)
    (value : Comparators.TagAttributeValueComparator)
    (mode : option ErrorHandlingMode) :
  TagAttribute.key attribute = key ->
  keeps R (sanitizeTagAttributeSimpleValue attribute rule value mode).
Proof.
  intros Hk. unfold sanitizeTagAttributeSimpleValue.
  destruct (negb _); [by apply keeps_handleTagAttributeValueError | apply keeps_ret].
Qed.

Lemma keeps_setLoop (attribute : TagAttribute.t)
    (rule : Rule.TagAttributeValueRule)
    (values : Comparators.TagAttributeValueComparator)
    (errorHandling : option ErrorHandling.t) (input rest : list string) :
  TagAttribute.key attribute = key ->
  forall index output,
    keeps R (setLoop attribute rule values errorHandling input index rest output).
Proof.
  intros Hk. induction rest as [|val rest IH]; intros index output;
    cbn [setLoop]; [apply keeps_ret |].
  destruct (negb _); [| apply IH].
  apply keeps_bind; [by apply keeps_handleTagAttributeSetValueError |].
  intros ok. destruct (negb ok); [apply keeps_ret | apply IH].
Qed.

Lemma keeps_sanitizeSet (attribute : TagAttribute.t)
    (rule : Rule.TagAttributeValueRule) (delimiter : string)
    (values : Comparators.TagAttributeValueComparator)
    (errorHandling : option ErrorHandling.t) :
  TagAttribute.key attribute = key ->
  keeps R (sanitizeTagAttributeSetValue attribute rule delimiter values
             errorHandling).
Proof.
  intros Hk. unfold sanitizeTagAttributeSetValue.
  assert (Hcont : forall input,
            keeps R (r ← setLoop attribute rule values errorHandling input 0
                           input [];
                     match r with
                     | None => mret false
                     | Some output =>
                         setAttrib (TagAttribute.key attribute)
                           (JsString.join output delimiter) ;;
                         mret true
                     end)).
  { intros input. apply keeps_bind; [by apply keeps_setLoop |].
    intros [output|]; [| apply keeps_ret]. rewrite Hk.
    apply keeps_bind; [apply keeps_setAttrib | intros ?; apply keeps_ret]. }
  destruct (_ && _); [| apply Hcont].
  apply keeps_bind; [by apply keeps_handleTooMany |].
  intros result. destruct (negb _); [apply keeps_ret | apply Hcont].
Qed.

Lemma keeps_recordLoop (attribute : TagAttribute.t)
    (rule : Rule.TagAttributeValueRule)
    (values : gmap string Comparators.TagAttributeValueComparator)
    (errorHandling : option ErrorHandling.t)
    (input rest : list TagAttributeValueEntry.t) :
  TagAttribute.key attribute = key ->
  forall index seen output,
    keeps R (recordLoop attribute rule values errorHandling input index rest
               seen output).
Proof.
  intros Hk. induction rest as [|[k val] rest IH]; intros index seen output;
    cbn [recordLoop]; [apply keeps_ret |].
  assert (Herr : forall out,
            keeps R (ok ← handleTagAttributeRecordValueError attribute input
                            index rule
                            (slot errorHandling ErrorHandling.attributeRecordValue)
                            None;
                     if negb ok then mret None
                     else recordLoop attribute rule values errorHandling input
                            (S index) rest seen out)).
  { intros out.
    apply keeps_bind; [by apply keeps_handleTagAttributeRecordValueError |].
    intros ok. destruct (negb ok); [apply keeps_ret | apply IH]. }
  assert (Hcheck : forall out,
            keeps R
              (match pairRuleOf values k with
               | Some (Comparators.Raises message) => throw message
               | Some (Comparators.Compares cmp) =>
                   if negb (Comparators.truthy cmp)
                      || negb (Comparators.matchComparator cmp val)
                   then
                     ok ← handleTagAttributeRecordValueError attribute input
                            index rule
                            (slot errorHandling
                               ErrorHandling.attributeRecordValue) None;
                     if negb ok then mret None
                     else recordLoop attribute rule values errorHandling input
                            (S index) rest seen out
                   else
                     recordLoop attribute rule values errorHandling input
                       (S index) rest ({[k]} ∪ seen)
                       (out ++ [TagAttributeValueEntry.mk k val])
               | None =>
                   ok ← handleTagAttributeRecordValueError attribute input
                          index rule
                          (slot errorHandling ErrorHandling.attributeRecordValue)
                          None;
                   if negb ok then mret None
                   else recordLoop attribute rule values errorHandling input
                          (S index) rest seen out
               end)).
  { intros out.
    destruct (pairRuleOf values k) as [[cmp|message]|];
      [| apply keeps_throw | apply Herr].
    destruct (_ || _); [apply Herr | apply IH]. }
  destruct (bool_decide (k ∈ seen)); [| apply Hcheck].
  apply keeps_bind; [by apply keeps_handleDuplicate |].
  intros result. destruct (negb _); [apply keeps_ret |].
  destruct (negb _); [apply IH | apply Hcheck].
Qed.

Lemma keeps_sanitizeRecord (attribute : TagAttribute.t)
    (rule : Rule.TagAttributeValueRule)
    (entrySeparator keyValueSeparator : string)
    (values : gmap string Comparators.TagAttributeValueComparator)
    (errorHandling : option ErrorHandling.t) :
  TagAttribute.key attribute = key ->
  keeps R (sanitizeTagAttributeRecordValue attribute rule entrySeparator
             keyValueSeparator values errorHandling).
Proof.
  intros Hk. unfold sanitizeTagAttributeRecordValue.
  assert (Hcont : forall input,
            keeps R (r ← recordLoop attribute rule values errorHandling input 0
                           input ∅ [];
                     match r with
                     | None => mret false
                     | Some output =>
                         setAttrib (TagAttribute.key attribute)
                           (JsString.join
                              (List.map (renderEntry keyValueSeparator) output)
                              entrySeparator) ;;
                         mret true
                     end)).
  { intros input. apply keeps_bind; [by apply keeps_recordLoop |].
    intros [output|]; [| apply keeps_ret]. rewrite Hk.
    apply keeps_bind; [apply keeps_setAttrib | intros ?; apply keeps_ret]. }
  destruct (_ && _); [| apply Hcont].
  apply keeps_bind; [by apply keeps_handleTooMany |].
  intros result. destruct (negb _); [apply keeps_ret | apply Hcont].
Qed.

Lemma keeps_sanitizeByMode (attribute : TagAttribute.t)
    (rule : Rule.TagAttributeValueRule)
    (errorHandling : option ErrorHandling.t) :
  TagAttribute.key attribute = key ->
  keeps R (sanitizeByMode attribute rule errorHandling).
Proof.
  intros Hk. unfold sanitizeByMode. destruct (Rule.mode rule).
  - by apply keeps_sanitizeSimple.
  - by apply keeps_sanitizeSet.
  - by apply keeps_sanitizeRecord.
Qed.

Lemma keeps_sanitizeTagAttributeValue (attribute : TagAttribute.t)
    (rule : Rule.TagAttributeValueRule)
    (errorHandling : option ErrorHandling.t) :
  TagAttribute.key attribute = key ->
  keeps R (sanitizeTagAttributeValue attribute rule errorHandling).
Proof.
  intros Hk. unfold sanitizeTagAttributeValue.
  destruct (_ && _); [| by apply keeps_sanitizeByMode].
  apply keeps_bind; [by apply keeps_handleTagAttributeValueTooLongError |].
  intros ok. destruct (negb ok); [apply keeps_ret |].
  apply keeps_bind; [apply keeps_get |]. intros el.
  destruct (attrGet _ _) as [value|]; [| apply keeps_ret].
  destruct (negb _); [apply keeps_ret |]. by apply keeps_sanitizeByMode.
Qed.

End Keeps.

Section KeepsAll.
Import Tree Adapter Direct Indirect Sanitizers.

Context {C : Type}.
Variable R : Target C -> Target C -> Prop.
Hypothesis Rrefl : forall el, R el el.
Hypothesis Rtrans : forall el1 el2 el3, R el1 el2 -> R el2 el3 -> R el1 el3.
Hypothesis Rlink : forall el l, R el (withLink el l).
Hypothesis Rattribs : forall el a, R el (withAttribs el a).

Lemma keeps_attributesLoop (keys : list string)
    (rules : option (list (string * Rule.TagAttributeValueRule)))
    (errorHandling : option ErrorHandling.t) :
  keeps R (attributesLoop keys rules errorHandling).
Proof.
  induction keys as [|name keys IH]; cbn [attributesLoop];
    [by apply keeps_ret |].
  apply keeps_bind; [assumption | by apply keeps_get |]. intros el.
  destruct (attrGet name (attribs el)) as [value|]; [| apply keeps_throw].
  apply keeps_bind; [assumption | |].
  { eapply (keeps_sanitizeTagAttribute R Rrefl Rtrans Rlink name); auto. }
  intros flags. destruct (negb _); [by apply keeps_ret |].
  destruct (negb _); [exact IH |].
  destruct (ruleFor name rules) as [[rule|]|];
    [| by apply keeps_ret | apply keeps_throw].
  apply keeps_bind; [assumption | |].
  { eapply (keeps_sanitizeTagAttributeValue R Rrefl Rtrans Rlink name); auto. }
  intros ok. destruct (negb ok); [by apply keeps_ret | exact IH].
Qed.

Lemma keeps_enforceRequiredLoop
    (entries : list (string * Rule.TagAttributeValueRule))
    (errorHandling : option ErrorHandling.t) :
  keeps R (enforceRequiredLoop entries errorHandling).
Proof.
  induction entries as [|[name rule] entries IH]; cbn [enforceRequiredLoop];
    [by apply keeps_ret |].
  destruct (String.eqb name "*"); [exact IH |].
  apply keeps_bind; [assumption | by apply keeps_get |]. intros el.
  destruct (_ && _); [| exact IH].
  apply keeps_bind; [assumption | |].
  { eapply (keeps_handleTagAttributeValueError R Rrefl Rtrans Rlink name); auto. }
  intros ok. destruct (negb ok); [by apply keeps_ret | exact IH].
Qed.

Lemma keeps_enforceRequiredAttributes
    (rules : option (list (string * Rule.TagAttributeValueRule)))
    (errorHandling : option ErrorHandling.t) :
  keeps R (enforceRequiredAttributes rules errorHandling).
Proof.
  destruct rules; [apply keeps_enforceRequiredLoop | by apply keeps_ret].
Qed.

Lemma keeps_sanitizeAttributes
    (rules : option (list (string * Rule.TagAttributeValueRule)))
    (errorHandling : option ErrorHandling.t) :
  keeps R (sanitizeAttributes rules errorHandling).
Proof.
  unfold sanitizeAttributes.
  apply keeps_bind; [assumption | by apply keeps_get |]. intros el.
  destruct (attrKeys (attribs el)); [apply keeps_enforceRequiredAttributes |].
  apply keeps_bind; [assumption | apply keeps_attributesLoop |].
  intros completed. destruct (negb completed);
    [by apply keeps_ret | apply keeps_enforceRequiredAttributes].
Qed.

End KeepsAll.

Section Frames.
Import Tree Adapter Direct Indirect Sanitizers.

Context {C : Type}.

Lemma sameShape_refl (el : Target C) : sameShape el el.
Proof. by split. Qed.

Lemma sameShape_trans (el1 el2 el3 : Target C) :
  sameShape el1 el2 -> sameShape el2 el3 -> sameShape el1 el3.
Proof. intros [? ?] [? ?]. split; congruence. Qed.

Lemma sameBut_refl (key : string) (el : Target C) : sameBut key el el.
Proof. by intros k _. Qed.

Lemma sameBut_trans (key : string) (el1 el2 el3 : Target C) :
  sameBut key el1 el2 -> sameBut key el2 el3 -> sameBut key el1 el3.
Proof. intros H1 H2 k Hk. rewrite (H2 k Hk). by apply H1. Qed.

Lemma sameBut_set (key v : string) (el : Target C) :
  sameBut key el (withAttribs el (attrSet key v (attribs el))).
Proof. intros k Hk. simpl. by rewrite attrGet_attrSet_ne. Qed.

Lemma sameBut_delete (key : string) (el : Target C) :
  sameBut key el (withAttribs el (attrDelete key (attribs el))).
Proof. intros k Hk. simpl. by rewrite attrGet_attrDelete_ne. Qed.

(** The attribute pass never touches the tag or the children of the
    element. *)
Lemma sanitizeAttributes_sameShape
    (rules : option (list (string * Rule.TagAttributeValueRule)))
    (errorHandling : option ErrorHandling.t) :
  keeps (C := C) sameShape (sanitizeAttributes rules errorHandling).
Proof.
  apply keeps_sanitizeAttributes;
    [apply sameShape_refl | apply sameShape_trans | by split | by split].
Qed.

Lemma sanitizeTag_sameShape (rule : option TagRule.t)
    (mode : option ErrorHandlingMode) :
  keeps (C := C) sameShape (sanitizeTag rule mode).
Proof.
  apply keeps_sanitizeTag;
    [apply sameShape_refl | apply sameShape_trans | by split].
Qed.

(** A pass over the value of one attribute leaves the other attributes
    as they are. *)
Lemma sanitizeTagAttributeValue_sameBut (attribute : TagAttribute.t)
    (rule : Rule.TagAttributeValueRule)
    (errorHandling : option ErrorHandling.t) :
  keeps (C := C) (sameBut (TagAttribute.key attribute))
    (sanitizeTagAttributeValue attribute rule errorHandling).
Proof.
  apply (keeps_sanitizeTagAttributeValue _ (sameBut_refl _) (sameBut_trans _)
           (fun el l => sameBut_refl _ el) (TagAttribute.key attribute)
           (fun el v => sameBut_set _ v el) (sameBut_delete _)).
  reflexivity.
Qed.

Lemma handleTagAttributeValueError_sameBut (attribute : TagAttribute.t)
    (rule : Rule.TagAttributeValueRule) (mode : option ErrorHandlingMode)
    (msg : option string) :
  keeps (C := C) (sameBut (TagAttribute.key attribute))
    (handleTagAttributeValueError attribute rule mode msg).
Proof.
  apply (keeps_handleTagAttributeValueError _ (sameBut_refl _) (sameBut_trans _)
           (fun el l => sameBut_refl _ el) (TagAttribute.key attribute)
           (fun el v => sameBut_set _ v el) (sameBut_delete _)).
  reflexivity.
Qed.

End Frames.

(* ------------------------------------------------------------------ *)
(** *** The attributes of the output                                   *)
(* ------------------------------------------------------------------ *)

Section AttributesAllowed.
Import Tree Adapter Direct Indirect Sanitizers Walker Index.

Variable errorHandling : option ErrorHandling.t.
Variable rules : option (list (string * Rule.TagAttributeValueRule)).

(** A turn of the attribute loop that goes on has left the other
    attributes alone, and has deleted the attribute if it has no
    rule. *)
Lemma attributeTurn_frame (name value : string) (el : Target Child)
    (k : M Child bool) (el' : Target Child) :
  (flags ← sanitizeTagAttribute (TagAttribute.mk name value)
             (ruleFor name rules) (slot errorHandling ErrorHandling.attribute);
   if negb (ProceedFlags.globalProceed flags) then mret false
   else if negb (ProceedFlags.localProceed flags) then k
   else
     match ruleFor name rules with
     | None => throw "TypeError: rule is undefined"
     | Some Member => mret false
     | Some (Declared rule) =>
         ok ← sanitizeTagAttributeValue (TagAttribute.mk name value) rule
                errorHandling;
         if negb ok then mret false else k
     end) el = Returned (true, el') ->
  exists el1,
    k el1 = Returned (true, el')
    /\ sameBut name el el1
    /\ (hasRule name rules = false -> attrGet name (attribs el1) = None).
Proof.
  unfold hasRule.
  destruct (ruleFor name rules) as [[r|]|] eqn:Hrule; cbn [sanitizeTagAttribute].
  - munfold. cbn [negb ProceedFlags.globalProceed ProceedFlags.localProceed].
    destruct (sanitizeTagAttributeValue _ r errorHandling el)
      as [[[] el1]|m] eqn:E; cbn [negb]; try discriminate.
    intros H. exists el1. split; [exact H |]. split; [| discriminate].
    by apply (sanitizeTagAttributeValue_sameBut _ _ _ _ _ _ E).
  - munfold. discriminate.
  - munfold. unfold handleTagAttributeError, handleTagError.
    destruct (slot errorHandling ErrorHandling.attribute) as [[]|]; munfold;
      try discriminate;
      try (unfold detachNode; munfold; discriminate);
      try (unfold unwrapInParent; munfold;
           destruct (children el); [| destruct (link el)];
           unfold detachNode; munfold; discriminate).
    unfold deleteAttrib. munfold.
    cbn [negb ProceedFlags.globalProceed ProceedFlags.localProceed TagAttribute.key].
    intros H. eexists. split; [exact H |]. split; [apply sameBut_delete |].
    intros _. apply attrGet_attrDelete_eq.
Qed.

(** The attribute loop, when it returns [true], has added no attribute
    and has left none of the attributes it visited without a rule. *)
Lemma attributesLoop_allowed (keys : list string) :
  forall (el el' : Target Child),
    attributesLoop keys rules errorHandling el = Returned (true, el') ->
    (forall k, is_Some (attrGet k (attribs el')) ->
               is_Some (attrGet k (attribs el)))
    /\ (forall k, k ∈ keys -> is_Some (attrGet k (attribs el')) ->
                  hasRule k rules = true).
Proof.
  induction keys as [|name keys IH]; intros el el'; cbn [attributesLoop].
  - munfold. intros [= <-]. split; [tauto |].
    intros k Hk. by apply elem_of_nil in Hk.
  - munfold. destruct (attrGet name (attribs el)) as [value|] eqn:Hget;
      [| discriminate].
    intros H.
    apply (attributeTurn_frame name value el
             (attributesLoop keys rules errorHandling)) in H
      as (el1 & H & Hframe & Hnone).
    apply IH in H as [Hadd Hrules].
    assert (Hback : forall k, is_Some (attrGet k (attribs el')) ->
                              is_Some (attrGet k (attribs el))).
    { intros k Hk. apply Hadd in Hk.
      destruct (decide (k = name)) as [-> | Hne]; [by rewrite Hget |].
      by rewrite <- (Hframe k Hne). }
    split; [exact Hback |].
    intros k Hk Hsome. apply elem_of_cons in Hk as [-> | Hk]; [| by apply Hrules].
    destruct (hasRule name rules) eqn:Hr; [reflexivity |].
    apply Hadd in Hsome. rewrite (Hnone eq_refl) in Hsome.
    by destruct Hsome.
Qed.

(** The loop over the required attributes only adds attributes named by
    the rules. *)
Lemma enforceRequiredLoop_adds
    (entries : list (string * Rule.TagAttributeValueRule)) :
  forall (el el' : Target Child) (ok : bool),
    enforceRequiredLoop entries errorHandling el = Returned (ok, el') ->
    (forall k, is_Some (attrGet k (attribs el')) ->
               is_Some (attrGet k (attribs el)) \/ k ∈ List.map fst entries)
    /\ (forall k, is_Some (attrGet k (attribs el)) ->
                  ok = true -> is_Some (attrGet k (attribs el'))).
Proof.
  induction entries as [|[name r] entries IH]; intros el el' ok;
    cbn [enforceRequiredLoop].
  - munfold. intros [= <- <-]. split; [tauto | tauto].
  - assert (Hrest : enforceRequiredLoop entries errorHandling el
                    = Returned (ok, el') ->
              (forall k, is_Some (attrGet k (attribs el')) ->
                 is_Some (attrGet k (attribs el))
                 \/ k ∈ List.map fst ((name, r) :: entries))
              /\ (forall k, is_Some (attrGet k (attribs el)) ->
                    ok = true -> is_Some (attrGet k (attribs el')))).
    { intros H. apply IH in H as [Hadd Hgrow]. split; [| exact Hgrow].
      intros k Hk. destruct (Hadd k Hk) as [? | ?]; [by left |].
      right. by apply list_elem_of_further. }
    destruct (String.eqb name "*"); [exact Hrest |].
    munfold. destruct (isRequired r && negb (attrHas name (attribs el))) eqn:Hc;
      [| exact Hrest].
    apply andb_true_iff in Hc as [_ Habs]. apply negb_true_iff in Habs.
    destruct (handleTagAttributeValueError _ r _ None el) as [[b el1]|m] eqn:E;
      [| discriminate].
    pose proof (handleTagAttributeValueError_sameBut _ _ _ _ _ _ _ E) as Hframe.
    cbn [TagAttribute.key] in Hframe.
    destruct b; cbn [negb].
    + intros H. apply IH in H as [Hadd Hgrow]. split.
      * intros k Hk. destruct (Hadd k Hk) as [Hold | Hin].
        -- destruct (decide (k = name)) as [-> | Hne];
             [right; apply list_elem_of_here |].
           left. by rewrite <- (Hframe k Hne).
        -- right. by apply list_elem_of_further.
      * intros k Hk Hok. apply Hgrow; [| exact Hok].
        rewrite (Hframe k); [exact Hk |].
        intros ->. unfold attrHas in Habs.
        destruct (attrGet name (attribs el)); [discriminate | by destruct Hk].
    + intros [= <- <-]. split; [| discriminate].
      intros k Hk. destruct (decide (k = name)) as [-> | Hne];
        [right; apply list_elem_of_here |].
      left. by rewrite <- (Hframe k Hne).
Qed.

Lemma ruleGet_is_Some (name : string)
    (entries : list (string * Rule.TagAttributeValueRule)) :
  name ∈ List.map fst entries -> is_Some (ruleGet name entries).
Proof.
  induction entries as [|[k r] entries IH]; simpl.
  - intros H. by apply elem_of_nil in H.
  - destruct (String.eqb_spec k name) as [-> | E]; [by eexists |].
    intros H. apply elem_of_cons in H as [-> | H]; [congruence | by apply IH].
Qed.

(** A name of the rule object has a rule. *)
Lemma hasRule_entry (name : string)
    (entries : list (string * Rule.TagAttributeValueRule)) :
  name ∈ List.map fst entries -> hasRule name (Some entries) = true.
Proof.
  intros [r Hr]%ruleGet_is_Some. unfold hasRule, ruleFor. by rewrite Hr.
Qed.

End AttributesAllowed.

Section AttributesAllowedTree.
Import Tree Adapter Direct Indirect Sanitizers Walker Index.

(** After a successful attribute pass every attribute of the element has
    a rule. *)
Lemma sanitizeAttributes_allowed (errorHandling : option ErrorHandling.t)
    (rules : option (list (string * Rule.TagAttributeValueRule)))
    (el el' : Target Child) :
  sanitizeAttributes rules errorHandling el = Returned (true, el') ->
  forall k, is_Some (attrGet k (attribs el')) -> hasRule k rules = true.
Proof.
  assert (Hreq : forall el1 : Target Child,
            (forall k, is_Some (attrGet k (attribs el1)) ->
                       hasRule k rules = true) ->
            enforceRequiredAttributes rules errorHandling el1
            = Returned (true, el') ->
            forall k, is_Some (attrGet k (attribs el')) ->
                      hasRule k rules = true).
  { intros el1 Hall. destruct rules as [entries|];
      cbn [enforceRequiredAttributes].
    - intros H k Hk. apply enforceRequiredLoop_adds in H as [Hadd _].
      destruct (Hadd k Hk) as [Hold | Hin]; [by apply Hall |].
      by apply hasRule_entry.
    - munfold. intros [= <-]. exact Hall. }
  unfold sanitizeAttributes. munfold.
  destruct (attrKeys (attribs el)) as [|k0 ks] eqn:Hkeys.
  - apply Hreq. intros k [v Hk]. apply attrGet_key in Hk.
    rewrite Hkeys in Hk. by apply elem_of_nil in Hk.
  - destruct (attributesLoop (k0 :: ks) rules errorHandling el)
      as [[[] el1]|m] eqn:E; cbn [negb]; try discriminate.
    apply attributesLoop_allowed in E as [Hadd Hrules].
    apply Hreq. intros k Hk. apply Hrules; [| exact Hk].
    rewrite <- Hkeys. destruct (Hadd k Hk) as [v Hv]. by eapply attrGet_key.
Qed.


End AttributesAllowedTree.


Section RequiredAttributes.
Import Tree Adapter Direct Indirect Sanitizers Walker Index.

Variable errorHandling : option ErrorHandling.t.

(** When the handler called for a missing required attribute returns
    [true] under a backed rule, it has put the attribute. *)
Lemma handleTagAttributeValueError_backed (attribute : TagAttribute.t)
    (rule : Rule.TagAttributeValueRule) (msg : option string)
    (el el' : Target Child) :
  defaultBacked errorHandling rule = true ->
  handleTagAttributeValueError attribute rule
    (slot errorHandling ErrorHandling.attributeValue) msg el
  = Returned (true, el') ->
  is_Some (attrGet (TagAttribute.key attribute) (attribs el')).
Proof.
  unfold defaultBacked, handleTagAttributeValueError, handleTagAttributeError,
    handleTagError.
  destruct (slot errorHandling ErrorHandling.attributeValue) as [[]|]; munfold;
    try discriminate;
    try (unfold detachNode; munfold; discriminate);
    try (unfold unwrapInParent; munfold;
         destruct (children el); [| destruct (link el)];
         unfold detachNode; munfold; discriminate).
  destruct (Rule.defaultValue rule) as [d|]; [| discriminate].
  intros ->. unfold setAttrib. munfold. intros [= <-]. cbn [attribs withAttribs].
  rewrite attrGet_attrSet_eq. by eexists.
Qed.

(** The loop over the required attributes, when it returns [true],
    leaves every required attribute with a backed rule on the
    element. *)
Lemma enforceRequiredLoop_held
    (entries : list (string * Rule.TagAttributeValueRule)) :
  forall (el el' : Target Child),
    enforceRequiredLoop entries errorHandling el = Returned (true, el') ->
    requiredHeld errorHandling entries (attribs el') = true.
Proof.
  induction entries as [|[name r] entries IH]; intros el el';
    [reflexivity |].
  intros H. unfold requiredHeld. cbn [forallb fst snd]. apply andb_true_iff.
  cbn [enforceRequiredLoop] in H.
  destruct (String.eqb name "*") eqn:Hstar; [split; [reflexivity | by eapply IH] |].
  cbn [orb]. revert H. munfold.
  destruct (isRequired r) eqn:Hreq; cbn [andb negb orb];
    [| intros H; split; [reflexivity | by eapply IH]].
  destruct (defaultBacked errorHandling r) eqn:Hback; cbn [negb orb].
  2:{ destruct (negb (attrHas name (attribs el))).
      - destruct (handleTagAttributeValueError _ r _ None el)
          as [[[] el1]|m]; cbn [negb]; try discriminate.
        intros H. split; [reflexivity | by eapply IH].
      - intros H. split; [reflexivity | by eapply IH]. }
  assert (Hgrow : forall el1 : Target Child,
            is_Some (attrGet name (attribs el1)) ->
            enforceRequiredLoop entries errorHandling el1 = Returned (true, el') ->
            attrHas name (attribs el') = true
            /\ forallb (fun entry =>
                          String.eqb (fst entry) "*"
                          || negb (isRequired (snd entry))
                          || negb (defaultBacked errorHandling (snd entry))
                          || attrHas (fst entry) (attribs el'))
                 entries = true).
  { intros el1 Hsome H. split; [| by eapply IH].
    apply (enforceRequiredLoop_adds errorHandling) in H as [_ Hg].
    unfold attrHas. by destruct (Hg name Hsome eq_refl) as [v ->]. }
  destruct (attrHas name (attribs el)) eqn:Hhas; cbn [negb].
  - apply Hgrow. unfold attrHas in Hhas.
    destruct (attrGet name (attribs el)); [by eexists | discriminate].
  - destruct (handleTagAttributeValueError _ r _ None el)
      as [[[] el1]|m] eqn:E; cbn [negb]; try discriminate.
    apply Hgrow.
    by apply (handleTagAttributeValueError_backed _ _ _ _ _ Hback E).
Qed.

(** A successful attribute pass ends with a successful pass over the
    required attributes. *)
Lemma sanitizeAttributes_ends
    (rules : option (list (string * Rule.TagAttributeValueRule)))
    (el el' : Target Child) :
  sanitizeAttributes rules errorHandling el = Returned (true, el') ->
  exists el1, enforceRequiredAttributes rules errorHandling el1
              = Returned (true, el').
Proof.
  unfold sanitizeAttributes. munfold.
  destruct (attrKeys (attribs el)); [eauto |].
  destruct (attributesLoop _ rules errorHandling el) as [[[] el1]|m];
    cbn [negb]; try discriminate.
  eauto.
Qed.

End RequiredAttributes.

Section RequiredAttributesTree.
Import Tree Adapter Direct Indirect Sanitizers Walker Index.


End RequiredAttributesTree.


(* ------------------------------------------------------------------ *)
(** *** The top-level limits                                           *)
(* ------------------------------------------------------------------ *)

Section TopLevelLimits.
Import Tree Adapter Direct Sanitizers Walker Index.


End TopLevelLimits.


(* ------------------------------------------------------------------ *)
(** *** A policy that only throws                                      *)
(* ------------------------------------------------------------------ *)

Section Strict.
Import Tree Adapter Direct Indirect Sanitizers Walker Index.

Context {C : Type}.

Lemma handleTagError_throwing (mode : option ErrorHandlingMode)
    (msg : option string) (el : Target C) (r : bool * Target C) :
  throwing mode -> handleTagError mode msg el <> Returned r.
Proof. intros [-> | ->]; discriminate. Qed.

Lemma handleTagAttributeError_throwing (attribute : TagAttribute.t)
    (mode : option ErrorHandlingMode) (msg : option string) (el : Target C)
    (r : bool * Target C) :
  throwing mode -> handleTagAttributeError attribute mode msg el <> Returned r.
Proof. intros [-> | ->]; discriminate. Qed.

Lemma handleTagAttributeValueError_throwing (attribute : TagAttribute.t)
    (rule : Rule.TagAttributeValueRule) (mode : option ErrorHandlingMode)
    (msg : option string) (el : Target C) (r : bool * Target C) :
  throwing mode ->
  handleTagAttributeValueError attribute rule mode msg el <> Returned r.
Proof. intros [-> | ->]; discriminate. Qed.

Lemma handleTagAttributeValueTooLongError_throwing (attribute : TagAttribute.t)
    (rule : Rule.TagAttributeValueRule) (mode : option ErrorHandlingMode)
    (msg : option string) (el : Target C) (r : bool * Target C) :
  throwing mode ->
  handleTagAttributeValueTooLongError attribute rule mode msg el <> Returned r.
Proof. intros [-> | ->]; discriminate. Qed.

Lemma handleTagChildrenError_throwing (maxChildren : nat)
    (mode : option ErrorHandlingMode) (el : Target C) (r : bool * Target C) :
  throwing mode -> handleTagChildrenError maxChildren mode el <> Returned r.
Proof.
  intros [-> | ->]; unfold handleTagChildrenError; munfold;
    destruct (tagName el); discriminate.
Qed.

Lemma handleTagNestingError_throwing (maxNesting : nat)
    (mode : option ErrorHandlingMode) (el : Target C) (r : bool * Target C) :
  throwing mode -> handleTagNestingError maxNesting mode el <> Returned r.
Proof.
  intros [-> | ->]; unfold handleTagNestingError; munfold;
    destruct (tagName el); discriminate.
Qed.

Variable errorHandling : option ErrorHandling.t.
Hypothesis Strict : strict errorHandling.

(** Under a policy that only throws, a pass over a simple attribute
    that returns has changed nothing. *)
Lemma sanitizeTagAttributeValue_strict (attribute : TagAttribute.t)
    (rule : Rule.TagAttributeValueRule)
    (cmp : Comparators.TagAttributeValueComparator)
    (el el' : Target C) (ok : bool) :
  Rule.mode rule = Rule.simple cmp ->
  sanitizeTagAttributeValue attribute rule errorHandling el = Returned (ok, el') ->
  ok = true /\ el' = el.
Proof.
  destruct Strict as (_ & _ & _ & _ & _ & Hv & Hl & _).
  intros Hmode. unfold sanitizeTagAttributeValue.
  destruct (_ && _).
  { munfold.
    destruct (handleTagAttributeValueTooLongError _ _ _ _ el) as [r|m] eqn:E;
      [| discriminate].
    by apply handleTagAttributeValueTooLongError_throwing in E. }
  unfold sanitizeByMode. rewrite Hmode. unfold sanitizeTagAttributeSimpleValue.
  destruct (negb _).
  - intros E. by apply handleTagAttributeValueError_throwing in E.
  - munfold. by intros [= <- <-].
Qed.

Lemma attributesLoop_strict (keys : list string)
    (rules : option (list (string * Rule.TagAttributeValueRule)))
    (el el' : Target C) (ok : bool) :
  simpleModes rules ->
  Forall (fun name => JsObject.inherited name = false) keys ->
  attributesLoop keys rules errorHandling el = Returned (ok, el') ->
  ok = true /\ el' = el.
Proof.
  destruct Strict as (Ha & _).
  intros Hsimple. induction 1 as [|name keys Hname Hkeys IH];
    cbn [attributesLoop].
  - munfold. by intros [= <- <-].
  - munfold. destruct (attrGet name (attribs el)) as [value|]; [| discriminate].
    pose proof (ruleFor_plain name rules Hname) as Hplain.
    destruct (ruleFor name rules) as [[r|]|] eqn:Hr; cbn [sanitizeTagAttribute];
      [| done |].
    + munfold. cbn [negb ProceedFlags.globalProceed ProceedFlags.localProceed].
      assert (Hmode : exists cmp, Rule.mode r = Rule.simple cmp).
      { apply ruleFor_elem in Hr as (entries & -> & Hin). cbn in Hsimple.
        rewrite Forall_forall in Hsimple.
        destruct Hin as [Hin | [_ Hin]]; exact (Hsimple _ Hin). }
      destruct Hmode as [cmp Hmode].
      destruct (sanitizeTagAttributeValue _ r errorHandling el)
        as [[ok1 el1]|m] eqn:E; [| discriminate].
      apply (sanitizeTagAttributeValue_strict _ _ _ _ _ _ Hmode) in E as [-> ->].
      cbn [negb]. exact IH.
    + munfold.
      destruct (handleTagAttributeError _ _ _ el) as [r|m] eqn:E; [| discriminate].
      by apply handleTagAttributeError_throwing in E.
Qed.

Lemma enforceRequiredLoop_strict
    (entries : list (string * Rule.TagAttributeValueRule))
    (el el' : Target C) (ok : bool) :
  enforceRequiredLoop entries errorHandling el = Returned (ok, el') ->
  ok = true /\ el' = el.
Proof.
  destruct Strict as (_ & _ & _ & _ & _ & Hv & _).
  induction entries as [|[name r] entries IH]; cbn [enforceRequiredLoop].
  - munfold. by intros [= <- <-].
  - destruct (String.eqb name "*"); [exact IH |]. munfold.
    destruct (_ && _); [| exact IH].
    destruct (handleTagAttributeValueError _ _ _ _ el) as [r0|m] eqn:E;
      [| discriminate].
    by apply handleTagAttributeValueError_throwing in E.
Qed.

Lemma sanitizeAttributes_strict
    (rules : option (list (string * Rule.TagAttributeValueRule)))
    (el el' : Target C) (ok : bool) :
  simpleModes rules ->
  plainNames (attribs el) = true ->
  sanitizeAttributes rules errorHandling el = Returned (ok, el') ->
  ok = true /\ el' = el.
Proof.
  intros Hsimple Hplain%plainNames_keys.
  assert (Hreq : forall el1 : Target C,
            enforceRequiredAttributes rules errorHandling el1
            = Returned (ok, el') -> ok = true /\ el' = el1).
  { intros el1. destruct rules; cbn [enforceRequiredAttributes].
    - apply enforceRequiredLoop_strict.
    - munfold. by intros [= <- <-]. }
  unfold sanitizeAttributes. munfold.
  destruct (attrKeys (attribs el)) as [|k ks]; [apply Hreq |].
  destruct (attributesLoop _ rules errorHandling el) as [[ok1 el1]|m] eqn:E;
    [| discriminate].
  apply attributesLoop_strict in E as [-> ->];
    [| exact Hsimple | exact Hplain].
  cbn [negb]. apply Hreq.
Qed.

End Strict.
Section StrictWalk.
Import Tree Adapter Direct Indirect Sanitizers Walker Index.

Variable options : SanitizerOptions.t.
Hypothesis Strict : strict (SanitizerOptions.errorHandling options).
Hypothesis Simple :
  forall t rule, tagRuleOf options t = Some rule ->
                 simpleModes (TagRule.attributes rule).

Lemma nestingLoop_strict (frames : list TagNestingFrame.t)
    (el el' : Target Child) (r : option (list TagNestingFrame.t)) :
  nestingLoop options frames el = Returned (r, el') ->
  r = Some (List.map deeper frames) /\ el' = el.
Proof.
  destruct Strict as (_ & _ & _ & _ & _ & _ & _ & _ & _ & Hn).
  revert r el'. induction frames as [|f frames IH]; intros r el';
    cbn [nestingLoop].
  - munfold. by intros [= <- <-].
  - assert (Hrec : (r0 ← nestingLoop options frames;
                    mret (match r0 with
                          | Some fs =>
                              Some (TagNestingFrame.mk (TagNestingFrame.key f)
                                      (S (TagNestingFrame.value f)) :: fs)
                          | None => None
                          end)) el = Returned (r, el') ->
                   r = Some (List.map deeper (f :: frames)) /\ el' = el).
    { munfold. destruct (nestingLoop options frames el) as [[r0 el0]|m] eqn:E;
        [| discriminate].
      destruct (IH r0 el0 eq_refl) as [-> ->]. by intros [= <- <-]. }
    destruct (negb _); [exact Hrec |].
    destruct (_ <? _)%nat; [| exact Hrec].
    munfold.
    destruct (handleTagNestingError _ _ el) as [r0|m] eqn:E; [| discriminate].
    by apply handleTagNestingError_throwing in E.
Qed.

(** Under a policy that only throws, with simple attribute rules, a
    visit of an element that returns leaves the element, with its
    attributes, over the visits of all its children. *)
Lemma walkElement_strict (t : string) (attrs : list (string * string))
    (kids : list Node) (state : SanitizerState.t) (out : list Node) :
  plainNames attrs = true ->
  walkElement (mkTarget (Some t) attrs (withWalks options kids) InParent)
    options state = Returned out ->
  exists kidsOut,
    walkChildren (withWalks options kids) (newStateOf state t) = Returned kidsOut
    /\ out = [Element t attrs kidsOut].
Proof.
  destruct Strict as (_ & _ & _ & _ & _ & _ & _ & Ht & Hc & _).
  intros Hplain. unfold walkElement. cbn [tagNameOf tagName].
  set (el0 := mkTarget (Some t) attrs (withWalks options kids) InParent).
  munfold.
  destruct (tagRuleOf options t) as [rule|] eqn:Hrule; cbn [sanitizeTag].
  2:{ destruct (handleTagError _ _ el0) as [r|m] eqn:E; [| discriminate].
      by apply handleTagError_throwing in E. }
  munfold. cbn [negb].
  destruct (sanitizeAttributes _ _ el0) as [[ok el1]|m] eqn:E; [| discriminate].
  apply (sanitizeAttributes_strict _ Strict) in E as [-> ->];
    [| by eapply Simple | exact Hplain].
  cbn [negb].
  destruct (_ && _).
  { destruct (handleTagChildrenError _ _ el0) as [r|m] eqn:E; [| discriminate].
    by apply handleTagChildrenError_throwing in E. }
  cbn [negb].
  destruct (nestingLoop options _ el0) as [[r el1]|m] eqn:E; [| discriminate].
  apply nestingLoop_strict in E as [-> ->].
  rewrite rev_map_deeper. fold (newStateOf state t).
  unfold el0 at 1. cbn [children].
  destruct (walkChildren _ _) as [kidsOut|m]; [| discriminate].
  intros [= <-]. exists kidsOut. split; [reflexivity |].
  unfold settle, el0. reflexivity.
Qed.

Lemma walkNode_strict (n : Node) :
  plain n = true ->
  forall state out,
    walkNode options n state = Returned out ->
    out = stripComments
            (default false (SanitizerOptions.preserveComments options)) n.
Proof.
  destruct Strict as (_ & _ & _ & _ & _ & _ & _ & _ & _ & Hn).
  induction n as [t a kids IH | d | d | kids IH] using Node_induction;
    intros Hplain state out; [| | | discriminate].
  - apply plain_children in Hplain as [Ha Hpk].
    rewrite walkNode_element. destruct (tooDeep options state).
    { destruct (handleTagNestingError _ _ _) as [r|m] eqn:E; [| discriminate].
      by apply handleTagNestingError_throwing in E. }
    intros H. apply walkElement_strict in H as (kidsOut & Hkids & ->);
      [| exact Ha].
    cbn [stripComments]. do 2 f_equal.
    apply walkChildren_inv in Hkids as (outs & Hall & ->). f_equal.
    clear -Hall IH Hpk. induction Hall as [|k o kids outs Hk Hall IHall];
      [reflexivity |].
    apply Forall_cons in IH as [IHk IH].
    apply Forall_cons in Hpk as [Hp Hpk]. simpl.
    f_equal; [by eapply IHk | auto].
  - simpl. by destruct (default false _); intros [= <-].
  - simpl. by intros [= <-].
Qed.

End StrictWalk.

Section StrictTheorem.
Import Tree Adapter Direct Indirect Sanitizers Walker Index.

Lemma stripComments_keep (n : Node) : stripComments true n = [n].
Proof.
  induction n as [t a kids IH | d | d | kids IH] using Node_induction;
    [| reflexivity | reflexivity |];
    cbn [stripComments]; do 2 f_equal;
    (induction IH as [|k kids Hk _ IHkids]; [reflexivity |]);
    simpl; by rewrite Hk, IHkids.
Qed.


End StrictTheorem.


(* ------------------------------------------------------------------ *)
(** *** Records without repeated keys                                  *)
(* ------------------------------------------------------------------ *)

Section RecordDistinct.
Import Tree Adapter Direct Indirect Sanitizers Comparators Helpers.

Context {C : Type}.

Lemma NoDup_withoutKey (key : string) (output : list TagAttributeValueEntry.t) :
  NoDup (List.map TagAttributeValueEntry.key output) ->
  NoDup (List.map TagAttributeValueEntry.key (withoutKey key output)).
Proof.
  unfold withoutKey. induction output as [|e output IH]; simpl; [done |].
  intros H. apply NoDup_cons in H as [He H].
  destruct (negb _); simpl; [| by apply IH].
  apply NoDup_cons. split; [| by apply IH].
  intros Hin. apply He. apply list_elem_of_fmap in Hin as (e' & -> & Hin).
  apply (list_elem_of_fmap_2 TagAttributeValueEntry.key).
  apply list_elem_of_In. apply list_elem_of_In in Hin.
  by apply filter_In in Hin as [Hin _].
Qed.

Lemma NoDup_push (key val : string) (output : list TagAttributeValueEntry.t) :
  key ∉ List.map TagAttributeValueEntry.key output ->
  NoDup (List.map TagAttributeValueEntry.key output) ->
  NoDup (List.map TagAttributeValueEntry.key
           (output ++ [TagAttributeValueEntry.mk key val])).
Proof.
  intros Hk Hnd. rewrite map_app. apply NoDup_app. split; [exact Hnd |].
  split; [| apply NoDup_singleton].
  intros k Hin Hk'. apply list_elem_of_singleton in Hk'. simpl in Hk'. by subst.
Qed.

(** The value handler returns [true] under two strategies only. *)
Lemma handleTagAttributeValueError_true_mode (attribute : TagAttribute.t)
    (rule : Rule.TagAttributeValueRule) (mode : option ErrorHandlingMode)
    (msg : option string) (el el' : Target C) :
  handleTagAttributeValueError attribute rule mode msg el = Returned (true, el') ->
  mode = Some applyDefaultValue \/ mode = Some discardAttribute.
Proof.
  unfold handleTagAttributeValueError, handleTagAttributeError, handleTagError.
  destruct mode as [[]|]; munfold;
    try discriminate;
    try (unfold detachNode; munfold; discriminate);
    try (unfold unwrapInParent; munfold;
         destruct (children el); [| destruct (link el)];
         unfold detachNode; munfold; discriminate);
    intros _; [by left | by right].
Qed.

(** What the duplicate handler answers when it lets the loop go on,
    under a strategy that de-duplicates. *)
Lemma handleDuplicate_dedupes (attribute : TagAttribute.t) (key : string)
    (record : list TagAttributeValueEntry.t) (rule : Rule.TagAttributeValueRule)
    (mode : option ErrorHandlingMode) (msg : option string)
    (el el' : Target C) (result : DuplicateResult.t) :
  dedupes mode ->
  handleTagAttributeRecordValueDuplicateError attribute key record rule mode msg el
  = Returned (result, el') ->
  DuplicateResult.globalProceed result = true ->
  (DuplicateResult.localProceed result = false
   /\ (DuplicateResult.output result = record
       \/ DuplicateResult.output result = withoutKey key record))
  \/ (DuplicateResult.localProceed result = true
      /\ DuplicateResult.output result = withoutKey key record).
Proof.
  intros (Hkd & Had & Hda) H Hg.
  assert (Hrest : (r ← handleTagAttributeValueError attribute rule mode
                        (Some (orElse msg
                           ("Value " ++ TagAttribute.value attribute
                              ++ " for attribute " ++ TagAttribute.key attribute
                              ++ " has duplicate " ++ key ++ " keys")));
                   mret (DuplicateResult.mk r r record)) el
                  = Returned (result, el') -> False).
  { munfold.
    destruct (handleTagAttributeValueError _ _ _ _ el) as [[ok el1]|m] eqn:E;
      [| discriminate].
    intros [= <- _]. cbn [DuplicateResult.globalProceed] in Hg. subst ok.
    apply handleTagAttributeValueError_true_mode in E as [-> | ->]; congruence. }
  unfold handleTagAttributeRecordValueDuplicateError in H.
  destruct mode as [[]|]; try (exfalso; exact (Hrest H)); clear Hrest.
  - (* dropDuplicates *)
    munfold. injection H as <- _. left. split; [reflexivity | by right].
  - (* keepDuplicates *) congruence.
  - (* keepFirst *)
    munfold. injection H as <- _. left. split; [reflexivity | by left].
  - (* keepLast *)
    munfold. injection H as <- _. right. split; reflexivity.
Qed.

(** Under a strategy that de-duplicates, the record loop keeps the keys
    of its output pairwise distinct, and among the keys seen. *)
Lemma recordLoop_distinct (attribute : TagAttribute.t)
    (rule : Rule.TagAttributeValueRule)
    (values : gmap string TagAttributeValueComparator)
    (errorHandling : option ErrorHandling.t)
    (input rest : list TagAttributeValueEntry.t) :
  dedupes (slot errorHandling ErrorHandling.attributeRecordValueDuplicate) ->
  forall (index : nat) (seen : gset string)
         (output : list TagAttributeValueEntry.t) (el el' : Target C)
         (out' : list TagAttributeValueEntry.t),
    NoDup (List.map TagAttributeValueEntry.key output) ->
    outputSeen seen output ->
    recordLoop attribute rule values errorHandling input index rest seen output el
    = Returned (Some out', el') ->
    NoDup (List.map TagAttributeValueEntry.key out').
Proof.
  intros Hmode. induction rest as [|[key val] rest IH];
    intros index seen output el el' out' Hnd Hseen H.
  - simpl in H. munfold. by injection H as <- _.
  - assert (Hcheck : forall output1 el1,
              NoDup (List.map TagAttributeValueEntry.key output1) ->
              outputSeen seen output1 ->
              key ∉ List.map TagAttributeValueEntry.key output1 ->
              match pairRuleOf values key with
              | Some (Raises message) => throw message
              | Some (Compares cmp) =>
                  if negb (truthy cmp) || negb (matchComparator cmp val) then
                    ok ← handleTagAttributeRecordValueError attribute input index rule
                           (slot errorHandling ErrorHandling.attributeRecordValue) None;
                    if negb ok then mret None
                    else recordLoop attribute rule values errorHandling input
                           (S index) rest seen output1
                  else
                    recordLoop attribute rule values errorHandling input
                      (S index) rest ({[key]} ∪ seen)
                      (output1 ++ [TagAttributeValueEntry.mk key val])
              | None =>
                  ok ← handleTagAttributeRecordValueError attribute input index rule
                         (slot errorHandling ErrorHandling.attributeRecordValue) None;
                  if negb ok then mret None
                  else recordLoop attribute rule values errorHandling input
                         (S index) rest seen output1
              end el1 = Returned (Some out', el') ->
              NoDup (List.map TagAttributeValueEntry.key out')).
    { intros output1 el1 Hnd1 Hseen1 Hfresh H1.
      assert (Herr : (ok ← handleTagAttributeRecordValueError attribute input
                             index rule
                             (slot errorHandling ErrorHandling.attributeRecordValue)
                             None;
                      if negb ok then mret None
                      else recordLoop attribute rule values errorHandling input
                             (S index) rest seen output1) el1
                     = Returned (Some out', el') ->
                     NoDup (List.map TagAttributeValueEntry.key out')).
      { munfold.
        destruct (handleTagAttributeRecordValueError _ _ _ _ _ _ el1)
          as [[ok el2]|m]; [| discriminate].
        destruct ok; cbn [negb]; [| discriminate].
        intros H2. eapply IH in H2; eauto. }
      destruct (pairRuleOf values key) as [[cmp|message]|];
        [| by munfold | by apply Herr].
      destruct (negb (truthy cmp) || negb (matchComparator cmp val));
        [by apply Herr |].
      eapply IH in H1; [exact H1 | by apply NoDup_push |].
      by apply outputSeen_push. }
    cbn [recordLoop] in H.
    destruct (bool_decide (key ∈ seen)) eqn:Hkey.
    + munfold.
      destruct (handleTagAttributeRecordValueDuplicateError _ _ _ _ _ _ el)
        as [[result el1]|m] eqn:Hdup; [| discriminate].
      destruct (DuplicateResult.globalProceed result) eqn:Hg; cbn [negb] in H;
        [| discriminate].
      destruct (handleDuplicate_dedupes _ _ _ _ _ _ _ _ _ Hmode Hdup Hg)
        as [[Hl Hout] | [Hl Hout]];
        rewrite Hl in H; cbn [negb] in H.
      * eapply IH in H; [exact H | |];
          destruct Hout as [-> | ->];
          first [assumption | by apply NoDup_withoutKey
                | by apply outputSeen_withoutKey].
      * rewrite Hout in H.
        eapply Hcheck in H; [exact H | by apply NoDup_withoutKey
                            | by apply outputSeen_withoutKey
                            | apply withoutKey_absent].
    + apply bool_decide_eq_false in Hkey.
      eapply Hcheck in H; [exact H | exact Hnd | exact Hseen |].
      intros Hin. apply Hkey. unfold outputSeen in Hseen.
      rewrite Forall_forall in Hseen.
      apply list_elem_of_fmap in Hin as (e & -> & He). by apply Hseen.
Qed.

End RecordDistinct.
Section RecordDistinctTheorem.
Import Tree Adapter Direct Indirect Sanitizers Comparators Helpers.


End RecordDistinctTheorem.


(* ------------------------------------------------------------------ *)
(** *** The children handler                                           *)
(* ------------------------------------------------------------------ *)

Section ChildrenHandler.
Import Tree Adapter Direct.

(** X7.  When [handleTagChildrenError] returns, the tag and the
    attributes of the element are untouched.  If it returns [true], the
    strategy is [discardFirsts] or [discardLasts] and the element is
    left with [min(length, maxChildren)] children: its last
    [maxChildren] children under [discardFirsts], its first
    [maxChildren] under [discardLasts], in their order, and all of them
    when it had no more than [maxChildren].  If it returns [false], the
    strategy is [discardElement] and the children are untouched. *)
Theorem handleTagChildrenError_trims {C} (maxChildren : nat)
    (mode : option ErrorHandlingMode) (el el' : Target C) (ok : bool) :
  handleTagChildrenError maxChildren mode el = Returned (ok, el') ->
  tagName el' = tagName el /\ attribs el' = attribs el
  /\ (ok = true ->
      link el' = link el
      /\ List.length (children el')
         = Nat.min (List.length (children el)) maxChildren
      /\ (mode = Some discardFirsts
          /\ children el'
             = drop (List.length (children el) - maxChildren) (children el)
          \/ mode = Some discardLasts
             /\ children el' = take maxChildren (children el)))
  /\ (ok = false ->
      mode = Some discardElement /\ children el' = children el).
Proof.
  unfold handleTagChildrenError. munfold.
  destruct mode as [[]|]; try (destruct (tagName el); discriminate).
  - unfold detachNode. munfold. intros [= <- <-].
    split; [by destruct (link el) |]. split; [by destruct (link el) |].
    split; [discriminate |]. intros _. split; [reflexivity |].
    by destruct (link el).
  - rewrite repeatM_detachFirst. intros [= <- <-]. cbn [tagName attribs children link withChildren].
    split; [reflexivity |]. split; [reflexivity |]. split; [| discriminate].
    intros _. split; [reflexivity |]. split; [rewrite length_drop; lia |].
    left. by split.
  - rewrite repeatM_detachLast. intros [= <- <-]. cbn [tagName attribs children link withChildren].
    assert (Htake : take (List.length (children el)
                          - (List.length (children el) - maxChildren))
                      (children el)
                    = take maxChildren (children el)).
    { destruct (Nat.le_gt_cases maxChildren (List.length (children el))) as [Hle | Hgt].
      - f_equal. lia.
      - rewrite !take_ge; [reflexivity | lia | lia]. }
    rewrite Htake.
    split; [reflexivity |]. split; [reflexivity |]. split; [| discriminate].
    intros _. split; [reflexivity |]. split; [rewrite length_take; lia |].
    right. by split.
Qed.

End ChildrenHandler.

(** Three children, two allowed, [discardLasts]: the first two stay. *)
Lemma handleTagChildrenError_trims_witness :
  let el := Tree.mkTarget (Some "ul") [] [1; 2; 3] Tree.InParent in
  Direct.handleTagChildrenError 2 (Some discardLasts) el
  = Returned (true, Tree.mkTarget (Some "ul") [] [1; 2] Tree.InParent)
  /\ List.length [1; 2] = Nat.min (List.length [1; 2; 3]) 2.
Proof.
  intros el.
  assert (H : Direct.handleTagChildrenError 2 (Some discardLasts) el
              = Returned (true, Tree.mkTarget (Some "ul") [] [1; 2]
                                  Tree.InParent)).
  { vm_compute. reflexivity. }
  split; [exact H |].
  destruct (handleTagChildrenError_trims 2 (Some discardLasts) el _ true H)
    as (_ & _ & Htrue & _).
  destruct (Htrue eq_refl) as (_ & Hlen & _). exact Hlen.
Defined.

(* ------------------------------------------------------------------ *)
(** *** Parsing a set back from its join                               *)
(* ------------------------------------------------------------------ *)

Section SplitJoin.
Import JsString Helpers.

Variable c : ascii.

Lemma append_nil_r (s : string) : (s ++ "")%string = s.
Proof.
  induction s as [|x s IH]; [reflexivity |].
  change (String x (s ++ "") = String x s)%string. by rewrite IH.
Qed.

Lemma prefix_char (x : ascii) (s : string) :
  String.prefix (String c "") (String x s) = Ascii.eqb x c.
Proof.
  simpl. destruct (ascii_dec c x) as [-> | Hne].
  - rewrite Ascii.eqb_refl. by destruct s.
  - symmetry. apply Ascii.eqb_neq. congruence.
Qed.

Lemma freeOf_app (a b : string) :
  freeOf c (a ++ b) = freeOf c a && freeOf c b.
Proof.
  induction a as [|x a IH]; [reflexivity |].
  change (freeOf c (String x (a ++ b)) = freeOf c (String x a) && freeOf c b).
  cbn [freeOf]. rewrite IH. by rewrite andb_assoc.
Qed.

(** The scan goes through a part without the delimiter. *)
Lemma splitFrom_free (t rest acc : string) :
  freeOf c t = true ->
  splitFrom (String c "") 0 acc (t ++ rest)
  = splitFrom (String c "") 0 (acc ++ t) rest.
Proof.
  revert acc. induction t as [|x t IH]; intros acc Hfree.
  - by rewrite append_nil_r.
  - cbn [freeOf] in Hfree. apply andb_true_iff in Hfree as [Hx Hfree].
    change (String x t ++ rest)%string with (String x (t ++ rest)).
    cbn [splitFrom]. rewrite prefix_char.
    apply negb_true_iff in Hx. rewrite Hx.
    rewrite (IH _ Hfree). rewrite append_assoc. reflexivity.
Qed.

Lemma splitFrom_delimiter (rest acc : string) :
  splitFrom (String c "") 0 acc (String c rest)
  = acc :: splitFrom (String c "") 0 "" rest.
Proof. cbn [splitFrom]. by rewrite prefix_char, Ascii.eqb_refl. Qed.

(** Splitting the join of parts without the delimiter gives the parts
    back. *)
Lemma splitFrom_join (ts : list string) :
  forall (t acc : string),
    freeOf c t = true -> Forall (fun t => freeOf c t = true) ts ->
    splitFrom (String c "") 0 acc (join (t :: ts) (String c ""))
    = (acc ++ t)%string :: ts.
Proof.
  unfold join. induction ts as [|t' ts IH]; intros t acc Ht Hts.
  - cbn [String.concat]. rewrite <- (append_nil_r t) at 1.
    by rewrite splitFrom_free.
  - apply Forall_cons in Hts as [Ht' Hts].
    change (String.concat (String c "") (t :: t' :: ts))
      with (t ++ String c (String.concat (String c "") (t' :: ts)))%string.
    rewrite (splitFrom_free _ _ _ Ht), splitFrom_delimiter.
    by rewrite (IH t' "" Ht' Hts).
Qed.

(** No part of a split holds the delimiter. *)
Lemma splitFrom_parts_free (s : string) :
  forall acc, freeOf c acc = true ->
              Forall (fun t => freeOf c t = true)
                (splitFrom (String c "") 0 acc s).
Proof.
  induction s as [|x s IH]; intros acc Hacc; cbn [splitFrom].
  - by constructor.
  - rewrite prefix_char. destruct (Ascii.eqb x c) eqn:E.
    + constructor; [exact Hacc | by apply IH].
    + apply IH. rewrite freeOf_app, Hacc. cbn [freeOf andb]. by rewrite E.
Qed.

Lemma freeOf_trimStart (s : string) :
  freeOf c s = true -> freeOf c (trimStart s) = true.
Proof.
  induction s as [|x s IH]; [done |]. intros H. simpl.
  destruct (isWhiteSpace x); [| exact H].
  apply IH. cbn [freeOf] in H. by apply andb_true_iff in H as [_ H].
Qed.

Lemma freeOf_trimEnd (s : string) :
  freeOf c s = true -> freeOf c (trimEnd s) = true.
Proof.
  induction s as [|x s IH]; [done |]. intros H. cbn [freeOf] in H.
  apply andb_true_iff in H as [Hx H]. specialize (IH H). simpl.
  destruct (trimEnd s) as [|y t].
  - destruct (isWhiteSpace x); [reflexivity |]. cbn [freeOf]. by rewrite Hx.
  - cbn [freeOf] in *. by rewrite Hx, IH.
Qed.

Lemma freeOf_trim (s : string) :
  freeOf c s = true -> freeOf c (trim s) = true.
Proof. intros H. unfold trim. by apply freeOf_trimEnd, freeOf_trimStart. Qed.

End SplitJoin.

Section TrimJoin.
Import JsString Helpers.

Lemma trimEnd_clean (s : string) : endsClean s = true -> trimEnd s = s.
Proof.
  induction s as [|x s IH]; [discriminate |].
  destruct s as [|y s].
  - simpl. intros H. apply negb_true_iff in H. by rewrite H.
  - intros H. change (endsClean (String x (String y s))) with (endsClean (String y s)) in H.
    specialize (IH H). change (trimEnd (String x (String y s)))
      with (match trimEnd (String y s) with
            | EmptyString => if isWhiteSpace x then EmptyString else String x EmptyString
            | t => String x t
            end).
    by rewrite IH.
Qed.

Lemma trimEnd_ends (s : string) :
  trimEnd s = "" \/ endsClean (trimEnd s) = true.
Proof.
  induction s as [|x s IH]; [by left |]. simpl.
  destruct (trimEnd s) as [|y t] eqn:E.
  - destruct (isWhiteSpace x) eqn:W; [by left |]. right. simpl. by rewrite W.
  - right. destruct IH as [? | IH]; [discriminate |]. exact IH.
Qed.

Lemma trimEnd_starts (s : string) :
  startsClean s = true -> startsClean (trimEnd s) = true.
Proof.
  destruct s as [|x s]; [discriminate |]. simpl. intros H.
  destruct (trimEnd s); [| exact H].
  apply negb_true_iff in H. rewrite H. simpl. by rewrite H.
Qed.

Lemma trimStart_starts (s : string) :
  trimStart s = "" \/ startsClean (trimStart s) = true.
Proof.
  pose proof (trimStart_head s) as H.
  destruct (trimStart s); [by left | right]. simpl. by rewrite H.
Qed.

(** A trimmed string that is not empty starts and ends clean. *)
Lemma trimmed_clean (t : string) :
  trim t = t -> t <> "" -> startsClean t = true /\ endsClean t = true.
Proof.
  unfold trim. intros Ht Hne.
  destruct (trimStart_starts t) as [E | Hs].
  { rewrite E in Ht. simpl in Ht. congruence. }
  split.
  - rewrite <- Ht. by apply trimEnd_starts.
  - destruct (trimEnd_ends (trimStart t)) as [E | He]; [congruence |].
    by rewrite Ht in He.
Qed.

Lemma clean_trimmed (s : string) :
  startsClean s = true -> endsClean s = true -> trim s = s.
Proof.
  intros Hs He. unfold trim.
  assert (trimStart s = s) as ->.
  { destruct s as [|x s]; [discriminate |]. simpl in *.
    apply negb_true_iff in Hs. by rewrite Hs. }
  by apply trimEnd_clean.
Qed.

Lemma startsClean_app (a b : string) :
  startsClean a = true -> startsClean (a ++ b) = true.
Proof. by destruct a. Qed.

Lemma endsClean_app (a b : string) :
  endsClean b = true -> endsClean (a ++ b) = true.
Proof.
  intros Hb. induction a as [|x a IH]; [exact Hb |].
  change (endsClean (String x (a ++ b)) = true).
  destruct (a ++ b)%string as [|y t]; [discriminate IH | exact IH].
Qed.

(** The join of strings that end clean ends clean. *)
Lemma join_ends (sep : string) (ts : list string) :
  forall t, endsClean t = true ->
            Forall (fun t => endsClean t = true) ts ->
            endsClean (join (t :: ts) sep) = true.
Proof.
  unfold join. induction ts as [|t' ts IH]; intros t He Hts; [exact He |].
  apply Forall_cons in Hts as [Ht' Hts].
  change (String.concat sep (t :: t' :: ts))
    with (t ++ sep ++ String.concat sep (t' :: ts))%string.
  apply endsClean_app, endsClean_app. by apply IH.
Qed.

Lemma join_starts (sep : string) (ts : list string) (t : string) :
  startsClean t = true -> startsClean (join (t :: ts) sep) = true.
Proof.
  unfold join. intros Hs. destruct ts; [exact Hs |].
  cbn [String.concat]. by apply startsClean_app.
Qed.

End TrimJoin.

Section ParseSetJoin.
Import JsString Helpers.

Variable c : ascii.

Lemma fromSetAcc_distinct (ts : list string) :
  forall seen, NoDup ts -> (forall t, t ∈ ts -> t ∉ seen) ->
               fromSetAcc seen ts = ts.
Proof.
  induction ts as [|t ts IH]; intros seen Hnd Hseen; [reflexivity |].
  apply NoDup_cons in Hnd as [Hnot Hnd]. cbn [fromSetAcc].
  rewrite bool_decide_eq_false_2 by (apply Hseen; left).
  f_equal. apply IH; [exact Hnd |].
  intros t' Hin' Hin''. apply elem_of_cons in Hin'' as [-> | Hin''].
  - by apply Hnot.
  - apply (Hseen t'); [by right | exact Hin''].
Qed.

Lemma map_trim_fixed (ts : list string) :
  Forall (fun t => trim t = t) ts -> List.map trim ts = ts.
Proof.
  induction 1 as [|t ts Ht _ IH]; [reflexivity |].
  cbn [List.map]. by rewrite Ht, IH.
Qed.

Lemma filter_truthy_fixed (ts : list string) :
  Forall (fun t => t <> "") ts -> List.filter truthy ts = ts.
Proof.
  induction 1 as [|t ts Ht _ IH]; [reflexivity |].
  cbn [List.filter]. rewrite IH. by destruct t.
Qed.

(** What [parseSet] makes of the join of tokens. *)
Lemma parseSet_join (ts : list string) :
  Forall (token c) ts -> NoDup ts ->
  parseSet (join ts (String c "")) (String c "") = ts.
Proof.
  intros Htok Hnd. destruct ts as [|t ts]; [reflexivity |].
  unfold parseSet.
  assert (trim (join (t :: ts) (String c "")) = join (t :: ts) (String c ""))
    as ->.
  { apply Forall_cons in Htok as [(Ht & Hne & _) Htok].
    destruct (trimmed_clean t Ht Hne) as [Hs He].
    apply clean_trimmed; [by apply join_starts |].
    apply join_ends; [exact He |].
    eapply Forall_impl; [exact Htok |].
    intros t' (Ht' & Hne' & _). by apply trimmed_clean. }
  assert (truthy (join (t :: ts) (String c "")) = true) as ->.
  { apply Forall_cons in Htok as [(_ & Hne & _) _].
    unfold join. destruct t; [done |]. by destruct ts. }
  cbn [negb]. unfold split.
  rewrite (splitFrom_join c ts t "").
  - change ("" ++ t)%string with t.
    rewrite map_trim_fixed, filter_truthy_fixed.
    + unfold arrayFromSet. apply fromSetAcc_distinct; [exact Hnd |].
      intros ? _. apply not_elem_of_nil.
    + eapply Forall_impl; [exact Htok |]. by intros ? (_ & ? & _).
    + eapply Forall_impl; [exact Htok |]. by intros ? (? & _ & _).
  - apply Forall_cons in Htok as [(_ & _ & Hf) _]. exact Hf.
  - apply Forall_cons in Htok as [_ Htok].
    eapply Forall_impl; [exact Htok |]. by intros ? (_ & _ & ?).
Qed.

(** What [parseSet] returns for the delimiter [c] are tokens. *)
Lemma parseSet_tokens (input : string) :
  Forall (token c) (parseSet input (String c "")).
Proof.
  pose proof (parseSet_normal input (String c "")) as [Hn _].
  apply Forall_forall. intros t Hin.
  rewrite Forall_forall in Hn. destruct (Hn t Hin) as [Ht Hne].
  split; [exact Ht |]. split; [exact Hne |].
  unfold parseSet in Hin. destruct (negb (truthy (trim input)));
    [by apply elem_of_nil in Hin |].
  apply fromSetAcc_elem in Hin as [Hin _].
  apply list_elem_of_In, filter_In in Hin as [Hin _].
  apply list_elem_of_In, list_elem_of_fmap in Hin as (p & -> & Hp).
  apply freeOf_trim.
  pose proof (splitFrom_parts_free c (trim input) "" eq_refl) as Hparts.
  rewrite Forall_forall in Hparts. by apply Hparts.
Qed.

End ParseSetJoin.

(** X8. For a delimiter of one code unit, [parseSet] reads the join of
    tokens back as these tokens: of strings that are trimmed, not empty,
    without the delimiter and pairwise distinct.  What [parseSet] returns
    is such a list, so that joining its result and parsing it again
    changes nothing. *)
Theorem parseSet_join_round_trip (c : ascii) :
  (forall ts : list string,
      Forall (token c) ts -> NoDup ts ->
      Helpers.parseSet (JsString.join ts (String c "")) (String c "") = ts)
  /\ (forall input : string,
         Forall (token c) (Helpers.parseSet input (String c ""))
         /\ NoDup (Helpers.parseSet input (String c ""))
         /\ Helpers.parseSet
              (JsString.join (Helpers.parseSet input (String c ""))
                 (String c ""))
              (String c "")
            = Helpers.parseSet input (String c "")).
Proof.
  split; [apply parseSet_join |]. intros input.
  pose proof (parseSet_tokens c input) as Htok.
  pose proof (parseSet_normal input (String c "")) as [_ Hnd].
  split; [exact Htok |]. split; [exact Hnd |].
  by apply parseSet_join.
Qed.

Lemma parseSet_join_round_trip_witness :
  Forall (token ",") ["btn"; "is wide"] /\ NoDup ["btn"; "is wide"]
  /\ Helpers.parseSet (JsString.join ["btn"; "is wide"] ",") ","
     = ["btn"; "is wide"].
Proof.
  assert (Forall (token ",") ["btn"; "is wide"]) as Htok.
  { repeat constructor; discriminate. }
  assert (NoDup ["btn"; "is wide"]) as Hnd.
  { apply (bool_decide_unpack _). vm_compute. reflexivity. }
  split; [exact Htok |]. split; [exact Hnd |].
  exact (proj1 (parseSet_join_round_trip ",") _ Htok Hnd).
Defined.

(* ------------------------------------------------------------------ *)
(** *** What a sanitized set holds                                     *)
(* ------------------------------------------------------------------ *)

Section SetSound.
Import JsString Comparators Helpers Tree Adapter Direct Indirect Sanitizers.
Context {C : Type}.

Lemma filter_sublist {A} (f : A -> bool) (l : list A) :
  List.filter f l `sublist_of` l.
Proof.
  induction l as [|x l IH]; [constructor |]. cbn [List.filter].
  destruct (f x); by constructor.
Qed.

Lemma Forall_sublist {A} (P : A -> Prop) (l k : list A) :
  k `sublist_of` l -> Forall P l -> Forall P k.
Proof.
  intros Hs Hl. apply Forall_forall. intros x Hx.
  rewrite Forall_forall in Hl. apply Hl. by eapply elem_of_sublist.
Qed.

Lemma filter_accepts {A} (f : A -> bool) (l : list A) :
  Forall (fun x => f x = true) (List.filter f l).
Proof.
  apply Forall_forall. intros x Hin.
  by apply list_elem_of_In, filter_In in Hin as [_ ?].
Qed.

(** The list a returning run of the set sanitizer filters, and its
    length under [dropExtra]. *)
Lemma sanitizeSet_input (attribute : TagAttribute.t)
    (rule : Rule.TagAttributeValueRule) (delimiter : string)
    (values : TagAttributeValueComparator)
    (errorHandling : option ErrorHandling.t) (el el' : Target C) :
  sanitizeTagAttributeSetValue attribute rule delimiter values errorHandling el
  = Returned (true, el') ->
  exists input,
    input `sublist_of` parseSet (TagAttribute.value attribute) delimiter
    /\ (slot errorHandling ErrorHandling.attributeCollectionValueTooMany
        = Some dropExtra ->
        forall n, Rule.maxEntries rule = Some (S n) ->
                  (List.length input <= S n)%nat)
    /\ attrGet (TagAttribute.key attribute) (attribs el')
       = Some (join (List.filter (matchComparator values) input) delimiter).
Proof.
  unfold sanitizeTagAttributeSetValue.
  set (tokens := parseSet (TagAttribute.value attribute) delimiter).
  assert (Hcont : forall input el1,
            (r ← setLoop attribute rule values errorHandling input 0 input [];
             match r with
             | None => mret false
             | Some output =>
                 setAttrib (TagAttribute.key attribute)
                   (join output delimiter) ;; mret true
             end) el1 = Returned (true, el') ->
            attrGet (TagAttribute.key attribute) (attribs el')
            = Some (join (List.filter (matchComparator values) input)
                      delimiter)).
  { intros input el1 H. munfold.
    destruct (setLoop attribute rule values errorHandling input 0 input [] el1)
      as [[[out|] el2]|m] eqn:Hloop; try discriminate.
    apply setLoop_output in Hloop. simpl in Hloop. subst out.
    unfold setAttrib in H. munfold. injection H as <-. simpl.
    apply attrGet_attrSet_eq. }
  destruct (truthyNumber (Rule.maxEntries rule)
            && (default 0 (Rule.maxEntries rule) <? List.length tokens)%nat)
    eqn:Hguard.
  - munfold.
    destruct (handleTagAttributeCollectionValueTooManyError attribute tokens rule
                _ None el) as [[result el1]|m] eqn:Hmany; [| discriminate].
    destruct (CollectionResult.proceed result); cbn [negb]; [| discriminate].
    intros H. exists (CollectionResult.output result).
    split; [| split; [| eapply Hcont; exact H]].
    + apply handleTooMany_output in Hmany as [-> | ->]; [done |].
      unfold sliceEntries. destruct (Rule.maxEntries rule); [| done].
      apply sublist_take.
    + intros Hmode n Hmax. rewrite Hmode in Hmany.
      unfold handleTagAttributeCollectionValueTooManyError in Hmany. munfold.
      injection Hmany as <- _. cbn [CollectionResult.output].
      rewrite Hmax. cbn [sliceEntries]. rewrite length_take. lia.
  - intros H. exists tokens.
    split; [done | split; [| eapply Hcont; exact H]].
    intros _ n Hmax. rewrite Hmax in Hguard.
    cbn [truthyNumber default andb] in Hguard.
    change (id (S n)) with (S n) in Hguard.
    apply Nat.ltb_ge in Hguard. exact Hguard.
Qed.

End SetSound.



(* ------------------------------------------------------------------ *)
(** *** Nodes are taken away, never added                              *)
(* ------------------------------------------------------------------ *)

Section Conservation.
Import Tree Adapter Direct Sanitizers Walker Index.

Lemma marksOf_app (l1 l2 : list Node) :
  marksOf (l1 ++ l2) = marksOf l1 ++ marksOf l2.
Proof. unfold marksOf. by rewrite map_app, concat_app. Qed.

Lemma marksOf_sublist (l1 l2 : list Node) :
  l1 `sublist_of` l2 -> marksOf l1 `sublist_of` marksOf l2.
Proof.
  induction 1 as [|x l1 l2 _ IH | x l1 l2 _ IH]; [constructor | |].
  - change (marks x ++ marksOf l1 `sublist_of` marks x ++ marksOf l2).
    by apply sublist_app.
  - change (marksOf l1 `sublist_of` marks x ++ marksOf l2).
    by apply sublist_inserts_l.
Qed.

Context {C : Type}.

(** The children handler takes children away at one end, or leaves
    them. *)
Lemma handleTagChildrenError_shrinks (maxChildren : nat)
    (mode : option ErrorHandlingMode) (el el' : Target C) (ok : bool) :
  handleTagChildrenError maxChildren mode el = Returned (ok, el') ->
  tagName el' = tagName el
  /\ exists n, children el' = drop n (children el)
               \/ children el' = take n (children el).
Proof.
  destruct ok.
  - intros H. apply handleTagChildrenError_true in H as (Ht & _ & _ & Hc).
    split; [exact Ht |]. destruct Hc as [Hc | Hc]; eexists; eauto.
  - unfold handleTagChildrenError. munfold.
    destruct mode as [[]|]; try (destruct (tagName el); discriminate).
    + unfold detachNode. munfold. intros [= <-].
      split; [by destruct (link el) |]. exists 0. left.
      by destruct (link el).
    + rewrite repeatM_detachFirst. discriminate.
    + rewrite repeatM_detachLast. discriminate.
Qed.

Lemma handleTagNestingError_sameShape (maxNesting : nat)
    (mode : option ErrorHandlingMode) :
  keeps (C := C) sameShape (handleTagNestingError maxNesting mode).
Proof.
  intros el ok el'. unfold handleTagNestingError.
  destruct mode as [[]|]; munfold; try (destruct (tagName el); discriminate).
  unfold detachNode. munfold. intros [= _ <-]. by destruct (link el).
Qed.

Lemma nestingLoop_sameShape (options : SanitizerOptions.t)
    (frames : list TagNestingFrame.t) :
  keeps (C := C) sameShape (nestingLoop options frames).
Proof.
  induction frames as [|f frames IH]; cbn [nestingLoop].
  - apply keeps_ret, sameShape_refl.
  - assert (keeps (C := C) sameShape
              (r ← nestingLoop options frames;
               mret (match r with
                     | Some fs =>
                         Some (TagNestingFrame.mk (TagNestingFrame.key f)
                                 (S (TagNestingFrame.value f)) :: fs)
                     | None => None
                     end))) as Hrec.
    { apply keeps_bind; [apply sameShape_trans | exact IH |].
      intros r. apply keeps_ret, sameShape_refl. }
    destruct (negb _); [exact Hrec |].
    destruct (_ <? _)%nat; [| exact Hrec].
    apply keeps_bind; [apply sameShape_trans
                      | apply handleTagNestingError_sameShape |].
    intros ok. apply keeps_ret, sameShape_refl.
Qed.

End Conservation.

Section ConservationWalk.
Import Tree Adapter Direct Sanitizers Walker Index.

Variable options : SanitizerOptions.t.

(** A visit of an element leaves, at the place of the element, nothing,
    or children of the element, or the element with its tag over
    children of the element; and these children were either left as
    they were or walked. *)
Lemma walkElement_shape (t : string) (attrs : list (string * string))
    (kids : list Node) (state : SanitizerState.t) (out : list Node) :
  walkElement (mkTarget (Some t) attrs (withWalks options kids) InParent)
    options state = Returned out ->
  exists kids1 kidsOut,
    kids1 `sublist_of` kids
    /\ (kidsOut = kids1
        \/ exists newState,
             walkChildren (withWalks options kids1) newState = Returned kidsOut)
    /\ (out = [] \/ out = kidsOut
        \/ exists attrs', out = [Element t attrs' kidsOut]).
Proof.
  unfold walkElement. cbn [tagNameOf tagName].
  set (el0 := mkTarget (Some t) attrs (withWalks options kids) InParent).
  set (eh := SanitizerOptions.errorHandling options).
  assert (Hsettle : forall (el : Target Child) kidsOut,
            tagName el = Some t ->
            settle el kidsOut = [] \/ settle el kidsOut = kidsOut
            \/ exists attrs', settle el kidsOut = [Element t attrs' kidsOut]).
  { intros el kidsOut Ht. unfold settle, tagNameOf. rewrite Ht.
    destruct (link el); eauto. }
  assert (Hleave : forall (el : Target Child) (kids1 : list Node),
            tagName el = Some t -> kids1 `sublist_of` kids ->
            children el = withWalks options kids1 ->
            exists kids1 kidsOut,
              kids1 `sublist_of` kids
              /\ (kidsOut = kids1
                  \/ exists newState,
                       walkChildren (withWalks options kids1) newState
                       = Returned kidsOut)
              /\ (leave el = [] \/ leave el = kidsOut
                  \/ exists attrs', leave el = [Element t attrs' kidsOut])).
  { intros el kids1 Ht Hsub Hc. exists kids1, kids1.
    split; [exact Hsub |]. split; [by left |].
    unfold leave. rewrite Hc, withWalks_fst. by apply Hsettle. }
  munfold.
  (* Tag sanitization *)
  destruct (sanitizeTag (tagRuleOf options t) (slot eh ErrorHandling.tag) el0)
    as [[ok1 el1]|m] eqn:E1; [| discriminate].
  apply sanitizeTag_sameShape in E1 as [Ht1 Hc1].
  destruct ok1; cbn [negb].
  2:{ intros [= <-]. by apply (Hleave el1 kids). }
  destruct (tagRuleOf options t) as [rule|]; [| discriminate].
  (* Attributes sanitization *)
  destruct (sanitizeAttributes (TagRule.attributes rule) eh el1)
    as [[ok2 el2]|m] eqn:E2; [| discriminate].
  apply sanitizeAttributes_sameShape in E2 as [Ht2 Hc2].
  rewrite Ht1 in Ht2. rewrite Hc1 in Hc2.
  unfold el0 in Ht1, Hc1, Ht2, Hc2. cbn [tagName children] in Ht1, Hc1, Ht2, Hc2.
  destruct ok2; cbn [negb].
  2:{ intros [= <-]. by apply (Hleave el2 kids). }
  (* Children enforcement *)
  set (limit := limitOf (TagRule.limits rule) TagLimits.children).
  destruct ((if truthyNumber limit
                && (default 0 limit <? List.length (children el2))%nat
             then handleTagChildrenError (default 0 limit)
                    (slot eh ErrorHandling.tagChildren)
             else fun el => Returned (true, el)) el2)
    as [[ok3 el3]|m] eqn:E3; [| discriminate].
  assert (H3 : tagName el3 = Some t
               /\ exists kids1, kids1 `sublist_of` kids
                                /\ children el3 = withWalks options kids1).
  { destruct (truthyNumber limit && _).
    - apply handleTagChildrenError_shrinks in E3 as (Ht3 & n & Hc3).
      split; [by rewrite Ht3, Ht2 |].
      destruct Hc3 as [Hc3 | Hc3]; rewrite Hc2 in Hc3;
        [rewrite withWalks_drop in Hc3 | rewrite withWalks_take in Hc3];
        eexists; (split; [| exact Hc3]);
        [apply sublist_drop | apply sublist_take].
    - injection E3 as _ <-. split; [exact Ht2 |]. by exists kids. }
  destruct H3 as (Ht3 & kids1 & Hsub & Hc3). clear E3.
  destruct ok3; cbn [negb].
  2:{ intros [= <-]. by apply (Hleave el3 kids1). }
  (* Tag nesting enforcement *)
  destruct (nestingLoop options (rev (SanitizerState.tagNesting state)) el3)
    as [[depth el4]|m] eqn:E4; [| discriminate].
  apply nestingLoop_sameShape in E4 as [Ht4 Hc4].
  rewrite Ht3 in Ht4. rewrite Hc3 in Hc4.
  destruct depth as [innermostFirst|].
  2:{ intros [= <-]. by apply (Hleave el4 kids1). }
  (* Children sanitization *)
  rewrite Hc4.
  destruct (walkChildren (withWalks options kids1) _) as [kidsOut|m] eqn:E5;
    [| discriminate].
  intros [= <-]. exists kids1, kidsOut. split; [exact Hsub |].
  split; [right; eauto | by apply Hsettle].
Qed.

(** The walk over children whose visits only take marks away only
    takes marks away. *)
Lemma walkChildren_marks (kids : list Node) :
  Forall (fun k => forall state out,
            walkNode options k state = Returned out ->
            marksOf out `sublist_of` marks k) kids ->
  forall state out,
    walkChildren (withWalks options kids) state = Returned out ->
    marksOf out `sublist_of` marksOf kids.
Proof.
  intros IH state out H. apply walkChildren_inv in H as (outs & Hall & ->).
  induction Hall as [|k o kids outs Hk Hall IHall]; [constructor |].
  apply Forall_cons in IH as [IHk IH]. cbn [concat].
  rewrite marksOf_app. change (marksOf (k :: kids)) with (marks k ++ marksOf kids).
  apply sublist_app; [by eapply IHk | by apply IHall].
Qed.

Lemma walkNode_marks (n : Node) :
  forall state out,
    walkNode options n state = Returned out ->
    marksOf out `sublist_of` marks n.
Proof.
  induction n as [t a kids IH | d | d | kids IH] using Node_induction; intros state out.
  - assert (Hshape : forall kids1 kidsOut,
              kids1 `sublist_of` kids ->
              (kidsOut = kids1
               \/ exists newState,
                    walkChildren (withWalks options kids1) newState
                    = Returned kidsOut) ->
              (out = [] \/ out = kidsOut
               \/ exists attrs', out = [Element t attrs' kidsOut]) ->
              marksOf out `sublist_of` marks (Element t a kids)).
    { intros kids1 kidsOut Hsub Hwalk Hout.
      assert (marksOf kidsOut `sublist_of` marksOf kids) as Hin.
      { trans (marksOf kids1); [| by apply marksOf_sublist].
        destruct Hwalk as [-> | [newState Hwalk]]; [done |].
        eapply walkChildren_marks; [| exact Hwalk].
        by apply (Forall_sublist _ kids). }
      cbn [marks]. fold (marksOf kids).
      destruct Hout as [-> | [-> | [attrs' ->]]].
      - apply sublist_nil_l.
      - apply sublist_cons. by apply sublist_inserts_r.
      - unfold marksOf at 1. cbn [List.map concat marks].
        rewrite app_nil_r. fold (marksOf kidsOut).
        apply sublist_skip. by apply sublist_app. }
    rewrite walkNode_element. destruct (tooDeep options state).
    + destruct (handleTagNestingError _ _ _) as [[b el']|m] eqn:E; [| discriminate].
      intros [= <-]. apply handleTagNestingError_sameShape in E as [Ht Hc].
      cbn [tagName children] in Ht, Hc.
      apply (Hshape kids kids); [done | by left |].
      unfold leave. rewrite Hc, withWalks_fst.
      unfold settle, tagNameOf. rewrite Ht. destruct (link el'); eauto.
    + intros H. apply walkElement_shape in H
        as (kids1 & kidsOut & Hsub & Hwalk & Hout).
      by apply (Hshape kids1 kidsOut).
  - simpl. destruct (negb _); intros [= <-]; [apply sublist_nil_l | done].
  - simpl. by intros [= <-].
  - cbn [walkNode]. intros [= <-]. unfold marksOf. cbn [List.map concat].
    by rewrite app_nil_r.
Qed.

End ConservationWalk.

(** X10. Whatever the policy, a run that returns adds no node, changes
    no tag, text or comment, and keeps the order and the nesting: the
    opening and closing tags, texts and comments of the tree it leaves
    are, in document order, among those of the tree it was given. *)
Theorem nodes_are_never_added (options : SanitizerOptions.t)
    (roots out : list Tree.Node) :
  Index.sanitizeTree roots options = Returned out ->
  marksOf out `sublist_of` marksOf roots.
Proof.
  intros H. apply sanitizeTree_inv in H as [-> | (kids1 & Hkept & Hw)];
    [apply sublist_nil_l |].
  trans (marksOf kids1).
  - eapply walkChildren_marks; [| exact Hw].
    apply Forall_forall. intros k _. apply walkNode_marks.
  - apply marksOf_sublist. unfold childrenKept in Hkept.
    destruct (_ && _); [destruct Hkept as [-> | ->] | by subst];
      [apply sublist_drop | apply sublist_take].
Qed.

(** Under [Samples.unwrapping], of
    [<div class=.. onclick=..>hi<script>y</script><b></b></div>] the
    [div], [hi] and [y] stay. *)
Lemma nodes_are_never_added_witness :
  Index.sanitizeTree Samples.dirty Samples.unwrapping
  = Returned [Tree.Element "div" [] [Tree.Text "hi"; Tree.Text "y"]]
  /\ marksOf [Tree.Element "div" [] [Tree.Text "hi"; Tree.Text "y"]]
     `sublist_of` marksOf Samples.dirty.
Proof.
  assert (Index.sanitizeTree Samples.dirty Samples.unwrapping
          = Returned [Tree.Element "div" [] [Tree.Text "hi"; Tree.Text "y"]])
    as Hrun.
  { vm_compute. reflexivity. }
  split; [exact Hrun |].
  exact (nodes_are_never_added Samples.unwrapping Samples.dirty _ Hrun).
Defined.

(* ------------------------------------------------------------------ *)
(** *** Lengths: trimming, splitting and joining                       *)
(* ------------------------------------------------------------------ *)

Section Lengths.
Import JsString Helpers.

Lemma length_trimStart (s : string) :
  (String.length (trimStart s) <= String.length s)%nat.
Proof.
  induction s as [|c s IH]; [done |]. cbn [trimStart].
  destruct (isWhiteSpace c); [simpl; lia | done].
Qed.

Lemma length_trimEnd (s : string) :
  (String.length (trimEnd s) <= String.length s)%nat.
Proof.
  induction s as [|c s IH]; [done |]. cbn [trimEnd].
  destruct (trimEnd s) as [|d t].
  - destruct (isWhiteSpace c); simpl in *; lia.
  - simpl in *. lia.
Qed.

Lemma length_trim (s : string) :
  (String.length (trim s) <= String.length s)%nat.
Proof.
  unfold trim. pose proof (length_trimEnd (trimStart s)).
  pose proof (length_trimStart s). lia.
Qed.

Lemma span_app (sep : string) (l1 l2 : list string) :
  span sep (l1 ++ l2) = (span sep l1 + span sep l2)%nat.
Proof. unfold span. by rewrite map_app, list_sum_app. Qed.

Lemma span_cons (sep p : string) (l : list string) :
  span sep (p :: l) = (String.length p + String.length sep + span sep l)%nat.
Proof. reflexivity. Qed.

(** The join is as long as the parts and the separators between
    them. *)
Lemma length_join (sep p : string) (l : list string) :
  (String.length (join (p :: l) sep) + String.length sep)%nat
  = span sep (p :: l).
Proof.
  unfold join. revert p. induction l as [|q l IH]; intros p.
  - rewrite span_cons. cbn [String.concat]. unfold span. simpl. lia.
  - change (String.concat sep (p :: q :: l))
      with (p ++ sep ++ String.concat sep (q :: l))%string.
    rewrite !length_append, span_cons. specialize (IH q). lia.
Qed.

Lemma length_join_le (sep : string) (l : list string) (n : nat) :
  (span sep l <= n + String.length sep)%nat ->
  (String.length (join l sep) <= n)%nat.
Proof.
  destruct l as [|p l]; [simpl; lia |].
  rewrite <- length_join. lia.
Qed.

Lemma span_submseteq (sep : string) (l1 l2 : list string) :
  l1 ⊆+ l2 -> (span sep l1 <= span sep l2)%nat.
Proof.
  induction 1; rewrite ?span_cons in *; lia.
Qed.

Lemma span_sublist (sep : string) (l1 l2 : list string) :
  l1 `sublist_of` l2 -> (span sep l1 <= span sep l2)%nat.
Proof. intros H. by apply span_submseteq, sublist_submseteq. Qed.

Lemma span_map_trim (sep : string) (l : list string) :
  (span sep (List.map trim l) <= span sep l)%nat.
Proof.
  induction l as [|p l IH]; [done |]. cbn [List.map].
  rewrite !span_cons. pose proof (length_trim p). lia.
Qed.

Lemma prefix_length (a b : string) :
  String.prefix a b = true -> (String.length a <= String.length b)%nat.
Proof.
  revert b. induction a as [|x a IH]; intros b; [simpl; lia |].
  destruct b as [|y b]; [discriminate |]. simpl.
  destruct (ascii_dec x y); [| discriminate].
  intros H. apply IH in H. lia.
Qed.

(** The parts of a split and the separators between them do not
    exceed what was split. *)
Lemma span_splitFrom (sep : string) (s : string) :
  forall (k : nat) (acc : string),
    (k <= String.length s)%nat ->
    (span sep (splitFrom sep k acc s) + k
     <= String.length acc + String.length s + String.length sep)%nat.
Proof.
  induction s as [|c s IH]; intros k acc Hk.
  - simpl in Hk. assert (k = 0)%nat as -> by lia.
    cbn [splitFrom]. rewrite span_cons. unfold span. simpl. lia.
  - cbn [splitFrom]. simpl in Hk. destruct k as [|k].
    + destruct (String.prefix sep (String c s)) eqn:E.
      * apply prefix_length in E. simpl in E. rewrite span_cons.
        specialize (IH (String.length sep - 1) ""%string ltac:(lia)).
        simpl in IH |- *. lia.
      * specialize (IH 0 (acc ++ String c "")%string ltac:(lia)).
        rewrite length_append in IH. simpl in IH |- *. lia.
    + specialize (IH k acc ltac:(lia)). simpl. lia.
Qed.

Lemma span_chars (s : string) : span "" (chars s) = String.length s.
Proof.
  induction s as [|c s IH]; [done |]. cbn [chars]. rewrite span_cons, IH.
  simpl. lia.
Qed.

Lemma span_split (s sep : string) :
  (span sep (split s sep) <= String.length s + String.length sep)%nat.
Proof.
  unfold split. destruct sep as [|x sep].
  - rewrite span_chars. lia.
  - pose proof (span_splitFrom (String x sep) s 0 "" ltac:(lia)) as H.
    simpl in H |- *. lia.
Qed.

Lemma fromSetAcc_sublist (l : list string) :
  forall seen, fromSetAcc seen l `sublist_of` l.
Proof.
  induction l as [|x l IH]; intros seen; [done |]. cbn [fromSetAcc].
  destruct (bool_decide (x ∈ seen)); by constructor.
Qed.

(** The entries that the parsers work on, once trimmed and the empty
    ones dropped, do not exceed the input. *)
Lemma span_entries (s sep : string) :
  (span sep (List.filter truthy (List.map trim (split (trim s) sep)))
   <= String.length s + String.length sep)%nat.
Proof.
  pose proof (span_sublist sep _ _
                (filter_sublist truthy (List.map trim (split (trim s) sep)))).
  pose proof (span_map_trim sep (split (trim s) sep)).
  pose proof (span_split (trim s) sep). pose proof (length_trim s). lia.
Qed.

(** The join of values among those of a parsed set is no longer than
    the input. *)
Lemma length_parseSet_join (value delimiter : string) (out : list string) :
  out `sublist_of` parseSet value delimiter ->
  (String.length (join out delimiter) <= String.length value)%nat.
Proof.
  intros Hsub. apply length_join_le. unfold parseSet in Hsub.
  destruct (negb (truthy (trim value))).
  - apply sublist_nil_r in Hsub as ->. unfold span. simpl. lia.
  - pose proof (span_entries value delimiter).
    apply span_sublist with (sep := delimiter) in Hsub.
    pose proof (span_sublist delimiter _ _
                  (fromSetAcc_sublist
                     (List.filter truthy
                        (List.map trim (split (trim value) delimiter))) [])).
    unfold arrayFromSet in Hsub. lia.
Qed.

(** A rendered pair is no longer than the entry it was read from. *)
Lemma length_renderEntry (e e0 e1 pairSep : string) :
  split e pairSep = [e0; e1] ->
  (String.length
     (Sanitizers.renderEntry pairSep
        (TagAttributeValueEntry.mk (trim e0) (trim e1)))
   <= String.length e)%nat.
Proof.
  intros H. pose proof (span_split e pairSep) as Hs. rewrite H in Hs.
  rewrite !span_cons in Hs. unfold span in Hs. simpl in Hs.
  unfold Sanitizers.renderEntry.
  cbn [TagAttributeValueEntry.key TagAttributeValueEntry.val].
  rewrite !length_append.
  pose proof (length_trim e0). pose proof (length_trim e1). lia.
Qed.

Lemma span_parseRecordLoop (entrySep pairSep : string) (entries : list string) :
  forall out,
    (span entrySep
       (List.map (Sanitizers.renderEntry pairSep)
          (parseRecordLoop pairSep entries out))
     <= span entrySep (List.map (Sanitizers.renderEntry pairSep) out)
        + span entrySep entries)%nat.
Proof.
  induction entries as [|e entries IH]; intros out; cbn [parseRecordLoop].
  - unfold span at 3. simpl. lia.
  - rewrite span_cons.
    assert (Hskip : (span entrySep
                       (List.map (Sanitizers.renderEntry pairSep)
                          (parseRecordLoop pairSep entries out))
                     <= span entrySep
                          (List.map (Sanitizers.renderEntry pairSep) out)
                        + (String.length e + String.length entrySep
                           + span entrySep entries))%nat).
    { specialize (IH out). lia. }
    destruct (split e pairSep) as [|e0 [|e1 [|e2 rest]]] eqn:E;
      try exact Hskip.
    destruct (negb (truthy (trim e0))); [exact Hskip |].
    destruct (negb (truthy (trim e1))); [exact Hskip |].
    specialize (IH (out ++ [TagAttributeValueEntry.mk (trim e0) (trim e1)])).
    rewrite map_app, span_app in IH. cbn [List.map] in IH.
    rewrite span_cons in IH. unfold span at 3 in IH. simpl in IH.
    pose proof (length_renderEntry e e0 e1 pairSep E). lia.
Qed.

(** The join of pairs among those of a parsed record, in any order, is
    no longer than the input. *)
Lemma length_parseRecord_join (value entrySep pairSep : string)
    (out : list TagAttributeValueEntry.t) :
  out ⊆+ parseRecord value entrySep pairSep ->
  (String.length
     (join (List.map (Sanitizers.renderEntry pairSep) out) entrySep)
   <= String.length value)%nat.
Proof.
  intros Hsub. apply length_join_le.
  unfold parseRecord in Hsub. destruct (negb (truthy (trim value))).
  - apply submseteq_nil_r in Hsub as ->. unfold span. simpl. lia.
  - apply (fmap_submseteq (Sanitizers.renderEntry pairSep)) in Hsub.
    apply span_submseteq with (sep := entrySep) in Hsub.
    pose proof (span_parseRecordLoop entrySep pairSep
                  (List.filter truthy
                     (List.map trim (split (trim value) entrySep))) [])
      as Hloop.
    pose proof (span_entries value entrySep).
    unfold span at 2 in Hloop. simpl in Hloop.
    change (Sanitizers.renderEntry pairSep <$> ?l)
      with (List.map (Sanitizers.renderEntry pairSep) l) in Hsub.
    lia.
Qed.

End Lengths.

(* ------------------------------------------------------------------ *)
(** *** The length of the values of the output                         *)
(* ------------------------------------------------------------------ *)

Section RecordStored.
Import Tree Adapter Direct Indirect Sanitizers Comparators Helpers.

Context {C : Type}.

(** The record loop outputs pairs of its input, each at most as often
    as the input has it. *)
Lemma recordLoop_submseteq (attribute : TagAttribute.t)
    (rule : Rule.TagAttributeValueRule)
    (values : gmap string TagAttributeValueComparator)
    (errorHandling : option ErrorHandling.t)
    (input pairs rest : list TagAttributeValueEntry.t) :
  forall (index : nat) (seen : gset string)
         (output : list TagAttributeValueEntry.t) (el el' : Target C)
         (out' : list TagAttributeValueEntry.t),
    output ++ rest ⊆+ pairs ->
    recordLoop attribute rule values errorHandling input index rest seen output el
    = Returned (Some out', el') ->
    out' ⊆+ pairs.
Proof.
  induction rest as [|[key val] rest IH];
    intros index seen output el el' out' Hinv H.
  - simpl in H. munfold. injection H as <- _. by rewrite app_nil_r in Hinv.
  - assert (Hskip : forall output1,
              output1 ⊆+ output -> output1 ++ rest ⊆+ pairs).
    { intros output1 Hsub. etrans; [| exact Hinv].
      apply submseteq_app; [exact Hsub | by apply submseteq_cons]. }
    assert (Hpush : forall output1,
              output1 ⊆+ output ->
              (output1 ++ [TagAttributeValueEntry.mk key val]) ++ rest
              ⊆+ pairs).
    { intros output1 Hsub. rewrite <- app_assoc. etrans; [| exact Hinv].
      by apply submseteq_app. }
    assert (Herr : forall output1 el1,
              output1 ⊆+ output ->
              (ok ← handleTagAttributeRecordValueError attribute input index rule
                      (slot errorHandling ErrorHandling.attributeRecordValue)
                      None;
               if negb ok then mret None
               else recordLoop attribute rule values errorHandling input
                      (S index) rest seen output1) el1
              = Returned (Some out', el') ->
              out' ⊆+ pairs).
    { intros output1 el1 Hsub. munfold.
      destruct (handleTagAttributeRecordValueError _ _ _ _ _ _ el1)
        as [[ok el2]|m]; [| discriminate].
      destruct ok; cbn [negb]; [| discriminate].
      intros H1. eapply IH; [| exact H1]. by apply Hskip. }
    assert (Hcheck : forall output1 el1,
              output1 ⊆+ output ->
              match pairRuleOf values key with
              | Some (Raises message) => throw message
              | Some (Compares cmp) =>
                  if negb (truthy cmp) || negb (matchComparator cmp val) then
                    ok ← handleTagAttributeRecordValueError attribute input index rule
                           (slot errorHandling ErrorHandling.attributeRecordValue) None;
                    if negb ok then mret None
                    else recordLoop attribute rule values errorHandling input
                           (S index) rest seen output1
                  else
                    recordLoop attribute rule values errorHandling input
                      (S index) rest ({[key]} ∪ seen)
                      (output1 ++ [TagAttributeValueEntry.mk key val])
              | None =>
                  ok ← handleTagAttributeRecordValueError attribute input index rule
                         (slot errorHandling ErrorHandling.attributeRecordValue) None;
                  if negb ok then mret None
                  else recordLoop attribute rule values errorHandling input
                         (S index) rest seen output1
              end el1 = Returned (Some out', el') ->
              out' ⊆+ pairs).
    { intros output1 el1 Hsub H1.
      destruct (pairRuleOf values key) as [[cmp|message]|];
        [| by munfold | by eapply Herr].
      destruct (negb (truthy cmp) || negb (matchComparator cmp val));
        [by eapply Herr |].
      eapply IH; [| exact H1]. by apply Hpush. }
    cbn [recordLoop] in H.
    destruct (bool_decide (key ∈ seen)); [| by eapply Hcheck].
    munfold.
    destruct (handleTagAttributeRecordValueDuplicateError _ _ _ _ _ _ el)
      as [[result el1]|m] eqn:Hdup; [| discriminate].
    assert (Hsub : DuplicateResult.output result ⊆+ output).
    { apply handleDuplicate_output in Hdup as [-> | ->]; [done |].
      apply sublist_submseteq, filter_sublist. }
    destruct (DuplicateResult.globalProceed result); cbn [negb] in H;
      [| discriminate].
    destruct (DuplicateResult.localProceed result); cbn [negb] in H.
    + by eapply Hcheck.
    + eapply IH; [| exact H]. by apply Hskip.
Qed.

(** The value that the record sanitizer stores when it returns
    [true]. *)
Lemma sanitizeRecord_stored (attribute : TagAttribute.t)
    (rule : Rule.TagAttributeValueRule) (entrySeparator keyValueSeparator : string)
    (values : gmap string TagAttributeValueComparator)
    (errorHandling : option ErrorHandling.t) (el el' : Target C) :
  sanitizeTagAttributeRecordValue attribute rule entrySeparator keyValueSeparator
    values errorHandling el = Returned (true, el') ->
  exists output,
    output ⊆+ parseRecord (TagAttribute.value attribute) entrySeparator
                keyValueSeparator
    /\ attrGet (TagAttribute.key attribute) (attribs el')
       = Some (JsString.join (List.map (renderEntry keyValueSeparator) output)
                 entrySeparator).
Proof.
  unfold sanitizeTagAttributeRecordValue.
  set (pairs := parseRecord (TagAttribute.value attribute) entrySeparator
                  keyValueSeparator).
  assert (Hcont : forall input el1,
            input ⊆+ pairs ->
            (r ← recordLoop attribute rule values errorHandling input 0 input ∅ [];
             match r with
             | None => mret false
             | Some output =>
                 setAttrib (TagAttribute.key attribute)
                   (JsString.join (List.map (renderEntry keyValueSeparator) output)
                      entrySeparator) ;; mret true
             end) el1 = Returned (true, el') ->
            exists output,
              output ⊆+ pairs
              /\ attrGet (TagAttribute.key attribute) (attribs el')
                 = Some (JsString.join
                           (List.map (renderEntry keyValueSeparator) output)
                           entrySeparator)).
  { intros input el1 Hsub H. munfold.
    destruct (recordLoop attribute rule values errorHandling input 0 input ∅ [] el1)
      as [[[out|] el2]|m] eqn:Hloop; try discriminate.
    exists out. split.
    - eapply recordLoop_submseteq; [| exact Hloop]. exact Hsub.
    - unfold setAttrib in H. munfold. injection H as <-. simpl.
      apply attrGet_attrSet_eq. }
  destruct (truthyNumber (Rule.maxEntries rule)
            && (default 0 (Rule.maxEntries rule) <? List.length pairs)%nat).
  - munfold.
    destruct (handleTagAttributeCollectionValueTooManyError attribute pairs rule
                _ None el) as [[result el1]|m] eqn:Hmany; [| discriminate].
    destruct (CollectionResult.proceed result); cbn [negb]; [| discriminate].
    intros H. eapply Hcont; [| exact H].
    apply handleTooMany_output in Hmany as [-> | ->]; [done |].
    unfold sliceEntries. destruct (Rule.maxEntries rule) as [n|]; [| done].
    apply sublist_submseteq, sublist_take.
  - intros H. by eapply Hcont.
Qed.

End RecordStored.

Section ValueLength.
Import Tree Adapter Direct Indirect Sanitizers Comparators Helpers.

Context {C : Type}.
Variable errorHandling : option ErrorHandling.t.

Lemma tooLong_shorter (rule : Rule.TagAttributeValueRule) (v value : string) :
  (String.length v <= String.length value)%nat ->
  tooLong rule value = false -> tooLong rule v = false.
Proof.
  unfold tooLong. destruct (truthyNumber (Rule.maxLength rule)); [| done].
  cbn [andb]. rewrite !Nat.ltb_ge. lia.
Qed.

(** When the value handler returns [true], the attribute is gone or
    holds the default of the rule. *)
Lemma handleTagAttributeValueError_default (key value : string)
    (rule : Rule.TagAttributeValueRule) (mode : option ErrorHandlingMode)
    (msg : option string) (el el' : Target C) (v : string) :
  handleTagAttributeValueError (TagAttribute.mk key value) rule mode msg el
  = Returned (true, el') ->
  attrGet key (attribs el') = Some v -> Rule.defaultValue rule = Some v.
Proof.
  intros H. apply handleTagAttributeValueError_true in H
    as [(_ & d & Hd & _ & ->) | ->]; cbn [TagAttribute.key attribs withAttribs].
  - rewrite attrGet_attrSet_eq. by intros [= <-].
  - by rewrite attrGet_attrDelete_eq.
Qed.

(** The value that a successful pass of the [switch] leaves, for a
    value that is not too long, is not too long either. *)
Lemma sanitizeByMode_length (key value : string)
    (rule : Rule.TagAttributeValueRule) (el el' : Target C) (v : string) :
  (forall d, Rule.defaultValue rule = Some d -> tooLong rule d = false) ->
  tooLong rule value = false ->
  attrGet key (attribs el) = Some value ->
  sanitizeByMode (TagAttribute.mk key value) rule errorHandling el
  = Returned (true, el') ->
  attrGet key (attribs el') = Some v -> tooLong rule v = false.
Proof.
  intros Hfit Hlen Hget. unfold sanitizeByMode.
  destruct (Rule.mode rule) as [cmp | delimiter n values | es kvs n values].
  - unfold sanitizeTagAttributeSimpleValue. cbn [TagAttribute.value].
    destruct (matchComparator cmp value); cbn [negb].
    + munfold. intros [= <-]. rewrite Hget. by intros [= <-].
    + intros H Hv. apply Hfit.
      by eapply handleTagAttributeValueError_default.
  - intros H. apply sanitizeSet_input in H as (input & Hsub & _ & Hstored).
    cbn [TagAttribute.key TagAttribute.value] in *. rewrite Hstored.
    intros [= <-]. eapply tooLong_shorter; [| exact Hlen].
    apply length_parseSet_join. etrans; [apply filter_sublist | exact Hsub].
  - intros H. apply sanitizeRecord_stored in H as (output & Hsub & Hstored).
    cbn [TagAttribute.key TagAttribute.value] in *. rewrite Hstored.
    intros [= <-]. eapply tooLong_shorter; [| exact Hlen].
    by apply length_parseRecord_join.
Qed.

(** What the handler of a value that is too long has done when it
    returns [true]: the attribute is gone, or holds the first
    [maxLength] code units of the value, or the default of the rule. *)
Lemma handleTagAttributeValueTooLongError_true (key value : string)
    (rule : Rule.TagAttributeValueRule) (mode : option ErrorHandlingMode)
    (msg : option string) (el el' : Target C) (v : string) :
  tooLong rule value = true ->
  handleTagAttributeValueTooLongError (TagAttribute.mk key value) rule mode msg el
  = Returned (true, el') ->
  attrGet key (attribs el') = Some v ->
  tooLong rule v = false \/ Rule.defaultValue rule = Some v.
Proof.
  intros Hlong H Hv.
  assert (Hrest : handleTagAttributeValueError (TagAttribute.mk key value) rule
                    mode
                    (Some (orElse msg
                       ("Value " ++ value ++ " for attribute " ++ key
                          ++ " is too long"))) el
                  = Returned (true, el') ->
                  tooLong rule v = false \/ Rule.defaultValue rule = Some v).
  { intros H1. right. by eapply handleTagAttributeValueError_default. }
  unfold handleTagAttributeValueTooLongError in H.
  cbn [TagAttribute.key TagAttribute.value] in H.
  destruct mode as [[]|]; try (exact (Hrest H)). clear Hrest.
  unfold setAttrib in H. munfold. injection H as <-.
  cbn [attribs withAttribs] in Hv. rewrite attrGet_attrSet_eq in Hv.
  injection Hv as <-. left. unfold tooLong in *.
  destruct (Rule.maxLength rule) as [n|]; [| done].
  destruct (truthyNumber (Some n)); [| done]. cbn [andb default] in *.
  apply Nat.ltb_ge. rewrite length_slice0. change (id n) with n. lia.
Qed.

(** The value that a successful pass of [sanitizeTagAttributeValue]
    leaves is not too long. *)
Lemma sanitizeTagAttributeValue_length (key value : string)
    (rule : Rule.TagAttributeValueRule) (el el' : Target C) (v : string) :
  (forall d, Rule.defaultValue rule = Some d -> tooLong rule d = false) ->
  attrGet key (attribs el) = Some value ->
  sanitizeTagAttributeValue (TagAttribute.mk key value) rule errorHandling el
  = Returned (true, el') ->
  attrGet key (attribs el') = Some v -> tooLong rule v = false.
Proof.
  intros Hfit Hget. unfold sanitizeTagAttributeValue.
  cbn [TagAttribute.value TagAttribute.key].
  fold (tooLong rule value). destruct (tooLong rule value) eqn:Hlen.
  2:{ by apply sanitizeByMode_length. }
  munfold.
  destruct (handleTagAttributeValueTooLongError _ _ _ _ el) as [[ok el1]|m] eqn:E;
    [| discriminate].
  destruct ok; cbn [negb]; [| discriminate].
  pose proof (fun v => handleTagAttributeValueTooLongError_true
                         _ _ _ _ _ _ _ v Hlen E) as Hleft.
  destruct (attrGet key (attribs el1)) as [value0|] eqn:Hget1.
  - assert (tooLong rule value0 = false) as Hlen0.
    { destruct (Hleft value0 eq_refl) as [? | ?]; [done | by apply Hfit]. }
    destruct (JsString.truthy value0); cbn [negb].
    + by apply sanitizeByMode_length.
    + intros [= <-]. rewrite Hget1. by intros [= <-].
  - intros [= <-]. by rewrite Hget1.
Qed.

End ValueLength.

Section AttributeLengths.
Import Tree Adapter Direct Indirect Sanitizers Walker Index.

Variable errorHandling : option ErrorHandling.t.
Variable rules : option (list (string * Rule.TagAttributeValueRule)).
Hypothesis Fit : defaultsFit rules.

Lemma fitsAt_spec (a : list (string * string)) (k : string) :
  fitsAt rules a k = true
  <-> (forall v r, attrGet k a = Some v -> ruleFor k rules = Some (Declared r) ->
                   tooLong r v = false).
Proof.
  unfold fitsAt. split.
  - intros H v r Hv Hr. rewrite Hv, Hr in H. by apply negb_true_iff.
  - intros H. destruct (attrGet k a) as [v|]; [| done].
    destruct (ruleFor k rules) as [[r|]|]; [| done | done].
    apply negb_true_iff. by apply H.
Qed.

Lemma ruleFor_fit (k : string) (r : Rule.TagAttributeValueRule) :
  ruleFor k rules = Some (Declared r) ->
  forall d, Rule.defaultValue r = Some d -> tooLong r d = false.
Proof.
  intros (entries & Hrules & Hin)%ruleFor_elem.
  pose proof Fit as Hfit. rewrite Hrules in Hfit.
  destruct Hfit as [_ Hall]. rewrite Forall_forall in Hall.
  destruct Hin as [Hin | [_ Hin]]; exact (Hall _ Hin).
Qed.

(** A turn of the attribute loop that goes on has left the other
    attributes alone, and the value of its attribute, if it has left
    one, is not too long. *)
Lemma attributeTurn_length (name value : string) (el : Target Child)
    (k : M Child bool) (el' : Target Child) :
  attrGet name (attribs el) = Some value ->
  (flags ← sanitizeTagAttribute (TagAttribute.mk name value)
             (ruleFor name rules) (slot errorHandling ErrorHandling.attribute);
   if negb (ProceedFlags.globalProceed flags) then mret false
   else if negb (ProceedFlags.localProceed flags) then k
   else
     match ruleFor name rules with
     | None => throw "TypeError: rule is undefined"
     | Some Member => mret false
     | Some (Declared rule) =>
         ok ← sanitizeTagAttributeValue (TagAttribute.mk name value) rule
                errorHandling;
         if negb ok then mret false else k
     end) el = Returned (true, el') ->
  exists el1,
    k el1 = Returned (true, el')
    /\ sameBut name el el1
    /\ fitsAt rules (attribs el1) name = true.
Proof.
  intros Hget H.
  destruct (attributeTurn_frame errorHandling rules name value el k el' H)
    as (el1 & Hk & Hframe & Hnone).
  unfold hasRule in Hnone.
  destruct (ruleFor name rules) as [[r|]|] eqn:Hrule.
  - clear el1 Hk Hframe Hnone. revert H. cbn [sanitizeTagAttribute]. munfold.
    cbn [negb ProceedFlags.globalProceed ProceedFlags.localProceed].
    destruct (sanitizeTagAttributeValue _ r errorHandling el)
      as [[[] el1]|m] eqn:E; cbn [negb]; try discriminate.
    intros H. exists el1. split; [exact H |].
    split; [by apply (sanitizeTagAttributeValue_sameBut _ _ _ _ _ _ E) |].
    apply fitsAt_spec. intros v r' Hv Hr'. rewrite Hrule in Hr'.
    injection Hr' as <-.
    eapply (sanitizeTagAttributeValue_length errorHandling name value r el el1);
      eauto using ruleFor_fit.
  - exists el1. split; [exact Hk |]. split; [exact Hframe |].
    unfold fitsAt. by rewrite (Hnone eq_refl).
  - exists el1. split; [exact Hk |]. split; [exact Hframe |].
    unfold fitsAt. by rewrite (Hnone eq_refl).
Qed.

(** The attribute loop, when it returns [true], has left the values of
    the attributes it visited not too long, and has not touched the
    others. *)
Lemma attributesLoop_length (keys : list string) :
  forall (el el' : Target Child),
    attributesLoop keys rules errorHandling el = Returned (true, el') ->
    forall k,
      (k ∈ keys -> fitsAt rules (attribs el') k = true)
      /\ (k ∉ keys -> attrGet k (attribs el') = attrGet k (attribs el)).
Proof.
  induction keys as [|name keys IH]; intros el el'; cbn [attributesLoop].
  - munfold. intros [= <-] k. split; [| done].
    intros Hk. by apply elem_of_nil in Hk.
  - munfold. destruct (attrGet name (attribs el)) as [value|] eqn:Hget;
      [| discriminate].
    intros H k.
    apply (attributeTurn_length name value el
             (attributesLoop keys rules errorHandling) el' Hget) in H
      as (el1 & H & Hframe & Hfits).
    destruct (IH el1 el' H k) as [Hin Hout].
    destruct (IH el1 el' H name) as [_ Hname]. split.
    + intros Hk. destruct (decide (k ∈ keys)) as [Hk' | Hk']; [by apply Hin |].
      apply elem_of_cons in Hk as [-> | Hk]; [| done].
      unfold fitsAt in *. by rewrite (Hname Hk').
    + intros Hk. apply not_elem_of_cons in Hk as [Hne Hk].
      rewrite (Hout Hk). by apply Hframe.
Qed.

(** The loop over the required attributes keeps the values not too
    long. *)
Lemma enforceRequiredLoop_length
    (full entries : list (string * Rule.TagAttributeValueRule)) :
  rules = Some full ->
  (forall e, e ∈ entries -> e ∈ full) ->
  forall (el el' : Target Child),
    (forall k, fitsAt rules (attribs el) k = true) ->
    enforceRequiredLoop entries errorHandling el = Returned (true, el') ->
    forall k, fitsAt rules (attribs el') k = true.
Proof.
  intros Hrules. induction entries as [|[name r] entries IH];
    intros Hsub el el' Hall; cbn [enforceRequiredLoop].
  - munfold. by intros [= <-].
  - assert (Hsub' : forall e, e ∈ entries -> e ∈ full).
    { intros e He. apply Hsub. by right. }
    destruct (String.eqb name "*"); [by apply IH |].
    munfold. destruct (isRequired r && negb (attrHas name (attribs el)));
      [| by apply IH].
    destruct (handleTagAttributeValueError _ r _ None el) as [[[] el1]|m] eqn:E;
      cbn [negb]; try discriminate.
    apply IH; [exact Hsub' |]. intros k.
    pose proof (handleTagAttributeValueError_sameBut _ _ _ _ _ _ _ E) as Hframe.
    cbn [TagAttribute.key] in Hframe.
    destruct (decide (k = name)) as [-> | Hne].
    + apply fitsAt_spec. intros v r' Hv Hr'.
      assert (r' = r) as ->.
      { assert (ruleFor name rules = Some (Declared r)) as Hr.
        { rewrite Hrules. unfold ruleFor.
          rewrite Hrules in Fit. destruct Fit as [Hnd _].
          rewrite (ruleGet_NoDup name full r Hnd); [done |].
          apply Hsub. by left. }
        congruence. }
      eapply ruleFor_fit; [exact Hr' |].
      by eapply handleTagAttributeValueError_default.
    + specialize (Hall k). unfold fitsAt in *. by rewrite (Hframe k Hne).
Qed.

(** After a successful attribute pass no value is too long. *)
Lemma sanitizeAttributes_length (el el' : Target Child) :
  sanitizeAttributes rules errorHandling el = Returned (true, el') ->
  forall k, fitsAt rules (attribs el') k = true.
Proof.
  assert (Hreq : forall el1 : Target Child,
            (forall k, fitsAt rules (attribs el1) k = true) ->
            enforceRequiredAttributes rules errorHandling el1
            = Returned (true, el') ->
            forall k, fitsAt rules (attribs el') k = true).
  { intros el1 Hall H.
    assert (rules = None \/ exists entries, rules = Some entries)
      as [Hnone | [entries Hsome]] by (destruct rules; eauto).
    - rewrite Hnone in H. cbn [enforceRequiredAttributes] in H.
      revert H. munfold. by intros [= <-].
    - rewrite Hsome in H. cbn [enforceRequiredAttributes] in H.
      exact (enforceRequiredLoop_length entries entries Hsome
               (fun e He => He) el1 el' Hall H). }
  unfold sanitizeAttributes. munfold.
  destruct (attrKeys (attribs el)) as [|k0 ks] eqn:Hkeys.
  - apply Hreq. intros k. unfold fitsAt.
    rewrite attrGet_not_key; [done |]. rewrite Hkeys. apply not_elem_of_nil.
  - destruct (attributesLoop (k0 :: ks) rules errorHandling el)
      as [[[] el1]|m] eqn:E; cbn [negb]; try discriminate.
    apply Hreq. intros k.
    destruct (attributesLoop_length _ _ _ E k) as [Hin Hout].
    destruct (decide (k ∈ k0 :: ks)) as [Hk | Hk]; [by apply Hin |].
    unfold fitsAt. rewrite (Hout Hk).
    rewrite attrGet_not_key; [done |]. by rewrite Hkeys.
Qed.

End AttributeLengths.



(* ------------------------------------------------------------------ *)
(** *** Runs that cannot throw                                         *)
(* ------------------------------------------------------------------ *)

Section Returns.
Import Tree Adapter Direct Indirect Sanitizers Comparators Helpers.

Context {C : Type}.

Lemma returns_ret {A} (a : A) : returns (C := C) (mret a).
Proof. intros el. by eexists. Qed.

Lemma returns_bind {A B} (m : M C A) (k : A -> M C B) :
  returns m -> (forall a, returns (k a)) -> returns (m ≫= k).
Proof.
  intros Hm Hk el. munfold. destruct (Hm el) as [[a el1] ->]. apply Hk.
Qed.

Lemma returns_get : returns (get (C := C)).
Proof. intros el. by eexists. Qed.

Lemma returns_modify (f : Target C -> Target C) : returns (modify f).
Proof. intros el. by eexists. Qed.

Lemma returns_then {A B} (m : M C B) (a : A) :
  returns m -> returns (m ;; mret a).
Proof. intros Hm. apply returns_bind; [exact Hm |]. intros _. apply returns_ret. Qed.

Lemma returns_unwrapInParent : returns (unwrapInParent (C := C)).
Proof.
  unfold unwrapInParent. apply returns_bind; [apply returns_get |]. intros el.
  destruct (children el); [apply returns_modify |].
  destruct (link el); apply returns_modify.
Qed.

Lemma returns_repeatM (n : nat) (body : M C unit) :
  returns body -> returns (repeatM n body).
Proof.
  intros Hb. induction n as [|n IH]; cbn [repeatM]; [apply returns_ret |].
  apply returns_bind; [exact Hb | by intros _].
Qed.

Lemma handleTagError_returns (mode : option ErrorHandlingMode)
    (msg : option string) :
  tagQuiet mode = true -> returns (C := C) (handleTagError mode msg).
Proof.
  destruct mode as [[]|]; try discriminate; intros _; cbn [handleTagError];
    apply returns_then; [apply returns_modify | apply returns_unwrapInParent].
Qed.

Lemma handleTagAttributeError_returns (attribute : TagAttribute.t)
    (mode : option ErrorHandlingMode) (msg : option string) :
  attributeQuiet mode = true ->
  returns (C := C) (handleTagAttributeError attribute mode msg).
Proof.
  destruct mode as [[]|]; try discriminate; intros H;
    cbn [handleTagAttributeError];
    try (by apply handleTagError_returns).
  apply returns_then, returns_modify.
Qed.

Lemma handleTagAttributeValueError_returns (attribute : TagAttribute.t)
    (rule : Rule.TagAttributeValueRule) (mode : option ErrorHandlingMode)
    (msg : option string) :
  valueQuiet mode = true ->
  returns (C := C) (handleTagAttributeValueError attribute rule mode msg).
Proof.
  destruct mode as [[]|]; try discriminate; intros H;
    cbn [handleTagAttributeValueError];
    try (by apply handleTagAttributeError_returns).
  apply returns_then. destruct (Rule.defaultValue rule) as [d|];
    [destruct (JsString.truthy d) |]; apply returns_modify.
Qed.

Lemma handleTagAttributeValueTooLongError_returns (attribute : TagAttribute.t)
    (rule : Rule.TagAttributeValueRule) (mode : option ErrorHandlingMode)
    (msg : option string) :
  tooLongQuiet mode = true ->
  returns (C := C) (handleTagAttributeValueTooLongError attribute rule mode msg).
Proof.
  destruct mode as [[]|]; try discriminate; intros H;
    cbn [handleTagAttributeValueTooLongError];
    try (by apply handleTagAttributeValueError_returns).
  apply returns_then, returns_modify.
Qed.

Lemma handleTagAttributeSetValueError_returns (attribute : TagAttribute.t)
    (index : nat) (set : list string) (rule : Rule.TagAttributeValueRule)
    (mode : option ErrorHandlingMode) (msg : option string) :
  setValueQuiet mode = true ->
  returns (C := C)
    (handleTagAttributeSetValueError attribute index set rule mode msg).
Proof.
  destruct mode as [[]|]; try discriminate; intros H;
    cbn [handleTagAttributeSetValueError];
    try (by apply handleTagAttributeValueError_returns).
  apply returns_ret.
Qed.

Lemma handleTagAttributeRecordValueError_returns (attribute : TagAttribute.t)
    (record : list TagAttributeValueEntry.t) (index : nat)
    (rule : Rule.TagAttributeValueRule)
    (mode : option ErrorHandlingMode) (msg : option string) :
  recordValueQuiet mode = true ->
  is_Some (record !! index) ->
  returns (C := C)
    (handleTagAttributeRecordValueError attribute record index rule mode msg).
Proof.
  intros H [e He].
  destruct mode as [[]|]; try discriminate;
    cbn [handleTagAttributeRecordValueError]; rewrite ?He;
    try (by apply handleTagAttributeValueError_returns).
  apply returns_ret.
Qed.

Lemma handleTooMany_returns {A} (attribute : TagAttribute.t)
    (collection : list A) (rule : Rule.TagAttributeValueRule)
    (mode : option ErrorHandlingMode) (msg : option string) :
  tooManyQuiet mode = true ->
  returns (C := C)
    (handleTagAttributeCollectionValueTooManyError attribute collection rule
       mode msg).
Proof.
  destruct mode as [[]|]; try discriminate; intros H;
    cbn [handleTagAttributeCollectionValueTooManyError];
    try (apply returns_bind;
         [by apply handleTagAttributeValueError_returns
         | intros ?; apply returns_ret]).
  apply returns_ret.
Qed.

Lemma handleDuplicate_returns (attribute : TagAttribute.t) (key : string)
    (record : list TagAttributeValueEntry.t) (rule : Rule.TagAttributeValueRule)
    (mode : option ErrorHandlingMode) (msg : option string) :
  duplicateQuiet mode = true ->
  returns (C := C)
    (handleTagAttributeRecordValueDuplicateError attribute key record rule
       mode msg).
Proof.
  destruct mode as [[]|]; try discriminate; intros H;
    cbn [handleTagAttributeRecordValueDuplicateError];
    try (apply returns_bind;
         [by apply handleTagAttributeValueError_returns
         | intros ?; apply returns_ret]);
    apply returns_ret.
Qed.

Lemma handleTagChildrenError_returns (maxChildren : nat)
    (mode : option ErrorHandlingMode) :
  childrenQuiet mode = true ->
  returns (C := C) (handleTagChildrenError maxChildren mode).
Proof.
  intros H. unfold handleTagChildrenError.
  apply returns_bind; [apply returns_get |]. intros el.
  destruct mode as [[]|]; try discriminate; apply returns_then;
    [apply returns_modify | |]; apply returns_repeatM, returns_modify.
Qed.

Lemma handleTagNestingError_returns (maxNesting : nat)
    (mode : option ErrorHandlingMode) :
  nestingQuiet mode = true ->
  returns (C := C) (handleTagNestingError maxNesting mode).
Proof.
  destruct mode as [[]|]; try discriminate; intros _.
  cbn [handleTagNestingError]. apply returns_then, returns_modify.
Qed.

Lemma returns_calm {A} (m : M C A) : returns m -> calm m.
Proof. intros Hm el. left. apply Hm. Qed.

Lemma calm_bind {A B} (m : M C A) (k : A -> M C B) :
  calm m -> (forall a, calm (k a)) -> calm (m ≫= k).
Proof.
  intros Hm Hk el. munfold. destruct (Hm el) as [[[a el1] ->] | ->];
    [apply Hk | by right].
Qed.

Lemma calm_ret {A} (a : A) : calm (C := C) (mret a).
Proof. apply returns_calm, returns_ret. Qed.

Lemma calm_then {A B} (m : M C B) (a : A) : calm m -> calm (m ;; mret a).
Proof. intros Hm. apply calm_bind; [exact Hm |]. intros _. apply calm_ret. Qed.

End Returns.

Section ReturnsSanitizers.
Import Tree Adapter Direct Indirect Sanitizers Comparators Helpers.

Context {C : Type}.
Variable errorHandling : option ErrorHandling.t.
Hypothesis Quiet : lenient errorHandling = true.

Lemma lenient_slots :
  attributeQuiet (slot errorHandling ErrorHandling.attribute) = true
  /\ tooManyQuiet
       (slot errorHandling ErrorHandling.attributeCollectionValueTooMany) = true
  /\ recordValueQuiet (slot errorHandling ErrorHandling.attributeRecordValue)
     = true
  /\ duplicateQuiet
       (slot errorHandling ErrorHandling.attributeRecordValueDuplicate) = true
  /\ setValueQuiet (slot errorHandling ErrorHandling.attributeSetValue) = true
  /\ valueQuiet (slot errorHandling ErrorHandling.attributeValue) = true
  /\ tooLongQuiet (slot errorHandling ErrorHandling.attributeValueTooLong)
     = true
  /\ tagQuiet (slot errorHandling ErrorHandling.tag) = true
  /\ childrenQuiet (slot errorHandling ErrorHandling.tagChildren) = true
  /\ nestingQuiet (slot errorHandling ErrorHandling.tagNesting) = true.
Proof.
  pose proof Quiet as H. unfold lenient in H.
  repeat (apply andb_true_iff in H as [H ?]). tauto.
Qed.

Lemma setLoop_returns (attribute : TagAttribute.t)
    (rule : Rule.TagAttributeValueRule) (values : TagAttributeValueComparator)
    (input rest : list string) :
  forall (index : nat) (output : list string),
    returns (C := C)
      (setLoop attribute rule values errorHandling input index rest output).
Proof.
  destruct lenient_slots as (_ & _ & _ & _ & Hset & _).
  induction rest as [|val rest IH]; intros index output; cbn [setLoop];
    [apply returns_ret |].
  destruct (negb (matchComparator values val)); [| apply IH].
  apply returns_bind; [exact (handleTagAttributeSetValueError_returns _ _ _ _ _ _ Hset) |].
  intros ok. destruct (negb ok); [apply returns_ret | apply IH].
Qed.

Lemma sanitizeSet_returns (attribute : TagAttribute.t)
    (rule : Rule.TagAttributeValueRule) (delimiter : string)
    (values : TagAttributeValueComparator) :
  returns (C := C)
    (sanitizeTagAttributeSetValue attribute rule delimiter values errorHandling).
Proof.
  destruct lenient_slots as (_ & Hmany & _).
  assert (Hcont : forall input : list string,
            returns (C := C)
              (r ← setLoop attribute rule values errorHandling input 0 input [];
               match r with
               | None => mret false
               | Some output =>
                   setAttrib (TagAttribute.key attribute)
                     (JsString.join output delimiter) ;; mret true
               end)).
  { intros input. apply returns_bind; [apply setLoop_returns |].
    intros [output|]; [| apply returns_ret].
    apply returns_then, returns_modify. }
  unfold sanitizeTagAttributeSetValue. destruct (_ && _); [| apply Hcont].
  apply returns_bind; [exact (handleTooMany_returns _ _ _ _ _ Hmany) |].
  intros result. destruct (negb _); [apply returns_ret | apply Hcont].
Qed.

(** A method that throws has one message. *)
Lemma pairRuleOf_raises (values : gmap string TagAttributeValueComparator)
    (key message : string) :
  pairRuleOf values key = Some (Raises message) -> message = uncallable.
Proof.
  unfold pairRuleOf, inheritedPairRule. destruct (values !! key); [discriminate |].
  repeat (destruct (String.eqb key _); [discriminate |]).
  destruct (JsObject.inherited key); [| discriminate]. by intros [= <-].
Qed.

(** The record loop reads the pair at [index] of its input. *)
Lemma recordLoop_calm (attribute : TagAttribute.t)
    (rule : Rule.TagAttributeValueRule)
    (values : gmap string TagAttributeValueComparator)
    (input rest : list TagAttributeValueEntry.t) :
  forall (index : nat) (seen : gset string)
         (output : list TagAttributeValueEntry.t),
    drop index input = rest ->
    calm (C := C)
      (recordLoop attribute rule values errorHandling input index rest seen
         output).
Proof.
  destruct lenient_slots as (_ & _ & Hrec & Hdup & _).
  induction rest as [|[key val] rest IH]; intros index seen output Hdrop;
    cbn [recordLoop]; [apply calm_ret |].
  assert (Hhere : is_Some (input !! index)).
  { exists (TagAttributeValueEntry.mk key val).
    rewrite <- (Nat.add_0_r index), <- lookup_drop, Hdrop. reflexivity. }
  assert (Hnext : drop (S index) input = rest).
  { rewrite <- Nat.add_1_r, <- drop_drop, Hdrop. reflexivity. }
  assert (Herr : forall output1,
            calm (C := C)
              (ok ← handleTagAttributeRecordValueError attribute input index
                      rule
                      (slot errorHandling ErrorHandling.attributeRecordValue)
                      None;
               if negb ok then mret None
               else recordLoop attribute rule values errorHandling input
                      (S index) rest seen output1)).
  { intros output1. apply calm_bind;
      [apply returns_calm;
       exact (handleTagAttributeRecordValueError_returns _ _ _ _ _ _ Hrec Hhere) |].
    intros ok. destruct (negb ok); [apply calm_ret | by apply IH]. }
  assert (Hcheck : forall output1,
            calm (C := C)
              match pairRuleOf values key with
              | Some (Raises message) => throw message
              | Some (Compares cmp) =>
                  if negb (truthy cmp) || negb (matchComparator cmp val) then
                    ok ← handleTagAttributeRecordValueError attribute input index rule
                           (slot errorHandling ErrorHandling.attributeRecordValue) None;
                    if negb ok then mret None
                    else recordLoop attribute rule values errorHandling input
                           (S index) rest seen output1
                  else
                    recordLoop attribute rule values errorHandling input
                      (S index) rest ({[key]} ∪ seen)
                      (output1 ++ [TagAttributeValueEntry.mk key val])
              | None =>
                  ok ← handleTagAttributeRecordValueError attribute input index rule
                         (slot errorHandling ErrorHandling.attributeRecordValue) None;
                  if negb ok then mret None
                  else recordLoop attribute rule values errorHandling input
                         (S index) rest seen output1
              end).
  { intros output1.
    destruct (pairRuleOf values key) as [[cmp|message]|] eqn:Hpair;
      [| | apply Herr].
    - destruct (_ || _); [apply Herr | by apply IH].
    - apply pairRuleOf_raises in Hpair as ->. intros el. by right. }
  destruct (bool_decide (key ∈ seen)); [| apply Hcheck].
  apply calm_bind;
    [apply returns_calm; exact (handleDuplicate_returns _ _ _ _ _ _ Hdup) |].
  intros result. destruct (negb _); [apply calm_ret |].
  destruct (negb _); [by apply IH | apply Hcheck].
Qed.

Lemma sanitizeRecord_calm (attribute : TagAttribute.t)
    (rule : Rule.TagAttributeValueRule)
    (entrySeparator keyValueSeparator : string)
    (values : gmap string TagAttributeValueComparator) :
  calm (C := C)
    (sanitizeTagAttributeRecordValue attribute rule entrySeparator
       keyValueSeparator values errorHandling).
Proof.
  destruct lenient_slots as (_ & Hmany & _).
  assert (Hcont : forall input : list TagAttributeValueEntry.t,
            calm (C := C)
              (r ← recordLoop attribute rule values errorHandling input 0 input
                     ∅ [];
               match r with
               | None => mret false
               | Some output =>
                   setAttrib (TagAttribute.key attribute)
                     (JsString.join
                        (List.map (renderEntry keyValueSeparator) output)
                        entrySeparator) ;; mret true
               end)).
  { intros input. apply calm_bind; [by apply recordLoop_calm |].
    intros [output|]; [| apply calm_ret].
    apply returns_calm, returns_then, returns_modify. }
  unfold sanitizeTagAttributeRecordValue. destruct (_ && _); [| apply Hcont].
  apply calm_bind;
    [apply returns_calm; exact (handleTooMany_returns _ _ _ _ _ Hmany) |].
  intros result. destruct (negb _); [apply calm_ret | apply Hcont].
Qed.

Lemma sanitizeByMode_calm (attribute : TagAttribute.t)
    (rule : Rule.TagAttributeValueRule) :
  calm (C := C) (sanitizeByMode attribute rule errorHandling).
Proof.
  destruct lenient_slots as (_ & _ & _ & _ & _ & Hvalue & _).
  unfold sanitizeByMode. destruct (Rule.mode rule);
    [| apply returns_calm, sanitizeSet_returns | apply sanitizeRecord_calm].
  unfold sanitizeTagAttributeSimpleValue. apply returns_calm.
  destruct (negb _); [| apply returns_ret].
  exact (handleTagAttributeValueError_returns _ _ _ _ Hvalue).
Qed.

Lemma sanitizeTagAttributeValue_calm (attribute : TagAttribute.t)
    (rule : Rule.TagAttributeValueRule) :
  calm (C := C) (sanitizeTagAttributeValue attribute rule errorHandling).
Proof.
  destruct lenient_slots as (_ & _ & _ & _ & _ & _ & Hlong & _).
  unfold sanitizeTagAttributeValue.
  destruct (_ && _); [| apply sanitizeByMode_calm].
  apply calm_bind;
    [apply returns_calm;
     exact (handleTagAttributeValueTooLongError_returns _ _ _ _ Hlong) |].
  intros ok. destruct (negb ok); [apply calm_ret |].
  apply calm_bind; [apply returns_calm, returns_get |]. intros el.
  destruct (attrGet _ _) as [value|]; [| apply calm_ret].
  destruct (negb _); [apply calm_ret | apply sanitizeByMode_calm].
Qed.

Lemma sanitizeTagAttribute_returns (attribute : TagAttribute.t)
    (rule : option RuleValue) :
  returns (C := C)
    (sanitizeTagAttribute attribute rule
       (slot errorHandling ErrorHandling.attribute)).
Proof.
  destruct lenient_slots as (Hattr & _).
  destruct rule; cbn [sanitizeTagAttribute]; [apply returns_ret |].
  apply returns_bind; [exact (handleTagAttributeError_returns _ _ _ Hattr) |].
  intros g. apply returns_ret.
Qed.

Lemma sanitizeTag_returns (rule : option TagRule.t) :
  returns (C := C) (sanitizeTag rule (slot errorHandling ErrorHandling.tag)).
Proof.
  destruct lenient_slots as (_ & _ & _ & _ & _ & _ & _ & Htag & _).
  destruct rule; cbn [sanitizeTag]; [apply returns_ret |].
  exact (handleTagError_returns _ _ Htag).
Qed.

Lemma enforceRequiredAttributes_returns
    (rules : option (list (string * Rule.TagAttributeValueRule))) :
  returns (C := C) (enforceRequiredAttributes rules errorHandling).
Proof.
  destruct lenient_slots as (_ & _ & _ & _ & _ & Hvalue & _).
  destruct rules as [entries|]; cbn [enforceRequiredAttributes];
    [| apply returns_ret].
  induction entries as [|[name r] entries IH]; cbn [enforceRequiredLoop];
    [apply returns_ret |].
  destruct (String.eqb name "*"); [exact IH |].
  apply returns_bind; [apply returns_get |]. intros el.
  destruct (_ && _); [| exact IH].
  apply returns_bind; [exact (handleTagAttributeValueError_returns _ _ _ _ Hvalue) |].
  intros ok. destruct (negb ok); [apply returns_ret | exact IH].
Qed.

(** The attribute loop finds a value under every name of the snapshot:
    the names are distinct and a turn only touches its attribute. *)
Lemma attributesLoop_calm
    (rules : option (list (string * Rule.TagAttributeValueRule)))
    (keys : list string) :
  forall el : Target C,
    NoDup keys ->
    (forall k, k ∈ keys -> is_Some (attrGet k (attribs el))) ->
    fine (attributesLoop keys rules errorHandling el).
Proof.
  induction keys as [|name keys IH]; intros el Hnd Hall; cbn [attributesLoop].
  - left. by eexists.
  - apply NoDup_cons in Hnd as [Hnot Hnd]. munfold.
    destruct (Hall name) as [value Hget]; [by left |]. rewrite Hget.
    assert (Hnext : forall el1 : Target C,
              sameBut name el el1 ->
              fine (attributesLoop keys rules errorHandling el1)).
    { intros el1 Hframe. apply IH; [exact Hnd |]. intros k Hk.
      rewrite (Hframe k); [apply Hall; by right |]. by intros ->. }
    destruct (sanitizeTagAttribute_returns (TagAttribute.mk name value)
                (ruleFor name rules) el) as [[flags el1] E1].
    rewrite E1.
    assert (Hframe1 : sameBut name el el1).
    { refine (@keeps_sanitizeTagAttribute C (sameBut name) _ _ _ name _
                (TagAttribute.mk name value) _ _ eq_refl el flags el1 E1).
      - apply sameBut_refl.
      - apply sameBut_trans.
      - by intros ? ? ? ?.
      - apply sameBut_delete. }
    destruct (negb (ProceedFlags.globalProceed flags));
      [left; by eexists |].
    destruct (ruleFor name rules) as [[r|]|] eqn:Hrule.
    + destruct (negb (ProceedFlags.localProceed flags)); [by apply Hnext |].
      destruct (sanitizeTagAttributeValue_calm (TagAttribute.mk name value)
                  r el1) as [[[ok el2] E2] | E2]; rewrite E2; [| by right].
      destruct (negb ok); [left; by eexists |].
      apply Hnext. eapply sameBut_trans; [exact Hframe1 |].
      exact (sanitizeTagAttributeValue_sameBut _ _ _ _ _ _ E2).
    + destruct (negb (ProceedFlags.localProceed flags)); [by apply Hnext |].
      left. by eexists.
    + cbn [sanitizeTagAttribute] in E1. revert E1. munfold.
      destruct (handleTagAttributeError _ _ _ el) as [[g el0]|m];
        [| discriminate].
      intros [= <- <-]. cbn [ProceedFlags.localProceed negb].
      by apply Hnext.
Qed.

Lemma sanitizeAttributes_calm
    (rules : option (list (string * Rule.TagAttributeValueRule)))
    (el : Target C) :
  NoDup (attrKeys (attribs el)) ->
  fine (sanitizeAttributes rules errorHandling el).
Proof.
  intros Hnd. unfold sanitizeAttributes. munfold.
  destruct (attrKeys (attribs el)) as [|k0 ks] eqn:Hkeys;
    [left; apply enforceRequiredAttributes_returns |].
  destruct (attributesLoop_calm rules (k0 :: ks) el Hnd)
    as [[[ok el1] E] | E]; [| | rewrite E; by right].
  { intros k Hk. rewrite <- Hkeys in Hk. unfold attrKeys in Hk.
    apply list_elem_of_fmap in Hk as ([k' v] & -> & Hin). simpl.
    destruct (attrGet k' (attribs el)) as [v'|] eqn:Hget; [by eexists |].
    exfalso. clear -Hin Hget. induction (attribs el) as [|[k1 v1] a IH];
      [by apply elem_of_nil in Hin |].
    simpl in Hget. destruct (String.eqb_spec k1 k') as [-> | Hne];
      [discriminate |].
    apply elem_of_cons in Hin as [[= -> ->] | Hin]; [congruence | by apply IH]. }
  rewrite E. destruct (negb ok); [left; by eexists |].
  left. apply enforceRequiredAttributes_returns.
Qed.

End ReturnsSanitizers.

Section ReturnsWalk.
Import Tree Adapter Direct Indirect Sanitizers Walker Index.

Variable options : SanitizerOptions.t.
Hypothesis Quiet : lenient (SanitizerOptions.errorHandling options) = true.

Lemma handleTagError_false {C} (mode : option ErrorHandlingMode)
    (msg : option string) (el el' : Target C) (ok : bool) :
  handleTagError mode msg el = Returned (ok, el') -> ok = false.
Proof.
  unfold handleTagError. destruct mode as [[]|]; munfold; try discriminate.
  - unfold detachNode. munfold. by intros [= <- _].
  - destruct (unwrapInParent el) as [[[] el1]|m]; [| discriminate].
    by intros [= <- _].
Qed.

Lemma nestingLoop_returns {C} (frames : list TagNestingFrame.t) :
  returns (C := C) (nestingLoop options frames).
Proof.
  destruct (lenient_slots _ Quiet) as (_ & _ & _ & _ & _ & _ & _ & _ & _ & Hnest).
  induction frames as [|f frames IH]; cbn [nestingLoop]; [apply returns_ret |].
  assert (returns (C := C)
            (r ← nestingLoop options frames;
             mret (match r with
                   | Some fs =>
                       Some (TagNestingFrame.mk (TagNestingFrame.key f)
                               (S (TagNestingFrame.value f)) :: fs)
                   | None => None
                   end))) as Hrec.
  { apply returns_bind; [exact IH |]. intros r. apply returns_ret. }
  destruct (negb _); [exact Hrec |].
  destruct (_ <? _)%nat; [| exact Hrec].
  apply returns_then. exact (handleTagNestingError_returns _ _ Hnest).
Qed.

(** The walk over children whose visits are fine is fine. *)
Lemma walkChildren_fine (kids : list Child) :
  Forall (fun child : Child => forall state, fine (snd child state)) kids ->
  forall state, fine (walkChildren kids state).
Proof.
  induction 1 as [|child kids Hchild _ IH]; intros state; cbn [walkChildren];
    [left; by eexists |].
  destruct (Hchild state) as [[here ->] | ->]; [| by right].
  destruct (IH state) as [[after ->] | ->]; [left; by eexists | by right].
Qed.

(** The visit of an element whose attributes stand under distinct names
    is fine, when the visits of its children are. *)
Lemma walkElement_fine (element : Target Child)
    (state : SanitizerState.t) :
  NoDup (attrKeys (attribs element)) ->
  Forall (fun child : Child => forall state, fine (snd child state))
    (children element) ->
  fine (walkElement element options state).
Proof.
  intros Hnd Hkids.
  destruct (lenient_slots _ Quiet)
    as (_ & _ & _ & _ & _ & _ & _ & _ & Hchildren & _).
  unfold walkElement.
  set (eh := SanitizerOptions.errorHandling options).
  set (t := tagNameOf element).
  assert (Hend : forall (r : option (list Node)) (el : Target Child),
            fine match r with
                 | None => Returned (leave el)
                 | Some kids => Returned (settle el kids)
                 end).
  { intros [kids|] el; left; by eexists. }
  munfold.
  (* Tag sanitization *)
  destruct (sanitizeTag_returns eh Quiet (tagRuleOf options t) element)
    as [[ok1 el1] E1]. rewrite E1.
  assert (attribs el1 = attribs element /\ children el1 = children element)
    as [Ha1 Hc1].
  { refine (@keeps_sanitizeTag _
              (fun el el' => attribs el' = attribs el
                             /\ children el' = children el)
              _ _ _ _ _ element ok1 el1 E1).
    - done.
    - intros ? ? ? [? ?] [? ?]. split; congruence.
    - done. }
  destruct ok1; cbn [negb]; [| apply (Hend None)].
  destruct (tagRuleOf options t) as [rule|].
  2:{ cbn [sanitizeTag] in E1. by apply handleTagError_false in E1. }
  (* Attributes sanitization *)
  destruct (sanitizeAttributes_calm eh Quiet (TagRule.attributes rule) el1)
    as [[[ok2 el2] E2] | E2]; [by rewrite Ha1 | | rewrite E2; by right].
  rewrite E2.
  apply sanitizeAttributes_sameShape in E2 as [_ Hc2].
  destruct ok2; cbn [negb]; [| apply (Hend None)].
  (* Children enforcement *)
  set (limit := limitOf (TagRule.limits rule) TagLimits.children).
  assert (exists ok3 el3,
            (if truthyNumber limit
                && (default 0 limit <? List.length (children el2))%nat
             then handleTagChildrenError (default 0 limit)
                    (slot eh ErrorHandling.tagChildren)
             else fun el => Returned (true, el)) el2 = Returned (ok3, el3)
            /\ Forall (fun child : Child => forall state, fine (snd child state))
                 (children el3)) as (ok3 & el3 & E3 & Hkids3).
  { assert (Hkids2 : Forall (fun child : Child =>
                               forall state, fine (snd child state))
                       (children el2)).
    { by rewrite Hc2, Hc1. }
    destruct (truthyNumber limit && _).
    - destruct (handleTagChildrenError_returns (default 0 limit) _ Hchildren el2)
        as [[ok3 el3] E3].
      exists ok3, el3. split; [exact E3 |].
      apply handleTagChildrenError_shrinks in E3 as (_ & n & [-> | ->]);
        [by apply Forall_drop | by apply Forall_take].
    - by exists true, el2. }
  rewrite E3. destruct ok3; cbn [negb]; [| apply (Hend None)].
  (* Tag nesting enforcement *)
  destruct (nestingLoop_returns (rev (SanitizerState.tagNesting state)) el3)
    as [[depth el4] E4]. rewrite E4.
  apply nestingLoop_sameShape in E4 as [_ Hc4].
  destruct depth as [innermostFirst|]; [| apply (Hend None)].
  (* Children sanitization *)
  rewrite Hc4.
  destruct (walkChildren_fine (children el3) Hkids3
              (SanitizerState.mk (SanitizerState.rootNesting state)
                 (rev innermostFirst ++ [TagNestingFrame.mk t 0])))
    as [[kids ->] | ->]; [| by right].
  apply (Hend (Some kids)).
Qed.

Lemma walkNode_fine (n : Node) :
  keyed n = true ->
  forall state, fine (walkNode options n state).
Proof.
  destruct (lenient_slots _ Quiet) as (_ & _ & _ & _ & _ & _ & _ & _ & _ & Hnest).
  induction n as [t a kids IH | d | d | kids IH] using Node_induction; intros Hkeyed state.
  - cbn [keyed] in Hkeyed. apply andb_true_iff in Hkeyed as [Hnd Hkids].
    apply bool_decide_eq_true in Hnd. apply forallb_Forall in Hkids.
    rewrite walkNode_element. destruct (tooDeep options state).
    + destruct (handleTagNestingError_returns
                  (default 0 (limitOf (SanitizerOptions.topLevelLimits options)
                                TagLimits.nesting)) _ Hnest
                  (mkTarget (Some t) a (withWalks options kids) InParent))
        as [[b el'] ->].
      left. by eexists.
    + apply walkElement_fine; [exact Hnd |]. cbn [children].
      unfold withWalks. apply Forall_fmap.
      rewrite Forall_forall in IH, Hkids |- *.
      intros k Hk state'. cbn [snd]. apply IH; [exact Hk | by apply Hkids].
  - simpl. left. destruct (negb _); by eexists.
  - simpl. left. by eexists.
  - simpl. left. by eexists.
Qed.

End ReturnsWalk.

(** X12. Under a policy every slot of which is set to a strategy that
    the type of the slot allows, other than [throwError], no handler
    throws: whatever the tree, the rules and the limits, the walk
    returns a tree, unless the key of a pair of a record value names a
    method of [Object.prototype] that the record rule does not
    redefine: [matchComparator] then calls the method, and its
    [TypeError] is the one error that a run can throw.  The attributes
    of an element are the keys of an object, hence under distinct
    names. *)
Theorem lenient_run_returns_or_raises (options : SanitizerOptions.t)
    (roots : list Tree.Node) :
  lenient (SanitizerOptions.errorHandling options) = true ->
  forallb keyed roots = true ->
  (exists out, Index.sanitizeTree roots options = Returned out)
  \/ Index.sanitizeTree roots options = Thrown Comparators.uncallable.
Proof.
  intros Quiet Hkeyed. apply forallb_Forall in Hkeyed.
  change (fine (Index.sanitizeTree roots options)).
  destruct (lenient_slots _ Quiet)
    as (_ & _ & _ & _ & _ & _ & _ & _ & Hchildren & _).
  assert (Hwalks : Forall (fun child : Walker.Child =>
                             forall state, fine (snd child state))
                     (Walker.withWalks options roots)).
  { unfold Walker.withWalks. apply Forall_fmap.
    eapply Forall_impl; [exact Hkeyed |]. intros k Hk state. cbn [snd].
    by apply walkNode_fine. }
  unfold Index.sanitizeTree, Index.sanitizeFragment. cbn [Tree.children].
  destruct (_ && _).
  - destruct (handleTagChildrenError_returns
                (default 0 (limitOf (SanitizerOptions.topLevelLimits options)
                              TagLimits.children)) _ Hchildren
                (Tree.mkTarget None [] (Walker.withWalks options roots)
                   Tree.NoParent)) as [[b frag] E].
    rewrite E. destruct b; [| left; by eexists].
    apply handleTagChildrenError_shrinks in E as (_ & n & Hc).
    cbn [Tree.children] in Hc.
    destruct (walkChildren_fine (Tree.children frag)) with
      (state := SanitizerState.mk 0 []) as [[kids ->] | ->];
      [| left; by eexists | by right].
    destruct Hc as [-> | ->]; [by apply Forall_drop | by apply Forall_take].
  - destruct (walkChildren_fine _ Hwalks (SanitizerState.mk 0 []))
      as [[kids ->] | ->]; [left; by eexists | by right].
Qed.

(** The slots of [Samples.classPolicy], those of [Samples.quiet], are
    such. *)
Lemma lenient_run_returns_or_raises_witness :
  lenient (SanitizerOptions.errorHandling Samples.classPolicy) = true
  /\ forallb keyed Samples.dirty = true
  /\ ((exists out, Index.sanitizeTree Samples.dirty Samples.classPolicy
                   = Returned out)
      \/ Index.sanitizeTree Samples.dirty Samples.classPolicy
         = Thrown Comparators.uncallable).
Proof.
  assert (H1 : lenient (SanitizerOptions.errorHandling Samples.classPolicy)
               = true) by reflexivity.
  assert (H2 : forallb keyed Samples.dirty = true).
  { vm_compute. reflexivity. }
  split; [exact H1 |]. split; [exact H2 |].
  exact (lenient_run_returns_or_raises Samples.classPolicy Samples.dirty H1 H2).
Defined.

(* ------------------------------------------------------------------ *)
(** *** Parsing a record back from its join                            *)
(* ------------------------------------------------------------------ *)

Section ParseRecordJoin.
Import JsString Helpers Sanitizers.

Variables c1 c2 : ascii.

(** A part of a split holds no code unit that the string does not
    hold. *)
Lemma splitFrom_keeps_free (c : ascii) (sep s : string) :
  forall (k : nat) (acc : string),
    freeOf c acc = true -> freeOf c s = true ->
    Forall (fun t => freeOf c t = true) (splitFrom sep k acc s).
Proof.
  induction s as [|x s IH]; intros k acc Hacc Hs; cbn [splitFrom].
  - by constructor.
  - cbn [freeOf] in Hs. apply andb_true_iff in Hs as [Hx Hs].
    destruct k as [|k]; [| by apply IH].
    destruct (String.prefix sep (String x s)).
    + constructor; [exact Hacc | by apply IH].
    + apply IH; [| exact Hs]. rewrite freeOf_app, Hacc. cbn [freeOf andb].
      by rewrite Hx.
Qed.

Lemma split_keeps_free (c : ascii) (x : ascii) (s : string) :
  freeOf c s = true ->
  Forall (fun t => freeOf c t = true) (split s (String x "")).
Proof. intros Hs. unfold split. by apply splitFrom_keeps_free. Qed.

(** The entries that the parsers read in the join of tokens are these
    tokens. *)
Lemma entries_of_join (c : ascii) (t : string) (ts : list string) :
  Forall (token c) (t :: ts) ->
  truthy (trim (join (t :: ts) (String c ""))) = true
  /\ List.filter truthy
       (List.map trim (split (trim (join (t :: ts) (String c "")))
                         (String c "")))
     = t :: ts.
Proof.
  intros Htok.
  assert (trim (join (t :: ts) (String c "")) = join (t :: ts) (String c ""))
    as ->.
  { apply Forall_cons in Htok as [(Ht & Hne & _) Htok].
    destruct (trimmed_clean t Ht Hne) as [Hs He].
    apply clean_trimmed; [by apply join_starts |].
    apply join_ends; [exact He |].
    eapply Forall_impl; [exact Htok |].
    intros t' (Ht' & Hne' & _). by apply trimmed_clean. }
  split.
  { apply Forall_cons in Htok as [(_ & Hne & _) _].
    unfold join. destruct t; [done |]. by destruct ts. }
  unfold split. rewrite (splitFrom_join c ts t "").
  - change ("" ++ t)%string with t.
    rewrite map_trim_fixed, filter_truthy_fixed; [done | |].
    + eapply Forall_impl; [exact Htok |]. by intros ? (_ & ? & _).
    + eapply Forall_impl; [exact Htok |]. by intros ? (? & _ & _).
  - apply Forall_cons in Htok as [(_ & _ & Hf) _]. exact Hf.
  - apply Forall_cons in Htok as [_ Htok].
    eapply Forall_impl; [exact Htok |]. by intros ? (_ & _ & ?).
Qed.

(** A rendered pair is a token for the entry separator. *)
Lemma renderEntry_token (e : TagAttributeValueEntry.t) :
  c1 <> c2 -> cleanPair c1 c2 e ->
  token c1 (renderEntry (String c2 "") e).
Proof.
  intros Hne [[(Hk & Hkne & Hk1) _] [(Hv & Hvne & Hv1) _]].
  unfold renderEntry.
  destruct (trimmed_clean _ Hk Hkne) as [Hks _].
  destruct (trimmed_clean _ Hv Hvne) as [_ Hve].
  split; [| split].
  - apply clean_trimmed; [by apply startsClean_app |].
    by apply endsClean_app, endsClean_app.
  - destruct (TagAttributeValueEntry.key e); [done | discriminate].
  - assert (Ascii.eqb c2 c1 = false) as E by (apply Ascii.eqb_neq; congruence).
    rewrite !freeOf_app, Hk1, Hv1. cbn [freeOf andb]. by rewrite E.
Qed.

(** The loop of [parseRecord] reads rendered pairs back. *)
Lemma parseRecordLoop_rendered (pairs : list TagAttributeValueEntry.t) :
  Forall (cleanPair c1 c2) pairs ->
  forall out,
    parseRecordLoop (String c2 "")
      (List.map (renderEntry (String c2 "")) pairs) out
    = out ++ pairs.
Proof.
  induction 1 as [|[k v] pairs Hp _ IH]; intros out; cbn [List.map parseRecordLoop].
  - by rewrite app_nil_r.
  - destruct Hp as [[_ (Hk & Hkne & Hk2)] [_ (Hv & Hvne & Hv2)]].
    cbn [TagAttributeValueEntry.key TagAttributeValueEntry.val] in *.
    unfold renderEntry at 1.
    cbn [TagAttributeValueEntry.key TagAttributeValueEntry.val].
    assert (split (k ++ String c2 "" ++ v) (String c2 "") = [k; v]) as ->.
    { unfold split.
      change (k ++ String c2 "" ++ v)%string with (join [k; v] (String c2 "")).
      rewrite (splitFrom_join c2 [v] k ""); [done | exact Hk2 |].
      by constructor. }
    rewrite Hk, Hv.
    assert (truthy k = true) as -> by (by destruct k).
    assert (truthy v = true) as -> by (by destruct v).
    cbn [negb]. rewrite IH. by rewrite <- app_assoc.
Qed.

(** What [parseRecord] makes of the join of rendered pairs. *)
Lemma parseRecord_join (pairs : list TagAttributeValueEntry.t) :
  c1 <> c2 -> Forall (cleanPair c1 c2) pairs ->
  parseRecord
    (join (List.map (renderEntry (String c2 "")) pairs) (String c1 ""))
    (String c1 "") (String c2 "")
  = pairs.
Proof.
  intros Hne Hclean. destruct pairs as [|e pairs]; [reflexivity |].
  unfold parseRecord. cbn [List.map].
  destruct (entries_of_join c1 (renderEntry (String c2 "") e)
              (List.map (renderEntry (String c2 "")) pairs)) as [-> ->].
  { change (Forall (token c1)
              (List.map (renderEntry (String c2 "")) (e :: pairs))).
    apply Forall_fmap. eapply Forall_impl; [exact Hclean |].
    intros e' He'. by apply renderEntry_token. }
  cbn [negb].
  exact (parseRecordLoop_rendered (e :: pairs) Hclean []).
Qed.

Lemma parseRecordLoop_clean (entries : list string) :
  Forall (fun e => freeOf c1 e = true) entries ->
  forall out,
    Forall (cleanPair c1 c2) out ->
    Forall (cleanPair c1 c2) (parseRecordLoop (String c2 "") entries out).
Proof.
  induction 1 as [|e entries He _ IH]; intros out Hout; cbn [parseRecordLoop];
    [exact Hout |].
  destruct (split e (String c2 "")) as [|e0 [|e1 [|e2 rest]]] eqn:E;
    try by apply IH.
  destruct (truthy (trim e0)) eqn:T0; cbn [negb]; [| by apply IH].
  destruct (truthy (trim e1)) eqn:T1; cbn [negb]; [| by apply IH].
  apply IH. apply Forall_app. split; [exact Hout |].
  constructor; [| constructor].
  pose proof (split_keeps_free c1 c2 e He) as H1. rewrite E in H1.
  pose proof (splitFrom_parts_free c2 e "" eq_refl) as H2.
  change (splitFrom (String c2 "") 0 "" e) with (split e (String c2 "")) in H2.
  rewrite E in H2.
  apply Forall_cons in H1 as [H10 H1]. apply Forall_cons in H1 as [H11 _].
  apply Forall_cons in H2 as [H20 H2]. apply Forall_cons in H2 as [H21 _].
  assert (Htok : forall c s, freeOf c s = true -> truthy (trim s) = true ->
                             token c (trim s)).
  { intros c s Hs Ht. split; [apply trim_idemp |].
    split; [by destruct (trim s) | by apply freeOf_trim]. }
  unfold cleanPair.
  cbn [TagAttributeValueEntry.key TagAttributeValueEntry.val].
  split; split; by apply Htok.
Qed.

(** What [parseRecord] returns are clean pairs. *)
Lemma parseRecord_clean (input : string) :
  Forall (cleanPair c1 c2) (parseRecord input (String c1 "") (String c2 "")).
Proof.
  unfold parseRecord. destruct (negb _); [constructor |].
  apply parseRecordLoop_clean; [| constructor].
  apply Forall_forall. intros e He.
  apply list_elem_of_In, filter_In in He as [He _].
  apply list_elem_of_In, list_elem_of_fmap in He as (p & -> & Hp).
  apply freeOf_trim.
  pose proof (splitFrom_parts_free c1 (trim input) "" eq_refl) as Hparts.
  rewrite Forall_forall in Hparts. by apply Hparts.
Qed.

End ParseRecordJoin.

(** X13. For an entry separator and a pair separator of one code unit
    each, the two different, [parseRecord] reads the join of rendered
    pairs back as these pairs, when keys and values are trimmed, not
    empty and without the two separators.  What [parseRecord] returns
    is such a list, so that rendering its result and parsing it again
    changes nothing. *)
Theorem parseRecord_join_round_trip (c1 c2 : ascii) :
  c1 <> c2 ->
  (forall pairs : list TagAttributeValueEntry.t,
      Forall (cleanPair c1 c2) pairs ->
      Helpers.parseRecord
        (JsString.join
           (List.map (Sanitizers.renderEntry (String c2 "")) pairs)
           (String c1 ""))
        (String c1 "") (String c2 "")
      = pairs)
  /\ (forall input : string,
         Forall (cleanPair c1 c2)
           (Helpers.parseRecord input (String c1 "") (String c2 ""))
         /\ Helpers.parseRecord
              (JsString.join
                 (List.map (Sanitizers.renderEntry (String c2 ""))
                    (Helpers.parseRecord input (String c1 "") (String c2 "")))
                 (String c1 ""))
              (String c1 "") (String c2 "")
            = Helpers.parseRecord input (String c1 "") (String c2 "")).
Proof.
  intros Hne. split; [intros pairs; by apply parseRecord_join |].
  intros input. pose proof (parseRecord_clean c1 c2 input) as Hclean.
  split; [exact Hclean | by apply parseRecord_join].
Qed.

Lemma parseRecord_join_round_trip_witness :
  let pairs := [TagAttributeValueEntry.mk "color" "red";
                TagAttributeValueEntry.mk "font" "a b"] in
  Forall (cleanPair ";" ":") pairs
  /\ Helpers.parseRecord
       (JsString.join (List.map (Sanitizers.renderEntry ":") pairs) ";")
       ";" ":"
     = pairs.
Proof.
  intros pairs.
  assert (Forall (cleanPair ";" ":") pairs) as Hclean.
  { repeat constructor; discriminate. }
  split; [exact Hclean |].
  exact (proj1 (parseRecord_join_round_trip ";" ":" ltac:(discriminate))
           pairs Hclean).
Defined.

Section RecordSound.
Import JsString Comparators Helpers Tree Adapter Direct Indirect Sanitizers.
Context {C : Type}.

Lemma submseteq_Forall {A} (P : A -> Prop) (l k : list A) :
  k ⊆+ l -> Forall P l -> Forall P k.
Proof.
  intros Hs Hl. apply Forall_forall. intros x Hx.
  rewrite Forall_forall in Hl. apply Hl. by eapply elem_of_submseteq.
Qed.

End RecordSound.



(* ------------------------------------------------------------------ *)
(** *** Attributes that pass are left alone                            *)
(* ------------------------------------------------------------------ *)

Section AcceptedKept.
Import Tree Adapter Direct Indirect Sanitizers Comparators Helpers.

Context {C : Type}.
Variable errorHandling : option ErrorHandling.t.
Variable rules : option (list (string * Rule.TagAttributeValueRule)).

Variables (key value : string) (rule : Rule.TagAttributeValueRule)
          (cmp : TagAttributeValueComparator).
Hypothesis Hrule : ruleFor key rules = Some (Declared rule).
Hypothesis Hmode : Rule.mode rule = Rule.simple cmp.
Hypothesis Hmatch : matchComparator cmp value = true.
Hypothesis Hlen : tooLong rule value = false.

(** The pass over the attribute itself changes nothing. *)
Lemma sanitizeTagAttributeValue_accepted (el : Target C) :
  sanitizeTagAttributeValue (TagAttribute.mk key value) rule errorHandling el
  = Returned (true, el).
Proof.
  unfold sanitizeTagAttributeValue. cbn [TagAttribute.value].
  unfold tooLong in Hlen. rewrite Hlen.
  unfold sanitizeByMode. rewrite Hmode.
  unfold sanitizeTagAttributeSimpleValue. cbn [TagAttribute.value].
  by rewrite Hmatch.
Qed.

Lemma attributesLoop_accepted (keys : list string) :
  forall (el el' : Target C),
    attrGet key (attribs el) = Some value ->
    attributesLoop keys rules errorHandling el = Returned (true, el') ->
    attrGet key (attribs el') = Some value.
Proof.
  induction keys as [|name keys IH]; intros el el' Hget; cbn [attributesLoop].
  - munfold. by intros [= <-].
  - munfold. destruct (attrGet name (attribs el)) as [v|] eqn:Hname;
      [| discriminate].
    destruct (decide (name = key)) as [-> | Hne].
    + rewrite Hget in Hname. injection Hname as <-. rewrite Hrule.
      cbn [sanitizeTagAttribute]. munfold.
      cbn [negb ProceedFlags.globalProceed ProceedFlags.localProceed].
      rewrite sanitizeTagAttributeValue_accepted. cbn [negb].
      by apply IH.
    + destruct (sanitizeTagAttribute (TagAttribute.mk name v)
                  (ruleFor name rules)
                  (slot errorHandling ErrorHandling.attribute) el)
        as [[flags el1]|m] eqn:E1; [| discriminate].
      assert (Hframe1 : sameBut name el el1).
      { refine (@keeps_sanitizeTagAttribute C (sameBut name) _ _ _ name _
                  (TagAttribute.mk name v) _ _ eq_refl el flags el1 E1).
        - apply sameBut_refl.
        - apply sameBut_trans.
        - by intros ? ? ? ?.
        - apply sameBut_delete. }
      assert (Hget1 : attrGet key (attribs el1) = Some value).
      { rewrite (Hframe1 key); [exact Hget | congruence]. }
      destruct (negb (ProceedFlags.globalProceed flags)); [discriminate |].
      destruct (negb (ProceedFlags.localProceed flags)); [by apply IH |].
      destruct (ruleFor name rules) as [[r|]|]; [| discriminate | discriminate].
      destruct (sanitizeTagAttributeValue (TagAttribute.mk name v) r
                  errorHandling el1) as [[ok el2]|m] eqn:E2; [| discriminate].
      destruct ok; cbn [negb]; [| discriminate].
      apply IH.
      rewrite (sanitizeTagAttributeValue_sameBut _ _ _ _ _ _ E2 key);
        [exact Hget1 | cbn [TagAttribute.key]; congruence].
Qed.

Lemma enforceRequiredLoop_accepted
    (entries : list (string * Rule.TagAttributeValueRule)) :
  forall (el el' : Target C) (ok : bool),
    attrGet key (attribs el) = Some value ->
    enforceRequiredLoop entries errorHandling el = Returned (ok, el') ->
    attrGet key (attribs el') = Some value.
Proof.
  induction entries as [|[name r] entries IH]; intros el el' ok Hget;
    cbn [enforceRequiredLoop].
  - munfold. by intros [= _ <-].
  - destruct (String.eqb name "*"); [by apply IH |].
    munfold. destruct (isRequired r && negb (attrHas name (attribs el))) eqn:Hc;
      [| by apply IH].
    apply andb_true_iff in Hc as [_ Habs]. apply negb_true_iff in Habs.
    assert (name <> key) as Hne.
    { intros ->. unfold attrHas in Habs. by rewrite Hget in Habs. }
    destruct (handleTagAttributeValueError _ r _ None el) as [[b el1]|m] eqn:E;
      [| discriminate].
    pose proof (handleTagAttributeValueError_sameBut _ _ _ _ _ _ _ E key) as Hk.
    cbn [TagAttribute.key] in Hk. rewrite <- Hk in Hget; [| congruence].
    destruct b; cbn [negb]; [by apply IH |].
    by intros [= _ <-].
Qed.

End AcceptedKept.


